(* ===== verification/_CoqProject ===== *)
-Q . S2P
Prelude.v
Lru.v
Lhm.v
Deque.v
BlockDate.v
Fragment.v
FragmentLogs.v
Selection.v
Mempool.v
Storage.v
Chain.v
ChainInv.v
Checkpoints.v
Tip.v
Candidate.v
BlockProcess.v
Scheduler.v
Enclave.v
Leadership.v
Client.v
Peers.v
Gossip.v
Topology.v
Staging.v
Pagination.v
Hamt.v
Indexing.v
ExplorerState.v
Explorer.v
GraphQl.v
Subscription.v
NetClient.v
Network.v
Service.v
NetBootstrap.v
Watch.v
StartUp.v
Block0Config.v
Block0.v
Rest.v
Settings.v
Tally.v
Metrics.v
Formats.v
Jrpc.v
