(* ===== verification/Prelude.v ===== *)
(** * Jormungandr: verification of the node

    A development on the core of the Jormungandr node ([src/jormungandr]), the
    data it shares with its tools ([src/jormungandr-lib]), the building of
    transactions in its command line tool ([src/jcli]) and the database of the
    explorer with its queries ([src/explorer]).

    ** The program

    The node is a set of asynchronous tasks that talk through message boxes.
    The fragment task keeps the transactions that wait for a block; the
    leadership task waits for the slots the node leads and builds blocks from
    them; the block task checks and stores blocks, its own and those of the
    network; the tip task selects the best branch; the client task serves the
    chain to others; the network keeps a table of peers and limits what is
    requested from them; the topology task keeps track of the nodes that are
    known and puts those that fail in quarantine.  A connection to a peer is a
    future that forwards what the peer sends to these tasks; the network task
    starts connections and propagates blocks, fragments and gossips.  Behind
    them are the block storage and the blockchain object with its cache of
    references to verified blocks.  The watch client serves blocks and tips to
    subscribers, of which the explorer is one: it indexes every branch it is
    given in persistent maps and answers GraphQL queries from them.

    ** The files

    In dependency order, with the source each one models:

    - [Prelude]: errors and panics, machine integers, association lists,
      ordered sets, and programs with state, errors and panics together with
      their Hoare rules ([hoare], [preserves], hint database [prog]).
    - [Lru], [Lhm]: the interfaces of the third-party containers
      [lru::LruCache] and [linked_hash_map::LinkedHashMap], with instances.
    - [Deque]: the indexed queue of raw pointers in [fragment/pool.rs].
    - [BlockDate]: block dates ([interfaces/blockdate.rs]).
    - [Fragment]: fragments and the container of the memory pool
      ([fragment/pool.rs], [mod internal]).
    - [FragmentLogs]: [fragment/logs.rs], [interfaces/fragment_log.rs].
    - [Selection]: [fragment/selection.rs].
    - [Mempool]: the pool service of [fragment/pool.rs], the task of
      [fragment/process.rs], [interfaces/fragments_processing_summary.rs].
    - [Storage]: [blockchain/storage.rs].
    - [Chain]: [blockchain/chain.rs] with [reference.rs], [branch.rs],
      [reference_cache.rs], [multiverse.rs] and [blockcfg/mod.rs].
    - [ChainInv]: the validity of the references, and every method of the
      blockchain object against it.
    - [Checkpoints]: [blockchain/checkpoints.rs].
    - [Tip]: [blockchain/chain_selection.rs], [blockchain/tip.rs].
    - [Candidate]: [blockchain/candidate.rs].
    - [BlockProcess]: [blockchain/process.rs], [blockchain/bootstrap.rs].
    - [Scheduler]: [utils/fire_forget_scheduler.rs].
    - [Enclave]: [secure/enclave.rs], [leadership/enclave.rs],
      [leadership/logs.rs], [interfaces/leadership_log.rs].
    - [Leadership]: [leadership/process.rs].
    - [Client]: [client.rs].
    - [Peers]: [network/p2p/comm.rs], [network/p2p/comm/peer_map.rs].
    - [Gossip]: [topology/gossip.rs], [topology/layers], the address filter of
      [network/subscription.rs], [jormungandr-lib/src/multiaddr.rs].
    - [Topology]: [topology/topology.rs], [topology/process.rs],
      [topology/quarantine.rs].
    - [Staging]: the transaction commands of the command line tool,
      [jcli/src/jcli_lib/transaction], and [certificate/sign.rs].
    - [Pagination]: [explorer/src/api/graphql/connections.rs].
    - [Hamt]: the interface of the persistent maps of [imhamt], and
      [explorer/src/db/persistent_sequence.rs].
    - [Indexing]: [explorer/src/db/indexing.rs].
    - [ExplorerState], [Explorer]: [explorer/src/db/mod.rs],
      [multiverse.rs], [tally.rs], and the indexer of [explorer/src/indexer.rs].
    - [GraphQl]: the queries of [explorer/src/api/graphql/mod.rs].
    - [Subscription]: the sinks of [network/subscription.rs], with the message
      boxes of [utils/async_msg.rs].
    - [NetClient]: [network/client/mod.rs].
    - [Network]: [network/client/connect.rs] and the network task of
      [network/mod.rs].
    - [NetBootstrap]: [network/bootstrap.rs], the bootstrap of
      [network/mod.rs], [network/grpc/client.rs] and its loop in [lib.rs].
    - [Service]: [network/service.rs], [network/convert.rs].
    - [Watch]: [watch_client.rs].
    - [StartUp]: [start_up], [initialize_node] and [bootstrap_internal] of
      [lib.rs], and what they write to [context/mod.rs].
    - [Block0Config], [Block0]: the configuration of block 0
      ([interfaces/block0_configuration] with the types of its values), block 0
      made of it and read back, and the commands [jcli genesis].
    - [Rest]: the queries of [rest/v0/logic.rs] and [rest/v1/logic.rs] that
      walk the chain, the storage and the vote plans.
    - [Settings]: [settings/start], [settings/command_arguments.rs] and the
      merging of [settings/logging.rs].
    - [Tally]: [jcli/src/jcli_lib/vote/tally/merge_results.rs].
    - [Metrics]: [metrics/mod.rs] and its two backends.
    - [Formats], [Jrpc]: the text of ratios ([interfaces/ratio.rs]) and of the
      Ethereum types, and the handlers of the JSON-RPC interface ([jrpc]).

    ** How the code is modelled

    A Rust [Result] is [result]; a panic, or a read through a dangling pointer,
    is [None].  Code that threads state through fallible calls is in the monad
    [prog]: an error keeps the changes made before it, a panic ends the task.
    Integers that may overflow wrap around at their width.  Message boxes and
    channels are the lists of what was sent, and parameters say what a channel
    takes.  The clock is a function from the number of readings to the time.
    A handler that the source spawns as a task runs as one step; the theorems
    about tasks quantify over all sequences of messages.  Races the code
    depends on (the deadlines of the selection and of block building, the
    completion of connections) are parameters that take every value.  A poll
    is a question to an environment that answers by the number of polls made;
    the connections that the network task spawns are phases of a state that
    advance one at a time, in any order, and so are the tasks of the watch
    client.  The order in which a hash map is iterated is a parameter.

    Code outside the repository is a parameter: the chain library (fragments,
    headers, ledgers, leadership, the multiverse, [BlockStore]), the two
    containers above, the persistent maps, the delay queue of [tokio_util],
    the wire formats and the gRPC client, the gauges of Prometheus, the
    resolver of names and the YAML and JSON formats.  It is stated as type
    classes, with the documented behaviour a proof relies on in separate
    classes of laws; instances that compute show that the laws can hold and
    run the witnesses.

    ** What is proved

    - Memory pool: the pointer structure of the queue refines a list; the
      pool, its expiry queue and its counters stay consistent; submission,
      expiry, selection and the logs behave as specified on every branch; the
      fragment task never panics.
    - Storage: reading back, the closest ancestor of a list of checkpoints,
      garbage collection.
    - Blockchain: every reference ever cached or returned stands for a chain
      of verified blocks down to block 0; the shape of such chains; applying a
      block is all or nothing; epoch transitions do not panic; checking
      headers, candidate branches, checkpoints.
    - Tip: the tip moves only to longer branches and never shrinks, together
      with its tag and the messages to the pool.
    - Block task and bootstrap: whatever the network sends, only verified
      blocks are proposed for the tip.
    - Leadership: the lazy schedule equals the list of elected slots; every
      event is logged truthfully; every block made passes the checks the
      block task omits for own blocks (with the promise of the memory pool,
      class [SelectsFragments], discharged by the models of [Mempool]);
      deadlines.
    - Network: the limits of the request scheduler, the bounds of the table
      of peers, the authentication of clients, and what a peer that pulls the
      chain gets.
    - Topology: the invariant of the topology task (whitelist, grace list,
      order of the reports, gauges); the reports that are lifted, and that
      lifting them ends; the address tests against the reserved blocks, and
      the wire format of a gossip.
    - Connections: however it is polled, a sink hands what a peer sends to the
      tasks of the node in order and without a panic; polling a client ends
      and accounts for every item; two nodes that follow the protocol
      authenticate each other; a node that pulls the chain of another decodes
      what it misses; in every interleaving the number of clients is
      that of the connections that run; a propagated item reaches every
      selected peer or starts a connection that carries it; the bootstrap
      keeps what the blockchain guarantees, and it does not end with a peer
      that is behind.
    - Start-up: a node that starts has the block 0 of its settings and
      verified references down to it.
    - Watch client: what a subscriber that synchronises gets.
    - Explorer: every state it keeps stands for a linked chain and indexes it
      exactly; indexing a block is all or nothing; what the queries answer;
      pages against the cursor connections algorithm.
    - jcli: a transaction goes through its stages in order, what a witness
      signs is what is sent, and when a fragment can be taken; merging vote
      plans adds up the votes of each group of plans on the same proposals.
    - Block 0: the parameters of block 0 give exactly the configuration they
      describe, with every value in the range of its type, or the error of the
      first that is missing, double or out of range; block 0 made of a
      configuration gives it back, for the configurations that are canonical.
    - Settings: when the settings are made of the command line and the file,
      which of the two counts, and what an error says.
    - REST: what the queries on epochs, following blocks and votes answer.
    - JSON-RPC: what is written is read as it was, in any order of the fields;
      blocks by number, their transactions, and filters.
    - Metrics: both backends show the same summary of the calls made, however
      they are interleaved with scrapes.

    ** Fuel

    Loops that are not structural take fuel, and lemmas show that it is
    enough: the selection loop runs at most once per pooled fragment, the
    scheduler starts at most the queued tasks and polls at most the entries of
    its two queues, the leader schedule looks at the slots that are left,
    checkpoints follow a chain of references, whose length bounds them, and
    lifting reports takes one report out in every round.  A client is polled
    for as many rounds as there are items, and a sink drains its buffer in at
    most two; the watch client walks at most the length of a checkpoint, and
    sends at most as many levels as the longest chain has.  A number of 64 bits
    has at most 64 digits.  Pulling blocks from
    a peer has no bound: that is a theorem, for every fuel.

    ** Not modelled

    Serving: the REST handlers that send one of the messages modelled here or
    format a field of the ledger, and the JSON-RPC methods that only refuse;
    the channels of [intercom.rs], which wrap those
    of the futures library; the installation of log writers and the spawning of
    tasks ([settings/logging.rs], [start_services] of [lib.rs],
    [utils/task.rs]), which mostly call the operating system.  The views of the
    topology are those of the [poldercast] crate.  Serialization formats of [jormungandr-lib] are
    those of serde and of the chain library.  Of the explorer: its start-up,
    and the GraphQL objects that only show certificates, configuration
    parameters and scalars.  The other commands of [jcli], [modules] and
    [testing] are separate programs.  The files of the persistent fragment log
    and the dump of rewards are reduced to what is written. *)

From Stdlib Require Export ZArith Lia.
From stdpp Require Export base list gmap sets strings sorting fin_maps.

#[export] Set Default Goal Selector "!".

(** ** Errors

    [result] is Rust's [Result<A, E>]; the operator [?] of the source is the
    notation [let? x := m in k].  Panics (and reads through a dangling raw
    pointer) are a separate outcome: an operation that may panic returns an
    [option], with [None] for the panic, in stdpp's option monad. *)
Inductive result (E A : Type) : Type :=
| Ok (a : A)
| Err (e : E).
Arguments Ok {E A} a.
Arguments Err {E A} e.

Declare Scope rust_scope.
Delimit Scope rust_scope with rust.
Open Scope rust_scope.

Notation "'let?' x := m 'in' k" :=
  (match m with Ok x => k | Err e => Err e end)
  (at level 10, x pattern, m at level 100, k at level 200) : rust_scope.

Definition map_err {E F A : Type} (f : E → F) (r : result E A) : result F A :=
  match r with Ok a => Ok a | Err e => Err (f e) end.

Definition is_ok {E A : Type} (r : result E A) : bool :=
  match r with Ok _ => true | Err _ => false end.

(** ** Machine integers

    [usize] and [u64] are 64 bits wide.  Arithmetic on them wraps around, as
    in the release profile of the workspace. *)
Definition U64 : Z := (2 ^ 64)%Z.
Definition U32 : Z := (2 ^ 32)%Z.
Definition wrap64 (z : Z) : Z := (z mod U64)%Z.
Definition wrap32 (z : Z) : Z := (z mod U32)%Z.
Definition usize_add (a b : Z) : Z := wrap64 (a + b).
Definition usize_sub (a b : Z) : Z := wrap64 (a - b).
Definition u32_add (a b : Z) : Z := wrap32 (a + b).

Lemma wrap64_small z : (0 ≤ z < U64)%Z → wrap64 z = z.
Proof. apply Z.mod_small. Qed.
Lemma wrap64_bound z : (0 ≤ wrap64 z < U64)%Z.
Proof. apply Z.mod_pos_bound; reflexivity. Qed.
Lemma wrap64_add_l a b : wrap64 (wrap64 a + b) = wrap64 (a + b).
Proof. apply Zplus_mod_idemp_l. Qed.
Lemma wrap64_sub_l a b : wrap64 (wrap64 a - b) = wrap64 (a - b).
Proof. apply Zminus_mod_idemp_l. Qed.
Lemma wrap32_small z : (0 ≤ z < U32)%Z → wrap32 z = z.
Proof. apply Z.mod_small. Qed.

(** Sums over a list *)
Definition sumZ {A} (f : A → Z) (l : list A) : Z := foldr (λ x s, (f x + s)%Z) 0%Z l.
Lemma sumZ_app {A} (f : A → Z) l l' : sumZ f (l ++ l') = (sumZ f l + sumZ f l')%Z.
Proof. unfold sumZ. induction l as [|x l IH]; cbn; [done|]. lia. Qed.
#[export] Instance sumZ_perm {A} (f : A → Z) : Proper ((≡ₚ) ==> (=)) (sumZ f).
Proof. unfold sumZ. induction 1; cbn; lia. Qed.

(** [checked_add] of the unsigned type of [w] values, and [T::try_from]. *)
Definition checked_add (w a b : Z) : option Z := if (a + b <? w)%Z then Some (a + b)%Z else None.
Definition checked_sub (a b : Z) : option Z := if (b <=? a)%Z then Some (a - b)%Z else None.
Definition uint_try_from (w n : Z) : option Z := if (n <? w)%Z then Some n else None.

(** ** Association lists

    Ordered containers (queues, caches, linked hash maps) are specified by the
    list of their entries. *)
Section alist.
Context {K V : Type} `{EqDecision K}.
Implicit Types (l : list (K * V)) (k : K) (v : V).

Fixpoint alist_get k l : option V :=
  match l with
  | [] => None
  | (k', v) :: l' => if decide (k' = k) then Some v else alist_get k l'
  end.

Definition alist_del k l : list (K * V) := filter (λ kv, kv.1 ≠ k) l.

(** Replace the value of the first entry with key [k]. *)
Fixpoint alist_set k v l : list (K * V) :=
  match l with
  | [] => []
  | (k', v') :: l' => if decide (k' = k) then (k, v) :: l' else (k', v') :: alist_set k v l'
  end.

Lemma alist_get_None k l : alist_get k l = None ↔ k ∉ l.*1.
Proof.
  induction l as [|[k' v] l IH]; simpl; [set_solver|].
  case_decide; simplify_eq; [set_solver|]. rewrite IH. set_solver.
Qed.

Lemma alist_get_elem k v l : alist_get k l = Some v → (k, v) ∈ l.
Proof. induction l as [|[k' v'] l IH]; simpl; [done|]. case_decide; set_solver. Qed.

Lemma alist_get_key k v l : alist_get k l = Some v → k ∈ l.*1.
Proof. intros Hg. apply alist_get_elem in Hg. apply list_elem_of_fmap. by exists (k, v). Qed.

Lemma alist_get_is_Some k l : is_Some (alist_get k l) ↔ k ∈ l.*1.
Proof.
  rewrite <- not_eq_None_Some, alist_get_None.
  destruct (decide (k ∈ l.*1)); tauto.
Qed.

Lemma alist_get_NoDup k v l : NoDup l.*1 → (k, v) ∈ l → alist_get k l = Some v.
Proof.
  induction l as [|[k' v'] l IH]; simpl; [set_solver|].
  intros [Hn Hnd]%NoDup_cons [?|Hin]%elem_of_cons; simplify_eq; [by rewrite decide_True|].
  rewrite decide_False; [eauto|]. intros ->. apply Hn. apply list_elem_of_fmap. by exists (k, v).
Qed.

Lemma alist_get_app k l1 l2 :
  alist_get k (l1 ++ l2) = match alist_get k l1 with Some v => Some v | None => alist_get k l2 end.
Proof. induction l1 as [|[k' v] l1 IH]; simpl; [done|]. by case_decide. Qed.

Lemma alist_get_split k v l :
  alist_get k l = Some v → ∃ l1 l2, l = l1 ++ (k, v) :: l2 ∧ k ∉ l1.*1.
Proof.
  induction l as [|[k' v'] l IH]; simpl; [done|]. case_decide; intros; simplify_eq.
  - exists [], l. set_solver.
  - destruct IH as (l1 & l2 & -> & ?); [done|]. exists ((k', v') :: l1), l2. set_solver.
Qed.

Lemma alist_del_absent k l : k ∉ l.*1 → alist_del k l = l.
Proof.
  unfold alist_del. induction l as [|[k' v] l IH]; simpl; [done|]. intros Hk.
  rewrite filter_cons_True by set_solver. f_equal. set_solver.
Qed.

Lemma alist_del_mid k v l1 l2 :
  NoDup (l1 ++ (k, v) :: l2).*1 → alist_del k (l1 ++ (k, v) :: l2) = l1 ++ l2.
Proof.
  rewrite fmap_app. intros (_ & Hd & Hnd)%NoDup_app. simpl in *.
  apply NoDup_cons in Hnd as [Hn _].
  unfold alist_del. rewrite filter_app, filter_cons_False by (simpl; tauto).
  f_equal; apply alist_del_absent; [|done].
  intros ?. apply (Hd k); set_solver.
Qed.

Lemma alist_del_key k k' l : k' ∈ (alist_del k l).*1 ↔ k' ∈ l.*1 ∧ k' ≠ k.
Proof.
  unfold alist_del. rewrite !list_elem_of_fmap. setoid_rewrite list_elem_of_filter.
  naive_solver.
Qed.

Lemma alist_del_elem k kv l : kv ∈ alist_del k l ↔ kv ∈ l ∧ kv.1 ≠ k.
Proof. unfold alist_del. rewrite list_elem_of_filter. tauto. Qed.

Lemma alist_del_NoDup k l : NoDup l.*1 → NoDup (alist_del k l).*1.
Proof.
  induction l as [|[k' v] l IH]; simpl; [done|]. intros [Hn Hnd]%NoDup_cons.
  unfold alist_del in *. rewrite filter_cons. case_decide; simpl; [|by apply IH].
  constructor; [|by apply IH]. intros Hin. apply (alist_del_key k k' l) in Hin. tauto.
Qed.

Lemma alist_get_del k k' l :
  alist_get k (alist_del k' l) = if decide (k = k') then None else alist_get k l.
Proof.
  unfold alist_del. induction l as [|[k'' v] l IH]; simpl.
  { by case_decide. }
  rewrite filter_cons. simpl. repeat case_decide; simplify_eq; simpl;
    rewrite ?IH; repeat case_decide; simplify_eq; done.
Qed.

Lemma alist_del_length_le k l : length (alist_del k l) ≤ length l.
Proof. apply length_filter. Qed.

Lemma alist_set_keys k v l : (alist_set k v l).*1 = l.*1.
Proof. induction l as [|[k' v'] l IH]; simpl; [done|]. case_decide; simplify_eq/=; congruence. Qed.

Lemma alist_get_set k k' v l :
  alist_get k' (alist_set k v l) =
  if decide (k' = k) then (match alist_get k l with Some _ => Some v | None => None end)
  else alist_get k' l.
Proof.
  induction l as [|[k'' v'] l IH]; simpl; [by case_decide|].
  destruct (decide (k'' = k)) as [->|]; simpl.
  - repeat case_decide; simplify_eq; done.
  - rewrite IH. repeat case_decide; simplify_eq; done.
Qed.
End alist.

(** ** [std::collections::BTreeSet]

    An ordered set is the strictly sorted list of its elements, for the strict
    order [ltb] of the element type. *)
Class StrictTotalOrder {A : Type} (ltb : A → A → bool) : Prop := {
  ltb_irrefl x : ltb x x = false;
  ltb_trans x y z : ltb x y = true → ltb y z = true → ltb x z = true;
  ltb_total x y : ltb x y = true ∨ x = y ∨ ltb y x = true;
}.
#[export] Instance Z_order : StrictTotalOrder Z.ltb.
Proof.
  split.
  - apply Z.ltb_irrefl.
  - intros x y z. rewrite !Z.ltb_lt. lia.
  - intros x y. rewrite !Z.ltb_lt. lia.
Qed.

Section btree.
Context {A : Type} (ltb : A → A → bool) `{!EqDecision A, !StrictTotalOrder ltb}.

Fixpoint btree_insert (x : A) (s : list A) : list A :=
  match s with
  | [] => [x]
  | y :: s' => if ltb x y then x :: s else if ltb y x then y :: btree_insert x s' else s
  end.

Definition btree_remove (x : A) (s : list A) : list A := filter (λ y, y ≠ x) s.

Definition btree_wf (s : list A) : Prop := StronglySorted (λ x y, ltb x y = true) s.

Lemma btree_insert_elem x y s : y ∈ btree_insert x s ↔ y = x ∨ y ∈ s.
Proof.
  induction s as [|z s IH]; simpl; [set_solver|].
  destruct (ltb x z) eqn:?; [set_solver|]. destruct (ltb z x) eqn:?; [set_solver|].
  destruct (ltb_total x z) as [?|[->|?]]; [congruence|set_solver|congruence].
Qed.

Lemma btree_insert_wf x s : btree_wf s → btree_wf (btree_insert x s).
Proof.
  unfold btree_wf. induction s as [|z s IH]; simpl; intros Hs.
  { repeat constructor. }
  apply StronglySorted_inv in Hs as [Hs Hz]. rewrite Forall_forall in Hz.
  destruct (ltb x z) eqn:Hxz.
  - constructor; [constructor; [done|by apply Forall_forall]|].
    apply Forall_forall. intros y [->|Hy]%elem_of_cons; [done|]. eapply ltb_trans; eauto.
  - destruct (ltb z x) eqn:Hzx.
    + constructor; [auto|]. apply Forall_forall. intros y Hy.
      apply btree_insert_elem in Hy as [->|Hy]; auto.
    + constructor; [done|by apply Forall_forall].
Qed.

Lemma btree_remove_elem x y s : y ∈ btree_remove x s ↔ y ∈ s ∧ y ≠ x.
Proof. unfold btree_remove. rewrite list_elem_of_filter. tauto. Qed.

Lemma btree_filter_wf (P : A → Prop) `{∀ x, Decision (P x)} s : btree_wf s → btree_wf (filter P s).
Proof.
  unfold btree_wf. induction s as [|z s IH]; intros Hs; [constructor|].
  apply StronglySorted_inv in Hs as [Hs Hz]. rewrite filter_cons. case_decide; [|auto].
  constructor; [auto|]. rewrite Forall_forall in *. intros y [_ Hy]%list_elem_of_filter. auto.
Qed.

Lemma btree_remove_wf x s : btree_wf s → btree_wf (btree_remove x s).
Proof. apply btree_filter_wf. Qed.

Lemma btree_NoDup s : btree_wf s → NoDup s.
Proof.
  induction 1 as [|x s _ IH Hx]; constructor; [|done].
  intros Hin. rewrite Forall_forall in Hx. apply Hx in Hin. by rewrite ltb_irrefl in Hin.
Qed.

(** Iterating in order and stopping at the first element that fails a
    downward-closed test selects exactly the elements that pass it. *)
Fixpoint take_while {B} (p : B → bool) (s : list B) : list B :=
  match s with [] => [] | x :: s' => if p x then x :: take_while p s' else [] end.

Lemma take_while_filter (p : A → bool) s :
  btree_wf s → (∀ x y, ltb x y = true → p y = true → p x = true) →
  take_while p s = filter (λ x, p x = true) s.
Proof.
  intros Hs Hdown. induction Hs as [|x s Hs IH Hx]; simpl; [done|].
  destruct (p x) eqn:Hp.
  - rewrite filter_cons_True by done. by rewrite IH.
  - rewrite filter_cons_False by congruence. symmetry. rewrite Forall_forall in Hx.
    clear IH Hs. induction s as [|y s IH]; [done|].
    rewrite filter_cons_False; [apply IH; set_solver|].
    intros Hy. rewrite (Hdown x y) in Hp; [done| |done]. apply Hx. set_solver.
Qed.
End btree.

(** ** Lists *)
Lemma list_filter_all {A} (P : A → Prop) `{∀ x, Decision (P x)} (l : list A) :
  (∀ x, x ∈ l → P x) → filter P l = l.
Proof.
  induction l as [|x l IH]; intros Hall; [done|].
  rewrite filter_cons_True by set_solver. f_equal. set_solver.
Qed.

Lemma list_filter_iff_elem {A} (P Q : A → Prop)
    `{∀ x, Decision (P x), ∀ x, Decision (Q x)} (l : list A) :
  (∀ x, x ∈ l → (P x ↔ Q x)) → filter P l = filter Q l.
Proof.
  induction l as [|x l IH]; intros Hall; [done|]. rewrite !filter_cons.
  rewrite IH by set_solver. assert (P x ↔ Q x) as [] by set_solver.
  repeat case_decide; tauto.
Qed.

Lemma list_filter_none {A} (P : A → Prop) `{∀ x, Decision (P x)} (l : list A) :
  (∀ x, x ∈ l → ¬ P x) → filter P l = [].
Proof.
  induction l as [|x l IH]; intros Hall; [done|].
  rewrite filter_cons_False by set_solver. set_solver.
Qed.

Lemma filter_sublist_le {A} (P Q : A → Prop) `{∀ x, Decision (P x), ∀ x, Decision (Q x)} (l k : list A) :
  l `sublist_of` k → (∀ x, x ∈ l → P x → Q x) → length (filter P l) ≤ length (filter Q k).
Proof.
  induction 1 as [|x l k _ IH|x l k _ IH]; intros Himp; [done| |].
  - assert (length (filter P l) ≤ length (filter Q k)) by (apply IH; set_solver).
    rewrite !filter_cons. assert (P x → Q x) by set_solver. repeat case_decide; simpl; tauto || lia.
  - rewrite filter_cons. specialize (IH Himp). case_decide; simpl; lia.
Qed.

Lemma take_app_take {A} n (l1 l2 : list A) : take n (l1 ++ take n l2) = take n (l1 ++ l2).
Proof. rewrite !take_app, take_take. do 2 f_equal. lia. Qed.

(** ** Programs

    An operation that changes a state [S], may fail with an error [E] and may
    panic.  An error keeps the changes made before it; a panic ([None]) ends
    the task.  The notation [x ← m; k] is the sequence of the source with its
    operator [?]. *)
Definition prog (S E A : Type) : Type := S → option (S * result E A).

Section prog.
Context {S E : Type}.

#[export] Instance prog_ret : MRet (prog S E) := λ A a s, Some (s, Ok a).
#[export] Instance prog_bind : MBind (prog S E) := λ A B f m s,
  match m s with
  | Some (s', Ok a) => f a s'
  | Some (s', Err e) => Some (s', Err e)
  | None => None
  end.

#[export] Instance prog_fmap : FMap (prog S E) := λ A B f m, mbind (λ a, mret (f a)) m.

Definition throw {A} (e : E) : prog S E A := λ s, Some (s, Err e).
Definition panic {A} : prog S E A := λ _, None.
Definition lift {A} (r : result E A) : prog S E A := λ s, Some (s, r).
(** [expect] and [unwrap] on an option. *)
Definition expect {A} (o : option A) : prog S E A :=
  λ s, match o with Some a => Some (s, Ok a) | None => None end.
Definition gets {A} (f : S → A) : prog S E A := λ s, Some (s, Ok (f s)).
Definition modify_state (f : S → S) : prog S E unit := λ s, Some (f s, Ok tt).
(** The result of an operation as a value, for [match] and [unwrap_or_else]. *)
Definition attempt {F A} (m : prog S F A) : prog S E (result F A) :=
  λ s, match m s with Some (s', r) => Some (s', Ok r) | None => None end.
Definition map_error {F A} (f : F → E) (m : prog S F A) : prog S E A :=
  λ s, match m s with Some (s', r) => Some (s', map_err f r) | None => None end.
End prog.

Section run.
Context {S E : Type}.

Lemma bind_Ok {A B} (m : prog S E A) (f : A → prog S E B) s s' a :
  m s = Some (s', Ok a) → (m ≫= f) s = f a s'.
Proof. intros Hm. unfold mbind, prog_bind. by rewrite Hm. Qed.
Lemma bind_Err {A B} (m : prog S E A) (f : A → prog S E B) s s' e :
  m s = Some (s', Err e) → (m ≫= f) s = Some (s', Err e).
Proof. intros Hm. unfold mbind, prog_bind. by rewrite Hm. Qed.
Lemma bind_inv {A B} (m : prog S E A) (f : A → prog S E B) s s' b :
  (m ≫= f) s = Some (s', Ok b) → ∃ s1 a, m s = Some (s1, Ok a) ∧ f a s1 = Some (s', Ok b).
Proof. unfold mbind, prog_bind. destruct (m s) as [[s1 [a|e]]|]; naive_solver. Qed.
Lemma gets_bind {A B} (g : S → A) (f : A → prog S E B) s : (gets g ≫= f) s = f (g s) s.
Proof. done. Qed.
End run.

(** [hoare X P m Q R]: from a state in [P], [m] ends with a result in [Q] or with
    an error in [R]; [X] must hold if it panics ([False]: it does not panic,
    [True]: panics are allowed). *)
Definition hoare {S E A} (X : Prop) (P : S → Prop) (m : prog S E A)
    (Q : A → S → Prop) (R : E → S → Prop) : Prop :=
  ∀ s, P s → match m s with
             | Some (s', Ok a) => Q a s'
             | Some (s', Err e) => R e s'
             | None => X
             end.

Section hoare.
Context {S E : Type}.
Implicit Types (P : S → Prop) (R : E → S → Prop) (X : Prop).

Lemma hoare_ret {A} X P R (a : A) : hoare X P (mret a : prog S E A) (λ b s, b = a ∧ P s) R.
Proof. intros s Hs. by simpl. Qed.
Lemma hoare_bind {A B} X P R (m : prog S E A) (f : A → prog S E B) Q1 Q2 :
  hoare X P m Q1 R → (∀ a, hoare X (Q1 a) (f a) Q2 R) → hoare X P (mbind f m) Q2 R.
Proof.
  intros Hm Hf s Hs. unfold mbind, prog_bind. specialize (Hm s Hs).
  destruct (m s) as [[s' [a|e]]|]; [by apply Hf|done|done].
Qed.
Lemma hoare_conseq {A} X (X' : Prop) P P' R R' (m : prog S E A) Q Q' :
  hoare X P m Q R → (∀ s, P' s → P s) → (∀ a s, Q a s → Q' a s) → (∀ e s, R e s → R' e s) →
  (X → X') → hoare X' P' m Q' R'.
Proof. intros Hm ? ? ? ? s ?. specialize (Hm s). repeat case_match; naive_solver. Qed.
Lemma hoare_pre {A} X P P' R (m : prog S E A) Q :
  hoare X P m Q R → (∀ s, P' s → P s) → hoare X P' m Q R.
Proof. intros. by eapply hoare_conseq. Qed.
Lemma hoare_throw {A} X P R (e : E) Q :
  (∀ s, P s → R e s) → hoare X P (throw e : prog S E A) Q R.
Proof. intros HR s Hs. by apply HR. Qed.
Lemma hoare_lift {A} X P R (r : result E A) :
  (∀ e s, r = Err e → P s → R e s) → hoare X P (lift r) (λ a s, r = Ok a ∧ P s) R.
Proof. intros HR s Hs. unfold lift. destruct r; [done|by apply HR]. Qed.
Lemma hoare_expect {A} X P R (o : option A) :
  (∀ s, P s → o = None → X) → hoare X P (expect o) (λ a s, o = Some a ∧ P s) R.
Proof. intros HX s Hs. unfold expect. destruct o; [done|by eapply HX]. Qed.
Lemma hoare_gets {A} X P R (f : S → A) : hoare X P (gets f) (λ a s, a = f s ∧ P s) R.
Proof. intros s Hs. done. Qed.
Lemma hoare_modify X P R (f : S → S) Q :
  (∀ s, P s → Q tt (f s)) → hoare X P (modify_state f) Q R.
Proof. intros HQ s Hs. by apply HQ. Qed.
Lemma hoare_attempt {F A} X P R (RF : F → S → Prop) (m : prog S F A) Q :
  hoare X P m Q RF →
  hoare X P (attempt m) (λ r s, match r with Ok a => Q a s | Err e => RF e s end) R.
Proof. intros Hm s Hs. specialize (Hm s Hs). unfold attempt. by repeat case_match. Qed.
Lemma hoare_map_error {F A} X P R (f : F → E) (m : prog S F A) Q :
  hoare X P m Q (λ e, R (f e)) → hoare X P (map_error f m) Q R.
Proof.
  intros Hm s Hs. specialize (Hm s Hs). unfold map_error.
  destruct (m s) as [[s' [a|e]]|]; done.
Qed.
Lemma hoare_pure {A} X P R (φ : Prop) (m : prog S E A) Q :
  (φ → hoare X P m Q R) → hoare X (λ s, φ ∧ P s) m Q R.
Proof. intros Hm s [Hφ Hs]. by apply Hm. Qed.
Lemma hoare_run {A} X P R (m : prog S E A) Q s s' r :
  hoare X P m Q R → P s → m s = Some (s', r) →
  match r with Ok a => Q a s' | Err e => R e s' end.
Proof. intros Hm Hs Heq. specialize (Hm s Hs). rewrite Heq in Hm. by destruct r. Qed.

(** [preserves I m]: [m] keeps [I], whatever its outcome. *)
Definition preserves {A} (I : S → Prop) (m : prog S E A) : Prop :=
  hoare True I m (λ _, I) (λ _, I).
Lemma preserves_bind {A B} (I : S → Prop) (m : prog S E A) (f : A → prog S E B) :
  preserves I m → (∀ a, preserves I (f a)) → preserves I (mbind f m).
Proof. intros Hm Hf. by eapply hoare_bind. Qed.
Lemma preserves_ret {A} (I : S → Prop) (a : A) : preserves I (mret a : prog S E A).
Proof. by intros s Hs. Qed.
Lemma preserves_throw {A} (I : S → Prop) (e : E) : preserves I (throw e : prog S E A).
Proof. by intros s Hs. Qed.
Lemma preserves_attempt {F A} (I : S → Prop) (m : prog S F A) :
  hoare True I m (λ _, I) (λ _, I) → preserves I (attempt m : prog S E (result F A)).
Proof. intros Hm s Hs. specialize (Hm s Hs). unfold attempt. by destruct (m s) as [[? []]|]. Qed.
Lemma preserves_lift {A} (I : S → Prop) (r : result E A) : preserves I (lift r).
Proof. intros s Hs. unfold lift. by destruct r. Qed.
Lemma preserves_expect {A} (I : S → Prop) (o : option A) : preserves I (expect o : prog S E A).
Proof. intros s Hs. unfold expect. by destruct o. Qed.
Lemma preserves_gets {A} (I : S → Prop) (f : S → A) : preserves I (gets f : prog S E A).
Proof. by intros s Hs. Qed.
Lemma preserves_modify (I : S → Prop) (f : S → S) :
  (∀ s, I s → I (f s)) → preserves I (modify_state f : prog S E unit).
Proof. intros Hf s Hs. by apply Hf. Qed.
End hoare.

Create HintDb prog.
#[export] Hint Resolve preserves_bind preserves_ret preserves_throw preserves_lift preserves_expect
  preserves_gets preserves_modify : prog.
