(* ===== verification/Lru.v ===== *)
(** * The interface of the [lru] crate

    [lru::LruCache] is a third-party container: the fragment logs, the leadership
    logs, the reference cache, the quarantine records and the handshakes in progress
    are kept in one.  Its operations are parameters of the models that use it
    (class [LruCache]) and its documented behaviour is the class [LruLaws],
    stated on [lru_entries], the entries in the order of [iter()], most
    recently used first.  [ListLru] is an instance that computes: it shows
    that the laws can hold and evaluates the witnesses of the development. *)

From S2P Require Import Prelude.

Class LruCache (K V : Type) `{EqDecision K} := {
  lru : Type;
  lru_new : nat → lru;
  lru_cap : lru → nat;
  lru_entries : lru → list (K * V);
  lru_contains : K → lru → bool;
  lru_peek : K → lru → option V;
  lru_put : K → V → lru → lru;
  (** [get]: the value, in a cache where the entry is now the most recent. *)
  lru_get : K → lru → lru * option V;
  (** [get_mut], with the function the caller applies through the reference. *)
  lru_get_mut : K → (V → V) → lru → lru;
  lru_pop : K → lru → lru * option V;
  lru_peek_lru : lru → option (K * V);
  lru_pop_lru : lru → lru * option (K * V);
}.
Arguments lru K V {_ _}.

Definition lru_touch `{EqDecision K} {V} (k : K) (f : V → V) (es : list (K * V)) : list (K * V) :=
  match alist_get k es with None => es | Some v => (k, f v) :: alist_del k es end.

Class LruLaws (K V : Type) `{EqDecision K} `{!LruCache K V} : Prop := {
  lru_NoDup (c : lru K V) : NoDup (lru_entries c).*1;
  lru_bounded (c : lru K V) : length (lru_entries c) ≤ lru_cap c;
  lru_new_entries n : lru_entries (lru_new n) = [];
  lru_new_cap n : lru_cap (lru_new n) = n;
  lru_contains_spec k (c : lru K V) : lru_contains k c = bool_decide (k ∈ (lru_entries c).*1);
  lru_peek_spec k (c : lru K V) : lru_peek k c = alist_get k (lru_entries c);
  lru_put_entries k v (c : lru K V) :
    lru_entries (lru_put k v c) = take (lru_cap c) ((k, v) :: alist_del k (lru_entries c));
  lru_put_cap k v (c : lru K V) : lru_cap (lru_put k v c) = lru_cap c;
  lru_get_spec k (c : lru K V) :
    (lru_get k c).2 = alist_get k (lru_entries c) ∧
    lru_entries (lru_get k c).1 = lru_touch k id (lru_entries c) ∧
    lru_cap (lru_get k c).1 = lru_cap c;
  lru_get_mut_entries k f (c : lru K V) :
    lru_entries (lru_get_mut k f c) = lru_touch k f (lru_entries c);
  lru_get_mut_cap k f (c : lru K V) : lru_cap (lru_get_mut k f c) = lru_cap c;
  lru_pop_spec k (c : lru K V) :
    (lru_pop k c).2 = alist_get k (lru_entries c) ∧
    lru_entries (lru_pop k c).1 = alist_del k (lru_entries c) ∧
    lru_cap (lru_pop k c).1 = lru_cap c;
  lru_peek_lru_spec (c : lru K V) : lru_peek_lru c = last (lru_entries c);
  lru_pop_lru_spec (c : lru K V) :
    (lru_pop_lru c).2 = last (lru_entries c) ∧
    lru_entries (lru_pop_lru c).1 = take (pred (length (lru_entries c))) (lru_entries c) ∧
    lru_cap (lru_pop_lru c).1 = lru_cap c;
}.

(** ** Consequences used by the clients *)
Section facts.
Context {K V : Type} `{EqDecision K} `{!LruCache K V} `{!LruLaws K V}.
Implicit Types (c : lru K V) (k : K) (v : V).

Lemma lru_touch_get k k' (f : V → V) es :
  alist_get k' (lru_touch k f es) =
  if decide (k' = k) then f <$> alist_get k es else alist_get k' es.
Proof.
  unfold lru_touch. destruct (alist_get k es) eqn:Hg; simpl.
  - repeat case_decide; simplify_eq; [done..|]. by rewrite alist_get_del, decide_False.
  - case_decide; simplify_eq; done.
Qed.

Lemma lru_touch_keys k k' (f : V → V) es : k' ∈ (lru_touch k f es).*1 ↔ k' ∈ es.*1.
Proof.
  rewrite <- !alist_get_is_Some, lru_touch_get. case_decide; simplify_eq; [|done].
  destruct (alist_get k es); simpl; split; intros [? ?]; naive_solver.
Qed.

(** A cache below its capacity keeps every entry on [put]. *)
Lemma lru_put_room k v c :
  k ∉ (lru_entries c).*1 → length (lru_entries c) < lru_cap c →
  lru_entries (lru_put k v c) = (k, v) :: lru_entries c.
Proof.
  intros Hk Hlt. rewrite lru_put_entries, alist_del_absent by done.
  apply take_ge. simpl. lia.
Qed.

Lemma lru_put_elem k v c kv :
  kv ∈ lru_entries (lru_put k v c) → kv = (k, v) ∨ kv ∈ lru_entries c.
Proof.
  rewrite lru_put_entries. intros Hin.
  assert (kv ∈ (k, v) :: alist_del k (lru_entries c)) as Hin'.
  { apply elem_of_take in Hin as (i & Hi & _). apply list_elem_of_lookup. eauto. }
  apply elem_of_cons in Hin' as [?|[? _]%alist_del_elem]; tauto.
Qed.

Lemma lru_put_get k v k' v' c :
  alist_get k' (lru_entries (lru_put k v c)) = Some v' →
  k' = k ∧ v' = v ∨ k' ≠ k ∧ alist_get k' (lru_entries c) = Some v'.
Proof.
  intros Hg%alist_get_elem. rewrite lru_put_entries in Hg.
  apply elem_of_take in Hg as (i & Hi%list_elem_of_lookup_2 & _).
  apply elem_of_cons in Hi as [?|[? Hne]%alist_del_elem]; [left; naive_solver|right].
  split; [done|]. apply alist_get_NoDup; [apply lru_NoDup|done].
Qed.

Lemma lru_touch_elem k (f : V → V) es kv :
  kv ∈ lru_touch k f es → kv ∈ es ∨ ∃ v, (k, v) ∈ es ∧ kv = (k, f v).
Proof.
  unfold lru_touch. destruct (alist_get k es) as [v|] eqn:Hg; [|tauto].
  intros [->|[? _]%alist_del_elem]%elem_of_cons; [|tauto].
  right. exists v. split; [by apply alist_get_elem|done].
Qed.
End facts.

(** ** An instance on lists *)
Module ListLru.
Section list_lru.
Context {K V : Type} `{EqDecision K}.

Record t := mk {
  cap : nat;
  entries : list (K * V);
  nodup : NoDup entries.*1;
  bounded : length entries ≤ cap;
}.

Lemma nil_nodup : NoDup (@nil (K * V)).*1.
Proof. constructor. Qed.

Definition new (n : nat) : t := mk n [] nil_nodup (Nat.le_0_l n).

Lemma put_nodup (c : t) k v : NoDup (take (cap c) ((k, v) :: alist_del k (entries c))).*1.
Proof.
  rewrite fmap_take. eapply sublist_NoDup; [|apply sublist_take]. simpl. constructor.
  - rewrite alist_del_key. tauto.
  - apply alist_del_NoDup, nodup.
Qed.
Lemma put_bounded (c : t) k v :
  length (take (cap c) ((k, v) :: alist_del k (entries c))) ≤ cap c.
Proof. rewrite length_take. lia. Qed.
Definition put k v (c : t) : t := mk (cap c) _ (put_nodup c k v) (put_bounded c k v).

Lemma touch_nodup (c : t) k (f : V → V) : NoDup (lru_touch k f (entries c)).*1.
Proof.
  unfold lru_touch. case_match; [|apply nodup]. simpl. constructor.
  - rewrite alist_del_key. tauto.
  - apply alist_del_NoDup, nodup.
Qed.
Lemma touch_bounded (c : t) k (f : V → V) : length (lru_touch k f (entries c)) ≤ cap c.
Proof.
  pose proof (bounded c). unfold lru_touch. case_match eqn:Hg; [|done].
  apply alist_get_split in Hg as (l1 & l2 & Heq & _). pose proof (nodup c) as Hnd.
  rewrite Heq in *. rewrite alist_del_mid by done. simpl.
  rewrite length_app in *. simpl in *. lia.
Qed.
Definition touch k f (c : t) : t := mk (cap c) _ (touch_nodup c k f) (touch_bounded c k f).

Lemma del_bounded (c : t) k : length (alist_del k (entries c)) ≤ cap c.
Proof. pose proof (bounded c). pose proof (alist_del_length_le k (entries c)). lia. Qed.
Definition pop k (c : t) : t * option V :=
  (mk (cap c) _ (alist_del_NoDup k _ (nodup c)) (del_bounded c k), alist_get k (entries c)).

Lemma pop_lru_nodup (c : t) : NoDup (take (pred (length (entries c))) (entries c)).*1.
Proof. rewrite fmap_take. eapply sublist_NoDup; [apply nodup|apply sublist_take]. Qed.
Lemma pop_lru_bounded (c : t) : length (take (pred (length (entries c))) (entries c)) ≤ cap c.
Proof. pose proof (bounded c). rewrite length_take. lia. Qed.
Definition pop_lru (c : t) : t * option (K * V) :=
  (mk (cap c) _ (pop_lru_nodup c) (pop_lru_bounded c), last (entries c)).

#[export] Instance cache : LruCache K V := {|
  lru := t;
  lru_new := new;
  lru_cap := cap;
  lru_entries := entries;
  lru_contains k c := bool_decide (k ∈ (entries c).*1);
  lru_peek k c := alist_get k (entries c);
  lru_put := put;
  lru_get k c := (touch k id c, alist_get k (entries c));
  lru_get_mut := touch;
  lru_pop := pop;
  lru_peek_lru c := last (entries c);
  lru_pop_lru := pop_lru;
|}.

#[export] Instance cache_laws : LruLaws K V.
Proof.
  split; try done.
  - apply nodup.
  - apply bounded.
Qed.
End list_lru.
End ListLru.
