(* ===== verification/Lhm.v ===== *)
(** * The interface of the [linked_hash_map] crate

    [LinkedHashMap] keeps its entries in the order of their insertion; the
    connected peers and the authenticated addresses are kept in one.  Its
    operations are parameters (class [LinkedHashMap]) with their documented
    behaviour, on the entries from the oldest to the newest, as laws
    ([LinkedHashMapLaws]); [ListLhm] is an instance that computes. *)

From S2P Require Import Prelude.

Class LinkedHashMap (K V : Type) `{EqDecision K} := {
  lhm : Type;
  lhm_new : lhm;
  (** [iter()]: oldest first *)
  lhm_entries : lhm → list (K * V);
  lhm_get : K → lhm → option V;
  (** [get_mut], with what the caller does through the reference *)
  lhm_get_mut : K → (V → V) → lhm → lhm;
  (** [get_refresh]: the same, and the entry becomes the newest *)
  lhm_get_refresh : K → (V → V) → lhm → lhm;
  lhm_insert : K → V → lhm → lhm;
  (** [entry(k).or_insert_with] *)
  lhm_or_insert : K → V → lhm → lhm;
  lhm_remove : K → lhm → lhm;
  lhm_pop_front : lhm → lhm * option (K * V);
  lhm_clear : lhm → lhm;
}.
Arguments lhm K V {_ _}.

Section facts.
Context {K V : Type} `{EqDecision K}.
Implicit Types (k : K) (l : list (K * V)).

(** Change the value of one key in place. *)
Definition alist_alter k (f : V → V) l : list (K * V) :=
  match alist_get k l with Some v => alist_set k (f v) l | None => l end.

Lemma alist_alter_keys k f l : (alist_alter k f l).*1 = l.*1.
Proof. unfold alist_alter. case_match; [apply alist_set_keys|done]. Qed.

Lemma alist_alter_length k f l : length (alist_alter k f l) = length l.
Proof. rewrite <- (length_fmap fst), alist_alter_keys. apply length_fmap. Qed.

Lemma alist_get_alter k k' f l :
  alist_get k' (alist_alter k f l) = if decide (k' = k) then f <$> alist_get k l else alist_get k' l.
Proof.
  unfold alist_alter. destruct (alist_get k l) as [v|] eqn:Hg.
  - rewrite alist_get_set, Hg. by case_decide.
  - case_decide; subst; by rewrite ?Hg.
Qed.

Lemma alist_del_length_in k v l :
  NoDup l.*1 → alist_get k l = Some v → S (length (alist_del k l)) = length l.
Proof.
  intros Hnd Hg. destruct (alist_get_split k v l Hg) as (l1 & l2 & -> & _).
  rewrite alist_del_mid by done. rewrite !length_app. simpl. lia.
Qed.
End facts.

Class LinkedHashMapLaws (K V : Type) `{EqDecision K} `{!LinkedHashMap K V} : Prop := {
  lhm_NoDup (m : lhm K V) : NoDup (lhm_entries m).*1;
  lhm_new_entries : lhm_entries (lhm_new : lhm K V) = [];
  lhm_get_spec k (m : lhm K V) : lhm_get k m = alist_get k (lhm_entries m);
  lhm_get_mut_entries k f (m : lhm K V) : lhm_entries (lhm_get_mut k f m) = alist_alter k f (lhm_entries m);
  lhm_get_refresh_entries k f (m : lhm K V) :
    lhm_entries (lhm_get_refresh k f m) =
    match alist_get k (lhm_entries m) with
    | Some v => alist_del k (lhm_entries m) ++ [(k, f v)]
    | None => lhm_entries m
    end;
  lhm_insert_entries k v (m : lhm K V) :
    lhm_entries (lhm_insert k v m) = alist_del k (lhm_entries m) ++ [(k, v)];
  lhm_or_insert_entries k v (m : lhm K V) :
    lhm_entries (lhm_or_insert k v m) =
    match alist_get k (lhm_entries m) with
    | Some _ => lhm_entries m
    | None => lhm_entries m ++ [(k, v)]
    end;
  lhm_remove_entries k (m : lhm K V) : lhm_entries (lhm_remove k m) = alist_del k (lhm_entries m);
  lhm_pop_front_spec (m : lhm K V) :
    (lhm_pop_front m).2 = head (lhm_entries m) ∧ lhm_entries (lhm_pop_front m).1 = tail (lhm_entries m);
  lhm_clear_entries (m : lhm K V) : lhm_entries (lhm_clear m) = [];
}.

(** ** A list of entries *)
Module ListLhm.
Section list_lhm.
Context {K V : Type} `{EqDecision K}.

Record t := mk { entries : list (K * V); entries_nodup : NoDup entries.*1 }.

Lemma nodup_nil : NoDup (@nil (K * V)).*1.
Proof. constructor. Qed.

Lemma nodup_alter k f (m : t) : NoDup (alist_alter k f (entries m)).*1.
Proof. rewrite alist_alter_keys. apply entries_nodup. Qed.

Lemma nodup_append k v (m : t) : NoDup (alist_del k (entries m) ++ [(k, v)]).*1.
Proof.
  rewrite fmap_app. apply NoDup_app. split_and!; [apply alist_del_NoDup, entries_nodup| |apply NoDup_singleton].
  intros k' [_ Hne]%alist_del_key ->%list_elem_of_singleton. done.
Qed.

Lemma nodup_tail (m : t) : NoDup (tail (entries m)).*1.
Proof. destruct m as [[|e l] Hnd]; simpl in *; [done|]. by apply NoDup_cons in Hnd as [_ ?]. Qed.

Definition get_mut k f (m : t) : t := mk _ (nodup_alter k f m).
Definition insert_entry k v (m : t) : t := mk _ (nodup_append k v m).
Definition get_refresh k f (m : t) : t :=
  match alist_get k (entries m) with Some v => insert_entry k (f v) m | None => m end.
Definition or_insert k v (m : t) : t :=
  match alist_get k (entries m) with Some _ => m | None => insert_entry k v m end.
Definition remove k (m : t) : t := mk _ (alist_del_NoDup k _ (entries_nodup m)).
Definition pop_front (m : t) : t * option (K * V) := (mk _ (nodup_tail m), head (entries m)).

#[export] Instance list_lhm : LinkedHashMap K V := {|
  lhm := t;
  lhm_new := mk [] nodup_nil;
  lhm_entries := entries;
  lhm_get k m := alist_get k (entries m);
  lhm_get_mut := get_mut;
  lhm_get_refresh := get_refresh;
  lhm_insert := insert_entry;
  lhm_or_insert := or_insert;
  lhm_remove := remove;
  lhm_pop_front := pop_front;
  lhm_clear _ := mk [] nodup_nil;
|}.

#[export] Instance list_lhm_laws : LinkedHashMapLaws K V.
Proof.
  split; simpl; try done.
  - apply entries_nodup.
  - intros k f m. unfold get_refresh. by case_match.
  - intros k v m. unfold or_insert. case_match eqn:Hg; [done|]. simpl.
    rewrite alist_del_absent; [done|]. by apply alist_get_None.
Qed.
End list_lhm.
End ListLhm.
