(* ===== verification/Deque.v ===== *)
(** * The indexed queue of the memory pool, at the level of its pointers

    Models [IndexedDeqeue] of [jormungandr/src/fragment/pool.rs]: a doubly
    linked list of boxed entries threaded by raw pointers, owned by a hash
    table indexed by the key stored inside each entry.  The heap that backs
    the boxes is explicit, so that a read through a dangling pointer, the
    [unwrap] of a missing entry and the panic on a duplicate key are all the
    outcome [None].

    The second half proves that the structure refines a plain list: [repr d l]
    relates the pointer structure to the list of its entries from front to
    back, and every operation of the source simulates the list operation. *)

From S2P Require Import Prelude.

Module IndexedDeque.

Definition loc := positive.

Section deque.
Context {K V : Type} `{Countable K}.

(** [struct IndexedDequeueEntry]: the null pointer is [None]. *)
Record IndexedDequeueEntry := mkEntry {
  key : K;
  value : V;
  prev : option loc;
  next : option loc;
}.

(** [struct IndexedDeqeue] together with the memory its boxes live in.  The
    keys of [index] are [IndexedDequeueKeyRef], pointers to the key of the
    boxed entry compared and hashed through the pointer; they are represented
    by the key they point to, and the box by its address. *)
Record IndexedDeqeue := mkDeque {
  head : option loc;
  tail : option loc;
  index : gmap K loc;
  heap : gmap loc IndexedDequeueEntry;
}.

Definition set_prev (p : option loc) (e : IndexedDequeueEntry) :=
  mkEntry (key e) (value e) p (next e).
Definition set_next (n : option loc) (e : IndexedDequeueEntry) :=
  mkEntry (key e) (value e) (prev e) n.

(** A write through a raw pointer, undefined when the target is not allocated. *)
Definition write_through (l : loc) (f : IndexedDequeueEntry → IndexedDequeueEntry)
    (h : gmap loc IndexedDequeueEntry) : option (gmap loc IndexedDequeueEntry) :=
  e ← h !! l; Some (<[l := f e]> h).

Definition deque_new : IndexedDeqeue := mkDeque None None ∅ ∅.

Definition push_front (k : K) (v : V) (d : IndexedDeqeue) : option IndexedDeqeue :=
  let entry := fresh (dom (heap d)) in
  let h := <[entry := mkEntry k v None (head d)]> (heap d) in
  '(h, tl) ← match head d with
             | Some hd => h' ← write_through hd (set_prev (Some entry)) h; Some (h', tail d)
             | None => Some (h, Some entry)
             end;
  match index d !! k with
  | Some _ => None
  | None => Some (mkDeque (Some entry) tl (<[k := entry]> (index d)) h)
  end.

Definition push_back (k : K) (v : V) (d : IndexedDeqeue) : option IndexedDeqeue :=
  let entry := fresh (dom (heap d)) in
  let h := <[entry := mkEntry k v (tail d) None]> (heap d) in
  '(h, hd) ← match tail d with
             | Some tl => h' ← write_through tl (set_next (Some entry)) h; Some (h', head d)
             | None => Some (h, Some entry)
             end;
  match index d !! k with
  | Some _ => None
  | None => Some (mkDeque hd (Some entry) (<[k := entry]> (index d)) h)
  end.

Definition pop_back (d : IndexedDeqeue) : option (IndexedDeqeue * option (K * V)) :=
  match tail d with
  | None => Some (d, None)
  | Some tl =>
      t ← heap d !! tl;
      '(h, hd) ← match prev t with
                 | Some p => h' ← write_through p (set_next None) (heap d); Some (h', head d)
                 | None => Some (heap d, None)
                 end;
      l ← index d !! key t;
      entry ← h !! l;
      Some (mkDeque hd (prev t) (delete (key t) (index d)) (delete l h),
            Some (key entry, value entry))
  end.

Definition remove (k : K) (d : IndexedDeqeue) : option (IndexedDeqeue * option V) :=
  match index d !! k with
  | None => Some (d, None)
  | Some l =>
      entry ← heap d !! l;
      '(h, hd) ← match prev entry with
                 | Some p => h' ← write_through p (set_next (next entry)) (heap d);
                             Some (h', head d)
                 | None => Some (heap d, next entry)
                 end;
      '(h, tl) ← match next entry with
                 | Some n => h' ← write_through n (set_prev (prev entry)) h;
                             Some (h', tail d)
                 | None => Some (h, prev entry)
                 end;
      Some (mkDeque hd tl (delete k (index d)) (delete l h), Some (value entry))
  end.

Definition deque_len (d : IndexedDeqeue) : nat := size (index d).

Definition deque_contains (k : K) (d : IndexedDeqeue) : bool :=
  match index d !! k with Some _ => true | None => false end.

(** ** Refinement of a list *)

Implicit Types (d : IndexedDeqeue) (l : list (K * V)) (ls : list loc)
  (h : gmap loc IndexedDequeueEntry).

Definition first_or (nx : option loc) ls : option loc :=
  match ls with [] => nx | a :: _ => Some a end.
Definition last_or (pp : option loc) ls : option loc :=
  match last ls with None => pp | Some a => Some a end.
#[local] Arguments last_or : simpl never.

(** [dseg h pp ls l nx]: the entries at addresses [ls] hold the pairs of [l],
    linked in both directions; [pp] precedes the first and [nx] follows the last. *)
Fixpoint dseg h (pp : option loc) ls l (nx : option loc) : Prop :=
  match ls, l with
  | [], [] => True
  | a :: ls', (k, v) :: l' =>
      h !! a = Some (mkEntry k v pp (first_or nx ls')) ∧ dseg h (Some a) ls' l' nx
  | _, _ => False
  end.

(** The queue [d] holds exactly the entries of [l], front first: the links
    form a list, the index maps each key to its entry, and every allocated
    entry is owned by the queue. *)
Definition repr d l : Prop :=
  ∃ ls,
    NoDup ls ∧ NoDup l.*1 ∧
    dseg (heap d) None ls l None ∧
    head d = first_or None ls ∧ tail d = last_or None ls ∧
    index d = list_to_map (zip l.*1 ls) ∧
    dom (heap d) = list_to_set ls.

Lemma dseg_length h pp ls l nx : dseg h pp ls l nx → length ls = length l.
Proof.
  revert pp l. induction ls as [|a ls IH]; intros pp [|[k v] l]; simpl; try done.
  intros [_ Hs]. f_equal. eauto.
Qed.

Lemma last_or_cons pp a ls : last_or pp (a :: ls) = last_or (Some a) ls.
Proof. unfold last_or. rewrite last_cons. by destruct (last ls). Qed.

Lemma last_or_app pp ls a : last_or pp (ls ++ [a]) = Some a.
Proof. unfold last_or. by rewrite last_snoc. Qed.

Lemma first_or_app nx ls1 ls2 : first_or nx (ls1 ++ ls2) = first_or (first_or nx ls2) ls1.
Proof. by destruct ls1. Qed.

Lemma dseg_app h pp ls1 ls2 l1 l2 nx :
  length ls1 = length l1 →
  dseg h pp (ls1 ++ ls2) (l1 ++ l2) nx ↔
  dseg h pp ls1 l1 (first_or nx ls2) ∧ dseg h (last_or pp ls1) ls2 l2 nx.
Proof.
  revert pp l1. induction ls1 as [|a ls1 IH]; intros pp [|[k v] l1] Hlen;
    simplify_eq/=; [tauto|].
  rewrite IH, last_or_cons, first_or_app; [|done]. tauto.
Qed.

Lemma dseg_insert_ne h pp ls l nx a e :
  a ∉ ls → dseg h pp ls l nx → dseg (<[a := e]> h) pp ls l nx.
Proof.
  revert pp l. induction ls as [|b ls IH]; intros pp [|[k v] l] Ha; simpl; try done.
  apply not_elem_of_cons in Ha as [Hne Hnin]. intros [Hb Hs].
  split; [by rewrite lookup_insert_ne|eauto].
Qed.

Lemma dseg_delete_ne h pp ls l nx a :
  a ∉ ls → dseg h pp ls l nx → dseg (delete a h) pp ls l nx.
Proof.
  revert pp l. induction ls as [|b ls IH]; intros pp [|[k v] l] Ha; simpl; try done.
  apply not_elem_of_cons in Ha as [Hne Hnin]. intros [Hb Hs].
  split; [by rewrite lookup_delete_ne|eauto].
Qed.

(** Writing the [next] field of the last entry retargets the segment's end. *)
Lemma dseg_set_next h pp ls a l nx nx' :
  NoDup (ls ++ [a]) → dseg h pp (ls ++ [a]) l nx →
  ∃ h', write_through a (set_next nx') h = Some h' ∧
        dseg h' pp (ls ++ [a]) l nx' ∧ dom h' = dom h ∧
        ∀ b, b ≠ a → h' !! b = h !! b.
Proof.
  intros Hnd Hs. pose proof (dseg_length _ _ _ _ _ Hs) as Hlen.
  destruct (exists_last (l := l)) as (l1 & [k v] & ->).
  { intros ->. rewrite length_app in Hlen. simpl in Hlen. lia. }
  rewrite !length_app in Hlen. simpl in Hlen.
  apply dseg_app in Hs as [Hs1 [Ha _]]; [|lia]. simpl in *.
  eexists. unfold write_through. rewrite Ha. simpl. split; [done|]. split.
  - apply dseg_app; [lia|]. apply NoDup_app in Hnd as (_ & Hnin & _).
    split; [apply dseg_insert_ne; [set_solver|done]|].
    simpl. by rewrite lookup_insert_eq.
  - split; [|intros b ?; by rewrite lookup_insert_ne].
    apply dom_insert_lookup_L. eauto.
Qed.

(** Writing the [prev] field of the first entry retargets the segment's start. *)
Lemma dseg_set_prev h pp pp' a ls l nx :
  NoDup (a :: ls) → dseg h pp (a :: ls) l nx →
  ∃ h', write_through a (set_prev pp') h = Some h' ∧
        dseg h' pp' (a :: ls) l nx ∧ dom h' = dom h ∧
        ∀ b, b ≠ a → h' !! b = h !! b.
Proof.
  intros [Hnin _]%NoDup_cons Hs. destruct l as [|[k v] l]; [done|].
  destruct Hs as [Ha Hs]. eexists. unfold write_through. rewrite Ha. simpl.
  split; [done|]. split.
  - rewrite lookup_insert_eq. split; [done|]. by apply dseg_insert_ne.
  - split; [|intros b ?; by rewrite lookup_insert_ne].
    apply dom_insert_lookup_L. eauto.
Qed.

(** A segment only depends on the entries at its own addresses. *)
Lemma dseg_agree h h' pp ls l nx :
  (∀ a, a ∈ ls → h' !! a = h !! a) → dseg h pp ls l nx → dseg h' pp ls l nx.
Proof.
  revert pp l. induction ls as [|b ls IH]; intros pp [|[k v] l] Hag; simpl; try done.
  intros [Hb Hs]. split; [rewrite Hag; [done|set_solver]|].
  apply IH; [intros; apply Hag; set_solver|done].
Qed.

Lemma fresh_not_elem h ls : dom h = list_to_set ls → fresh (dom h) ∉ ls.
Proof. intros Hdom Hin. apply (is_fresh (dom h)). rewrite Hdom at 2. set_solver. Qed.

Lemma zip_keys_fst l ls : length ls = length l → (zip l.*1 ls).*1 = l.*1.
Proof. intros. apply fst_zip. rewrite length_fmap. lia. Qed.

Lemma index_lookup_None l ls k :
  length ls = length l →
  (list_to_map (zip l.*1 ls) : gmap K loc) !! k = None ↔ k ∉ l.*1.
Proof.
  intros Hlen. rewrite <- not_elem_of_list_to_map, zip_keys_fst by done. done.
Qed.

Lemma index_lookup_mid l1 l2 k v ls1 ls2 a :
  NoDup (l1 ++ (k, v) :: l2).*1 → length ls1 = length l1 →
  (list_to_map (zip (l1 ++ (k, v) :: l2).*1 (ls1 ++ a :: ls2)) : gmap K loc) !! k = Some a.
Proof.
  intros Hnd Hlen. rewrite fmap_app, zip_with_app by (by rewrite length_fmap).
  simpl. rewrite list_to_map_app. apply lookup_union_Some_raw. right. split.
  - apply not_elem_of_list_to_map_1. rewrite zip_keys_fst by done.
    rewrite fmap_app in Hnd. apply NoDup_app in Hnd as (_ & Hd & _). set_solver.
  - simpl. apply lookup_insert_eq.
Qed.

Lemma index_delete_mid l1 l2 k v ls1 ls2 a :
  NoDup (l1 ++ (k, v) :: l2).*1 → length ls1 = length l1 → length ls2 = length l2 →
  delete k (list_to_map (zip (l1 ++ (k, v) :: l2).*1 (ls1 ++ a :: ls2)) : gmap K loc)
  = list_to_map (zip (l1 ++ l2).*1 (ls1 ++ ls2)).
Proof.
  intros Hnd Hlen1 Hlen2. rewrite !fmap_app, !zip_with_app by (by rewrite length_fmap).
  simpl. rewrite !list_to_map_app, delete_union.
  rewrite fmap_app in Hnd. apply NoDup_app in Hnd as (_ & Hd & Hnd). simpl in *.
  apply NoDup_cons in Hnd as [Hnin _]. f_equal.
  - apply delete_id, index_lookup_None; [done|]. intros Hin. apply (Hd k Hin). set_solver.
  - apply delete_insert_id, index_lookup_None; done.
Qed.

Lemma repr_new : repr deque_new [].
Proof. exists []. repeat split; try constructor. Qed.

Lemma repr_NoDup d l : repr d l → NoDup l.*1.
Proof. by intros (ls & _ & ? & _). Qed.

Lemma repr_len d l : repr d l → deque_len d = length l.
Proof.
  intros (ls & _ & Hnd & Hs & _ & _ & Hidx & _). apply dseg_length in Hs as Hlen.
  unfold deque_len. rewrite Hidx, <- size_dom, dom_list_to_map_L, zip_keys_fst by done.
  rewrite size_list_to_set by done. by rewrite length_fmap.
Qed.

Lemma repr_contains d l k : repr d l → deque_contains k d = bool_decide (k ∈ l.*1).
Proof.
  intros (ls & _ & Hnd & Hs & _ & _ & Hidx & _). apply dseg_length in Hs as Hlen.
  unfold deque_contains. rewrite Hidx.
  destruct (list_to_map (zip l.*1 ls) !! k) eqn:Hk; symmetry.
  - apply bool_decide_eq_true. destruct (decide (k ∈ l.*1)) as [|Hn]; [done|].
    by apply (index_lookup_None l ls k Hlen) in Hn; simplify_eq.
  - apply bool_decide_eq_false. by apply (index_lookup_None l ls k Hlen).
Qed.

Lemma push_front_repr d l k v :
  repr d l → k ∉ l.*1 → ∃ d', push_front k v d = Some d' ∧ repr d' ((k, v) :: l).
Proof.
  intros (ls & Hndl & Hndk & Hs & Hhd & Htl & Hidx & Hdom) Hk.
  pose proof (dseg_length _ _ _ _ _ Hs) as Hlen.
  unfold push_front. set (a := fresh (dom (heap d))).
  assert (a ∉ ls) as Ha by (by apply fresh_not_elem).
  assert (index d !! k = None) as Hik by (by rewrite Hidx; apply index_lookup_None).
  rewrite Hhd, Htl, Hik.
  assert (NoDup (a :: ls)) as Hnd' by (by constructor).
  assert (NoDup ((k, v) :: l).*1) by (by constructor).
  set (h1 := <[a:=_]> (heap d)).
  assert (dom h1 = list_to_set (a :: ls)) as Hdom1
    by (unfold h1; rewrite dom_insert_L, Hdom; done).
  assert (dseg h1 None ls l None) as Hs1 by (by apply dseg_insert_ne).
  destruct ls as [|b ls]; simpl.
  - destruct l; [|done]. eexists; split; [done|]. exists [a]. simpl.
    rewrite Hidx. split_and!; try done. apply lookup_insert_eq.
  - destruct (dseg_set_prev h1 None (Some a) b ls l None) as (h' & -> & Hs' & Hd' & Hag); [done..|].
    simpl. eexists; split; [done|]. exists (a :: b :: ls). simpl.
    rewrite Hidx. split_and!; try done.
    + rewrite Hag by set_solver. unfold h1. by rewrite lookup_insert_eq.
    + by rewrite Hd', Hdom1.
Qed.

Lemma push_front_dup d l k v : repr d l → k ∈ l.*1 → push_front k v d = None.
Proof.
  intros Hr Hk. pose proof (repr_contains _ _ k Hr) as Hc.
  rewrite bool_decide_eq_true_2 in Hc by done. unfold deque_contains in Hc. unfold push_front.
  destruct (index d !! k); [|done]. destruct (head d); [|done]. simpl.
  by destruct (write_through _ _ _).
Qed.

Lemma push_back_repr d l k v :
  repr d l → k ∉ l.*1 → ∃ d', push_back k v d = Some d' ∧ repr d' (l ++ [(k, v)]).
Proof.
  intros (ls & Hndl & Hndk & Hs & Hhd & Htl & Hidx & Hdom) Hk.
  pose proof (dseg_length _ _ _ _ _ Hs) as Hlen.
  unfold push_back. set (a := fresh (dom (heap d))).
  assert (a ∉ ls) as Ha by (by apply fresh_not_elem).
  assert (index d !! k = None) as Hik by (by rewrite Hidx; apply index_lookup_None).
  rewrite Hhd, Htl, Hik.
  assert (NoDup (ls ++ [a])) as Hnd'.
  { apply NoDup_app. split_and!; [done|set_solver|apply NoDup_singleton]. }
  assert (NoDup (l ++ [(k, v)]).*1).
  { rewrite fmap_app. apply NoDup_app. split_and!; [done|set_solver|apply NoDup_singleton]. }
  set (h1 := <[a:=_]> (heap d)).
  assert (dom h1 = list_to_set (ls ++ [a])) as Hdom1.
  { unfold h1. rewrite dom_insert_L, Hdom, list_to_set_app_L. set_solver. }
  assert (<[k:=a]> (index d) = list_to_map (zip (l ++ [(k, v)]).*1 (ls ++ [a]))) as Hidx'.
  { rewrite Hidx, fmap_app, zip_with_app by (by rewrite length_fmap).
    simpl. rewrite list_to_map_snoc; [done|]. by rewrite zip_keys_fst. }
  assert (dseg h1 None ls l None) as Hs1 by (by apply dseg_insert_ne).
  destruct ls as [|b ls'] using rev_ind.
  - destruct l; [|done]. simpl in *. eexists; split; [done|]. exists [a].
    split_and!; try done. simpl. split; [apply lookup_insert_eq|done].
  - rewrite last_or_app.
    destruct (dseg_set_next h1 None ls' b l None (Some a)) as (h' & -> & Hs' & Hd' & Hag); [done..|].
    simpl. eexists; split; [done|]. exists ((ls' ++ [b]) ++ [a]).
    split_and!; try done.
    + apply dseg_app; [done|]. split; [done|]. rewrite last_or_app. simpl. split; [|done].
      rewrite Hag by set_solver. unfold h1. by rewrite lookup_insert_eq, last_or_app.
    + simpl. by rewrite !first_or_app.
    + simpl. by rewrite last_or_app.
    + simpl. by rewrite Hd', Hdom1.
Qed.

(** Retargeting the end of a possibly empty segment, as [remove] and [pop_back]
    do to the predecessor of the unlinked entry. *)
Lemma dseg_retarget_next h ls l nx nx' :
  NoDup ls → dseg h None ls l nx →
  ∃ h', match last_or None ls with
        | Some p => write_through p (set_next nx') h
        | None => Some h
        end = Some h' ∧
        dseg h' None ls l nx' ∧ dom h' = dom h ∧ ∀ b, b ∉ ls → h' !! b = h !! b.
Proof.
  intros Hnd Hs. destruct ls as [|b ls _] using rev_ind.
  - destruct l; [|done]. by exists h.
  - rewrite last_or_app.
    destruct (dseg_set_next h None ls b l nx nx') as (h' & -> & ? & ? & Hag); [done..|].
    exists h'. split_and!; [done..|]. intros c Hc. apply Hag. set_solver.
Qed.

Lemma dseg_retarget_prev h pp pp' ls l :
  NoDup ls → dseg h pp ls l None →
  ∃ h', match first_or None ls with
        | Some n => write_through n (set_prev pp') h
        | None => Some h
        end = Some h' ∧
        dseg h' pp' ls l None ∧ dom h' = dom h ∧ ∀ b, b ∉ ls → h' !! b = h !! b.
Proof.
  intros Hnd Hs. destruct ls as [|b ls]; simpl.
  - destruct l; [|done]. by exists h.
  - destruct (dseg_set_prev h pp pp' b ls l None) as (h' & -> & ? & ? & Hag); [done..|].
    exists h'. split_and!; [done..|]. intros c Hc. apply Hag. set_solver.
Qed.

(** Unlinking the entry at [a] from the middle of the list. *)
Lemma dseg_unlink h ls1 a ls2 l1 k v l2 :
  NoDup (ls1 ++ a :: ls2) → length ls1 = length l1 →
  dseg h None (ls1 ++ a :: ls2) (l1 ++ (k, v) :: l2) None →
  h !! a = Some (mkEntry k v (last_or None ls1) (first_or None ls2)) ∧
  ∃ h1 h2,
    match last_or None ls1 with
    | Some p => write_through p (set_next (first_or None ls2)) h
    | None => Some h
    end = Some h1 ∧
    match first_or None ls2 with
    | Some n => write_through n (set_prev (last_or None ls1)) h1
    | None => Some h1
    end = Some h2 ∧
    h1 !! a = h !! a ∧ h2 !! a = h !! a ∧ dom h2 = dom h ∧
    dseg (delete a h2) None (ls1 ++ ls2) (l1 ++ l2) None.
Proof.
  intros Hnd Hlen Hs. apply dseg_app in Hs as [Hs1 [Ha Hs2]]; [|done].
  apply NoDup_app in Hnd as (Hnd1 & Hdis & Hnd2).
  apply NoDup_cons in Hnd2 as [Hnin Hnd2]. split; [done|].
  destruct (dseg_retarget_next h ls1 l1 (Some a) (first_or None ls2))
    as (h1 & Hw1 & Hs1' & Hdom1 & Hag1); [done..|].
  assert (dseg h1 (Some a) ls2 l2 None) as Hs2'.
  { eapply dseg_agree; [|done]. intros b Hb. apply Hag1. intros ?. apply (Hdis b); set_solver. }
  destruct (dseg_retarget_prev h1 (Some a) (last_or None ls1) ls2 l2)
    as (h2 & Hw2 & Hs2'' & Hdom2 & Hag2); [done..|].
  assert (a ∉ ls1) by (intros ?; apply (Hdis a); set_solver).
  exists h1, h2. split_and!; [done..|by apply Hag1|by rewrite Hag2, Hag1|congruence|].
  apply dseg_delete_ne; [set_solver|]. apply dseg_app; [done|]. split; [|done].
  eapply dseg_agree; [|exact Hs1']. intros b Hb. apply Hag2. intros ?. apply (Hdis b); set_solver.
Qed.

Lemma repr_split d l1 k v l2 :
  repr d (l1 ++ (k, v) :: l2) →
  ∃ ls1 a ls2,
    length ls1 = length l1 ∧ length ls2 = length l2 ∧
    NoDup (ls1 ++ a :: ls2) ∧ NoDup (l1 ++ (k, v) :: l2).*1 ∧
    dseg (heap d) None (ls1 ++ a :: ls2) (l1 ++ (k, v) :: l2) None ∧
    head d = first_or None (ls1 ++ a :: ls2) ∧ tail d = last_or None (ls1 ++ a :: ls2) ∧
    index d = list_to_map (zip (l1 ++ (k, v) :: l2).*1 (ls1 ++ a :: ls2)) ∧
    dom (heap d) = list_to_set (ls1 ++ a :: ls2).
Proof.
  intros (ls & Hndl & Hndk & Hs & Hhd & Htl & Hidx & Hdom).
  pose proof (dseg_length _ _ _ _ _ Hs) as Hlen. rewrite length_app in Hlen. simpl in Hlen.
  destruct (drop (length l1) ls) as [|a ls2] eqn:Hdrop.
  { apply (f_equal length) in Hdrop. rewrite length_drop in Hdrop. simpl in Hdrop. lia. }
  assert (ls = take (length l1) ls ++ a :: ls2) as Heq by (by rewrite <- Hdrop, take_drop).
  exists (take (length l1) ls), a, ls2. rewrite <- Heq.
  split_and!; try done.
  - rewrite length_take. lia.
  - apply (f_equal length) in Hdrop. rewrite length_drop in Hdrop. simpl in Hdrop. lia.
Qed.

Lemma dom_unlink (h2 h : gmap loc IndexedDequeueEntry) ls1 a ls2 :
  NoDup (ls1 ++ a :: ls2) → dom h = list_to_set (ls1 ++ a :: ls2) → dom h2 = dom h →
  dom (delete a h2) = list_to_set (ls1 ++ ls2).
Proof.
  intros Hnd Hd Hd2. rewrite dom_delete_L, Hd2, Hd, !list_to_set_app_L. simpl.
  apply NoDup_app in Hnd as (_ & Hdis & Hnd). apply NoDup_cons in Hnd as [Hnin _].
  assert (a ∉ ls1) by (intros ?; apply (Hdis a); set_solver). set_solver.
Qed.

Lemma NoDup_unlink {A} (l1 l2 : list A) x : NoDup (l1 ++ x :: l2) → NoDup (l1 ++ l2).
Proof.
  intros (Hnd1 & Hdis & Hnd2)%NoDup_app. apply NoDup_cons in Hnd2 as [_ ?].
  apply NoDup_app. set_solver.
Qed.

Lemma remove_absent d l k : repr d l → k ∉ l.*1 → remove k d = Some (d, None).
Proof.
  intros Hr Hk. pose proof (repr_contains _ _ k Hr) as Hc.
  rewrite bool_decide_eq_false_2 in Hc by done.
  unfold deque_contains in Hc. unfold remove. by destruct (index d !! k).
Qed.

Lemma remove_repr d l1 k v l2 :
  repr d (l1 ++ (k, v) :: l2) →
  ∃ d', remove k d = Some (d', Some v) ∧ repr d' (l1 ++ l2).
Proof.
  intros (ls1 & a & ls2 & Hl1 & Hl2 & Hnd & Hndk & Hs & Hhd & Htl & Hidx & Hdom)%repr_split.
  destruct (dseg_unlink _ _ _ _ _ _ _ _ Hnd Hl1 Hs) as (Ha & h1 & h2 & Hw1 & Hw2 & _ & _ & Hd2 & Hs').
  unfold remove. rewrite Hidx, index_lookup_mid by done. simpl. rewrite Ha. simpl.
  assert (∀ hd tl, hd = first_or None (ls1 ++ ls2) → tl = last_or None (ls1 ++ ls2) →
    repr (mkDeque hd tl (delete k (index d)) (delete a h2)) (l1 ++ l2)) as Hfin.
  { intros hd tl -> ->. exists (ls1 ++ ls2). rewrite Hidx. simpl. split_and!; try done.
    - by eapply NoDup_unlink.
    - rewrite fmap_app in Hndk |- *. by eapply NoDup_unlink.
    - by apply index_delete_mid.
    - by eapply dom_unlink. }
  rewrite <- Hidx.
  assert (first_or None (ls1 ++ ls2) = match last_or None ls1 with
    | Some _ => head d | None => first_or None ls2 end) as Hfirst.
  { destruct ls1 as [|b ls1] using rev_ind; [done|].
    rewrite last_or_app, Hhd, <- !app_assoc. by destruct ls1. }
  assert (last_or None (ls1 ++ ls2) = match first_or None ls2 with
    | Some _ => tail d | None => last_or None ls1 end) as Hlast.
  { destruct ls2 as [|b ls2]; simpl; [by rewrite app_nil_r|].
    rewrite Htl. unfold last_or. by rewrite !last_app, !last_cons_cons. }
  destruct (last_or None ls1) eqn:?, (first_or None ls2) eqn:?; simplify_eq/=;
    rewrite ?Hw1; simpl; rewrite ?Hw2; simpl; eexists; (split; [done|]);
    apply Hfin; congruence.
Qed.

Lemma pop_back_empty d : repr d [] → pop_back d = Some (d, None).
Proof.
  intros (ls & _ & _ & Hs & _ & Htl & _). apply dseg_length in Hs.
  destruct ls; [|done]. unfold pop_back. by rewrite Htl.
Qed.

Lemma pop_back_repr d l k v :
  repr d (l ++ [(k, v)]) → ∃ d', pop_back d = Some (d', Some (k, v)) ∧ repr d' l.
Proof.
  intros (ls1 & a & ls2 & Hl1 & Hl2 & Hnd & Hndk & Hs & Hhd & Htl & Hidx & Hdom)%repr_split.
  destruct ls2; [|done].
  destruct (dseg_unlink _ _ _ _ _ _ _ _ Hnd Hl1 Hs)
    as (Ha & h1 & h2 & Hw1 & Hw2 & Hh1 & _ & Hd2 & Hs'). simpl in *. simplify_eq.
  rewrite !app_nil_r in Hs'. rewrite last_or_app in Htl.
  unfold pop_back. rewrite Htl. simpl. rewrite Ha. simpl.
  assert (index d !! k = Some a) as Hik by (by rewrite Hidx; apply index_lookup_mid).
  rewrite Hik.
  assert (∀ hd, hd = first_or None ls1 →
    repr (mkDeque hd (last_or None ls1) (delete k (index d)) (delete a h2)) l) as Hfin.
  { intros hd ->. exists ls1. rewrite Hidx. simpl. split_and!; try done.
    - apply NoDup_unlink in Hnd. by rewrite app_nil_r in Hnd.
    - rewrite fmap_app in Hndk. apply NoDup_unlink in Hndk. by rewrite app_nil_r in Hndk.
    - rewrite index_delete_mid by done. by rewrite !app_nil_r.
    - rewrite (dom_unlink h2 (heap d) ls1 a []) by done. by rewrite app_nil_r. }
  destruct (last_or None ls1) as [p|] eqn:Hlast.
  - rewrite Hw1. simpl. rewrite Hh1, Ha. simpl. eexists; split; [done|].
    apply Hfin. rewrite Hhd. by destruct ls1.
  - simplify_eq/=. rewrite Ha. simpl. eexists; split; [done|]. apply Hfin.
    destruct ls1 as [|b ls1 _] using rev_ind; [done|]. by rewrite last_or_app in Hlast.
Qed.

Lemma push_back_dup d l k v : repr d l → k ∈ l.*1 → push_back k v d = None.
Proof.
  intros Hr Hk. pose proof (repr_contains _ _ k Hr) as Hc.
  rewrite bool_decide_eq_true_2 in Hc by done. unfold deque_contains in Hc. unfold push_back.
  destruct (index d !! k); [|done]. destruct (tail d); [|done]. simpl.
  by destruct (write_through _ _ _).
Qed.

(** ** The abstract queue and the trace refinement *)

(** One call of the queue's interface, and what it returns. *)
Inductive op :=
| PushFront (k : K) (v : V)
| PushBack (k : K) (v : V)
| PopBack
| Remove (k : K)
| Len
| Contains (k : K).

Inductive out :=
| OUnit
| OPopped (r : option (K * V))
| ORemoved (r : option V)
| OLen (n : nat)
| OBool (b : bool).

(** The call on the pointer structure. *)
Definition deque_op (o : op) (d : IndexedDeqeue) : option (IndexedDeqeue * out) :=
  match o with
  | PushFront k v => d' ← push_front k v d; Some (d', OUnit)
  | PushBack k v => d' ← push_back k v d; Some (d', OUnit)
  | PopBack => '(d', r) ← pop_back d; Some (d', OPopped r)
  | Remove k => '(d', r) ← remove k d; Some (d', ORemoved r)
  | Len => Some (d, OLen (deque_len d))
  | Contains k => Some (d, OBool (deque_contains k d))
  end.

(** The call on a list of key/value pairs, front first. *)
Definition queue_op (o : op) (l : list (K * V)) : option (list (K * V) * out) :=
  match o with
  | PushFront k v => if decide (k ∈ l.*1) then None else Some ((k, v) :: l, OUnit)
  | PushBack k v => if decide (k ∈ l.*1) then None else Some (l ++ [(k, v)], OUnit)
  | PopBack => Some (take (pred (length l)) l, OPopped (last l))
  | Remove k => Some (alist_del k l, ORemoved (alist_get k l))
  | Len => Some (l, OLen (length l))
  | Contains k => Some (l, OBool (bool_decide (k ∈ l.*1)))
  end.

(** The outputs of a sequence of calls, with the state they end in; [None] as
    soon as a call panics. *)
Fixpoint run {S : Type} (step : op → S → option (S * out)) (os : list op) (s : S)
    : option (S * list out) :=
  match os with
  | [] => Some (s, [])
  | o :: os' => '(s', r) ← step o s; '(s'', rs) ← run step os' s'; Some (s'', r :: rs)
  end.

Lemma deque_op_refines o d l :
  repr d l →
  match queue_op o l with
  | None => deque_op o d = None
  | Some (l', r) => ∃ d', deque_op o d = Some (d', r) ∧ repr d' l'
  end.
Proof.
  intros Hr. destruct o as [k v|k v| |k| |k]; simpl.
  - case_decide.
    + by rewrite (push_front_dup d l).
    + destruct (push_front_repr d l k v) as (d' & -> & ?); [done..|]. simpl. eauto.
  - case_decide.
    + by rewrite (push_back_dup d l).
    + destruct (push_back_repr d l k v) as (d' & -> & ?); [done..|]. simpl. eauto.
  - destruct l as [|[k v] l _] using rev_ind.
    + rewrite pop_back_empty by done. simpl. eauto.
    + destruct (pop_back_repr d l k v) as (d' & -> & ?); [done|]. simpl.
      rewrite last_snoc, length_app, Nat.add_comm. simpl. rewrite take_app_length. eauto.
  - destruct (alist_get k l) as [v|] eqn:Hg.
    + apply alist_get_split in Hg as (l1 & l2 & -> & _).
      rewrite alist_del_mid by (by eapply repr_NoDup).
      destruct (remove_repr d l1 k v l2) as (d' & -> & ?); [done|]. simpl. eauto.
    + apply alist_get_None in Hg. rewrite alist_del_absent, (remove_absent d l) by done.
      simpl. eauto.
  - rewrite (repr_len d l) by done. eauto.
  - rewrite (repr_contains d l) by done. eauto.
Qed.

Lemma run_refines os d l :
  repr d l →
  match run queue_op os l with
  | None => run deque_op os d = None
  | Some (l', rs) => ∃ d', run deque_op os d = Some (d', rs) ∧ repr d' l'
  end.
Proof.
  revert d l. induction os as [|o os IH]; intros d l Hr; simpl; [eauto|].
  pose proof (deque_op_refines o d l Hr) as Ho.
  destruct (queue_op o l) as [[l' r]|]; simpl; [|by rewrite Ho].
  destruct Ho as (d' & -> & Hr'). simpl. specialize (IH d' l' Hr').
  destruct (run queue_op os l') as [[l'' rs]|]; simpl; [|by rewrite IH].
  destruct IH as (d'' & -> & ?). simpl. eauto.
Qed.

End deque.

Arguments IndexedDequeueEntry : clear implicits.
Arguments IndexedDeqeue : clear implicits.
Arguments IndexedDeqeue K V {_ _}.
Arguments op : clear implicits.
Arguments out : clear implicits.

(** C1: the pointer-linked queue of the pool refines a plain list of key/value
    pairs.  Whatever sequence of pushes, pops, removals and queries is run on
    an empty queue, the pointer code returns exactly the values the list
    specification returns; it panics precisely when the specification does
    (a push of a key that is already queued), so it never follows a dangling
    pointer and its [unwrap]s never fail; and at the end its links, its index and
    the set of its live allocations represent the specification's list. *)
Theorem deque_refines_list `{Countable K} {V} (os : list (op K V)) :
  match run queue_op os [] with
  | None => run deque_op os deque_new = None
  | Some (l, rs) => ∃ d, run deque_op os deque_new = Some (d, rs) ∧ repr d l
  end.
Proof. apply run_refines, repr_new. Qed.

(** The same calls on both levels, ending in a middle removal and a pop. *)
Example deque_run_example :
  snd <$> run deque_op
    [PushFront 1 10; PushFront 2 20; PushBack 3 30; Remove 1; Len; PopBack; Contains 3] deque_new
  = Some [OUnit; OUnit; OUnit; ORemoved (Some 10); OLen 2; OPopped (Some (3, 30)); OBool false].
Proof. vm_compute. reflexivity. Qed.

End IndexedDeque.
