(* ===== verification/BlockDate.v ===== *)
(** * Block dates

    [BlockDate] of [jormungandr-lib/src/interfaces/blockdate.rs], a wrapper of
    the chain library's pair of [u32] epoch and slot with the derived
    (lexicographic) order. *)

From S2P Require Import Prelude.

Record BlockDate := mkBlockDate {
  epoch : Z;
  slot_id : Z;
}.

#[export] Instance BlockDate_eq_dec : EqDecision BlockDate.
Proof. solve_decision. Defined.

#[export] Instance BlockDate_countable : Countable BlockDate.
Proof.
  refine (inj_countable' (λ d, (epoch d, slot_id d)) (λ p, mkBlockDate p.1 p.2) _).
  by intros [].
Defined.

(** [BlockDate < BlockDate] of the derived [Ord]. *)
Definition date_ltb (a b : BlockDate) : bool :=
  if (epoch a =? epoch b)%Z then (slot_id a <? slot_id b)%Z else (epoch a <? epoch b)%Z.

Definition date_leb (a b : BlockDate) : bool := negb (date_ltb b a).

(** Decide every comparison of [Z] in sight. *)
Ltac zcases :=
  repeat match goal with
  | |- context [Z.eqb ?a ?b] => destruct (Z.eqb_spec a b)
  | |- context [Z.ltb ?a ?b] => destruct (Z.ltb_spec a b)
  | |- context [Z.leb ?a ?b] => destruct (Z.leb_spec a b)
  | H : context [Z.eqb ?a ?b] |- _ => destruct (Z.eqb_spec a b)
  | H : context [Z.ltb ?a ?b] |- _ => destruct (Z.ltb_spec a b)
  | H : context [Z.leb ?a ?b] |- _ => destruct (Z.leb_spec a b)
  end.

#[export] Instance date_order : StrictTotalOrder date_ltb.
Proof.
  split.
  - intros [e s]. unfold date_ltb. simpl. zcases; lia.
  - intros [e1 s1] [e2 s2] [e3 s3]. unfold date_ltb. simpl. zcases; simpl; try done; try lia.
  - intros [e1 s1] [e2 s2]. unfold date_ltb. simpl. zcases; simpl; try tauto; try lia.
    right; left. f_equal; lia.
Qed.

Lemma date_ltb_spec a b :
  date_ltb a b = true ↔ (epoch a < epoch b ∨ epoch a = epoch b ∧ slot_id a < slot_id b)%Z.
Proof. unfold date_ltb. zcases; split; try done; lia. Qed.

Lemma date_leb_spec a b :
  date_leb a b = true ↔ (epoch a < epoch b ∨ epoch a = epoch b ∧ slot_id a ≤ slot_id b)%Z.
Proof.
  unfold date_leb. rewrite negb_true_iff, <- not_true_iff_false, date_ltb_spec. lia.
Qed.
