(* ===== verification/Fragment.v ===== *)
(** * Fragments and the memory pool's container

    [Fragment] is the enumeration of the chain library that the pool matches
    on; its payloads, its hash and its size are parameters ([FragmentTypes],
    [FragmentOps]).  Module [InternalPool] models [mod internal] of
    [jormungandr/src/fragment/pool.rs]: the pool proper, an indexed queue of
    fragments together with an ordered queue of their expiry dates, a size
    counter and a capacity. *)

From S2P Require Import Prelude BlockDate Deque.

(** What the pool uses of [chain-impl-mockchain]'s fragments. *)
Class FragmentTypes := {
  FragmentId : Type;
  FragmentId_eq_dec :: EqDecision FragmentId;
  FragmentId_countable :: Countable FragmentId;
  (** [Ord for FragmentId] *)
  id_ltb : FragmentId → FragmentId → bool;
  id_order :: StrictTotalOrder id_ltb;
  (** identifiers of blocks *)
  HeaderHash : Type;
  HeaderHash_eq_dec :: EqDecision HeaderHash;
  HeaderHash_countable :: Countable HeaderHash;
  (** [Transaction<E>] *)
  Transaction : Type;
  (** [ConfigParams], [UtxoDeclaration] and the EVM transaction *)
  Payload : Type;
  (** [tx.as_slice().valid_until()] *)
  valid_until : Transaction → BlockDate;
  (** [tx.verify_possibly_balanced().is_ok()] *)
  verify_possibly_balanced : Transaction → bool;
}.

Inductive Fragment `{FragmentTypes} :=
| Initial (p : Payload)
| OldUtxoDeclaration (p : Payload)
| Evm (p : Payload)
| Transaction_ (tx : Transaction)
| OwnerStakeDelegation (tx : Transaction)
| StakeDelegation (tx : Transaction)
| PoolRegistration (tx : Transaction)
| PoolRetirement (tx : Transaction)
| PoolUpdate (tx : Transaction)
| UpdateProposal (tx : Transaction)
| UpdateVote (tx : Transaction)
| VotePlan (tx : Transaction)
| VoteCast (tx : Transaction)
| VoteTally (tx : Transaction)
| MintToken (tx : Transaction)
| EvmMapping (tx : Transaction).

Class FragmentOps `{FragmentTypes} := {
  (** [fragment.serialized_size()] *)
  serialized_size : Fragment → Z;
  serialized_size_usize f : (0 ≤ serialized_size f < U64)%Z;
  (** [fragment.hash()] *)
  fragment_hash : Fragment → FragmentId;
}.

Section fragment.
Context `{FragmentTypes}.

Definition is_transaction_valid (tx : Transaction) : bool := verify_possibly_balanced tx.

Definition is_fragment_valid (fragment : Fragment) : bool :=
  match fragment with
  | Initial _ => false
  | OldUtxoDeclaration _ => false
  | Transaction_ tx => is_transaction_valid tx
  | StakeDelegation tx => is_transaction_valid tx
  | OwnerStakeDelegation tx => is_transaction_valid tx
  | PoolRegistration tx => is_transaction_valid tx
  | PoolRetirement tx => is_transaction_valid tx
  | PoolUpdate tx => is_transaction_valid tx
  | UpdateProposal tx => is_transaction_valid tx
  | UpdateVote tx => is_transaction_valid tx
  | VotePlan tx => is_transaction_valid tx
  | VoteCast tx => is_transaction_valid tx
  | VoteTally tx => is_transaction_valid tx
  | MintToken tx => is_transaction_valid tx
  | Evm _ => true
  | EvmMapping tx => is_transaction_valid tx
  end.

Definition get_transaction_expiry_date (fragment : Fragment) : option BlockDate :=
  match fragment with
  | Initial _ => None
  | OldUtxoDeclaration _ => None
  | Evm _ => None
  | Transaction_ tx => Some (valid_until tx)
  | OwnerStakeDelegation tx => Some (valid_until tx)
  | StakeDelegation tx => Some (valid_until tx)
  | PoolRegistration tx => Some (valid_until tx)
  | PoolRetirement tx => Some (valid_until tx)
  | PoolUpdate tx => Some (valid_until tx)
  | UpdateProposal tx => Some (valid_until tx)
  | UpdateVote tx => Some (valid_until tx)
  | VotePlan tx => Some (valid_until tx)
  | VoteCast tx => Some (valid_until tx)
  | VoteTally tx => Some (valid_until tx)
  | MintToken tx => Some (valid_until tx)
  | EvmMapping tx => Some (valid_until tx)
  end.
End fragment.

Module InternalPool.
Import IndexedDeque.
Section pool.
Context `{FragmentOps}.

Record TimeoutQueueItem := mkItem {
  item_valid_until : BlockDate;
  item_id : FragmentId;
}.

#[export] Instance item_eq_dec : EqDecision TimeoutQueueItem.
Proof. solve_decision. Defined.

(** [Ord for TimeoutQueueItem]: by date, then by identifier. *)
Definition item_ltb (a b : TimeoutQueueItem) : bool :=
  if decide (item_valid_until a = item_valid_until b)
  then id_ltb (item_id a) (item_id b)
  else date_ltb (item_valid_until a) (item_valid_until b).

Record Pool := mkPool {
  entries : IndexedDeqeue FragmentId Fragment;
  timeout_queue : list TimeoutQueueItem;
  max_entries : Z;
  total_size_bytes : Z;
}.

Definition pool_new (max_entries : Z) : Pool := mkPool deque_new [] max_entries 0.

Definition timeout_queue_insert (fragment : Fragment) (id : FragmentId)
    (q : list TimeoutQueueItem) : list TimeoutQueueItem :=
  match get_transaction_expiry_date fragment with
  | Some d => btree_insert item_ltb (mkItem d id) q
  | None => q
  end.

Definition timeout_queue_remove (fragment : Fragment) (id : FragmentId)
    (q : list TimeoutQueueItem) : list TimeoutQueueItem :=
  match get_transaction_expiry_date fragment with
  | Some d => btree_remove (mkItem d id) q
  | None => q
  end.

Definition pool_len (p : Pool) : Z := Z.of_nat (deque_len (entries p)).

(** The iterator chain [fragments.filter(..).take(n).collect()]: the filter
    inserts as a side effect, [take] stops pulling once [n] fragments were
    inserted, and what was not pulled stays in the caller's iterator. *)
Fixpoint insert_loop (n : Z) (fragments : list (Fragment * FragmentId)) (p : Pool)
    : option (Pool * list (Fragment * FragmentId) * list (Fragment * FragmentId)) :=
  match fragments with
  | [] => Some (p, [], [])
  | (fragment, id) :: fragments' =>
      if (n =? 0)%Z then Some (p, [], fragments)
      else if deque_contains id (entries p) then insert_loop n fragments' p
      else
        let size := usize_add (total_size_bytes p) (serialized_size fragment) in
        let queue := timeout_queue_insert fragment id (timeout_queue p) in
        entries' ← push_front id fragment (entries p);
        '(p', accepted, rest) ←
          insert_loop (n - 1) fragments' (mkPool entries' queue (max_entries p) size);
        Some (p', (fragment, id) :: accepted, rest)
  end.

Definition insert_all (fragments : list (Fragment * FragmentId)) (p : Pool)
    : option (Pool * list (Fragment * FragmentId) * list (Fragment * FragmentId)) :=
  let max_fragments := usize_sub (max_entries p) (pool_len p) in
  insert_loop max_fragments fragments p.

Fixpoint remove_all (fragment_ids : list FragmentId) (p : Pool) : option Pool :=
  match fragment_ids with
  | [] => Some p
  | id :: ids =>
      '(entries', maybe_fragment) ← remove id (entries p);
      let p' := match maybe_fragment with
        | Some fragment =>
            mkPool entries' (timeout_queue_remove fragment id (timeout_queue p))
              (max_entries p) (usize_sub (total_size_bytes p) (serialized_size fragment))
        | None => mkPool entries' (timeout_queue p) (max_entries p) (total_size_bytes p)
        end in
      remove_all ids p'
  end.

Definition remove_oldest (p : Pool) : option (Pool * option (Fragment * FragmentId)) :=
  '(entries', popped) ← pop_back (entries p);
  Some match popped with
  | None => (mkPool entries' (timeout_queue p) (max_entries p) (total_size_bytes p), None)
  | Some (id, fragment) =>
      (mkPool entries' (timeout_queue_remove fragment id (timeout_queue p))
         (max_entries p) (usize_sub (total_size_bytes p) (serialized_size fragment)),
       Some (fragment, id))
  end.

Fixpoint return_to_pool (fragments : list (Fragment * FragmentId)) (p : Pool) : option Pool :=
  match fragments with
  | [] => Some p
  | (fragment, id) :: fragments' =>
      let queue := timeout_queue_insert fragment id (timeout_queue p) in
      let size := usize_add (total_size_bytes p) (serialized_size fragment) in
      entries' ← push_back id fragment (entries p);
      return_to_pool fragments' (mkPool entries' queue (max_entries p) size)
  end.

Fixpoint remove_items (items : list TimeoutQueueItem) (p : Pool) : option Pool :=
  match items with
  | [] => Some p
  | item :: items' =>
      let queue := btree_remove item (timeout_queue p) in
      '(entries', maybe_fragment) ← remove (item_id item) (entries p);
      let size := match maybe_fragment with
        | Some fragment => usize_sub (total_size_bytes p) (serialized_size fragment)
        | None => total_size_bytes p
        end in
      remove_items items' (mkPool entries' queue (max_entries p) size)
  end.

Definition remove_expired_txs (block_date : BlockDate) (p : Pool)
    : option (Pool * list FragmentId) :=
  let to_remove :=
    take_while (λ x, date_ltb (item_valid_until x) block_date) (timeout_queue p) in
  p' ← remove_items to_remove p;
  Some (p', item_id <$> to_remove).

(** ** The pool's invariant *)

Implicit Types (p : Pool) (l : list (FragmentId * Fragment)) (q : list TimeoutQueueItem).

#[export] Instance item_order : StrictTotalOrder item_ltb.
Proof.
  split.
  - intros [d i]. unfold item_ltb. simpl. rewrite decide_True by done. apply ltb_irrefl.
  - intros [d1 i1] [d2 i2] [d3 i3]. unfold item_ltb. simpl.
    repeat case_decide; simplify_eq; try done.
    + apply ltb_trans.
    + intros Ha Hb. pose proof (ltb_trans _ _ _ Ha Hb) as Hc. by rewrite ltb_irrefl in Hc.
    + apply ltb_trans.
  - intros [d1 i1] [d2 i2]. unfold item_ltb. simpl. repeat case_decide; simplify_eq.
    + destruct (ltb_total i1 i2) as [?|[->|?]]; auto.
    + destruct (ltb_total d1 d2) as [?|[->|?]]; auto.
Qed.

Definition sizes l : Z := foldr (λ kv acc, serialized_size kv.2 + acc)%Z 0%Z l.

(** The timeout queue is ordered and holds exactly the expiry dates of the
    pooled fragments that have one. *)
Definition timeouts q l : Prop :=
  btree_wf item_ltb q ∧
  ∀ d id, mkItem d id ∈ q ↔ ∃ f, (id, f) ∈ l ∧ get_transaction_expiry_date f = Some d.

(** The pool [p] holds the fragments [l], newest first. *)
Record pool_inv p l : Prop := {
  inv_entries : repr (entries p) l;
  inv_timeouts : timeouts (timeout_queue p) l;
  inv_size : total_size_bytes p = wrap64 (sizes l);
  inv_cap : (Z.of_nat (length l) ≤ max_entries p < U64)%Z;
}.

Lemma sizes_mid l1 kv l2 : sizes (l1 ++ kv :: l2) = (serialized_size kv.2 + sizes (l1 ++ l2))%Z.
Proof. unfold sizes. induction l1 as [|? l1 IH]; simpl; [done|]. rewrite IH. lia. Qed.

Lemma timeouts_insert q l l' f id :
  timeouts q l → id ∉ l.*1 → (∀ kv, kv ∈ l' ↔ kv = (id, f) ∨ kv ∈ l) →
  timeouts (timeout_queue_insert f id q) l'.
Proof.
  intros [Hwf Hq] Hid Hl'. unfold timeout_queue_insert.
  destruct (get_transaction_expiry_date f) as [d|] eqn:Hf; split.
  - apply btree_insert_wf; [apply _|done].
  - intros d' id'. rewrite (btree_insert_elem item_ltb), Hq. setoid_rewrite Hl'.
    split; [intros [?|(f' & ? & ?)]|intros (f' & [?|?] & ?)]; naive_solver.
  - done.
  - intros d' id'. rewrite Hq. setoid_rewrite Hl'. naive_solver.
Qed.

Lemma timeouts_remove q l1 l2 f id :
  timeouts q (l1 ++ (id, f) :: l2) → NoDup (l1 ++ (id, f) :: l2).*1 →
  timeouts (timeout_queue_remove f id q) (l1 ++ l2).
Proof.
  intros [Hwf Hq] Hnd.
  assert (id ∉ (l1 ++ l2).*1) as Hid.
  { rewrite fmap_app in Hnd |- *. apply NoDup_app in Hnd as (_ & Hd & Hn).
    simpl in *. apply NoDup_cons in Hn as [Hn _].
    intros [Hin|Hin]%elem_of_app; [|done]. apply (Hd id Hin). set_solver. }
  assert (∀ g, (id, g) ∉ l1 ++ l2) as Hid'.
  { intros g Hin. apply Hid, list_elem_of_fmap. by exists (id, g). }
  unfold timeout_queue_remove.
  destruct (get_transaction_expiry_date f) as [d|] eqn:Hf; split.
  - apply btree_remove_wf; done.
  - intros d' id'. rewrite btree_remove_elem, Hq. split.
    + intros [(g & Hin & Hg) Hne]. exists g. split; [|done].
      assert ((id', g) ≠ (id, f)) by naive_solver. set_solver.
    + intros (g & Hin & Hg). split; [exists g; set_solver|].
      intros ?. simplify_eq. by eapply Hid'.
  - done.
  - intros d' id'. rewrite Hq. split; [|set_solver].
    intros (g & Hin & Hg). exists g. split; [|done].
    assert ((id', g) ≠ (id, f)) by naive_solver. set_solver.
Qed.

Lemma pool_inv_NoDup p l : pool_inv p l → NoDup l.*1.
Proof. intros Hp. eapply repr_NoDup, Hp. Qed.

Lemma pool_new_inv n : (0 ≤ n < U64)%Z → pool_inv (pool_new n) [].
Proof.
  intros Hn. split; simpl; [apply repr_new| |done|lia].
  split; [constructor|]. set_solver.
Qed.

(** Linking one more fragment, at either end of the queue. *)
Lemma pool_inv_add p l entries' l1 l2 id f :
  pool_inv p (l1 ++ l2) → id ∉ (l1 ++ l2).*1 → l = l1 ++ (id, f) :: l2 →
  repr entries' l → (Z.of_nat (length (l1 ++ l2)) < max_entries p)%Z →
  pool_inv (mkPool entries' (timeout_queue_insert f id (timeout_queue p)) (max_entries p)
              (usize_add (total_size_bytes p) (serialized_size f))) l.
Proof.
  intros [He Ht Hs Hc] Hid -> Hr Hlt. split; simpl; [done| | |].
  - eapply timeouts_insert; [done..|]. set_solver.
  - unfold usize_add. rewrite Hs, wrap64_add_l, sizes_mid. f_equal. simpl. lia.
  - rewrite length_app in *. simpl in *. lia.
Qed.

(** Unlinking one fragment. *)
Lemma pool_inv_del p entries' l1 l2 id f :
  pool_inv p (l1 ++ (id, f) :: l2) → repr entries' (l1 ++ l2) →
  pool_inv (mkPool entries' (timeout_queue_remove f id (timeout_queue p)) (max_entries p)
              (usize_sub (total_size_bytes p) (serialized_size f))) (l1 ++ l2).
Proof.
  intros Hp Hr. pose proof (pool_inv_NoDup _ _ Hp) as Hnd. destruct Hp as [He Ht Hs Hc].
  split; simpl; [done| | |].
  - by apply timeouts_remove.
  - unfold usize_sub. rewrite Hs, wrap64_sub_l, sizes_mid. f_equal. simpl. lia.
  - rewrite length_app in *. simpl in *. lia.
Qed.

(** ** Specification of the operations on the list of pooled fragments *)

(** The fragments an insertion accepts, and those it leaves in the iterator,
    given the room [n] and the identifiers [ids] already pooled. *)
Fixpoint accept (n : nat) (ids : list FragmentId) (fs : list (Fragment * FragmentId))
    : list (Fragment * FragmentId) * list (Fragment * FragmentId) :=
  match fs with
  | [] => ([], [])
  | (f, id) :: fs' =>
      match n with
      | O => ([], fs)
      | S n' =>
          if decide (id ∈ ids) then accept n ids fs'
          else let r := accept n' (id :: ids) fs' in ((f, id) :: r.1, r.2)
      end
  end.

Definition swap_pair {A B} (x : A * B) : B * A := (x.2, x.1).

Lemma insert_loop_spec n fs p l :
  pool_inv p l → (Z.of_nat n + Z.of_nat (length l) ≤ max_entries p)%Z →
  ∃ p', insert_loop (Z.of_nat n) fs p
        = Some (p', (accept n l.*1 fs).1, (accept n l.*1 fs).2) ∧
        max_entries p' = max_entries p ∧
        pool_inv p' (reverse (swap_pair <$> (accept n l.*1 fs).1) ++ l).
Proof.
  revert n p l. induction fs as [|[f id] fs IH]; intros n p l Hp Hn; cbn [insert_loop accept].
  { eexists. done. }
  destruct n as [|n]; [by eexists|].
  destruct (Z.eqb_spec (Z.of_nat (S n)) 0) as [?|_]; [lia|].
  rewrite (repr_contains _ l) by apply Hp. case_decide.
  - rewrite bool_decide_eq_true_2 by done. by apply (IH (S n)).
  - rename select (id ∉ _) into Hid. rewrite bool_decide_eq_false_2 by done.
    destruct (push_front_repr (entries p) l id f) as (e' & -> & Hr); [apply Hp|done|].
    cbn [mbind option_bind]. replace (Z.of_nat (S n) - 1)%Z with (Z.of_nat n) by lia.
    assert (Z.of_nat (length l) < max_entries p)%Z as Hlt by lia.
    pose proof (pool_inv_add p _ e' [] l id f Hp Hid eq_refl Hr Hlt) as Hadd.
    destruct (IH n _ _ Hadd) as (p' & Heq & Hmax & Hp'); [simpl in *; lia|].
    simpl in Heq. rewrite Heq. simpl. exists p'. split; [done|]. split; [done|].
    rewrite reverse_cons, <- app_assoc. done.
Qed.

Lemma insert_all_spec fs p l :
  pool_inv p l →
  let room := Z.to_nat (max_entries p - Z.of_nat (length l)) in
  ∃ p', insert_all fs p = Some (p', (accept room l.*1 fs).1, (accept room l.*1 fs).2) ∧
        max_entries p' = max_entries p ∧
        pool_inv p' (reverse (swap_pair <$> (accept room l.*1 fs).1) ++ l).
Proof.
  intros Hp room. unfold insert_all, pool_len.
  rewrite (repr_len _ l) by apply Hp. destruct (inv_cap _ _ Hp) as [Hle Hlt].
  unfold usize_sub. rewrite wrap64_small by lia.
  replace (max_entries p - Z.of_nat (length l))%Z with (Z.of_nat room) by (unfold room; lia).
  apply insert_loop_spec; [done|]. unfold room. lia.
Qed.

Lemma remove_oldest_spec_empty p : pool_inv p [] → remove_oldest p = Some (p, None).
Proof.
  intros Hp. unfold remove_oldest. rewrite pop_back_empty by apply Hp. simpl.
  by destruct p.
Qed.

Lemma remove_oldest_spec p l id f :
  pool_inv p (l ++ [(id, f)]) →
  ∃ p', remove_oldest p = Some (p', Some (f, id)) ∧ max_entries p' = max_entries p ∧
        pool_inv p' l.
Proof.
  intros Hp. unfold remove_oldest.
  destruct (pop_back_repr (entries p) l id f) as (e' & -> & Hr); [apply Hp|]. simpl.
  eexists. split; [done|]. split; [done|]. rewrite <- (app_nil_r l) in Hr |- *.
  by apply pool_inv_del.
Qed.

Lemma filter_mid_removed l1 l2 id (f : Fragment) (ids : list FragmentId) :
  NoDup (l1 ++ (id, f) :: l2).*1 →
  filter (λ kv, kv.1 ∉ id :: ids) (l1 ++ (id, f) :: l2)
  = filter (λ kv, kv.1 ∉ ids) (l1 ++ l2).
Proof.
  intros Hnd. rewrite <- (alist_del_mid id f l1 l2) by done. unfold alist_del.
  rewrite list_filter_filter. apply list_filter_iff. intros kv.
  rewrite not_elem_of_cons. tauto.
Qed.

Lemma filter_absent l id (ids : list FragmentId) :
  id ∉ l.*1 → filter (λ kv, kv.1 ∉ id :: ids) l = filter (λ kv, kv.1 ∉ ids) l.
Proof.
  intros Hid. rewrite <- (alist_del_absent id l) at 2 by done. unfold alist_del.
  rewrite list_filter_filter. apply list_filter_iff. intros kv.
  rewrite not_elem_of_cons. tauto.
Qed.

Lemma remove_all_spec ids p l :
  pool_inv p l →
  ∃ p', remove_all ids p = Some p' ∧ max_entries p' = max_entries p ∧
        pool_inv p' (filter (λ kv, kv.1 ∉ ids) l).
Proof.
  revert p l. induction ids as [|id ids IH]; intros p l Hp; simpl.
  { eexists. split; [done|]. split; [done|].
    rewrite list_filter_all; [done|]. intros. set_solver. }
  pose proof (pool_inv_NoDup _ _ Hp) as Hnd.
  destruct (alist_get id l) as [f|] eqn:Hg.
  - apply alist_get_split in Hg as (l1 & l2 & -> & _).
    destruct (remove_repr (entries p) l1 id f l2) as (e' & -> & Hr); [apply Hp|]. simpl.
    destruct (IH _ _ (pool_inv_del p e' l1 l2 id f Hp Hr)) as (p' & -> & Hmax & Hp').
    exists p'. split; [done|]. split; [done|]. by rewrite filter_mid_removed.
  - apply alist_get_None in Hg. rewrite (remove_absent _ l) by (done || apply Hp). simpl.
    destruct (IH (mkPool (entries p) (timeout_queue p) (max_entries p) (total_size_bytes p)) l)
      as (p' & -> & ? & ?); [by destruct p|].
    exists p'. split; [done|]. split; [done|]. by rewrite filter_absent.
Qed.

Lemma return_to_pool_spec fs p l :
  pool_inv p l → NoDup (l.*1 ++ fs.*2) →
  (Z.of_nat (length l + length fs) ≤ max_entries p)%Z →
  ∃ p', return_to_pool fs p = Some p' ∧ max_entries p' = max_entries p ∧
        pool_inv p' (l ++ (swap_pair <$> fs)).
Proof.
  revert p l. induction fs as [|[f id] fs IH]; intros p l Hp Hnd Hlen; simpl.
  { rewrite app_nil_r. eauto. }
  simpl in Hnd. apply NoDup_app in Hnd as Hnd'. destruct Hnd' as (Hnl & Hdis & Hnf).
  assert (id ∉ l.*1) as Hid by (intros ?; apply (Hdis id); set_solver).
  destruct (push_back_repr (entries p) l id f) as (e' & -> & Hr); [apply Hp|done|]. simpl.
  assert (Z.of_nat (length (l ++ [])) < max_entries p)%Z as Hlt.
  { rewrite app_nil_r. simpl in Hlen. lia. }
  pose proof (pool_inv_add p (l ++ [(id, f)]) e' l [] id f) as Hadd. rewrite !app_nil_r in *.
  specialize (Hadd Hp Hid eq_refl Hr Hlt).
  destruct (IH _ _ Hadd) as (p' & -> & ? & Hp').
  - rewrite fmap_app, <- app_assoc. done.
  - rewrite length_app. simpl in *. lia.
  - exists p'. split; [done|]. split; [done|]. by rewrite <- app_assoc in Hp'.
Qed.

(** *** Expiry *)
Definition expired (date : BlockDate) (f : Fragment) : bool :=
  match get_transaction_expiry_date f with
  | Some d => date_ltb d date
  | None => false
  end.

Lemma remove_items_spec items p l :
  pool_inv p l → NoDup items → (∀ i, i ∈ items → i ∈ timeout_queue p) →
  ∃ p', remove_items items p = Some p' ∧ max_entries p' = max_entries p ∧
        pool_inv p' (filter (λ kv, kv.1 ∉ item_id <$> items) l).
Proof.
  revert p l. induction items as [|[d id] items IH]; intros p l Hp Hnd Hin; simpl.
  { eexists. split; [done|]. split; [done|].
    rewrite list_filter_all; [done|]. intros. set_solver. }
  apply NoDup_cons in Hnd as [Hni Hnd].
  pose proof (pool_inv_NoDup _ _ Hp) as Hndl.
  destruct (proj1 (proj2 (inv_timeouts _ _ Hp) d id)) as (f & Hf & Hd); [set_solver|].
  apply list_elem_of_split in Hf as (l1 & l2 & ->).
  destruct (remove_repr (entries p) l1 id f l2) as (e' & -> & Hr); [apply Hp|]. simpl.
  pose proof (pool_inv_del p e' l1 l2 id f Hp Hr) as Hdel.
  unfold timeout_queue_remove in Hdel. rewrite Hd in Hdel.
  destruct (IH _ _ Hdel) as (p' & -> & ? & Hp'); [done| |].
  - intros i Hi. apply btree_remove_elem. split; [set_solver|]. intros ->. done.
  - exists p'. split; [done|]. split; [done|]. by rewrite filter_mid_removed.
Qed.

Lemma remove_expired_txs_spec date p l :
  pool_inv p l →
  ∃ p' ids, remove_expired_txs date p = Some (p', ids) ∧ max_entries p' = max_entries p ∧
    pool_inv p' (filter (λ kv, expired date kv.2 = false) l) ∧
    ∀ id, id ∈ ids ↔ ∃ f, (id, f) ∈ l ∧ expired date f = true.
Proof.
  intros Hp. destruct (inv_timeouts _ _ Hp) as [Hwf Hq].
  unfold remove_expired_txs. rewrite (take_while_filter item_ltb); [|done|].
  2:{ intros [d1 i1] [d2 i2]. unfold item_ltb. simpl. case_decide; [naive_solver|].
      intros. by eapply ltb_trans. }
  set (items := filter _ (timeout_queue p)).
  assert (∀ id, id ∈ item_id <$> items ↔ ∃ f, (id, f) ∈ l ∧ expired date f = true) as Hids.
  { intros id. rewrite list_elem_of_fmap. unfold items, expired.
    setoid_rewrite list_elem_of_filter. split.
    - intros ([d i] & -> & Hd & Hin). apply Hq in Hin as (f & ? & Hf). exists f.
      by rewrite Hf.
    - intros (f & Hf & He). destruct (get_transaction_expiry_date f) as [d|] eqn:Hfd; [|done].
      exists (mkItem d id). split_and!; [done..|]. apply Hq. eauto. }
  destruct (remove_items_spec items p l) as (p' & -> & Hmax & Hp'); [done| | |].
  - apply NoDup_filter. eapply btree_NoDup; [|done]. apply _.
  - intros i. unfold items. rewrite list_elem_of_filter. tauto.
  - exists p', (item_id <$> items). split_and!; [done..| |done].
    replace (filter (λ kv, expired date kv.2 = false) l)
      with (filter (λ kv : FragmentId * Fragment, kv.1 ∉ item_id <$> items) l); [done|].
    apply list_filter_iff_elem; simpl.
    intros [id f] Hin. simpl. rewrite Hids, <- not_true_iff_false. split.
    + intros Hn He. apply Hn. eauto.
    + intros Hn (g & Hg & He). assert (f = g) as ->; [|done].
      pose proof (pool_inv_NoDup _ _ Hp) as Hnd.
      apply (alist_get_NoDup id f) in Hin; [|done]. apply (alist_get_NoDup id g) in Hg; [|done].
      congruence.
Qed.

(** *** What [accept] selects *)
Implicit Types (fs : list (Fragment * FragmentId)).

Lemma accept_cover n ids fs x :
  x ∈ fs → x.2 ∈ ids ∨ x.2 ∈ (accept n ids fs).1.*2 ∨ x ∈ (accept n ids fs).2.
Proof.
  revert n ids. induction fs as [|[f id] fs IH]; intros n ids Hin; [set_solver|]. simpl.
  destruct n as [|n]; [tauto|]. case_decide.
  - apply elem_of_cons in Hin as [->|Hin]; [tauto|]. by apply (IH (S n)).
  - apply elem_of_cons in Hin as [->|Hin]; simpl; [set_solver|].
    destruct (IH n (id :: ids) Hin) as [?|[?|?]]; set_solver.
Qed.

Lemma accept_fresh n ids fs :
  NoDup (accept n ids fs).1.*2 ∧ (∀ id, id ∈ (accept n ids fs).1.*2 → id ∉ ids) ∧
  length (accept n ids fs).1 ≤ n ∧ (accept n ids fs).1 `sublist_of` fs.
Proof.
  revert n ids. induction fs as [|[f id] fs IH]; intros n ids; simpl.
  { split_and!; [constructor|set_solver|simpl; lia|done]. }
  destruct n as [|n]; simpl.
  { split_and!; [constructor|set_solver|simpl; lia|apply sublist_nil_l]. }
  case_decide.
  - destruct (IH (S n) ids) as (? & ? & ? & ?). split_and!; try done. by apply sublist_cons.
  - destruct (IH n (id :: ids)) as (? & Hn & ? & ?). simpl. split_and!.
    + constructor; [|done]. intros Hin. apply (Hn id Hin). set_solver.
    + intros i [->|Hi]%elem_of_cons; [done|]. specialize (Hn i Hi). set_solver.
    + lia.
    + by apply sublist_skip.
Qed.

Lemma accept_full n ids fs : (accept n ids fs).2 ≠ [] → length (accept n ids fs).1 = n.
Proof.
  revert n ids. induction fs as [|[f id] fs IH]; intros n ids; simpl; [done|].
  destruct n as [|n]; [done|]. case_decide; [apply (IH (S n))|]. simpl. intros. f_equal. by apply IH.
Qed.

Lemma accept_all n ids fs :
  NoDup (ids ++ fs.*2) → length fs ≤ n → accept n ids fs = (fs, []).
Proof.
  revert n ids. induction fs as [|[f id] fs IH]; intros n ids Hnd Hlen; simpl; [done|].
  destruct n as [|n]; simpl in Hlen; [lia|]. simpl in Hnd.
  apply NoDup_app in Hnd as Hnd'. destruct Hnd' as (_ & Hd & _).
  rewrite decide_False by (intros ?; apply (Hd id); set_solver).
  rewrite IH; [done| |lia]. simpl. rewrite Permutation_middle. done.
Qed.

(** Emptying the pool, oldest fragment first. *)
Fixpoint drain (n : nat) p : option (Pool * list (Fragment * FragmentId)) :=
  match n with
  | O => Some (p, [])
  | S n => '(p', oldest) ← remove_oldest p;
           x ← oldest;
           '(p'', xs) ← drain n p';
           Some (p'', x :: xs)
  end.

Lemma drain_spec p l :
  pool_inv p l →
  ∃ p', drain (length l) p = Some (p', swap_pair <$> reverse l) ∧ pool_inv p' [].
Proof.
  revert p. induction l as [|[id f] l IH] using rev_ind; intros p Hp; [by exists p|].
  rewrite length_app, Nat.add_comm. simpl.
  destruct (remove_oldest_spec p l id f Hp) as (p1 & -> & _ & Hp1). simpl.
  destruct (IH p1 Hp1) as (p' & -> & ?). simpl. exists p'. split; [|done].
  rewrite reverse_app. done.
Qed.

(** Insertion into the pool.  From any coherent pool, [insert_all] does not
    panic; the fragments it accepts come from the input in order, have
    pairwise distinct identifiers, none of which was pooled, and never
    exceed the capacity; fragments are left in the iterator only when the pool
    is full; every input identifier is now pooled or left over; and the
    new pool holds the accepted fragments in front of the old ones, with its
    timeout queue, its size counter and its capacity bound in step. *)
Theorem pool_insert_all_correct fs p l :
  pool_inv p l →
  ∃ p' acc rest,
    insert_all fs p = Some (p', acc, rest) ∧
    pool_inv p' (reverse (swap_pair <$> acc) ++ l) ∧
    acc `sublist_of` fs ∧ NoDup acc.*2 ∧ (∀ id, id ∈ acc.*2 → id ∉ l.*1) ∧
    (rest ≠ [] → pool_len p' = max_entries p) ∧
    (∀ x, x ∈ fs → x.2 ∈ l.*1 ∨ x.2 ∈ acc.*2 ∨ x ∈ rest).
Proof.
  intros Hp. destruct (insert_all_spec fs p l Hp) as (p' & Heq & Hmax & Hp').
  set (room := Z.to_nat _) in *. destruct (accept_fresh room l.*1 fs) as (? & ? & Hlen & ?).
  eexists p', _, _. split; [exact Heq|]. split_and!; try done.
  - intros Hrest. apply accept_full in Hrest. unfold pool_len.
    rewrite (repr_len _ _ (inv_entries _ _ Hp')), length_app, length_reverse, length_fmap, Hrest.
    destruct (inv_cap _ _ Hp). unfold room. lia.
  - intros x Hx. by apply accept_cover.
Qed.

(** The pool is a queue.  A batch of distinct fragments that fits a new pool is
    accepted whole, and [remove_oldest] then yields it in the order it was
    submitted, leaving a coherent empty pool. *)
Theorem pool_fifo n fs :
  (0 ≤ n < U64)%Z → NoDup fs.*2 → (Z.of_nat (length fs) ≤ n)%Z →
  ∃ p p', insert_all fs (pool_new n) = Some (p, fs, []) ∧
          drain (length fs) p = Some (p', fs) ∧ pool_inv p' [].
Proof.
  intros Hn Hnd Hlen.
  destruct (insert_all_spec fs (pool_new n) [] (pool_new_inv n Hn)) as (p & Heq & _ & Hp).
  rewrite accept_all in Heq, Hp by (done || (simpl; lia)). rewrite app_nil_r in Hp. simpl in *.
  destruct (drain_spec _ _ Hp) as (p' & Hdrain & Hp').
  rewrite length_reverse, length_fmap, reverse_involutive, <- list_fmap_compose in Hdrain.
  exists p, p'. split_and!; [done| |done]. rewrite Hdrain. do 2 f_equal.
  rewrite (list_fmap_ext _ id); [apply list_fmap_id|]. by intros ? [].
Qed.

(** Expiry.  From any coherent pool, [remove_expired_txs] does not panic, drops
    exactly the fragments whose validity ends before the date, keeps the others in
    order, and returns the identifiers of those it dropped. *)
Theorem pool_expiry_correct date p l :
  pool_inv p l →
  ∃ p' ids, remove_expired_txs date p = Some (p', ids) ∧
    pool_inv p' (filter (λ kv, expired date kv.2 = false) l) ∧
    ∀ id, id ∈ ids ↔ ∃ f, (id, f) ∈ l ∧ expired date f = true.
Proof.
  intros Hp. destruct (remove_expired_txs_spec date p l Hp) as (p' & ids & ? & _ & ? & ?). eauto.
Qed.

End pool.
End InternalPool.

(** ** Concrete fragments

    An instance of the parameters that computes, for the witnesses. *)
Module SampleFragments.

Record tx := mkTx {
  tx_id : Z;
  tx_until : BlockDate;
  tx_balanced : bool;
  tx_size : Z;
}.

#[export] Instance types : FragmentTypes := {|
  FragmentId := Z;
  id_ltb := Z.ltb;
  HeaderHash := Z;
  Transaction := tx;
  Payload := Z;
  valid_until := tx_until;
  verify_possibly_balanced := tx_balanced;
|}.

Definition payload_or_tx (f : Fragment) : Z + tx :=
  match f with
  | Initial p | OldUtxoDeclaration p | Evm p => inl p
  | Transaction_ t | OwnerStakeDelegation t | StakeDelegation t | PoolRegistration t
  | PoolRetirement t | PoolUpdate t | UpdateProposal t | UpdateVote t | VotePlan t
  | VoteCast t | VoteTally t | MintToken t | EvmMapping t => inr t
  end.

Definition sample_size (f : Fragment) : Z :=
  match payload_or_tx f with inl _ => 1 | inr t => wrap64 (tx_size t) end.

Lemma sample_size_usize f : (0 ≤ sample_size f < U64)%Z.
Proof. unfold sample_size. case_match; [done|apply wrap64_bound]. Qed.

#[export] Instance ops : FragmentOps := {|
  serialized_size := sample_size;
  serialized_size_usize := sample_size_usize;
  fragment_hash f := match payload_or_tx f with inl p => p | inr t => tx_id t end;
|}.

(** Transaction [i], valid until slot [d] of epoch 0, of [size] bytes. *)
Definition sample (i d size : Z) : Fragment := Transaction_ (mkTx i (mkBlockDate 0 d) true size).

Definition sample_batch : list (Fragment * FragmentId) :=
  [(sample 1 10 100, 1%Z); (sample 2 5 50, 2%Z); (sample 1 10 100, 1%Z); (sample 3 20 7, 3%Z)].

(** A pool of capacity 4 holding three fragments. *)
Definition sample_pool : InternalPool.Pool :=
  match InternalPool.insert_all sample_batch (InternalPool.pool_new 4) with
  | Some (p, _, _) => p
  | None => InternalPool.pool_new 4
  end.

Definition sample_entries : list (FragmentId * Fragment) :=
  [(3%Z, sample 3 20 7); (2%Z, sample 2 5 50); (1%Z, sample 1 10 100)].

Lemma sample_pool_inv : InternalPool.pool_inv sample_pool sample_entries.
Proof.
  destruct (InternalPool.insert_all_spec sample_batch (InternalPool.pool_new 4) [])
    as (p' & Heq & _ & Hp); [by apply InternalPool.pool_new_inv|].
  unfold sample_pool. rewrite Heq. exact Hp.
Qed.

Lemma pool_insert_all_correct_witness :
  ∃ p' acc rest,
    InternalPool.insert_all [(sample 2 5 50, 2%Z); (sample 4 9 1, 4%Z); (sample 5 9 1, 5%Z)]
      sample_pool = Some (p', acc, rest) ∧
    InternalPool.pool_inv p' (reverse (InternalPool.swap_pair <$> acc) ++ sample_entries).
Proof.
  destruct (InternalPool.pool_insert_all_correct
    [(sample 2 5 50, 2%Z); (sample 4 9 1, 4%Z); (sample 5 9 1, 5%Z)] sample_pool sample_entries
    sample_pool_inv) as (p' & acc & rest & Heq & Hp & _).
  eauto.
Defined.

Lemma pool_fifo_witness :
  ∃ p p', InternalPool.insert_all [(sample 1 10 100, 1%Z); (sample 2 5 50, 2%Z)]
            (InternalPool.pool_new 2)
          = Some (p, [(sample 1 10 100, 1%Z); (sample 2 5 50, 2%Z)], []) ∧
          InternalPool.drain 2 p = Some (p', [(sample 1 10 100, 1%Z); (sample 2 5 50, 2%Z)]).
Proof.
  destruct (InternalPool.pool_fifo 2 [(sample 1 10 100, 1%Z); (sample 2 5 50, 2%Z)])
    as (p & p' & H1 & H2 & _).
  - done.
  - apply (bool_decide_unpack _). vm_compute. exact I.
  - done.
  - exists p, p'. split; [exact H1|exact H2].
Defined.

Lemma pool_expiry_correct_witness :
  ∃ p' ids, InternalPool.remove_expired_txs (mkBlockDate 0 11) sample_pool = Some (p', ids) ∧
    InternalPool.pool_inv p' [(3%Z, sample 3 20 7)].
Proof.
  destruct (InternalPool.pool_expiry_correct (mkBlockDate 0 11) sample_pool sample_entries
    sample_pool_inv) as (p' & ids & Heq & Hp & _).
  exists p', ids. split; [exact Heq|exact Hp].
Defined.

Example sample_pool_values :
  InternalPool.total_size_bytes sample_pool = 157%Z ∧
  (snd <$> InternalPool.remove_expired_txs (mkBlockDate 0 11) sample_pool) = Some [2%Z; 1%Z].
Proof. vm_compute. done. Qed.

End SampleFragments.
