(* ===== verification/FragmentLogs.v ===== *)
(** * The log of fragment statuses

    [FragmentStatus] and [FragmentLog] of
    [jormungandr-lib/src/interfaces/fragment_log.rs], and [Logs] of
    [jormungandr/src/fragment/logs.rs], a bounded cache of logs with the date
    of their last change.  [SystemTime::now()] is an explicit [Clock], the
    sequence of its readings. *)

From S2P Require Import Prelude BlockDate Lru Deque Fragment.

Definition Clock := nat → Z.
(** The clock after [n] readings. *)
Definition tick (n : nat) (now : Clock) : Clock := λ i, now (n + i).

Inductive FragmentOrigin := Network | Rest | JRpc.

Inductive FragmentStatus `{FragmentTypes} :=
| Pending
| Rejected (reason : string)
| InABlock (date : BlockDate) (block : HeaderHash).

Record FragmentLog `{FragmentTypes} := mkLog {
  fragment_id : FragmentId;
  received_from : FragmentOrigin;
  received_at : Z;
  last_updated_at : Z;
  status : FragmentStatus;
}.
Arguments mkLog {_} _ _ _ _ _.

Section fragment_log.
Context `{FragmentTypes}.

Definition status_is_pending (s : FragmentStatus) : bool :=
  match s with Pending => true | _ => false end.
Definition status_is_rejected (s : FragmentStatus) : bool :=
  match s with Rejected _ => true | _ => false end.
Definition status_is_in_a_block (s : FragmentStatus) : bool :=
  match s with InABlock _ _ => true | _ => false end.

(** [FragmentLog::new] *)
Definition log_new (now : Clock) (id : FragmentId) (from : FragmentOrigin) : FragmentLog :=
  mkLog id from (now 0) (now 1) Pending.

Definition log_is_pending (l : FragmentLog) : bool := status_is_pending (status l).
Definition log_is_rejected (l : FragmentLog) : bool := status_is_rejected (status l).
Definition log_is_in_a_block (l : FragmentLog) : bool := status_is_in_a_block (status l).

(** [FragmentLog::modify]: the new log and whether the update was accepted. *)
Definition log_modify (now : Clock) (new_status : FragmentStatus) (l : FragmentLog)
    : FragmentLog * bool :=
  if status_is_in_a_block (status l) && negb (status_is_in_a_block new_status)
  then (l, false)
  else (mkLog (fragment_id l) (received_from l) (received_at l) (now 0) new_status, true).
End fragment_log.

Module Logs.

Abbreviation entry := (FragmentLog * option BlockDate)%type.
Abbreviation Logs := (lru FragmentId entry).

Section logs.
Context `{FragmentTypes} `{!LruCache FragmentId (FragmentLog * option BlockDate)}.

Definition logs_new (max_entries : nat) : Logs := lru_new max_entries.

Definition exists_ (id : FragmentId) (ls : Logs) : bool := lru_contains id ls.

Definition exist_all (ids : list FragmentId) (ls : Logs) : list bool :=
  (λ id, exists_ id ls) <$> ids.

(** The [assert!] that the log is pending panics ([None]). *)
Definition insert_pending (log : FragmentLog) (ls : Logs) : option (Logs * bool) :=
  if negb (log_is_pending log) then None
  else
    let id := fragment_id log in
    if lru_contains id ls then Some (ls, false)
    else Some (lru_put id (log, None) ls, true).

(** Returns the number of registered fragments. *)
Fixpoint insert_all_pending (logs : list FragmentLog) (ls : Logs) : option (Logs * nat) :=
  match logs with
  | [] => Some (ls, 0)
  | log :: logs' =>
      '(ls', was_modified) ← insert_pending log ls;
      '(ls'', n) ← insert_all_pending logs' ls';
      Some (ls'', if (was_modified : bool) then S n else n)
  end.

(** The update [modify] makes through the reference returned by [get_mut]. *)
Definition modify_entry (now : Clock) (st : FragmentStatus) (ledger_date : BlockDate)
    (e : entry) : entry :=
  let r := log_modify now st e.1 in
  if r.2 then (r.1, Some ledger_date) else (r.1, e.2).

Definition modify (now : Clock) (id : FragmentId) (st : FragmentStatus)
    (ledger_date : BlockDate) (ls : Logs) : Logs :=
  match lru_peek id ls with
  | Some _ => lru_get_mut id (modify_entry now st ledger_date) ls
  | None =>
      let e := (log_modify (tick 2 now) st (log_new now id Network)).1 in
      lru_put id (e, Some ledger_date) ls
  end.

Fixpoint modify_all (now : Clock) (ids : list FragmentId) (st : FragmentStatus)
    (ledger_date : BlockDate) (ls : Logs) : Logs :=
  match ids with
  | [] => ls
  | id :: ids' => modify_all (tick 3 now) ids' st ledger_date (modify now id st ledger_date ls)
  end.

Definition logs_by_ids (ids : list FragmentId) (ls : Logs) : gmap FragmentId FragmentLog :=
  foldl (λ result id,
           match lru_peek id ls with
           | Some (log, _) => <[id := log]> result
           | None => result
           end) ∅ ids.

Definition logs (ls : Logs) : list FragmentLog := (λ kv, kv.2.1) <$> lru_entries ls.

(** The first loop of [remove_logs_after_date]: walks the entries from the most
    recently used, and stops at the first one that is not after the date. *)
Fixpoint logs_to_remove (target_date : BlockDate) (es : list (FragmentId * entry))
    : option (list FragmentId) :=
  match es with
  | [] => Some []
  | (_, (log, date)) :: es' =>
      match status log with
      | InABlock _ _ | Rejected _ =>
          d ← date;
          if date_ltb target_date d
          then rest ← logs_to_remove target_date es'; Some (fragment_id log :: rest)
          else Some []
      | Pending => logs_to_remove target_date es'
      end
  end.

Definition remove_logs_after_date (target_date : BlockDate) (ls : Logs) : option Logs :=
  to_remove ← logs_to_remove target_date (lru_entries ls);
  Some (foldl (λ ls id, (lru_pop id ls).1) ls to_remove).

(** ** Invariant *)

Context `{!LruLaws FragmentId entry}.
Implicit Types (ls : Logs) (es : list (FragmentId * entry)).

(** Every log is stored under its own identifier, and carries a date once its
    status is no longer pending. *)
Definition entry_ok (kv : FragmentId * entry) : Prop :=
  fragment_id kv.2.1 = kv.1 ∧ (log_is_pending kv.2.1 = false → is_Some kv.2.2).

Definition logs_inv ls : Prop := ∀ kv, kv ∈ lru_entries ls → entry_ok kv.

Lemma logs_new_inv n : logs_inv (logs_new n).
Proof. intros kv. unfold logs_new. rewrite lru_new_entries. set_solver. Qed.

Lemma put_inv id e ls : logs_inv ls → entry_ok (id, e) → logs_inv (lru_put id e ls).
Proof. intros Hinv He kv [->|?]%lru_put_elem; auto. Qed.

Lemma insert_pending_inv log ls ls' b :
  logs_inv ls → insert_pending log ls = Some (ls', b) → logs_inv ls'.
Proof.
  unfold insert_pending. intros Hinv. case_match eqn:Hp; [done|].
  case_match; intros; simplify_eq; [done|]. apply put_inv; [done|]. split; simpl; [done|].
  intros Hn. by rewrite Hn in Hp.
Qed.

Lemma insert_all_pending_inv logs ls ls' n :
  logs_inv ls → insert_all_pending logs ls = Some (ls', n) → logs_inv ls'.
Proof.
  revert ls ls' n. induction logs as [|log logs IH]; intros ls ls' n Hinv Heq;
    simplify_eq/=; [done|].
  apply bind_Some in Heq as ([ls1 b] & Hi & Heq).
  apply bind_Some in Heq as ([ls2 m] & Hr & ?). simplify_eq.
  eapply IH; [|done]. by eapply insert_pending_inv.
Qed.

Lemma modify_entry_ok now st d id e : entry_ok (id, e) → entry_ok (id, modify_entry now st d e).
Proof.
  destruct e as [log date]. unfold entry_ok, modify_entry, log_modify. simpl.
  intros [<- Hd]. destruct (_ && _); simpl; eauto.
Qed.

Lemma modify_inv now id st d ls : logs_inv ls → logs_inv (modify now id st d ls).
Proof.
  intros Hinv. unfold modify. destruct (lru_peek id ls) as [e|] eqn:Hpeek.
  - intros kv. rewrite lru_get_mut_entries. intros [?|(e' & Hin & ->)]%lru_touch_elem; [auto|].
    apply modify_entry_ok, (Hinv _ Hin).
  - apply put_inv; [done|]. split; simpl; [|eauto]. done.
Qed.

Lemma modify_all_inv now ids st d ls : logs_inv ls → logs_inv (modify_all now ids st d ls).
Proof.
  revert now ls. induction ids as [|id ids IH]; intros now ls Hinv; simpl; [done|].
  apply IH. by apply modify_inv.
Qed.

Lemma pop_all_entries ids ls :
  lru_entries (foldl (λ ls id, (lru_pop id ls).1) ls ids)
  = filter (λ kv, kv.1 ∉ ids) (lru_entries ls) ∧
  lru_cap (foldl (λ ls id, (lru_pop id ls).1) ls ids) = lru_cap ls.
Proof.
  revert ls. induction ids as [|id ids IH]; intros ls; simpl.
  { rewrite list_filter_all; [done|]. intros. set_solver. }
  destruct (lru_pop_spec id ls) as (_ & He & Hc). destruct (IH (lru_pop id ls).1) as [IHe IHc].
  rewrite IHe, IHc, He, Hc. split; [|done]. unfold alist_del. rewrite list_filter_filter.
  apply list_filter_iff. intros kv. rewrite not_elem_of_cons. tauto.
Qed.

Lemma logs_to_remove_total t es :
  (∀ kv, kv ∈ es → entry_ok kv) → is_Some (logs_to_remove t es).
Proof.
  induction es as [|[id [log date]] es IH]; intros Hok; simpl; [eauto|].
  assert (entry_ok (id, (log, date))) as [_ Hd] by (apply Hok; set_solver).
  destruct IH as [r Hr]; [intros; apply Hok; set_solver|]. rewrite Hr.
  unfold log_is_pending in Hd. simpl in Hd.
  destruct (status log); [eauto| |]; (destruct Hd as [d ->]; [done|]); simpl; case_match; eauto.
Qed.

Lemma remove_logs_after_date_inv t ls :
  logs_inv ls →
  ∃ ls', remove_logs_after_date t ls = Some ls' ∧ logs_inv ls' ∧ lru_cap ls' = lru_cap ls.
Proof.
  intros Hinv. unfold remove_logs_after_date.
  destruct (logs_to_remove_total t (lru_entries ls) Hinv) as [ids ->]. simpl.
  eexists. split; [done|]. destruct (pop_all_entries ids ls) as [He Hc]. split; [|done].
  intros kv. rewrite He, list_elem_of_filter. intros [_ ?]. auto.
Qed.

(** ** Lookup after an update *)
Lemma peek_modify now id id' st d ls :
  is_Some (lru_peek id ls) →
  lru_peek id' (modify now id st d ls) =
  if decide (id' = id) then modify_entry now st d <$> lru_peek id ls else lru_peek id' ls.
Proof.
  intros [e He]. unfold modify. rewrite He. rewrite !lru_peek_spec in *.
  rewrite lru_get_mut_entries, lru_touch_get, He. done.
Qed.

Lemma peek_put id id' e ls :
  lru_peek id' (lru_put id e ls) =
  match alist_get id' (take (lru_cap ls) ((id, e) :: alist_del id (lru_entries ls))) with
  | Some e' => if decide (id' = id) then Some e else lru_peek id' ls
  | None => None
  end.
Proof.
  rewrite !lru_peek_spec, lru_put_entries.
  set (full := (id, e) :: alist_del id (lru_entries ls)).
  assert (∀ e', alist_get id' (take (lru_cap ls) full) = Some e' →
    alist_get id' full = Some e') as Htake.
  { intros e' He'. rewrite <- (take_drop (lru_cap ls) full), alist_get_app. by rewrite He'. }
  destruct (alist_get id' (take _ full)) as [e'|] eqn:He'; [|done].
  specialize (Htake e' eq_refl). unfold full in Htake. simpl in Htake.
  destruct (decide (id' = id)) as [->|Hne]; [by rewrite decide_True in Htake|].
  rewrite decide_False in Htake by congruence. by rewrite alist_get_del, decide_False in Htake.
Qed.

(** A log that is in a block stays in a block as long as it is kept. *)
Lemma modify_in_a_block now id id' st d ls e e' :
  lru_peek id ls = Some e → log_is_in_a_block e.1 = true →
  lru_peek id (modify now id' st d ls) = Some e' → log_is_in_a_block e'.1 = true.
Proof.
  intros He Hb. destruct (lru_peek id' ls) as [e2|] eqn:Hp.
  - rewrite peek_modify by eauto. case_decide; [subst id'|congruence].
    rewrite He. simpl. intros [= <-]. unfold modify_entry, log_modify, log_is_in_a_block in *.
    rewrite Hb. simpl. destruct (status_is_in_a_block st) eqn:Hst; simpl; done.
  - unfold modify. rewrite Hp, peek_put.
    case_match; [|done]. case_decide; congruence.
Qed.

(** ** Removing the logs after a date *)

(** The dates of the decided (non-pending) logs, most recently used first. *)
Definition decided_dates es : list BlockDate :=
  omap (λ kv, if log_is_pending kv.2.1 then None else kv.2.2) es.

(** The order the source's comment relies on. *)
Definition recency_sorted es : Prop :=
  StronglySorted (λ a b, date_leb b a = true) (decided_dates es).

Definition after (t : BlockDate) (kv : FragmentId * entry) : bool :=
  if log_is_pending kv.2.1 then false
  else match kv.2.2 with Some d => date_ltb t d | None => false end.

Lemma after_none_sorted t d es :
  date_ltb t d = false → Forall (λ b, date_leb b d = true) (decided_dates es) →
  ∀ kv, kv ∈ es → after t kv = false.
Proof.
  intros Ht Hall kv Hin. unfold after. destruct (log_is_pending kv.2.1) eqn:Hp; [done|].
  destruct kv.2.2 as [d'|] eqn:Hd; [|done]. rewrite Forall_forall in Hall.
  assert (date_leb d' d = true) as Hle.
  { apply Hall, list_elem_of_omap. exists kv. by rewrite Hp. }
  unfold date_leb in Hle. apply negb_true_iff in Hle.
  destruct (date_ltb t d') eqn:Htd; [|done].
  destruct (ltb_total d d') as [?|[->|?]]; [congruence..|].
  rewrite (ltb_trans t d' d) in Ht; done.
Qed.

Lemma logs_to_remove_sorted t es :
  (∀ kv, kv ∈ es → entry_ok kv) → recency_sorted es →
  logs_to_remove t es = Some (fst <$> filter (λ kv, after t kv = true) es).
Proof.
  unfold recency_sorted. induction es as [|[id [log date]] es IH]; intros Hok Hs; [done|].
  assert (entry_ok (id, (log, date))) as [Hid Hd] by (apply Hok; set_solver).
  assert (∀ kv, kv ∈ es → entry_ok kv) as Hok' by (intros; apply Hok; set_solver).
  assert (after t (id, (log, date)) = if log_is_pending log then false else
    match date with Some d => date_ltb t d | None => false end) as Haf by done.
  unfold decided_dates in Hs. simpl in Hs, Hd.
  destruct (log_is_pending log) eqn:Hp.
  { rewrite filter_cons_False by congruence. rewrite <- IH by done.
    simpl. unfold log_is_pending in Hp. by destruct (status log). }
  destruct Hd as [d ->]; [done|]. apply StronglySorted_inv in Hs as [Hs Hall].
  assert (logs_to_remove t ((id, (log, Some d)) :: es) = if date_ltb t d then
      rest ← logs_to_remove t es; Some (fragment_id log :: rest) else Some []) as ->.
  { simpl. unfold log_is_pending in Hp. by destruct (status log). }
  destruct (date_ltb t d) eqn:Ht.
  - rewrite IH, filter_cons_True by done. simpl in *. by rewrite Hid.
  - rewrite list_filter_none; [done|]. intros kv [->|Hkv]%elem_of_cons; [congruence|].
    rewrite (after_none_sorted t d es) by done. done.
Qed.

Lemma remove_logs_after_date_sorted t ls :
  logs_inv ls → recency_sorted (lru_entries ls) →
  ∃ ls', remove_logs_after_date t ls = Some ls' ∧
         lru_entries ls' = filter (λ kv, after t kv = false) (lru_entries ls).
Proof.
  intros Hinv Hs. unfold remove_logs_after_date. rewrite logs_to_remove_sorted by done. simpl.
  eexists. split; [done|]. destruct (pop_all_entries
    (filter (λ kv, after t kv = true) (lru_entries ls)).*1 ls) as [-> _].
  apply list_filter_iff_elem. intros kv Hkv. rewrite list_elem_of_fmap.
  rewrite <- not_true_iff_false. split.
  - intros Hn Ha. apply Hn. exists kv. split; [done|]. by apply list_elem_of_filter.
  - intros Hn ([id e] & Heq & [Ha Hin]%list_elem_of_filter). apply Hn.
    destruct kv as [id' e']. simpl in *. subst.
    apply (alist_get_NoDup _ _ _ (lru_NoDup ls)) in Hin.
    apply (alist_get_NoDup _ _ _ (lru_NoDup ls)) in Hkv. congruence.
Qed.

(** ** Registering a batch of pending logs *)
Lemma insert_all_pending_entries (lgs : list FragmentLog) ls :
  Forall (λ log, log_is_pending log = true) lgs →
  NoDup (fragment_id <$> lgs) → (∀ log, log ∈ lgs → fragment_id log ∉ (lru_entries ls).*1) →
  ∃ ls', insert_all_pending lgs ls = Some (ls', length lgs) ∧ lru_cap ls' = lru_cap ls ∧
    lru_entries ls' = take (lru_cap ls)
      (reverse ((λ log, (fragment_id log, (log, None))) <$> lgs) ++ lru_entries ls).
Proof.
  revert ls. induction lgs as [|log lgs IH]; intros ls Hp Hnd Hfresh; simpl.
  { exists ls. split_and!; [done..|]. simpl. rewrite take_ge; [done|apply lru_bounded]. }
  apply Forall_cons in Hp as [Hlog Hp]. simpl in Hnd. apply NoDup_cons in Hnd as [Hni Hnd].
  assert (fragment_id log ∉ (lru_entries ls).*1) as Hf by (apply Hfresh; set_solver).
  unfold insert_pending. rewrite Hlog, lru_contains_spec, bool_decide_eq_false_2 by done. simpl.
  destruct (IH (lru_put (fragment_id log) (log, None) ls)) as (ls' & -> & Hc & He); [done..| |].
  - intros log' Hin Hk. apply list_elem_of_fmap in Hk as (kv & Hk & Hkv).
    apply lru_put_elem in Hkv as [->|Hkv]; simpl in *.
    + apply Hni. rewrite <- Hk. by apply list_elem_of_fmap_2.
    + apply (Hfresh log'); [set_solver|]. rewrite Hk. by apply list_elem_of_fmap_2.
  - exists ls'. simpl. split; [done|]. rewrite lru_put_cap in Hc, He. split; [done|].
    rewrite He, lru_put_entries, alist_del_absent, reverse_cons, <- app_assoc by done.
    apply take_app_take.
Qed.

Lemma insert_all_pending_total (lgs : list FragmentLog) ls :
  Forall (λ log, log_is_pending log = true) lgs →
  ∃ ls' n, insert_all_pending lgs ls = Some (ls', n) ∧ lru_cap ls' = lru_cap ls.
Proof.
  revert ls. induction lgs as [|log lgs IH]; intros ls Hp; simpl; [eauto|].
  apply Forall_cons in Hp as [Hlog Hp]. unfold insert_pending. rewrite Hlog. simpl.
  case_match; simpl.
  - destruct (IH ls Hp) as (ls' & n & -> & ?). simpl. eauto.
  - destruct (IH (lru_put (fragment_id log) (log, None) ls) Hp) as (ls' & n & -> & Hc). simpl.
    rewrite lru_put_cap in Hc. eauto.
Qed.

Lemma modify_cap now id st d ls : lru_cap (modify now id st d ls) = lru_cap ls.
Proof. unfold modify. case_match; [apply lru_get_mut_cap|apply lru_put_cap]. Qed.

Lemma modify_all_cap now ids st d ls : lru_cap (modify_all now ids st d ls) = lru_cap ls.
Proof.
  revert now ls. induction ids as [|id ids IH]; intros now ls; simpl; [done|].
  by rewrite IH, modify_cap.
Qed.

(** A fragment that is in a block stays there.  Whatever fragment a status
    update is about and whatever the new status, a log that was marked as being in a
    block is still marked so afterwards, unless the bounded cache evicted
    it; and eviction only happens when a log is created for another
    fragment in a full cache. *)
Theorem logs_in_block_final now id id' st d ls e :
  lru_peek id ls = Some e → log_is_in_a_block e.1 = true →
  match lru_peek id (modify now id' st d ls) with
  | Some e' => log_is_in_a_block e'.1 = true
  | None => (id' ∉ (lru_entries ls).*1) ∧ length (lru_entries ls) = lru_cap ls
  end.
Proof.
  intros He Hb. destruct (lru_peek id (modify now id' st d ls)) as [e'|] eqn:He'.
  { exact (modify_in_a_block now id id' st d ls e e' He Hb He'). }
  destruct (lru_peek id' ls) as [e2|] eqn:Hp.
  { rewrite peek_modify in He' by eauto. case_decide; subst; simplify_option_eq. }
  unfold modify in He'. rewrite Hp in He'. rewrite lru_peek_spec in He, He', Hp.
  apply alist_get_None in Hp as Hid'. split; [done|].
  pose proof (lru_bounded ls). destruct (decide (length (lru_entries ls) = lru_cap ls)); [done|].
  rewrite lru_put_room in He' by (done || lia). simpl in He'. case_decide; congruence.
Qed.

(** Pruning the logs after a branch switch.  On coherent logs,
    [remove_logs_after_date] never hits its [unwrap]; and when the decided logs are
    ordered by date from the most recently used, as its comment assumes, it removes
    exactly the logs decided after the date and keeps all others in order. *)
Theorem remove_logs_after_date_exact t ls :
  logs_inv ls →
  ∃ ls', remove_logs_after_date t ls = Some ls' ∧ logs_inv ls' ∧
    (recency_sorted (lru_entries ls) →
     lru_entries ls' = filter (λ kv, after t kv = false) (lru_entries ls)).
Proof.
  intros Hinv. destruct (remove_logs_after_date_inv t ls Hinv) as (ls' & Heq & Hinv' & _).
  exists ls'. split_and!; [done..|]. intros Hs.
  destruct (remove_logs_after_date_sorted t ls Hinv Hs) as (ls'' & Heq' & He). congruence.
Qed.

End logs.
End Logs.

Module LogsWitness.
Import SampleFragments ListLru.

Definition now0 : Clock := λ i, Z.of_nat i.
Definition date (d : Z) : BlockDate := mkBlockDate 0 d.

(** Fragment 1 is in the block of slot 10; fragment 2 was rejected for slot 13,
    before the block of slot 12, with fragment 3, arrived. *)
Definition sample_logs : Logs.Logs :=
  Logs.modify now0 3%Z (InABlock (date 12) 77%Z) (date 12)
    (Logs.modify now0 2%Z (Rejected "fragment expired") (date 13)
       (Logs.modify now0 1%Z (InABlock (date 10) 76%Z) (date 10) (Logs.logs_new 4))).

(** Only the first of these updates. *)
Definition sample_logs1 : Logs.Logs :=
  Logs.modify now0 1%Z (InABlock (date 10) 76%Z) (date 10) (Logs.logs_new 4).

Lemma logs_in_block_final_witness :
  match lru_peek 1%Z (Logs.modify now0 1%Z (Rejected "late") (date 14) sample_logs) with
  | Some e' => log_is_in_a_block e'.1 = true
  | None => (1%Z ∉ (lru_entries sample_logs).*1) ∧
            length (lru_entries sample_logs) = lru_cap sample_logs
  end.
Proof.
  refine (Logs.logs_in_block_final now0 (1%Z : @FragmentId types) 1%Z (Rejected "late") (date 14)
    sample_logs _ _ _); reflexivity.
Defined.

Lemma remove_logs_after_date_exact_witness :
  ∃ ls', Logs.remove_logs_after_date (date 9) sample_logs1 = Some ls' ∧ lru_entries ls' = [].
Proof.
  destruct (Logs.remove_logs_after_date_exact (date 9) sample_logs1) as (ls' & Heq & _ & Hrem).
  - apply Logs.modify_inv, Logs.logs_new_inv.
  - exists ls'. split; [exact Heq|]. rewrite Hrem; [done|].
    apply SSorted_cons; [apply SSorted_nil|constructor].
Defined.

(** The order [remove_logs_after_date] relies on is not maintained.  Three
    updates the node performs in this order (a block at slot 10, an expiry recorded
    for the next slot 13, a block at slot 12) leave a log that is not
    sorted by date; pruning after slot 12 then stops at once and keeps the
    log dated 13. *)
Theorem remove_logs_after_date_incomplete :
  Logs.logs_inv sample_logs ∧ ¬ Logs.recency_sorted (lru_entries sample_logs) ∧
  ∃ ls' log, Logs.remove_logs_after_date (date 12) sample_logs = Some ls' ∧
    lru_peek 2%Z ls' = Some (log, Some (date 13)) ∧ log_is_rejected log = true.
Proof.
  split; [|split].
  - unfold sample_logs. do 3 apply Logs.modify_inv. apply Logs.logs_new_inv.
  - unfold Logs.recency_sorted. change (Logs.decided_dates (lru_entries sample_logs))
      with [date 12; date 13; date 10]. intros [_ Hf]%StronglySorted_inv.
    apply Forall_cons in Hf as [Hf _]. done.
  - eexists _, _. split; [reflexivity|]. split; reflexivity.
Qed.

End LogsWitness.
