(* ===== verification/Selection.v ===== *)
(** * Fragment selection for a new block

    Models [jormungandr/src/fragment/selection.rs].  The ledger a block is
    built on ([ApplyBlockLedger]) belongs to the chain library and is a
    parameter.  The race between applying a fragment and the two deadlines is
    decided by the scheduler: a [Timing] says how it ended. *)

From S2P Require Import Prelude BlockDate Lru Deque Fragment FragmentLogs.
From stdpp Require Import pretty.

Class LedgerOps `{FragmentTypes} := {
  (** [ApplyBlockLedger] *)
  ApplyBlockLedger : Type;
  LedgerError : Type;
  (** [ledger.settings().block_content_max_size], a [u32] *)
  block_content_max_size : ApplyBlockLedger → Z;
  block_content_max_size_u32 l : (0 ≤ block_content_max_size l < U32)%Z;
  ledger_block_date : ApplyBlockLedger → BlockDate;
  apply_fragment : ApplyBlockLedger → Fragment → result LedgerError ApplyBlockLedger;
  (** [err.to_string()] and the messages of its chain of sources *)
  error_to_string : LedgerError → string;
  error_sources : LedgerError → list string;
}.

(** How the application of a fragment races with the deadlines. *)
Inductive Timing :=
| InTime                            (* done before the soft deadline *)
| BetweenDeadlines                  (* done after the soft, before the hard deadline *)
| AfterHardDeadline.                (* not done at the hard deadline *)

Inductive ApplyFragmentError :=
| DoesNotFit
| SoftDeadlineReached
| ApplyRejected (reason : string).

Module Selection.
Import InternalPool.
Section selection.
Context `{FragmentOps} `{!LedgerOps} `{!LruCache FragmentId (FragmentLog * option BlockDate)}.

Record NewLedgerState := mkNewLedger {
  nl_ledger : ApplyBlockLedger;
  nl_space_left : Z;
}.

Definition too_big_reason (size max : Z) : string :=
  "fragment size " +:+ pretty size +:+ " exceeds maximum block content size " +:+ pretty max.

Definition hard_deadline_reason : string :=
  "cannot process a single fragment within the given time bounds (hard deadline)".

(** The message of an error followed by those of its sources. *)
Definition error_message (e : LedgerError) : string :=
  foldl (λ msg s, msg +:+ ": " +:+ s) (error_to_string e) (error_sources e).

Definition try_apply_fragment (fragment : Fragment) (ledger : ApplyBlockLedger)
    (timing : Timing) (space_left : Z) : result ApplyFragmentError NewLedgerState :=
  let raw_fragment_size := serialized_size fragment in
  let max := block_content_max_size ledger in
  if (raw_fragment_size <? U32)%Z && (raw_fragment_size <=? max)%Z then
    let fragment_size := raw_fragment_size in
    if (space_left <? fragment_size)%Z then Err DoesNotFit
    else
      let space_left := (space_left - fragment_size)%Z in
      let ledger_res := apply_fragment ledger fragment in
      let finish :=
        match ledger_res with
        | Ok ledger => Ok (mkNewLedger ledger space_left)
        | Err err => Err (ApplyRejected (error_message err))
        end in
      match timing with
      | InTime => finish
      | BetweenDeadlines =>
          if (space_left <? max)%Z then Err SoftDeadlineReached else finish
      | AfterHardDeadline =>
          if (space_left <? max)%Z then Err SoftDeadlineReached
          else Err (ApplyRejected hard_deadline_reason)
      end
  else Err (ApplyRejected (too_big_reason raw_fragment_size max)).

(** The variables of [OldestFirst::select]'s loop. *)
Record SelectState := mkSelect {
  sel_ledger : ApplyBlockLedger;
  sel_logs : Logs.Logs;
  sel_pool : Pool;
  sel_space_left : Z;
  sel_contents : list Fragment;
  sel_return_to_pool : list (Fragment * FragmentId);
  sel_rejected_cnt : nat;
}.

(** One iteration, on the fragment just taken from the pool. *)
Definition select_body (now : Clock) (date : BlockDate) (timing : Timing)
    (fragment : Fragment) (id : FragmentId) (s : SelectState) : SelectState :=
  match try_apply_fragment fragment (sel_ledger s) timing (sel_space_left s) with
  | Ok new_ =>
      mkSelect (nl_ledger new_) (sel_logs s) (sel_pool s) (nl_space_left new_)
        (sel_contents s ++ [fragment]) (sel_return_to_pool s) (sel_rejected_cnt s)
  | Err DoesNotFit | Err SoftDeadlineReached =>
      mkSelect (sel_ledger s) (sel_logs s) (sel_pool s) (sel_space_left s)
        (sel_contents s) (sel_return_to_pool s ++ [(fragment, id)]) (sel_rejected_cnt s)
  | Err (ApplyRejected reason) =>
      mkSelect (sel_ledger s) (Logs.modify now id (Rejected reason) date (sel_logs s))
        (sel_pool s) (sel_space_left s) (sel_contents s) (sel_return_to_pool s)
        (S (sel_rejected_cnt s))
  end.

(** The [while let] loop.  [timings i] and [clocks i] are what happens at the
    [i]-th iteration; [None] is a panic or the end of the fuel. *)
Fixpoint select_loop (fuel : nat) (clocks : nat → Clock) (timings : nat → Timing)
    (date : BlockDate) (i : nat) (s : SelectState) : option SelectState :=
  match fuel with
  | O => None
  | S fuel =>
      '(pool, oldest) ← remove_oldest (sel_pool s);
      let s := mkSelect (sel_ledger s) (sel_logs s) pool (sel_space_left s)
                 (sel_contents s) (sel_return_to_pool s) (sel_rejected_cnt s) in
      match oldest with
      | None => Some s
      | Some (fragment, id) =>
          let s := select_body (clocks i) date (timings i) fragment id s in
          if (sel_space_left s =? 0)%Z then Some s
          else select_loop fuel clocks timings date (S i) s
      end
  end.

Record FragmentSelectionResult := mkSelection {
  contents : list Fragment;
  ledger : ApplyBlockLedger;
  rejected_fragments_cnt : nat;
}.

(** [OldestFirst::select], with the pool and the logs it leaves. *)
Definition select (fuel : nat) (clocks : nat → Clock) (timings : nat → Timing)
    (l : ApplyBlockLedger) (logs : Logs.Logs) (pool : Pool)
    : option (Logs.Logs * Pool * FragmentSelectionResult) :=
  let date := ledger_block_date l in
  let space_left := block_content_max_size l in
  s ← select_loop fuel clocks timings date 0 (mkSelect l logs pool space_left [] [] 0);
  pool' ← return_to_pool (reverse (sel_return_to_pool s)) (sel_pool s);
  Some (sel_logs s, pool', mkSelection (sel_contents s) (sel_ledger s) (sel_rejected_cnt s)).

(** ** What a run of the loop did *)

Context `{!LruLaws FragmentId Logs.entry}.

(** The fate of a fragment taken from the pool. *)
Inductive verdict := Committed | Returned | Refused.

#[export] Instance verdict_eq_dec : EqDecision verdict.
Proof. solve_decision. Defined.

Abbreviation outcome := (FragmentId * Fragment * verdict)%type.

Definition pick (v : verdict) (os : list outcome) : list (FragmentId * Fragment) :=
  (filter (λ o, o.2 = v) os).*1.

(** Applying a list of fragments, oldest first. *)
Fixpoint apply_all (l : ApplyBlockLedger) (fs : list Fragment) : option ApplyBlockLedger :=
  match fs with
  | [] => Some l
  | f :: fs' => match apply_fragment l f with Ok l' => apply_all l' fs' | Err _ => None end
  end.

(** The loop's variables went from [s] to [s'] by the fragments of [os], oldest first. *)
Record effects (s : SelectState) (os : list outcome) (s' : SelectState) : Prop := {
  eff_contents : sel_contents s' = sel_contents s ++ (pick Committed os).*2;
  eff_return : sel_return_to_pool s' = sel_return_to_pool s ++ (swap_pair <$> pick Returned os);
  eff_count : sel_rejected_cnt s' = sel_rejected_cnt s + length (pick Refused os);
  eff_ledger : apply_all (sel_ledger s) (pick Committed os).*2 = Some (sel_ledger s');
  eff_space : sel_space_left s' = (sel_space_left s - sizes (pick Committed os))%Z;
  eff_space_nonneg : (0 ≤ sel_space_left s → 0 ≤ sel_space_left s')%Z;
  eff_logs : Logs.logs_inv (sel_logs s) → Logs.logs_inv (sel_logs s');
  eff_logs_cap : lru_cap (sel_logs s') = lru_cap (sel_logs s);
}.

Lemma pick_app v os1 os2 : pick v (os1 ++ os2) = pick v os1 ++ pick v os2.
Proof. unfold pick. by rewrite filter_app, fmap_app. Qed.

Lemma apply_all_app l fs1 fs2 :
  apply_all l (fs1 ++ fs2) = l' ← apply_all l fs1; apply_all l' fs2.
Proof.
  revert l. induction fs1 as [|f fs1 IH]; intros l; simpl; [done|]. by case_match.
Qed.

Lemma sizes_app l1 l2 : sizes (l1 ++ l2) = (sizes l1 + sizes l2)%Z.
Proof. unfold sizes. induction l1 as [|? l1 IH]; simpl; [done|]. rewrite IH. lia. Qed.

Lemma effects_app s os1 s1 os2 s2 :
  effects s os1 s1 → effects s1 os2 s2 → effects s (os1 ++ os2) s2.
Proof.
  intros [] []. split; rewrite ?pick_app, ?fmap_app, ?length_app, ?sizes_app.
  - etrans; [eassumption|]. by rewrite app_assoc; f_equal.
  - etrans; [eassumption|]. by rewrite app_assoc; f_equal.
  - lia.
  - rewrite apply_all_app. by simplify_option_eq.
  - lia.
  - auto.
  - auto.
  - congruence.
Qed.

(** The size check of [try_apply_fragment] is what keeps a block within its limit. *)
Lemma try_apply_fragment_ok f l t space l' space' :
  try_apply_fragment f l t space = Ok (mkNewLedger l' space') →
  apply_fragment l f = Ok l' ∧ space' = (space - serialized_size f)%Z ∧ (0 ≤ space')%Z.
Proof.
  unfold try_apply_fragment. intros Hok.
  destruct (_ && _); [|done]. destruct (Z.ltb_spec space (serialized_size f)); [done|].
  destruct (apply_fragment l f), t; repeat case_match; simplify_eq; split_and!; done || lia.
Qed.

Lemma select_body_effects now date t f id s :
  ∃ v, effects s [(id, f, v)] (select_body now date t f id s) ∧
       sel_pool (select_body now date t f id s) = sel_pool s.
Proof.
  unfold select_body.
  destruct (try_apply_fragment f (sel_ledger s) t (sel_space_left s)) as [[l' sp]|[| |r]] eqn:Ht.
  - apply try_apply_fragment_ok in Ht as (Ha & -> & ?). exists Committed. split; [|done].
    split; simpl; rewrite ?app_nil_r; try done; [by rewrite Ha|lia].
  - exists Returned. split; [|done]. split; simpl; rewrite ?app_nil_r; try done; lia.
  - exists Returned. split; [|done]. split; simpl; rewrite ?app_nil_r; try done; lia.
  - exists Refused. split; [|done]. split; simpl; rewrite ?app_nil_r; try done; [lia..| |].
    + apply Logs.modify_inv.
    + apply Logs.modify_cap.
Qed.

Lemma select_loop_spec fuel clocks timings date i s l :
  pool_inv (sel_pool s) l → length l < fuel →
  ∃ s' l0 os,
    select_loop fuel clocks timings date i s = Some s' ∧
    l = l0 ++ reverse os.*1 ∧ effects s os s' ∧
    pool_inv (sel_pool s') l0 ∧ max_entries (sel_pool s') = max_entries (sel_pool s) ∧
    (sel_space_left s' = 0%Z ∨ l0 = []).
Proof.
  revert i s l. induction fuel as [|fuel IH]; intros i s l Hp Hlen; [lia|]. simpl.
  destruct l as [|[id f] l _] using rev_ind.
  - rewrite remove_oldest_spec_empty by done. simpl. eexists _, [], []. split; [done|].
    split_and!; [done| |done|done|by right].
    split; simpl; rewrite ?app_nil_r; try done; lia.
  - destruct (remove_oldest_spec (sel_pool s) l id f Hp) as (p' & -> & Hmax & Hp'). simpl.
    set (s1 := mkSelect _ _ p' _ _ _ _).
    destruct (select_body_effects (clocks i) date (timings i) f id s1) as (v & He & Hpool).
    set (s2 := select_body _ _ _ _ _ s1) in *.
    assert (effects s [(id, f, v)] s2) as He' by (by destruct He; split).
    destruct (Z.eqb_spec (sel_space_left s2) 0) as [Hz|Hz].
    + exists s2, l, [(id, f, v)]. rewrite Hpool. split_and!; try done. by left.
    + destruct (IH (S i) s2 l) as (s' & l0 & os & -> & -> & Hos & Hpl & Hm & Hend).
      { by rewrite Hpool. }
      { rewrite length_app in Hlen. simpl in Hlen. lia. }
      exists s', l0, ((id, f, v) :: os). rewrite Hpool in Hm.
      split_and!; [done| |by eapply (effects_app _ [_])|done|simpl in *; congruence|done].
      simpl. by rewrite reverse_cons, app_assoc.
Qed.

Lemma pick_sublist v os : pick v os `sublist_of` os.*1.
Proof. unfold pick. apply (fmap_sublist fst). apply sublist_filter. Qed.

Lemma swap_reverse (l : list (FragmentId * Fragment)) :
  swap_pair <$> reverse (swap_pair <$> l) = reverse l.
Proof.
  rewrite <- fmap_reverse, <- list_fmap_compose.
  rewrite (list_fmap_ext _ id); [apply list_fmap_id|]. by intros ? [].
Qed.

Lemma swap_snd (l : list (FragmentId * Fragment)) : (swap_pair <$> l).*2 = l.*1.
Proof. by rewrite <- list_fmap_compose. Qed.

Lemma reverse_sublist {A} (l1 l2 : list A) :
  l1 `sublist_of` l2 → reverse l1 `sublist_of` reverse l2.
Proof.
  induction 1 as [|x l1 l2 _ IH|x l1 l2 _ IH]; rewrite ?reverse_cons; [done| |].
  - by apply sublist_app.
  - etrans; [exact IH|]. by apply sublist_inserts_r.
Qed.

Lemma select_spec fuel clocks timings l0 logs pool l :
  pool_inv pool l → Logs.logs_inv logs → length l < fuel →
  ∃ logs' pool' r os kept,
    select fuel clocks timings l0 logs pool = Some (logs', pool', r) ∧
    l = kept ++ reverse os.*1 ∧
    pool_inv pool' (kept ++ reverse (pick Returned os)) ∧
    max_entries pool' = max_entries pool ∧
    contents r = (pick Committed os).*2 ∧
    apply_all l0 (contents r) = Some (ledger r) ∧
    (sizes (pick Committed os) ≤ block_content_max_size l0)%Z ∧
    rejected_fragments_cnt r = length (pick Refused os) ∧
    Logs.logs_inv logs' ∧ lru_cap logs' = lru_cap logs.
Proof.
  intros Hp Hl Hfuel. unfold select.
  destruct (select_loop_spec fuel clocks timings (ledger_block_date l0) 0
    (mkSelect l0 logs pool (block_content_max_size l0) [] [] 0) l Hp Hfuel)
    as (s' & kept & os & -> & Heq & [Hc Hr Hn Hled Hsp Hnn Hlog Hcap] & Hp' & Hmax & _). simpl in *.
  assert (pick Returned os `sublist_of` os.*1) as Hsub by apply pick_sublist.
  assert (kept ++ reverse (pick Returned os) `sublist_of` l) as Hsub'.
  { rewrite Heq. apply sublist_app; [done|]. by apply reverse_sublist. }
  destruct (return_to_pool_spec (reverse (sel_return_to_pool s')) (sel_pool s') kept)
    as (pool' & -> & Hmax' & Hp''); [done| | |].
  - rewrite Hr, <- fmap_reverse, swap_snd, <- fmap_app.
    eapply sublist_NoDup; [apply (pool_inv_NoDup _ _ Hp)|]. by apply fmap_sublist.
  - rewrite Hr, length_reverse, length_fmap, Hmax. destruct (inv_cap _ _ Hp) as [Hle _].
    apply sublist_length in Hsub'. rewrite length_app, length_reverse in Hsub'. lia.
  - rewrite Hr, swap_reverse in Hp''. simpl.
    eexists _, _, _, os, kept. split; [done|]. split_and!; try done; simpl.
    + congruence.
    + by rewrite Hc.
    + pose proof (block_content_max_size_u32 l0). lia.
    + by apply Hlog.
Qed.

(** As soon as the soft deadline has passed, a fragment with a non-empty encoding
    is not committed: the space left was already reduced by its size, so the branch that
    waits for the hard deadline is not taken. *)
Lemma soft_deadline_aborts f l t space :
  t ≠ InTime → (0 < serialized_size f)%Z → (space ≤ block_content_max_size l)%Z →
  try_apply_fragment f l t space =
  if (serialized_size f <=? block_content_max_size l)%Z
  then if (space <? serialized_size f)%Z then Err DoesNotFit else Err SoftDeadlineReached
  else Err (ApplyRejected (too_big_reason (serialized_size f) (block_content_max_size l))).
Proof.
  intros Ht Hpos Hsp. pose proof (block_content_max_size_u32 l) as Hmax.
  unfold try_apply_fragment.
  destruct (Z.leb_spec (serialized_size f) (block_content_max_size l)).
  - destruct (Z.ltb_spec (serialized_size f) U32); [|lia]. simpl.
    destruct (Z.ltb_spec space (serialized_size f)); [done|].
    destruct t; [done| |];
      (destruct (Z.ltb_spec (space - serialized_size f) (block_content_max_size l)); [done|lia]).
  - rewrite andb_false_r. done.
Qed.


(** The hard deadline is never used.  Once the soft deadline has passed, no
    fragment with a non-empty encoding is committed, not even the first and only
    one of a block: the space left has already been reduced by its size when
    it is compared with the block's maximum size, so the branch that lets a
    single fragment run until the hard deadline is unreachable. *)
Theorem hard_deadline_unreachable f l t space :
  (0 < serialized_size f)%Z → (space ≤ block_content_max_size l)%Z → t ≠ InTime →
  (∀ new_, try_apply_fragment f l t space ≠ Ok new_) ∧
  try_apply_fragment f l t space ≠ Err (ApplyRejected hard_deadline_reason) ∧
  try_apply_fragment f l BetweenDeadlines space = try_apply_fragment f l AfterHardDeadline space.
Proof.
  intros Hf Hs Ht. rewrite !soft_deadline_aborts by done.
  split_and!; [intros new_| |done]; repeat case_match; done.
Qed.

End selection.
End Selection.

Module SampleLedger.
Import SampleFragments ListLru.

(** A ledger that records the identifiers applied, refuses a repeated one, and
    carries the maximum size of the block contents. *)
Record sample_ledger := mkSampleLedger {
  applied : list Z;
  max_size : Z;
}.

Lemma sample_max_u32 (l : sample_ledger) : (0 ≤ wrap32 (max_size l) < U32)%Z.
Proof. apply Z.mod_pos_bound. done. Qed.

#[export] Instance ledger_ops : LedgerOps := {|
  ApplyBlockLedger := sample_ledger;
  LedgerError := unit;
  block_content_max_size l := wrap32 (max_size l);
  block_content_max_size_u32 := sample_max_u32;
  ledger_block_date _ := mkBlockDate 0 12;
  apply_fragment l f :=
    let id := fragment_hash f in
    if decide (id ∈ applied l) then Err tt
    else Ok (mkSampleLedger (id :: applied l) (max_size l));
  error_to_string _ := "already applied";
  error_sources _ := [];
|}.

Definition ledger0 : ApplyBlockLedger := mkSampleLedger [3%Z] 120.
Definition clocks0 : nat → Clock := λ _ i, Z.of_nat i.


(** Fragment 1 (100 bytes) is committed, fragment 2 (50 bytes) does not fit,
    fragment 3 is refused by the ledger. *)
Example select_values :
  match Selection.select 4 clocks0 (λ _, InTime) ledger0 (Logs.logs_new 4) sample_pool with
  | Some (logs', pool', r) =>
      Selection.contents r = [sample 1 10 100] ∧
      Selection.rejected_fragments_cnt r = 1 ∧
      InternalPool.total_size_bytes pool' = 50%Z ∧
      (snd ∘ snd <$> lru_entries logs') = [Some (mkBlockDate 0 12)]
  | None => False
  end.
Proof. vm_compute. done. Qed.

Lemma hard_deadline_unreachable_witness :
  Selection.try_apply_fragment (sample 1 10 100) ledger0 BetweenDeadlines 120
    ≠ Err (ApplyRejected Selection.hard_deadline_reason).
Proof.
  destruct (Selection.hard_deadline_unreachable (sample 1 10 100) ledger0 BetweenDeadlines 120)
    as (_ & H & _).
  - done.
  - done.
  - done.
  - exact H.
Defined.

End SampleLedger.
