(* ===== verification/Mempool.v ===== *)
(** * The memory pool

    Models [Pool] of [jormungandr/src/fragment/pool.rs] (filtering, insertion
    with propagation, removal, selection, expiry), the summary type of
    [jormungandr-lib/src/interfaces/fragments_processing_summary.rs] and the
    message loop of [jormungandr/src/fragment/process.rs].  The tip of the
    chain enters through [TipView]: the ledger settings and the dates the chain
    library computes for it. *)

From S2P Require Import Prelude BlockDate Lru Deque Fragment FragmentLogs Selection.

Inductive FragmentRejectionReason :=
| FragmentAlreadyInLog
| FragmentInvalid
| PreviousFragmentInvalid
| PoolOverflow
| FragmentExpired
| FragmentValidForTooLong.

#[export] Instance reason_eq_dec : EqDecision FragmentRejectionReason.
Proof. solve_decision. Defined.

Record RejectedFragmentInfo `{FragmentTypes} := mkRejected {
  rejected_id : FragmentId;
  rejected_reason : FragmentRejectionReason;
}.
Arguments mkRejected {_} _ _.

Record FragmentsProcessingSummary `{FragmentTypes} := mkSummary {
  accepted : list FragmentId;
  rejected : list RejectedFragmentInfo;
}.
Arguments mkSummary {_} _ _.

Definition reason_is_error (r : FragmentRejectionReason) : bool :=
  match r with
  | FragmentInvalid | PreviousFragmentInvalid | PoolOverflow => true
  | _ => false
  end.

Definition summary_is_error `{FragmentTypes} (s : FragmentsProcessingSummary) : bool :=
  existsb (λ info, reason_is_error (rejected_reason info)) (rejected s).

Definition fragment_ids `{FragmentTypes} (s : FragmentsProcessingSummary) : list FragmentId :=
  (rejected_id <$> rejected s) ++ accepted s.

(** [TxValidityError] of the chain library. *)
Inductive TxValidityError := TransactionExpired | TransactionValidForTooLong.

(** What the pool asks of the tip's [Ref]: [ledger().settings()], and the
    current slot and its date in the tip's time frame and era. *)
Class TipOps := {
  TipRef : Type;
  Settings : Type;
  Slot : Type;
  tip_settings : TipRef → Settings;
  (** [tip.time_frame().slot_at(&time)] *)
  slot_at : TipRef → Z → option Slot;
  (** [era.from_slot_to_era(slot)] converted to a block date *)
  from_slot_to_era : TipRef → Slot → option BlockDate;
  (** [valid_transaction_date(settings, valid_until, date)] *)
  valid_transaction_date : Settings → BlockDate → BlockDate → result TxValidityError unit;
}.

Module Mempool.
Import InternalPool Selection.
Section mempool.
Context `{FragmentOps} `{!LedgerOps} `{!LruCache FragmentId (FragmentLog * option BlockDate)}
  `{!TipOps}.

(** An entry of the persistent log: the time of reception and the fragment. *)
Record PersistentFragmentLog := mkPersistent {
  plog_time : Z;
  plog_fragment : Fragment;
}.

(** The counters of [Metrics] that the pool writes.  The usage ratio is kept as
    the fraction whose [f64] quotient the source reports. *)
Record Metrics := mkMetrics {
  tx_recv_cnt : Z;
  tx_rejected_cnt : Z;
  mempool_usage_ratio : Z * Z;
  mempool_total_size : Z;
}.

(** [struct Pool]: the network message box is the list of the messages sent
    through it, the persistent log the entries handed to its writer. *)
Record Pool := mkMempool {
  logs : Logs.Logs;
  pool : InternalPool.Pool;
  network_msgs : list Fragment;
  persistent_log : option (list PersistentFragmentLog);
  metrics : Metrics;
}.

Definition set_logs (l : Logs.Logs) (s : Pool) : Pool :=
  mkMempool l (pool s) (network_msgs s) (persistent_log s) (metrics s).
Definition set_pool (p : InternalPool.Pool) (s : Pool) : Pool :=
  mkMempool (logs s) p (network_msgs s) (persistent_log s) (metrics s).
Definition set_msgs (m : list Fragment) (s : Pool) : Pool :=
  mkMempool (logs s) (pool s) m (persistent_log s) (metrics s).
Definition set_plog (l : option (list PersistentFragmentLog)) (s : Pool) : Pool :=
  mkMempool (logs s) (pool s) (network_msgs s) l (metrics s).
Definition set_metrics (m : Metrics) (s : Pool) : Pool :=
  mkMempool (logs s) (pool s) (network_msgs s) (persistent_log s) m.

Definition mempool_new (max_entries : Z) (l : Logs.Logs)
    (plog : option (list PersistentFragmentLog)) (m : Metrics) : Pool :=
  mkMempool l (pool_new max_entries) [] plog m.

Definition set_persistent_log (s : Pool) : Pool := set_plog (Some []) s.
Definition close_persistent_log (s : Pool) : Pool := set_plog None s.

Definition update_metrics (s : Pool) : Pool :=
  let usage :=
    if (max_entries (pool s) =? 0)%Z then (1, 1)%Z
    else (pool_len (pool s), max_entries (pool s)) in
  set_metrics (mkMetrics (tx_recv_cnt (metrics s)) (tx_rejected_cnt (metrics s)) usage
                 (total_size_bytes (pool s))) s.

Definition add_tx_rejected_cnt (n : nat) (s : Pool) : Pool :=
  let m := metrics s in
  set_metrics (mkMetrics (tx_recv_cnt m) (usize_add (tx_rejected_cnt m) (Z.of_nat n))
                 (mempool_usage_ratio m) (mempool_total_size m)) s.

Definition add_tx_recv_cnt (n : nat) (s : Pool) : Pool :=
  let m := metrics s in
  set_metrics (mkMetrics (usize_add (tx_recv_cnt m) (Z.of_nat n)) (tx_rejected_cnt m)
                 (mempool_usage_ratio m) (mempool_total_size m)) s.

(** [get_current_block_date]: the date of the slot after the current one; the
    [expect] on the conversion is [None]. *)
Definition get_current_block_date (tip : TipRef) (now : Z) : option BlockDate :=
  slot ← slot_at tip now;
  date ← from_slot_to_era tip slot;
  Some (mkBlockDate (epoch date) (u32_add (slot_id date) 1)).

Definition filter_fragment (now : Z) (fragment : Fragment) (id : FragmentId)
    (ledger_settings : Settings) (block_date : BlockDate) (s : Pool)
    : Pool * result FragmentRejectionReason unit :=
  if Logs.exists_ id (logs s) then (s, Err FragmentAlreadyInLog)
  else
    let validity :=
      match get_transaction_expiry_date fragment with
      | Some valid_until => valid_transaction_date ledger_settings valid_until block_date
      | None => Ok tt
      end in
    match validity with
    | Err TransactionExpired => (s, Err FragmentExpired)
    | Err TransactionValidForTooLong => (s, Err FragmentValidForTooLong)
    | Ok _ =>
        if negb (is_fragment_valid fragment) then (s, Err FragmentInvalid)
        else
          match persistent_log s with
          | Some log => (set_plog (Some (log ++ [mkPersistent now fragment])) s, Ok tt)
          | None => (s, Ok tt)
          end
    end.

(** The first loop of [insert_and_propagate_all]: the state, the fragments that
    passed, the rejections, and the fragments left in the iterator when
    [fail_fast] broke out of the loop. *)
Fixpoint filter_loop (clock : Clock) (settings : Settings) (block_date : BlockDate)
    (fail_fast : bool) (fragments : list (Fragment * FragmentId)) (s : Pool)
    : Pool * list (Fragment * FragmentId) * list RejectedFragmentInfo
      * list (Fragment * FragmentId) :=
  match fragments with
  | [] => (s, [], [], [])
  | (fragment, id) :: fragments' =>
      let '(s, r) := filter_fragment (clock 0) fragment id settings block_date s in
      match r with
      | Err FragmentInvalid =>
          if fail_fast then (s, [], [mkRejected id FragmentInvalid], fragments')
          else
            let '(s, filtered, rejected, rest) :=
              filter_loop (tick 1 clock) settings block_date fail_fast fragments' s in
            (s, filtered, mkRejected id FragmentInvalid :: rejected, rest)
      | Err reason =>
          let '(s, filtered, rejected, rest) :=
            filter_loop (tick 1 clock) settings block_date fail_fast fragments' s in
          (s, filtered, mkRejected id reason :: rejected, rest)
      | Ok _ =>
          let '(s, filtered, rejected, rest) :=
            filter_loop (tick 1 clock) settings block_date fail_fast fragments' s in
          (s, (fragment, id) :: filtered, rejected, rest)
      end
  end.

(** Error of the pool: the network task's message box is closed. *)
Inductive PoolError := CannotPropagate.

(** The propagation loop.  [can_send] says whether the message box still
    accepts a message after those already sent. *)
Fixpoint propagate (can_send : list Fragment → bool)
    (new_fragments : list (Fragment * FragmentId)) (s : Pool)
    : Pool * result PoolError (list FragmentId) :=
  match new_fragments with
  | [] => (s, Ok [])
  | (fragment, id) :: new_fragments' =>
      if can_send (network_msgs s) then
        let '(s, r) := propagate can_send new_fragments'
                         (set_msgs (network_msgs s ++ [fragment]) s) in
        (s, let? accepted := r in Ok (id :: accepted))
      else (s, Err CannotPropagate)
  end.

(** The logs registered for the new fragments of a batch. *)
Definition new_logs (times : nat → Clock) (origin : FragmentOrigin)
    (new_ : list (Fragment * FragmentId)) : list FragmentLog :=
  imap (λ i x, log_new (times i) x.2 origin) new_.

Definition insert_and_propagate_all (can_send : list Fragment → bool) (clock : Clock)
    (tip : TipRef) (origin : FragmentOrigin) (fragments : list Fragment) (fail_fast : bool)
    (s : Pool) : option (Pool * result PoolError FragmentsProcessingSummary) :=
  let fragments := (λ f, (f, fragment_hash f)) <$> fragments in
  block_date ← get_current_block_date tip (clock 0);
  let '(s, filtered, rejected, rest) :=
    filter_loop (tick 1 clock) (tip_settings tip) block_date fail_fast fragments s in
  let rejected := rejected ++
    (if fail_fast then (λ x, mkRejected x.2 PreviousFragmentInvalid) <$> rest else []) in
  '(p, new_fragments, overflow) ← insert_all filtered (pool s);
  let s := set_pool p s in
  let clock := tick (1 + length fragments) clock in
  let fragment_logs := new_logs (λ i, tick (2 * i) clock) origin new_fragments in
  '(ls, _) ← Logs.insert_all_pending fragment_logs (logs s);
  let s := update_metrics (set_logs ls s) in
  let '(s, r) := propagate can_send new_fragments s in
  Some (s, let? accepted := r in
           Ok (mkSummary accepted
                 (rejected ++ ((λ x, mkRejected x.2 PoolOverflow) <$> overflow)))).

(** Panics unless the status is [InABlock]. *)
Definition remove_added_to_block (clock : Clock) (ids : list FragmentId) (st : FragmentStatus)
    (s : Pool) : option Pool :=
  match st with
  | InABlock date _ =>
      p ← remove_all ids (pool s);
      let s := set_logs (Logs.modify_all clock ids st date (logs s)) (set_pool p s) in
      Some (update_metrics s)
  | _ => None
  end.

Definition select (fuel : nat) (clocks : nat → Clock) (timings : nat → Timing)
    (l : ApplyBlockLedger) (s : Pool) : option (Pool * (list Fragment * ApplyBlockLedger)) :=
  '(ls, p, r) ← Selection.select fuel clocks timings l (logs s) (pool s);
  let s := add_tx_rejected_cnt (rejected_fragments_cnt r) (set_pool p (set_logs ls s)) in
  Some (update_metrics s, (contents r, ledger r)).

Definition prune_after_ledger_branch (branch_date : BlockDate) (s : Pool) : option Pool :=
  ls ← Logs.remove_logs_after_date branch_date (logs s);
  Some (update_metrics (set_logs ls s)).

Definition remove_expired_txs (clock : Clock) (tip : TipRef) (s : Pool) : option Pool :=
  block_date ← get_current_block_date tip (clock 0);
  '(p, ids) ← InternalPool.remove_expired_txs block_date (pool s);
  let s := add_tx_rejected_cnt (length ids) (set_pool p s) in
  let ls := Logs.modify_all (tick 1 clock) ids (Rejected "fragment expired") block_date (logs s) in
  Some (update_metrics (set_logs ls s)).

(** ** The message loop *)

Inductive TransactionMsg :=
| SendTransactions (origin : FragmentOrigin) (fragments : list Fragment) (fail_fast : bool)
| RemoveTransactions (ids : list FragmentId) (st : FragmentStatus)
| GetLogs
| GetStatuses (ids : list FragmentId)
| BranchSwitch (fork_date : BlockDate)
| SelectTransactions (l : ApplyBlockLedger).

Inductive Reply :=
| NoReply
| Summary (s : FragmentsProcessingSummary)
| LogsReply (l : list FragmentLog)
| Statuses (m : gmap FragmentId FragmentStatus)
| Selected (c : list Fragment) (l : ApplyBlockLedger).

(** What the environment contributes to the handling of one message. *)
Record Env := mkEnv {
  env_tip : TipRef;
  env_clock : Clock;
  env_can_send : list Fragment → bool;
  env_timings : nat → Timing;
}.

(** One turn of [Process::start] on a received message: [Err] ends the task. *)
Definition handle_msg (env : Env) (msg : TransactionMsg) (s : Pool)
    : option (result PoolError (Pool * Reply)) :=
  match msg with
  | SendTransactions origin fragments fail_fast =>
      '(s', r) ← insert_and_propagate_all (env_can_send env) (env_clock env) (env_tip env)
                   origin fragments fail_fast s;
      Some (let? summary := r in
            Ok (add_tx_recv_cnt (length (accepted summary)) s', Summary summary))
  | RemoveTransactions ids st =>
      s1 ← remove_added_to_block (env_clock env) ids st s;
      s2 ← remove_expired_txs (tick (3 * length ids) (env_clock env)) (env_tip env) s1;
      Some (Ok (s2, NoReply))
  | GetLogs => Some (Ok (s, LogsReply (Logs.logs (logs s))))
  | GetStatuses ids => Some (Ok (s, Statuses (status <$> Logs.logs_by_ids ids (logs s))))
  | BranchSwitch fork_date =>
      s' ← prune_after_ledger_branch fork_date s; Some (Ok (s', NoReply))
  | SelectTransactions l =>
      '(s', (c, l')) ← select (S (Z.to_nat (pool_len (pool s)))) (λ i, tick (3 * i) (env_clock env))
                         (env_timings env) l s;
      Some (Ok (s', Selected c l'))
  end.

(** The state [Process::start] creates: the logs get at least as many entries
    as the pool. *)
Definition process_init (pool_max_entries logs_max_entries : Z)
    (plog : option (list PersistentFragmentLog)) (m : Metrics) : Pool :=
  mempool_new pool_max_entries
    (Logs.logs_new (Z.to_nat (Z.max logs_max_entries pool_max_entries))) plog m.

(** The hourly rotation of the persistent log. *)
Definition rotate_persistent_log (s : Pool) : Pool := set_persistent_log (close_persistent_log s).

(** ** Filtering *)

Definition with_hash (fs : list Fragment) : list (Fragment * FragmentId) :=
  (λ f, (f, fragment_hash f)) <$> fs.


Context `{!LruLaws FragmentId Logs.entry}.
Implicit Types (s : Pool) (fs : list (Fragment * FragmentId)).

(** Whether a fragment passes the filter depends on the logs only. *)
Definition check (ls : Logs.Logs) (settings : Settings) (date : BlockDate)
    (x : Fragment * FragmentId) : result FragmentRejectionReason unit :=
  (filter_fragment 0 x.1 x.2 settings date
     (mkMempool ls (pool_new 0) [] None (mkMetrics 0 0 (0, 0)%Z 0))).2.

(** States that differ by their persistent log only. *)
Definition same_but_plog s s' : Prop :=
  logs s' = logs s ∧ pool s' = pool s ∧ network_msgs s' = network_msgs s ∧ metrics s' = metrics s.

Lemma filter_fragment_check now f id settings date s :
  (filter_fragment now f id settings date s).2 = check (logs s) settings date (f, id) ∧
  same_but_plog s (filter_fragment now f id settings date s).1.
Proof.
  unfold check, filter_fragment, same_but_plog. simpl.
  repeat (case_match; simpl; simplify_eq; try done).
Qed.

Definition is_invalid (r : result FragmentRejectionReason unit) : bool :=
  match r with Err FragmentInvalid => true | _ => false end.

(** The batch, cut after the first invalid fragment when failing fast. *)
Fixpoint cut (ls : Logs.Logs) settings date (fail_fast : bool) fs : list (Fragment * FragmentId)
    * list (Fragment * FragmentId) :=
  match fs with
  | [] => ([], [])
  | x :: fs' =>
      if fail_fast && is_invalid (check ls settings date x) then ([x], fs')
      else let r := cut ls settings date fail_fast fs' in (x :: r.1, r.2)
  end.

Definition passed (ls : Logs.Logs) settings date fs :=
  filter (λ x, is_ok (check ls settings date x) = true) fs.

Definition failed (ls : Logs.Logs) settings date fs : list RejectedFragmentInfo :=
  omap (λ x, match check ls settings date x with
             | Ok _ => None | Err r => Some (mkRejected x.2 r) end) fs.

Lemma filter_loop_spec clock settings date ff fs s :
  let done := (cut (logs s) settings date ff fs).1 in
  ∃ s', filter_loop clock settings date ff fs s =
        (s', passed (logs s) settings date done, failed (logs s) settings date done,
         (cut (logs s) settings date ff fs).2) ∧ same_but_plog s s'.
Proof.
  revert clock s. induction fs as [|[f id] fs IH]; intros clock s; cbn [filter_loop cut].
  { eexists. done. }
  destruct (filter_fragment_check (clock 0) f id settings date s) as [Hc Hs].
  destruct (filter_fragment _ _ _ _ _ s) as [s1 r] eqn:Hf. simpl in Hc, Hs. subst r.
  destruct (IH (tick 1 clock) s1) as (s' & Heq & Hs'). destruct Hs as (Hl & Hp & Hm & Hmt).
  rewrite Hl in Heq. rewrite Heq. destruct Hs' as (Hl' & Hp' & Hm' & Hmt').
  assert (same_but_plog s s1) by done.
  assert (same_but_plog s s') by (unfold same_but_plog; split_and!; congruence).
  unfold passed, failed.
  destruct (check (logs s) settings date (f, id)) as [[]|r] eqn:Hck; simpl.
  - rewrite andb_false_r. simpl. rewrite filter_cons_True by (by rewrite Hck). rewrite Hck. eauto.
  - destruct r; simpl; rewrite ?andb_false_r; simpl;
      try (rewrite filter_cons_False by (by rewrite Hck); rewrite Hck; by eauto).
    destruct ff; simpl; rewrite filter_cons_False by (by rewrite Hck); rewrite Hck; eauto.
Qed.

Lemma cut_app ls settings date ff fs :
  (cut ls settings date ff fs).1 ++ (cut ls settings date ff fs).2 = fs.
Proof.
  induction fs as [|x fs IH]; simpl; [done|]. case_match; simpl; [done|]. by rewrite IH.
Qed.

Lemma cut_slow ls settings date fs : cut ls settings date false fs = (fs, []).
Proof. induction fs as [|x fs IH]; simpl; [done|]. by rewrite IH. Qed.

Lemma cut_fail_fast ls settings date (before : list Fragment) bad (rest : list Fragment) :
  (∀ f, f ∈ before → is_invalid (check ls settings date (f, fragment_hash f)) = false) →
  is_invalid (check ls settings date (bad, fragment_hash bad)) = true →
  cut ls settings date true (with_hash (before ++ bad :: rest))
  = (with_hash before ++ [(bad, fragment_hash bad)], with_hash rest).
Proof.
  intros Hb Hbad. induction before as [|f before IH]; simpl.
  - by rewrite Hbad.
  - rewrite Hb by set_solver. simpl. fold (with_hash (before ++ bad :: rest)).
    rewrite IH by set_solver. done.
Qed.

Lemma passed_failed ls settings date fs x :
  x ∈ fs → x ∈ passed ls settings date fs ∨ x.2 ∈ rejected_id <$> failed ls settings date fs.
Proof.
  intros Hin. destruct (check ls settings date x) as [[]|r] eqn:Hc.
  - left. apply list_elem_of_filter. by rewrite Hc.
  - right. apply list_elem_of_fmap. exists (mkRejected x.2 r). split; [done|].
    apply list_elem_of_omap. exists x. by rewrite Hc.
Qed.

(** ** Insertion and propagation *)

Lemma propagate_spec can_send new_ s :
  let '(s', r) := propagate can_send new_ s in
  logs s' = logs s ∧ pool s' = pool s ∧ persistent_log s' = persistent_log s ∧
  metrics s' = metrics s ∧
  match r with
  | Ok acc => acc = new_.*2 ∧ network_msgs s' = network_msgs s ++ new_.*1
  | Err _ => can_send (network_msgs s') = false ∧
             ∃ k, k < length new_ ∧ network_msgs s' = network_msgs s ++ take k new_.*1
  end.
Proof.
  revert s. induction new_ as [|[f id] new_ IH]; intros s; simpl.
  { by rewrite app_nil_r. }
  destruct (can_send (network_msgs s)) eqn:Hc.
  - specialize (IH (set_msgs (network_msgs s ++ [f]) s)).
    destruct (propagate _ _ _) as [s' r]. simpl in IH. destruct IH as (-> & -> & -> & -> & IH).
    split_and!; [done..|]. destruct r as [acc|[]].
    + destruct IH as [-> ->]. by rewrite <- app_assoc.
    + destruct IH as (? & k & ? & Hm). split; [done|]. exists (S k). simpl. split; [lia|].
      rewrite Hm, <- app_assoc. done.
  - split_and!; [done..|]. exists 0. simpl. rewrite app_nil_r. split; [lia|done].
Qed.

(** The pool holds the fragments [l], newest first; its logs are coherent and
    at least as many as the pool may hold. *)
Record mempool_inv s (l : list (FragmentId * Fragment)) : Prop := {
  mp_pool : pool_inv (pool s) l;
  mp_logs : Logs.logs_inv (logs s);
  mp_cap : (max_entries (pool s) ≤ Z.of_nat (lru_cap (logs s)))%Z;
}.

(** The metrics published after an operation describe the pool it leaves. *)
Definition metrics_ok s : Prop :=
  mempool_total_size (metrics s) = total_size_bytes (pool s) ∧
  mempool_usage_ratio (metrics s) =
    if (max_entries (pool s) =? 0)%Z then (1, 1)%Z else (pool_len (pool s), max_entries (pool s)).

(** What a batch is answered: what is accepted and what is rejected, given the
    logs, the settings and date of the tip, the pooled identifiers and the room. *)
Definition batch (ls : Logs.Logs) settings date ff (ids : list FragmentId) (room : nat) fs
    : list (Fragment * FragmentId) * list RejectedFragmentInfo :=
  let c := cut ls settings date ff fs in
  let a := accept room ids (passed ls settings date c.1) in
  (a.1, failed ls settings date c.1
        ++ (if ff then (λ x, mkRejected x.2 PreviousFragmentInvalid) <$> c.2 else [])
        ++ ((λ x, mkRejected x.2 PoolOverflow) <$> a.2)).

Definition room_of s : nat := Z.to_nat (max_entries (pool s) - pool_len (pool s)).

Lemma pool_len_inv p l : pool_inv p l → pool_len p = Z.of_nat (length l).
Proof. intros Hp. unfold pool_len. by rewrite (IndexedDeque.repr_len _ l) by apply Hp. Qed.

Lemma check_ok_unlogged ls settings date x :
  check ls settings date x = Ok tt → x.2 ∉ (lru_entries ls).*1.
Proof.
  unfold check, filter_fragment, Logs.exists_. simpl. rewrite lru_contains_spec.
  intros Hc Hin. rewrite bool_decide_eq_true_2 in Hc by done. done.
Qed.

Lemma new_logs_ids times origin new_ : fragment_id <$> new_logs times origin new_ = new_.*2.
Proof.
  unfold new_logs. revert times. induction new_ as [|x new_ IH]; intros times; simpl; [done|].
  f_equal. apply (IH (times ∘ S)).
Qed.

Lemma new_logs_elem times origin new_ log :
  log ∈ new_logs times origin new_ → log_is_pending log = true ∧ received_from log = origin.
Proof.
  intros [i Hi]%list_elem_of_lookup. unfold new_logs in Hi. rewrite list_lookup_imap in Hi.
  by destruct (new_ !! i); simplify_eq/=.
Qed.

(** Registering them keeps them all when the cache is large enough. *)
Lemma register_new_logs times origin new_ (ls : Logs.Logs) :
  NoDup new_.*2 → (∀ x, x ∈ new_ → x.2 ∉ (lru_entries ls).*1) → length new_ ≤ lru_cap ls →
  ∃ ls' n, Logs.insert_all_pending (new_logs times origin new_) ls = Some (ls', n) ∧
    lru_cap ls' = lru_cap ls ∧
    ∀ id, id ∈ new_.*2 → ∃ log, lru_peek id ls' = Some (log, None) ∧
      log_is_pending log = true ∧ received_from log = origin.
Proof.
  intros Hnd Hfresh Hcap. set (lgs := new_logs times origin new_).
  assert (fragment_id <$> lgs = new_.*2) as Hids by apply new_logs_ids.
  destruct (Logs.insert_all_pending_entries lgs ls) as (ls' & Hins & Hc & He).
  { apply Forall_forall. intros log Hin. by apply new_logs_elem in Hin as []. }
  { by rewrite Hids. }
  { intros log Hin. apply (list_elem_of_fmap_2 fragment_id) in Hin. rewrite Hids in Hin.
    apply list_elem_of_fmap in Hin as (x & -> & Hx). auto. }
  exists ls', (length lgs). split_and!; [done..|].
  intros id Hin. rewrite <- Hids in Hin. apply list_elem_of_fmap in Hin as (log & -> & Hin).
  exists log. split; [|by apply new_logs_elem in Hin].
  rewrite lru_peek_spec, He. set (mk := λ log, (fragment_id log, (log, None))) in *.
  rewrite take_app_ge.
  2:{ by rewrite length_reverse, length_fmap, <- (length_fmap fragment_id), Hids, length_fmap. }
  rewrite alist_get_app, (alist_get_NoDup _ (log, None)); [done| |].
  - rewrite fmap_reverse, <- list_fmap_compose. rewrite reverse_Permutation.
    rewrite (list_fmap_ext _ fragment_id) by done. by rewrite Hids.
  - apply elem_of_reverse. by apply (list_elem_of_fmap_2 mk).
Qed.

Lemma insert_and_propagate_all_spec can_send clock tip origin fragments ff s l date :
  mempool_inv s l → get_current_block_date tip (clock 0) = Some date →
  let b := batch (logs s) (tip_settings tip) date ff l.*1 (room_of s) (with_hash fragments) in
  ∃ s' r,
    insert_and_propagate_all can_send clock tip origin fragments ff s = Some (s', r) ∧
    mempool_inv s' (reverse (swap_pair <$> b.1) ++ l) ∧ metrics_ok s' ∧
    (∀ id, id ∈ b.1.*2 → ∃ log, lru_peek id (logs s') = Some (log, None) ∧
       log_is_pending log = true ∧ received_from log = origin) ∧
    match r with
    | Ok sm => accepted sm = b.1.*2 ∧ rejected sm = b.2 ∧
               network_msgs s' = network_msgs s ++ b.1.*1
    | Err CannotPropagate => can_send (network_msgs s') = false
    end.
Proof.
  intros [Hp Hl Hcap] Hdate b. unfold insert_and_propagate_all. rewrite Hdate.
  cbn [mbind option_bind]. fold (with_hash fragments).
  destruct (filter_loop_spec (tick 1 clock) (tip_settings tip) date ff (with_hash fragments) s)
    as (s1 & -> & Hl1 & Hp1 & Hm1 & Hmt1).
  unfold batch in b. set (c := cut _ _ _ _ _) in *. set (pass := passed _ _ _ c.1) in *.
  rewrite Hp1. destruct (insert_all_spec pass (pool s) l Hp) as (p' & -> & Hmax & Hp').
  rewrite <- (pool_len_inv _ l Hp) in Hp' |- *.
  change (Z.to_nat (max_entries (pool s) - pool_len (pool s))) with (room_of s) in *.
  set (a := accept (room_of s) l.*1 pass) in *. simpl.
  destruct (accept_fresh (room_of s) l.*1 pass) as (Hnd & Hfresh & Hlen & Hsub). fold a in Hnd, Hfresh, Hlen, Hsub.
  match goal with |- context [new_logs ?t _ _] => set (times := t) end.
  destruct (register_new_logs times origin a.1 (logs s1)) as (ls' & n & Hins & Hc' & Hpeek); [done| | |].
  { rewrite Hl1. intros x Hx. apply (sublist_subseteq _ _ Hsub), list_elem_of_filter in Hx as [Hx _].
    apply (check_ok_unlogged _ (tip_settings tip) date). by destruct (check _ _ _ x) as [[]|]. }
  { rewrite Hl1. unfold room_of in Hlen. rewrite (pool_len_inv _ l Hp) in Hlen. lia. }
  rewrite Hins. simpl. rewrite Hl1 in Hc'.
  pose proof (propagate_spec can_send a.1 (update_metrics (set_logs ls' (set_pool p' s1)))) as Hprop.
  destruct (propagate _ _ _) as [s' r]. destruct Hprop as (Hls & Hps & _ & Hms & Hr). simpl in *.
  eexists s', _. split; [done|]. split; [|split; [|split]].
  - split.
    + rewrite Hps. done.
    + rewrite Hls. eapply Logs.insert_all_pending_inv; [|done]. by rewrite Hl1.
    + rewrite Hps, Hls, Hc', Hmax. done.
  - unfold metrics_ok. rewrite Hms, Hps. done.
  - by rewrite Hls.
  - destruct r as [acc|[]]; simpl; [|tauto]. destruct Hr as [-> Hmsgs].
    split; [done|]. split; [by rewrite <- app_assoc|]. by rewrite Hmsgs, Hm1.
Qed.

(** ** The other operations *)

Lemma process_init_inv pm lm plog m :
  (0 ≤ pm < U64)%Z → mempool_inv (process_init pm lm plog m) [].
Proof.
  intros Hpm. split; simpl.
  - by apply pool_new_inv.
  - apply Logs.logs_new_inv.
  - unfold Logs.logs_new. rewrite lru_new_cap. lia.
Qed.

Lemma update_metrics_inv s l : mempool_inv s l → mempool_inv (update_metrics s) l.
Proof. intros []. by split. Qed.

Lemma add_tx_rejected_cnt_inv n s l : mempool_inv s l → mempool_inv (add_tx_rejected_cnt n s) l.
Proof. intros []. by split. Qed.

Lemma remove_added_to_block_spec clock ids date b s l :
  mempool_inv s l →
  ∃ s', remove_added_to_block clock ids (InABlock date b) s = Some s' ∧
        mempool_inv s' (filter (λ kv, kv.1 ∉ ids) l) ∧ metrics_ok s' ∧
        logs s' = Logs.modify_all clock ids (InABlock date b) date (logs s).
Proof.
  intros [Hp Hl Hc]. unfold remove_added_to_block.
  destruct (remove_all_spec ids (pool s) l Hp) as (p' & -> & Hmax & Hp'). simpl.
  eexists. split; [done|]. split_and!; [|done|done].
  split; simpl; [done|by apply Logs.modify_all_inv|]. rewrite Logs.modify_all_cap. lia.
Qed.

Lemma remove_expired_txs_inv clock tip s l date :
  mempool_inv s l → get_current_block_date tip (clock 0) = Some date →
  ∃ s', remove_expired_txs clock tip s = Some s' ∧
        mempool_inv s' (filter (λ kv, expired date kv.2 = false) l) ∧ metrics_ok s'.
Proof.
  intros [Hp Hl Hc] Hd. unfold remove_expired_txs. rewrite Hd. simpl.
  destruct (remove_expired_txs_spec date (pool s) l Hp) as (p' & ids & -> & Hmax & Hp' & _). simpl.
  eexists. split; [done|]. split; [|done].
  split; simpl; [done|by apply Logs.modify_all_inv|]. rewrite Logs.modify_all_cap. lia.
Qed.

Lemma mempool_select_spec fuel clocks timings l0 s l :
  mempool_inv s l → length l < fuel →
  ∃ s' c l' kept, select fuel clocks timings l0 s = Some (s', (c, l')) ∧
    mempool_inv s' kept ∧ kept `sublist_of` l ∧ metrics_ok s'.
Proof.
  intros [Hp Hl Hc] Hf. unfold select.
  destruct (select_spec fuel clocks timings l0 (logs s) (pool s) l Hp Hl Hf)
    as (ls' & p' & r & os & kept & -> & -> & Hp' & Hmax & _ & _ & _ & _ & Hl' & Hcap'). simpl.
  eexists _, _, _, _. split; [done|]. split_and!; [|by apply sublist_app, reverse_sublist, pick_sublist|done..].
  split; simpl; [done..|]. lia.
Qed.

Lemma prune_after_ledger_branch_spec date s l :
  mempool_inv s l →
  ∃ s', prune_after_ledger_branch date s = Some s' ∧ mempool_inv s' l ∧ metrics_ok s'.
Proof.
  intros [Hp Hl Hc]. unfold prune_after_ledger_branch.
  destruct (Logs.remove_logs_after_date_inv date (logs s) Hl) as (ls' & -> & Hl' & Hcap). simpl.
  eexists. split; [done|]. split; [|done]. split; simpl; [done..|]. lia.
Qed.

(** ** The task *)

(** The messages the node sends: removals carry the block they are due to. *)
Definition msg_ok (msg : TransactionMsg) : Prop :=
  match msg with
  | RemoveTransactions _ st => status_is_in_a_block st = true
  | _ => True
  end.

(** The tip always gives a date to the current time, as the source expects. *)
Definition env_ok (env : Env) : Prop :=
  ∀ t, is_Some (get_current_block_date (env_tip env) t).

Lemma handle_msg_inv env msg s l :
  mempool_inv s l → msg_ok msg → env_ok env →
  match handle_msg env msg s with
  | Some (Ok (s', _)) => ∃ l', mempool_inv s' l'
  | Some (Err CannotPropagate) => ∃ o (fs : list Fragment) ff sent,
      msg = SendTransactions o fs ff ∧ env_can_send env sent = false
  | None => False
  end.
Proof.
  intros Hinv Hmsg Henv.
  destruct msg as [o fs ff|ids st| |ids|date|l0]; cbn [handle_msg].
  - destruct (Henv (env_clock env 0)) as [date Hd].
    destruct (insert_and_propagate_all_spec (env_can_send env) (env_clock env) (env_tip env)
      o fs ff s l date Hinv Hd) as (s' & r & -> & [] & _ & _ & Hr). simpl.
    destruct r as [sm|[]]; [eexists; by split|eauto 10].
  - destruct st as [|r|date b]; [done|done|].
    destruct (remove_added_to_block_spec (env_clock env) ids date b s l Hinv)
      as (s1 & -> & Hinv1 & _). cbn [mbind option_bind].
    set (clk := tick (3 * length ids) (env_clock env)).
    destruct (Henv (clk 0)) as [d Hd].
    destruct (remove_expired_txs_inv clk (env_tip env) s1 _ d Hinv1 Hd) as (s2 & -> & ? & _).
    simpl. eauto.
  - eauto.
  - eauto.
  - destruct (prune_after_ledger_branch_spec date s l Hinv) as (s' & -> & ? & _). simpl. eauto.
  - destruct (mempool_select_spec (S (Z.to_nat (pool_len (pool s))))
      (λ i, tick (3 * i) (env_clock env)) (env_timings env) l0 s l Hinv)
      as (s' & c & l' & kept & -> & ? & _); [|simpl; eauto].
    rewrite (pool_len_inv _ l) by apply Hinv. lia.
Qed.

(** The states the task goes through: it handles messages and rotates its
    persistent log, in any order. *)
Inductive task_reachable (pm lm : Z) (plog : option (list PersistentFragmentLog)) (m : Metrics)
    : Pool → Prop :=
| task_init : task_reachable pm lm plog m (process_init pm lm plog m)
| task_msg s env msg s' reply :
    task_reachable pm lm plog m s → msg_ok msg → env_ok env →
    handle_msg env msg s = Some (Ok (s', reply)) → task_reachable pm lm plog m s'
| task_rotate s :
    task_reachable pm lm plog m s → task_reachable pm lm plog m (rotate_persistent_log s).

Lemma task_reachable_inv pm lm plog m s :
  (0 ≤ pm < U64)%Z → task_reachable pm lm plog m s → ∃ l, mempool_inv s l.
Proof.
  intros Hpm. induction 1 as [|s env msg s' reply _ [l IH] Hmsg Henv Hh|s _ [l IH]].
  - eexists. by apply process_init_inv.
  - pose proof (handle_msg_inv env msg s l IH Hmsg Henv) as Hinv. by rewrite Hh in Hinv.
  - exists l. destruct IH. by split.
Qed.

(** ** What a batch is answered *)

Lemma batch_cover ls settings date ff ids room fs x :
  x ∈ fs →
  x.2 ∈ ids ∨ x.2 ∈ (batch ls settings date ff ids room fs).1.*2 ∨
  x.2 ∈ rejected_id <$> (batch ls settings date ff ids room fs).2.
Proof.
  intros Hx. unfold batch. simpl. rewrite !fmap_app, !elem_of_app, <- !list_fmap_compose.
  rewrite <- (cut_app ls settings date ff fs) in Hx. apply elem_of_app in Hx as [Hx|Hx].
  - apply (passed_failed ls settings date) in Hx as [Hx|Hx]; [|tauto].
    apply (accept_cover room ids) in Hx as [?|[?|Hx]]; [tauto..|].
    do 4 right. apply list_elem_of_fmap. by exists x.
  - destruct ff; [|rewrite cut_slow in Hx; set_solver].
    right; right; right; left. rewrite <- list_fmap_compose. apply list_elem_of_fmap. by exists x.
Qed.

Lemma batch_accepted ls settings date ff ids room fs x :
  x ∈ (batch ls settings date ff ids room fs).1 → x ∈ fs ∧ check ls settings date x = Ok tt.
Proof.
  unfold batch. simpl. intros Hx.
  apply (sublist_subseteq _ _ (proj2 (proj2 (proj2 (accept_fresh _ _ _))))) in Hx.
  apply list_elem_of_filter in Hx as [Hc Hx]. split.
  - rewrite <- (cut_app ls settings date ff fs). apply elem_of_app. by left.
  - by destruct (check ls settings date x) as [[]|].
Qed.

Lemma check_ok ls settings date x :
  check ls settings date x = Ok tt →
  is_fragment_valid x.1 = true ∧ Logs.exists_ x.2 ls = false ∧
  ∀ d, get_transaction_expiry_date x.1 = Some d →
       valid_transaction_date settings d date = Ok tt.
Proof.
  unfold check, filter_fragment. simpl. intros Hc.
  destruct (Logs.exists_ x.2 ls) eqn:?; [done|].
  destruct (get_transaction_expiry_date x.1) as [d|] eqn:Hd; simpl in Hc.
  - destruct (valid_transaction_date settings d date) as [[]|[]] eqn:Hv; simplify_eq/=.
    destruct (is_fragment_valid x.1); simplify_eq/=. naive_solver.
  - destruct (is_fragment_valid x.1); simplify_eq/=. naive_solver.
Qed.

(** ** The properties of the memory pool *)


(** No submitted fragment is lost silently.  After a successful submission every
    fragment of the batch is in the pool or its identifier is listed as
    rejected; the accepted ones were valid, not logged before, and not expired at
    the tip. *)
Theorem submission_accounted can_send clock tip origin fragments ff s l date s' sm :
  mempool_inv s l → get_current_block_date tip (clock 0) = Some date →
  insert_and_propagate_all can_send clock tip origin fragments ff s = Some (s', Ok sm) →
  (∃ l', mempool_inv s' l' ∧
    ∀ f, f ∈ fragments → fragment_hash f ∈ l'.*1 ∨ fragment_hash f ∈ rejected_id <$> rejected sm) ∧
  (∀ id, id ∈ accepted sm → ∃ f, f ∈ fragments ∧ fragment_hash f = id ∧
     is_fragment_valid f = true ∧ Logs.exists_ id (logs s) = false ∧
     ∀ d, get_transaction_expiry_date f = Some d →
          valid_transaction_date (tip_settings tip) d date = Ok tt).
Proof.
  intros Hinv Hd Heq.
  destruct (insert_and_propagate_all_spec can_send clock tip origin fragments ff s l date Hinv Hd)
    as (s'' & r & Heq' & Hinv' & _ & _ & Hr).
  rewrite Heq in Heq'. simplify_eq. destruct Hr as (Hacc & Hrej & _).
  set (b := batch _ _ _ _ _ _ _) in *. split.
  - exists (reverse (swap_pair <$> b.1) ++ l). split; [done|]. intros f Hf.
    rewrite fmap_app, fmap_reverse, <- list_fmap_compose, elem_of_app, elem_of_reverse.
    rewrite (list_fmap_ext (fst ∘ swap_pair) snd) by done. rewrite Hrej.
    assert ((f, fragment_hash f) ∈ with_hash fragments) as Hin.
    { apply list_elem_of_fmap. eauto. }
    apply (batch_cover (logs s) (tip_settings tip) date ff l.*1 (room_of s)) in Hin.
    fold b in Hin. simpl in Hin. tauto.
  - intros id Hid. rewrite Hacc in Hid. apply list_elem_of_fmap in Hid as (x & -> & Hx).
    apply batch_accepted in Hx as [Hx Hc]. unfold with_hash in Hx.
    apply list_elem_of_fmap in Hx as (f & -> & Hf). apply check_ok in Hc. exists f. naive_solver.
Qed.

(** [fail_fast].  When a fragment of the batch is invalid on its own, all the
    fragments after the first such one are rejected because of it, whatever
    they are, and none of them is accepted or propagated on their own account; the
    fragments before it are treated as usual. *)
Theorem fail_fast_rejects_rest can_send clock tip origin before bad rest s l date s' sm :
  mempool_inv s l → get_current_block_date tip (clock 0) = Some date →
  (∀ f, f ∈ before → is_invalid (check (logs s) (tip_settings tip) date (f, fragment_hash f)) = false) →
  is_invalid (check (logs s) (tip_settings tip) date (bad, fragment_hash bad)) = true →
  insert_and_propagate_all can_send clock tip origin (before ++ bad :: rest) true s
    = Some (s', Ok sm) →
  let b := batch (logs s) (tip_settings tip) date false l.*1 (room_of s) (with_hash before) in
  accepted sm = b.1.*2 ∧ network_msgs s' = network_msgs s ++ b.1.*1 ∧
  (∀ f, f ∈ rest → mkRejected (fragment_hash f) PreviousFragmentInvalid ∈ rejected sm) ∧
  mkRejected (fragment_hash bad) FragmentInvalid ∈ rejected sm.
Proof.
  intros Hinv Hd Hbefore Hbad Heq b.
  destruct (insert_and_propagate_all_spec can_send clock tip origin (before ++ bad :: rest) true
    s l date Hinv Hd) as (s'' & r & Heq' & _ & _ & _ & Hr).
  rewrite Heq in Heq'. simplify_eq. destruct Hr as (Hacc & Hrej & Hmsg).
  unfold batch in Hacc, Hrej, Hmsg. rewrite cut_fail_fast in Hacc, Hrej, Hmsg by done.
  assert (passed (logs s) (tip_settings tip) date (with_hash before ++ [(bad, fragment_hash bad)])
    = passed (logs s) (tip_settings tip) date (with_hash before)) as Hpass.
  { unfold passed. rewrite filter_app, filter_cons_False; [apply app_nil_r|].
    by destruct (check _ _ _ _) as [|[]]. }
  simpl in Hacc, Hmsg, Hrej. rewrite Hpass in Hacc, Hmsg.
  subst b. unfold batch. rewrite cut_slow. split_and!; [done|done| |].
  - intros f Hf. rewrite Hrej, !elem_of_app. right; left. apply list_elem_of_fmap.
    exists (f, fragment_hash f). split; [done|]. apply list_elem_of_fmap. eauto.
  - rewrite Hrej, !elem_of_app. left. apply list_elem_of_omap.
    exists (bad, fragment_hash bad). split; [set_solver|].
    by destruct (check _ _ _ (bad, _)) as [|[]]; simplify_eq/=.
Qed.


End mempool.
End Mempool.

Module SampleMempool.
Import SampleFragments SampleLedger ListLru Mempool.

(** Slots are seconds, epochs last 100 slots, and a transaction may be valid at
    most until the next epoch. *)
#[export] Instance tip_ops : TipOps := {|
  TipRef := unit;
  Settings := unit;
  Slot := Z;
  tip_settings _ := tt;
  slot_at _ t := Some t;
  from_slot_to_era _ t := Some (mkBlockDate (t / 100) (t mod 100));
  valid_transaction_date _ valid_until date :=
    if date_ltb valid_until date then Err TransactionExpired
    else if (epoch date + 1 <? epoch valid_until)%Z then Err TransactionValidForTooLong
    else Ok tt;
|}.

Definition tip0 : TipRef := tt.
Definition metrics0 : Metrics := mkMetrics 0 0 (0, 1)%Z 0.
Definition state0 : Pool := process_init 3 1 (Some []) metrics0.
Definition clock7 : Clock := λ _, 7%Z.
Definition always : list Fragment → bool := λ _, true.

Definition unbalanced (i : Z) : Fragment := Transaction_ (mkTx i (mkBlockDate 0 90) false 10).

Lemma state0_inv : mempool_inv state0 [].
Proof. by apply process_init_inv. Qed.

Definition env0 : Env := mkEnv tip0 clock7 always (λ _, InTime).

Lemma env0_ok : env_ok env0.
Proof. intros t. eexists. reflexivity. Qed.

(** Fragment 9 expired; fragment 5 overflows the pool of three. *)
Definition batch1 : list Fragment :=
  [sample 1 10 100; sample 9 3 1; sample 2 15 50; sample 1 10 100; sample 4 30 5; sample 5 30 5].

Definition result1 := insert_and_propagate_all always clock7 tip0 Rest batch1 false state0.
Definition state1 : Pool := match result1 with Some (s, _) => s | None => state0 end.
Definition summary1 : FragmentsProcessingSummary :=
  mkSummary [1%Z; 2%Z; 4%Z] [mkRejected 9%Z FragmentExpired; mkRejected 5%Z PoolOverflow].

Example result1_value : result1 = Some (state1, Ok summary1).
Proof.
  assert (snd <$> result1 = Some (Ok summary1)) as Hs by (vm_compute; reflexivity).
  unfold state1. destruct result1 as [[s r]|]; simplify_eq/=. reflexivity.
Qed.


Lemma submission_accounted_witness :
  ∃ l', mempool_inv state1 l' ∧
    ∀ f, f ∈ batch1 → fragment_hash f ∈ l'.*1 ∨ fragment_hash f ∈ rejected_id <$> rejected summary1.
Proof.
  destruct (submission_accounted always clock7 tip0 Rest batch1 false state0 [] (mkBlockDate 0 8)
    state1 summary1 state0_inv eq_refl result1_value) as [H _].
  exact H.
Defined.

Definition batch2 : list Fragment := [sample 1 10 100] ++ unbalanced 2 :: [sample 3 20 7].
Definition result2 := insert_and_propagate_all always clock7 tip0 Rest batch2 true state0.
Definition state2 : Pool := match result2 with Some (s, _) => s | None => state0 end.
Definition summary2 : FragmentsProcessingSummary :=
  mkSummary [1%Z] [mkRejected 2%Z FragmentInvalid; mkRejected 3%Z PreviousFragmentInvalid].

Example result2_value : result2 = Some (state2, Ok summary2).
Proof.
  assert (snd <$> result2 = Some (Ok summary2)) as Hs by (vm_compute; reflexivity).
  unfold state2. destruct result2 as [[s r]|]; simplify_eq/=. reflexivity.
Qed.

Lemma fail_fast_rejects_rest_witness :
  accepted summary2 = [1%Z] ∧ network_msgs state2 = [sample 1 10 100].
Proof.
  destruct (fail_fast_rejects_rest always clock7 tip0 Rest [sample 1 10 100] (unbalanced 2)
    [sample 3 20 7] state0 [] (mkBlockDate 0 8) state2 summary2 state0_inv eq_refl) as (H1 & H2 & _).
  - intros f Hf. apply list_elem_of_singleton in Hf. subst. vm_compute. reflexivity.
  - vm_compute. reflexivity.
  - exact result2_value.
  - split; [exact H1|exact H2].
Defined.

Definition removal : TransactionMsg := RemoveTransactions [1%Z] (InABlock (mkBlockDate 0 9) 5%Z).


End SampleMempool.
