(* ===== verification/Storage.v ===== *)
(** * Block storage

    Models [jormungandr/src/blockchain/storage.rs], the typed layer over the
    chain library's [BlockStore].  The store itself and the binary formats of
    blocks and hashes are parameters (classes [ChainTypes], [BlockStore]), with
    the documented behaviour the layer relies on as laws ([BlockStoreLaws]). *)

From S2P Require Import Prelude BlockDate Deque Fragment.

(** The headers and blocks of the chain library, and their binary formats. *)
Class ChainTypes `{FragmentTypes} := {
  Header : Type;
  header_hash : Header → HeaderHash;
  block_parent_hash : Header → HeaderHash;
  header_block_date : Header → BlockDate;
  (** a [u32] *)
  chain_length : Header → Z;
  (** [ChainLength::next] *)
  chain_length_next : Z → Z;
  HeaderDesc : Type;
  header_description : Header → HeaderDesc;
  Block : Type;
  block_header : Block → Header;
  (** [block.fragments()] *)
  block_fragments : Block → list Fragment;
  Bytes : Type;
  bytes_len : Bytes → Z;
  hash_bytes : HeaderHash → Bytes;
  ReadError : Type;
  hash_deserialize : Bytes → result ReadError HeaderHash;
  block_serialize : Block → Bytes;
  block_deserialize : Bytes → result ReadError Block;
}.

Class ChainTypesLaws `{ChainTypes} : Prop := {
  hash_roundtrip h : hash_deserialize (hash_bytes h) = Ok h;
  block_roundtrip b : block_deserialize (block_serialize b) = Ok b;
  chain_length_next_succ n : (0 ≤ n < U32 - 1)%Z → chain_length_next n = (n + 1)%Z;
  chain_length_u32 h : (0 ≤ chain_length h < U32)%Z;
}.

(** [chain_storage::Error]: the variants the layer tells apart. *)
Inductive BackendError :=
| BeBlockNotFound
| BeBlockAlreadyPresent
| BeMissingParent
| BeOther (code : nat).

(** [chain_storage::BlockInfo] *)
Record BlockInfo `{ChainTypes} := mkBlockInfo {
  info_id : Bytes;
  info_parent_id : Bytes;
  info_chain_length : Z;
}.
Arguments mkBlockInfo {_ _} _ _ _.

(** The operations of [chain_storage::BlockStore] the layer calls. *)
Class BlockStore `{ChainTypes} := {
  store : Type;
  bs_get_tag : string → store → result BackendError (option Bytes);
  bs_put_tag : string → Bytes → store → result BackendError store;
  bs_get_block : Bytes → store → result BackendError Bytes;
  bs_get_block_info : Bytes → store → result BackendError BlockInfo;
  bs_block_exists : Bytes → store → result BackendError bool;
  bs_put_block : Bytes → BlockInfo → store → result BackendError store;
  bs_get_tips_ids : store → result BackendError (list Bytes);
  bs_get_blocks_by_chain_length : Z → store → result BackendError (list Bytes);
  bs_get_nth_ancestor : Bytes → Z → store → result BackendError BlockInfo;
  bs_is_ancestor : Bytes → Bytes → store → result BackendError (option Z);
  (** as many blocks as the distance says, oldest first, ending at the given one *)
  bs_iter : Bytes → Z → store → result BackendError (list (result BackendError Bytes));
  bs_find_lowest_common_ancestor :
    Bytes → Bytes → store → result BackendError (option BlockInfo);
  bs_prune_branch : Bytes → store → result BackendError store;
  bs_flush_to_permanent_store : Bytes → nat → store → result BackendError (store * nat);
}.

Class BlockStoreLaws `{BlockStore} : Prop := {
  (** a stored block can be read back *)
  bs_put_get raw info s s' :
    bs_put_block raw info s = Ok s' →
    bs_get_block (info_id info) s' = Ok raw ∧ bs_block_exists (info_id info) s' = Ok true;
  (** ... and does not change the others *)
  bs_put_get_other raw info s s' id :
    bs_put_block raw info s = Ok s' → id ≠ info_id info → bs_get_block id s' = bs_get_block id s;
  bs_put_get_tag tag id s s' : bs_put_tag tag id s = Ok s' → bs_get_tag tag s' = Ok (Some id);
  bs_put_tag_block tag id s s' id' :
    bs_put_tag tag id s = Ok s' → bs_get_block id' s' = bs_get_block id' s;
  (** blocks are immutable: pruning may remove them, never alter them *)
  bs_prune_info id s s' id' i :
    bs_prune_branch id s = Ok s' →
    bs_get_block_info id' s' = Ok i → bs_get_block_info id' s = Ok i;
}.

Module Storage.
Section storage.
Context `{BlockStore}.

Definition MINIMUM_BLOCKS_TO_FLUSH : nat := 256.

Inductive Error :=
| BlockNotFound
| BackendErr (e : BackendError)
| Deserialize (e : ReadError)
| BlockAlreadyPresent
| MissingParent
| CannotIterate.

(** [From<StorageError> for Error] *)
Definition from_backend (e : BackendError) : Error :=
  match e with
  | BeBlockNotFound => BlockNotFound
  | BeBlockAlreadyPresent => BlockAlreadyPresent
  | BeMissingParent => MissingParent
  | e => BackendErr e
  end.

Record Ancestor := mkAncestor {
  anc_header_hash : HeaderHash;
  anc_distance : Z;
}.

Definition deserialize_hash (b : Bytes) : result Error HeaderHash :=
  map_err Deserialize (hash_deserialize b).
Definition deserialize_block (b : Bytes) : result Error Block :=
  map_err Deserialize (block_deserialize b).

(** [iter.map(f).collect::<Result<Vec<_>, _>>()] *)
Fixpoint collect_results {E A B} (f : A → result E B) (l : list A) : result E (list B) :=
  match l with
  | [] => Ok []
  | a :: l' => let? b := f a in let? bs := collect_results f l' in Ok (b :: bs)
  end.

Definition get_tag (tag : string) (s : store) : result Error (option HeaderHash) :=
  let? maybe_block_id := map_err from_backend (bs_get_tag tag s) in
  match maybe_block_id with
  | Some block_id => let? h := deserialize_hash block_id in Ok (Some h)
  | None => Ok None
  end.

Definition put_tag (tag : string) (h : HeaderHash) (s : store) : result Error store :=
  map_err from_backend (bs_put_tag tag (hash_bytes h) s).

Definition get (h : HeaderHash) (s : store) : result Error (option Block) :=
  match bs_get_block (hash_bytes h) s with
  | Ok block => let? b := deserialize_block block in Ok (Some b)
  | Err BeBlockNotFound => Ok None
  | Err e => Err (BackendErr e)
  end.

Definition block_exists (h : HeaderHash) (s : store) : result Error bool :=
  map_err from_backend (bs_block_exists (hash_bytes h) s).

Definition get_branches (s : store) : result Error (list HeaderHash) :=
  let? ids := map_err from_backend (bs_get_tips_ids s) in
  collect_results deserialize_hash ids.

Definition get_blocks_by_chain_length (n : Z) (s : store) : result Error (list Block) :=
  let? blocks := map_err from_backend (bs_get_blocks_by_chain_length n s) in
  collect_results deserialize_block blocks.

(** [None] is the panic of the [expect]. *)
Definition get_nth_ancestor (h : HeaderHash) (distance : Z) (s : store)
    : option (result Error (option Block)) :=
  match bs_get_nth_ancestor (hash_bytes h) distance s with
  | Ok info =>
      match bs_get_block (info_id info) s with
      | Ok block => Some (let? b := deserialize_block block in Ok (Some b))
      | Err _ => None
      end
  | Err BeBlockNotFound => Some (Ok None)
  | Err e => Some (Err (BackendErr e))
  end.

Definition block_info_of (b : Block) : BlockInfo :=
  mkBlockInfo (hash_bytes (header_hash (block_header b)))
    (hash_bytes (block_parent_hash (block_header b))) (chain_length (block_header b)).

Definition put_block (b : Block) (s : store) : result Error store :=
  map_err from_backend (bs_put_block (block_serialize b) (block_info_of b) s).

Definition get_parent (h : HeaderHash) (s : store) : result Error (option HeaderHash) :=
  match bs_get_block_info (hash_bytes h) s with
  | Ok info => let? p := deserialize_hash (info_parent_id info) in Ok (Some p)
  | Err _ => Ok None
  end.

Definition is_ancestor (a b : HeaderHash) (s : store) : bool :=
  match bs_is_ancestor (hash_bytes a) (hash_bytes b) s with
  | Ok (Some _) => true
  | _ => false
  end.

Definition get_chain_length (h : HeaderHash) (s : store) : option Z :=
  match bs_get_block_info (hash_bytes h) s with
  | Ok info => Some (info_chain_length info)
  | Err _ => None
  end.

(** The stream, as the list of its items. *)
Definition stream_from_to (from to : HeaderHash) (s : store)
    : result Error (list (result Error Block)) :=
  let? maybe_distance := map_err from_backend (bs_is_ancestor (hash_bytes from) (hash_bytes to) s) in
  match maybe_distance with
  | None => Err CannotIterate
  | Some distance =>
      let? raw := map_err from_backend (bs_iter (hash_bytes to) distance s) in
      Ok ((λ r, let? raw_block := map_err from_backend r in deserialize_block raw_block) <$> raw)
  end.

(** [send_branch_with]: what is sent to the channel, or the error replied. *)
Definition send_branch_with {T} (to : HeaderHash) (depth : option Z) (transform : Block → T)
    (s : store) : result Error (list (result Error T)) :=
  let? raw := map_err from_backend
                (bs_iter (hash_bytes to) (match depth with Some d => d | None => 1 end)%Z s) in
  Ok ((λ r, let? raw_block := map_err from_backend r in
            let? b := deserialize_block raw_block in Ok (transform b)) <$> raw).

Definition send_branch (to : HeaderHash) (depth : option Z) (s : store) :=
  send_branch_with to depth id s.

(** The loop of [find_closest_ancestor]. *)
Fixpoint closest_loop (checkpoints : list HeaderHash) (descendant : HeaderHash)
    (ancestor : option HeaderHash) (closest_found : Z) (s : store)
    : result Error (option HeaderHash * Z) :=
  match checkpoints with
  | [] => Ok (ancestor, closest_found)
  | checkpoint :: checkpoints' =>
      match bs_is_ancestor (hash_bytes checkpoint) (hash_bytes descendant) s with
      | Ok None => closest_loop checkpoints' descendant ancestor closest_found s
      | Ok (Some distance) =>
          if (distance <? closest_found)%Z
          then closest_loop checkpoints' descendant (Some checkpoint) distance s
          else closest_loop checkpoints' descendant ancestor closest_found s
      | Err BeBlockNotFound => closest_loop checkpoints' descendant ancestor closest_found s
      | Err e => Err (from_backend e)
      end
  end.

Definition find_closest_ancestor (checkpoints : list HeaderHash) (descendant : HeaderHash)
    (s : store) : result Error (option Ancestor) :=
  let? r := closest_loop checkpoints descendant None (U32 - 1) s in
  Ok (match r.1 with
      | Some h => Some (mkAncestor h r.2)
      | None => None
      end).

(** [None] is the panic on two blocks without a common ancestor. *)
Definition find_common_ancestor (tip_1 tip_2 : HeaderHash) (s : store)
    : option (result Error HeaderHash) :=
  match bs_find_lowest_common_ancestor (hash_bytes tip_1) (hash_bytes tip_2) s with
  | Ok (Some info) => Some (deserialize_hash (info_id info))
  | Ok None => None
  | Err e => Some (Err (from_backend e))
  end.

(** The loop of [gc] over the tips. *)
Fixpoint prune_loop (tips : list Bytes) (threshold_length : Z) (s : store)
    : store * result Error unit :=
  match tips with
  | [] => (s, Ok tt)
  | id :: tips' =>
      match bs_get_block_info id s with
      | Err e => (s, Err (from_backend e))
      | Ok info =>
          if (threshold_length <? info_chain_length info)%Z
          then prune_loop tips' threshold_length s
          else match bs_prune_branch id s with
               | Err e => (s, Err (from_backend e))
               | Ok s' => prune_loop tips' threshold_length s'
               end
      end
  end.

Definition gc (threshold_depth : Z) (main_branch_tip : HeaderHash) (s : store)
    : store * result Error unit :=
  match bs_get_block_info (hash_bytes main_branch_tip) s with
  | Err e => (s, Err (from_backend e))
  | Ok main_info =>
      if (info_chain_length main_info <? threshold_depth)%Z then (s, Ok tt)
      else
        let threshold_length := (info_chain_length main_info - threshold_depth)%Z in
        match bs_get_tips_ids s with
        | Err e => (s, Err (from_backend e))
        | Ok tips_ids =>
            let '(s, r) := prune_loop tips_ids threshold_length s in
            match r with
            | Err e => (s, Err e)
            | Ok _ =>
                match bs_get_nth_ancestor (hash_bytes main_branch_tip) threshold_depth s with
                | Err e => (s, Err (from_backend e))
                | Ok to_block_info =>
                    match bs_flush_to_permanent_store (info_id to_block_info)
                            MINIMUM_BLOCKS_TO_FLUSH s with
                    | Err e => (s, Err (from_backend e))
                    | Ok (s', _) => (s', Ok tt)
                    end
                end
            end
        end
  end.

(** ** Reading back what was written *)
Section laws.
Context `{!ChainTypesLaws, !BlockStoreLaws}.

Lemma hash_bytes_inj h h' : hash_bytes h = hash_bytes h' → h = h'.
Proof.
  intros Heq. pose proof (hash_roundtrip h) as Hh. rewrite Heq, hash_roundtrip in Hh. congruence.
Qed.

Lemma get_put_same b s s' :
  put_block b s = Ok s' → get (header_hash (block_header b)) s' = Ok (Some b).
Proof.
  unfold put_block, get. destruct (bs_put_block _ _ _) eqn:Hp; intros; simplify_eq/=.
  apply bs_put_get in Hp as [Hg _]. simpl in Hg. rewrite Hg.
  unfold deserialize_block. by rewrite block_roundtrip.
Qed.

Lemma get_put_other b s s' h :
  put_block b s = Ok s' → h ≠ header_hash (block_header b) → get h s' = get h s.
Proof.
  unfold put_block, get. destruct (bs_put_block _ _ _) eqn:Hp; intros; simplify_eq/=.
  rewrite (bs_put_get_other _ _ _ _ (hash_bytes h) Hp); [done|].
  simpl. intros ?%hash_bytes_inj. congruence.
Qed.


(** ** Garbage collection *)
Inductive prune_steps : list Bytes → store → store → Prop :=
| prune_nil s : prune_steps [] s s
| prune_cons id ids s s1 s2 :
    bs_prune_branch id s = Ok s1 → prune_steps ids s1 s2 → prune_steps (id :: ids) s s2.

Lemma prune_steps_info ids s s' id i :
  prune_steps ids s s' → bs_get_block_info id s' = Ok i → bs_get_block_info id s = Ok i.
Proof. induction 1; eauto using bs_prune_info. Qed.

Lemma prune_loop_steps tips thr s s' r :
  prune_loop tips thr s = (s', r) →
  ∃ ids, prune_steps ids s s' ∧ (ids `sublist_of` tips) ∧
    Forall (λ id, ∃ i, bs_get_block_info id s = Ok i ∧ (info_chain_length i ≤ thr)%Z) ids ∧
    (r = Ok tt → Forall (λ id, id ∈ ids ∨
                         ∃ i, bs_get_block_info id s = Ok i ∧ (thr < info_chain_length i)%Z) tips).
Proof.
  revert s. induction tips as [|id tips IH]; intros s; simpl.
  { intros. simplify_eq. exists []. repeat constructor. }
  destruct (bs_get_block_info id s) as [i|e] eqn:Hi.
  2:{ intros. simplify_eq. exists []. repeat split; [constructor|apply sublist_nil_l|done|done]. }
  destruct (Z.ltb_spec thr (info_chain_length i)).
  { intros (ids & ? & ? & ? & Hall)%IH. exists ids. split_and!; [done|by constructor|done|].
    intros Hr. constructor; [right; eauto|auto]. }
  destruct (bs_prune_branch id s) as [s1|e] eqn:Hp.
  2:{ intros. simplify_eq. exists []. repeat split; [constructor|apply sublist_nil_l|done|done]. }
  intros (ids & ? & ? & Hf & Hall)%IH. exists (id :: ids). split_and!.
  - by econstructor.
  - by constructor.
  - constructor; [eauto|]. eapply Forall_impl; [done|]. naive_solver eauto using bs_prune_info.
  - intros Hr. constructor; [left; set_solver|]. eapply Forall_impl; [by apply Hall|].
    intros x [?|(j & ? & ?)]; [left; set_solver|]. right. eauto using bs_prune_info.
Qed.

(** The garbage collector removes only dead branches.  With a chain not
    longer than the stability depth it changes nothing.  Otherwise the store it
    leaves is obtained by pruning some of the tips the store had, each at least
    [depth] blocks shorter than the main branch -- never the main tip itself --
    and, when it succeeds, every such tip has been pruned and the blocks below
    the [depth]-th ancestor of the main tip are handed to permanent storage. *)
Theorem gc_prunes_dead_branches depth tip s s' r main :
  bs_get_block_info (hash_bytes tip) s = Ok main → (0 < depth)%Z →
  gc depth tip s = (s', r) →
  ((info_chain_length main < depth)%Z ∧ s' = s ∧ r = Ok tt) ∨
  ((depth ≤ info_chain_length main)%Z ∧
   ((∃ e, bs_get_tips_ids s = Err e ∧ s' = s ∧ r = Err (from_backend e)) ∨
   ∃ tips ids s1, bs_get_tips_ids s = Ok tips ∧ (ids `sublist_of` tips) ∧ prune_steps ids s s1 ∧
     (hash_bytes tip ∉ ids) ∧
     (∀ id, id ∈ ids → ∃ i, bs_get_block_info id s = Ok i ∧
        (info_chain_length i + depth ≤ info_chain_length main)%Z) ∧
     (s' = s1 ∨ ∃ anc n, bs_get_nth_ancestor (hash_bytes tip) depth s1 = Ok anc ∧
        bs_flush_to_permanent_store (info_id anc) MINIMUM_BLOCKS_TO_FLUSH s1 = Ok (s', n)) ∧
     (r = Ok tt →
        (∃ anc n, bs_get_nth_ancestor (hash_bytes tip) depth s1 = Ok anc ∧
           bs_flush_to_permanent_store (info_id anc) MINIMUM_BLOCKS_TO_FLUSH s1 = Ok (s', n)) ∧
        ∀ id i, id ∈ tips → bs_get_block_info id s = Ok i →
          (info_chain_length i + depth ≤ info_chain_length main)%Z → id ∈ ids))).
Proof.
  intros Hm Hd. unfold gc. rewrite Hm. destruct (Z.ltb_spec (info_chain_length main) depth).
  { intros. simplify_eq. by left. }
  right. split; [done|].
  destruct (bs_get_tips_ids s) as [tips|e] eqn:Ht; [|simplify_eq; left; naive_solver].
  destruct (prune_loop _ _ _) as [s1 r1] eqn:Hl.
  apply prune_loop_steps in Hl as (ids & Hs & Hsub & Hf & Hall). rewrite Forall_forall in Hf.
  right. exists tips, ids, s1. split_and!; [done..| | | |].
  - intros Hin. apply Hf in Hin as (i & Hi & ?). rewrite Hm in Hi. simplify_eq. lia.
  - intros id Hin. apply Hf in Hin as (i & ? & ?). exists i. split; [done|lia].
  - destruct r1 as [|e]; [|simplify_eq; by left].
    destruct (bs_get_nth_ancestor _ _ _) as [anc|e] eqn:?; [|simplify_eq; by left].
    destruct (bs_flush_to_permanent_store _ _ _) as [[s2 n]|e] eqn:?; simplify_eq; [|by left].
    right. eauto.
  - intros ->. destruct r1 as [[]|e]; [|simplify_eq].
    destruct (bs_get_nth_ancestor _ _ _) as [anc|e] eqn:?; [|simplify_eq].
    destruct (bs_flush_to_permanent_store _ _ _) as [[s2 n]|e] eqn:?; simplify_eq.
    split; [eauto|]. specialize (Hall eq_refl). rewrite Forall_forall in Hall.
    intros id i Hin Hi ?. destruct (Hall id Hin) as [?|(j & Hj & ?)]; [done|].
    rewrite Hi in Hj. simplify_eq. lia.
Qed.
End laws.

(** ** The closest checkpoint *)

(** The distance from an ancestor, when the store reports one. *)
Definition ancestor_at (c d : HeaderHash) (s : store) (n : Z) : Prop :=
  bs_is_ancestor (hash_bytes c) (hash_bytes d) s = Ok (Some n).

Lemma closest_loop_spec cps d best n s r :
  closest_loop cps d best n s = Ok r →
  (r.2 ≤ n)%Z ∧ (∀ c m, c ∈ cps → ancestor_at c d s m → (r.2 ≤ m)%Z) ∧
  ((r = (best, n)) ∨ (r.2 < n)%Z ∧ ∃ c, r.1 = Some c ∧ c ∈ cps ∧ ancestor_at c d s r.2).
Proof.
  revert best n. induction cps as [|c cps IH]; intros best n; simpl.
  { intros. simplify_eq. split; [done|]. split; [set_solver|by left]. }
  destruct (bs_is_ancestor _ _ _) as [[m|]|e] eqn:Ha.
  - destruct (Z.ltb_spec m n); intros (Hle & Hall & Hor)%IH; (split_and!; [lia| |]).
    + intros c' m' [->|?]%elem_of_cons Hc; [|eauto]. unfold ancestor_at in Hc. rewrite Ha in Hc. simplify_eq. lia.
    + right. destruct Hor as [->|(? & c' & ? & ? & ?)]; simpl.
      * split; [done|]. exists c. split_and!; [done|set_solver|done].
      * split; [lia|]. exists c'. split_and!; [done|set_solver|done].
    + intros c' m' [->|?]%elem_of_cons Hc; [|eauto]. unfold ancestor_at in Hc. rewrite Ha in Hc. simplify_eq. lia.
    + destruct Hor as [->|(? & c' & ? & ? & ?)]; [by left|right].
      split; [done|]. exists c'. split_and!; [done|set_solver|done].
  - intros (? & Hall & Hor)%IH. split_and!; [done| |].
    + intros c' m' [->|?]%elem_of_cons Hc; [|eauto]. unfold ancestor_at in Hc. rewrite Ha in Hc. simplify_eq.
    + destruct Hor as [|(? & c' & ? & ? & ?)]; [by left|right].
      split; [done|]. exists c'. split_and!; [done|set_solver|done].
  - destruct e; try done. intros (? & Hall & Hor)%IH. split_and!; [done| |].
    + intros c' m' [->|?]%elem_of_cons Hc; [|eauto]. unfold ancestor_at in Hc. rewrite Ha in Hc. simplify_eq.
    + destruct Hor as [|(? & c' & ? & ? & ?)]; [by left|right].
      split; [done|]. exists c'. split_and!; [done|set_solver|done].
Qed.

Lemma closest_loop_err cps d best n s e :
  closest_loop cps d best n s = Err e →
  ∃ c be, c ∈ cps ∧ bs_is_ancestor (hash_bytes c) (hash_bytes d) s = Err be ∧
    be ≠ BeBlockNotFound ∧ e = from_backend be.
Proof.
  revert best n. induction cps as [|c cps IH]; intros best n; simpl; [done|].
  destruct (bs_is_ancestor _ _ _) as [[m|]|e'] eqn:Ha; [destruct (_ <? _)%Z| |destruct e'];
    try (intros Hl; apply IH in Hl; naive_solver set_solver);
    intros; simplify_eq; eexists _, _; split_and!; try done; set_solver.
Qed.

Lemma closest_found cps d s a :
  find_closest_ancestor cps d s = Ok (Some a) →
  anc_header_hash a ∈ cps ∧ ancestor_at (anc_header_hash a) d s (anc_distance a) ∧
  (anc_distance a < U32 - 1)%Z ∧
  ∀ c m, c ∈ cps → ancestor_at c d s m → (anc_distance a ≤ m)%Z.
Proof.
  unfold find_closest_ancestor. destruct (closest_loop _ _ _ _ _) as [r|e] eqn:Hl; [|done].
  apply closest_loop_spec in Hl as (_ & Hall & [->|(? & c & Hc & ? & ?)]); [done|].
  rewrite Hc. intros [= <-]. simpl. eauto.
Qed.

(** [find_closest_ancestor] answers a peer's checkpoints with the nearest
    one: the checkpoint it returns is an ancestor of the given block, at the
    distance reported, and no checkpoint of the list is nearer.  It returns
    none only when no checkpoint is an ancestor at a distance below
    [u32::MAX].  Checkpoints unknown to the store are skipped; it fails only
    with another error of the store on one of the checkpoints. *)
Theorem find_closest_ancestor_correct cps d s :
  match find_closest_ancestor cps d s with
  | Ok (Some a) =>
      anc_header_hash a ∈ cps ∧ ancestor_at (anc_header_hash a) d s (anc_distance a) ∧
      (anc_distance a < U32 - 1)%Z ∧
      ∀ c m, c ∈ cps → ancestor_at c d s m → (anc_distance a ≤ m)%Z
  | Ok None => ∀ c m, c ∈ cps → ancestor_at c d s m → (U32 - 1 ≤ m)%Z
  | Err e =>
      ∃ c be, c ∈ cps ∧ bs_is_ancestor (hash_bytes c) (hash_bytes d) s = Err be ∧
        be ≠ BeBlockNotFound ∧ e = from_backend be
  end.
Proof.
  destruct (find_closest_ancestor cps d s) as [[a|]|e] eqn:Hf; [by apply closest_found| |].
  all: unfold find_closest_ancestor in Hf; destruct (closest_loop _ _ _ _ _) as [r|e'] eqn:Hl;
    simplify_eq/=.
  - apply closest_loop_spec in Hl as (_ & Hall & [->|(? & c & Hc & ? & ?)]); [done|].
    by rewrite Hc in Hf.
  - by apply closest_loop_err in Hl.
Qed.

End storage.
End Storage.

(** ** A store in memory

    Blocks by identifier and tags: an instance of the interfaces that computes. *)
Module SampleStore.
Import SampleFragments Storage.

Record sample_header := mkHeader {
  sh_hash : Z;
  sh_parent : Z;
  sh_date : BlockDate;
  sh_length : Z;
}.
Record sample_block := mkBlock {
  sb_header : sample_header;
  sb_fragments : list Fragment;
}.

Definition clamp32 (n : Z) : Z := if (0 <=? n)%Z && (n <? U32)%Z then n else 0%Z.
Lemma clamp32_bound n : (0 ≤ clamp32 n < U32)%Z.
Proof.
  unfold clamp32. destruct (Z.leb_spec 0 n), (Z.ltb_spec n U32); simpl; done || lia.
Qed.

#[export] Instance chain_types : ChainTypes := {|
  Header := sample_header;
  header_hash := sh_hash;
  block_parent_hash := sh_parent;
  header_block_date := sh_date;
  chain_length h := clamp32 (sh_length h);
  chain_length_next n := (n + 1)%Z;
  HeaderDesc := Z;
  header_description := sh_hash;
  Block := sample_block;
  block_header := sb_header;
  block_fragments := sb_fragments;
  Bytes := Z + sample_block;
  bytes_len b := match b with inl _ => 32%Z | inr _ => 100%Z end;
  hash_bytes := inl;
  ReadError := unit;
  hash_deserialize b := match b with inl h => Ok h | inr _ => Err tt end;
  block_serialize := inr;
  block_deserialize b := match b with inl _ => Err tt | inr b => Ok b end;
|}.

#[export] Instance chain_types_laws : ChainTypesLaws.
Proof. split; [done..|]. intros h. apply clamp32_bound. Qed.

Definition id_of (b : Bytes) : Z := match b with inl h => h | inr b => sh_hash (sb_header b) end.

Record mem := mkMem {
  mem_blocks : list (Z * (Bytes * BlockInfo));
  mem_tags : list (string * Bytes);
}.

Definition mem_find (id : Bytes) (s : mem) : result BackendError (Bytes * BlockInfo) :=
  match id with
  | inl h => match alist_get h (mem_blocks s) with Some e => Ok e | None => Err BeBlockNotFound end
  | inr _ => Err BeBlockNotFound
  end.
Definition mem_get (id : Bytes) (s : mem) : result BackendError Bytes :=
  let? e := mem_find id s in Ok e.1.
Definition mem_info (id : Bytes) (s : mem) : result BackendError BlockInfo :=
  let? e := mem_find id s in Ok e.2.

Definition mem_put (raw : Bytes) (info : BlockInfo) (s : mem) : result BackendError mem :=
  match info_id info with
  | inl id =>
      match alist_get id (mem_blocks s) with
      | Some _ => Err BeBlockAlreadyPresent
      | None => Ok (mkMem ((id, (raw, info)) :: mem_blocks s) (mem_tags s))
      end
  | inr _ => Err (BeOther 0)
  end.

(** The blocks without a child. *)
Definition mem_tips (s : mem) : list Bytes :=
  inl <$> filter (λ id, id ∉ (λ e : Z * (Bytes * BlockInfo), id_of (info_parent_id e.2.2))
                                 <$> mem_blocks s) (mem_blocks s).*1.

Definition mem_prune (id : Bytes) (s : mem) : result BackendError mem :=
  Ok (mkMem (alist_del (id_of id) (mem_blocks s)) (mem_tags s)).

Fixpoint mem_walk (fuel : nat) (id : Bytes) (s : mem) : list (Bytes * BlockInfo) :=
  match fuel with
  | O => []
  | S fuel =>
      match mem_find id s with
      | Ok e => e :: mem_walk fuel (info_parent_id e.2) s
      | Err _ => []
      end
  end.
(** The block and its ancestors. *)
Definition mem_branch (id : Bytes) (s : mem) := mem_walk (length (mem_blocks s)) id s.

Fixpoint find_index (id : Z) (i : Z) (l : list (Bytes * BlockInfo)) : option Z :=
  match l with
  | [] => None
  | e :: l => if decide (id_of (info_id e.2) = id) then Some i else find_index id (i + 1) l
  end.

Definition mem_is_ancestor (a d : Bytes) (s : mem) : result BackendError (option Z) :=
  let? _ := mem_find a s in
  let? _ := mem_find d s in
  Ok (find_index (id_of a) 0 (mem_branch d s)).

Definition mem_iter (to : Bytes) (distance : Z) (s : mem)
    : result BackendError (list (result BackendError Bytes)) :=
  let? _ := mem_find to s in
  Ok ((λ e, Ok e.1) <$> reverse (take (Z.to_nat distance) (mem_branch to s))).

Definition mem_nth (id : Bytes) (n : Z) (s : mem) : result BackendError BlockInfo :=
  match mem_branch id s !! Z.to_nat n with Some e => Ok e.2 | None => Err BeBlockNotFound end.

Definition mem_lca (a b : Bytes) (s : mem) : result BackendError (option BlockInfo) :=
  Ok (head (filter (λ i, is_Some (find_index (id_of (info_id i)) 0 (mem_branch b s)))
              (snd <$> mem_branch a s))).

#[export] Instance mem_store : BlockStore := {|
  store := mem;
  bs_get_tag t s := Ok (alist_get t (mem_tags s));
  bs_put_tag t id s := Ok (mkMem (mem_blocks s) ((t, id) :: mem_tags s));
  bs_get_block := mem_get;
  bs_get_block_info := mem_info;
  bs_block_exists id s := Ok (is_ok (mem_find id s));
  bs_put_block := mem_put;
  bs_get_tips_ids s := Ok (mem_tips s);
  bs_get_blocks_by_chain_length n s :=
    Ok (fst <$> filter (λ e, info_chain_length e.2 = n) (mem_blocks s).*2);
  bs_get_nth_ancestor := mem_nth;
  bs_is_ancestor := mem_is_ancestor;
  bs_iter := mem_iter;
  bs_find_lowest_common_ancestor := mem_lca;
  bs_prune_branch := mem_prune;
  bs_flush_to_permanent_store _ _ s := Ok (s, 0);
|}.

#[export] Instance mem_store_laws : BlockStoreLaws.
Proof.
  split; simpl; unfold mem_put, mem_prune, mem_get, mem_info, mem_find.
  - intros raw info s s'. destruct (info_id info); [|done].
    case_match eqn:Hg; intros; simplify_eq/=. by rewrite decide_True.
  - intros raw info s s' id. destruct (info_id info) as [h|]; [|done].
    case_match eqn:Hg; intros; simplify_eq/=. destruct id; [|done].
    rewrite decide_False by congruence. done.
  - intros. simplify_eq/=. by rewrite decide_True.
  - intros. by simplify_eq/=.
  - intros id s s' id' i Hs. simplify_eq/=. destruct id'; [|done].
    rewrite alist_get_del. by case_decide.
Qed.

(** A chain of four blocks, and a fork of one block from block 0. *)
Definition block_at (h p len : Z) : Block := mkBlock (mkHeader h p (mkBlockDate 0 (10 * len)) len) [].
Definition store_of (bs : list Block) : store :=
  foldl (λ s b, match put_block b s with Ok s' => s' | Err _ => s end) (mkMem [] []) bs.
Definition store0 : store :=
  store_of [block_at 10 9 0; block_at 11 10 1; block_at 12 11 2; block_at 13 12 3; block_at 21 10 1].
Definition hash (z : Z) : HeaderHash := z.

Example closest_of_store0 :
  find_closest_ancestor [hash 10; hash 99; hash 21; hash 12; hash 11] (hash 13) store0
  = Ok (Some (mkAncestor (hash 12) 1)).
Proof. reflexivity. Qed.


(** The fork is pruned, the chain is kept. *)
Lemma gc_prunes_dead_branches_witness :
  ∃ ids, (ids `sublist_of` [hash_bytes (hash 21); hash_bytes (hash 13)]) ∧
         (hash_bytes (hash 13) ∉ ids) ∧ hash_bytes (hash 21) ∈ ids.
Proof.
  destruct (gc_prunes_dead_branches 2 (hash 13) store0 (gc 2 (hash 13) store0).1
    (gc 2 (hash 13) store0).2 (mkBlockInfo (hash_bytes (hash 13)) (hash_bytes (hash 12)) 3)
    eq_refl eq_refl (surjective_pairing _))
    as [[Hlt _]|[_ [(e & He & _)|(tips & ids & s1 & Ht & Hsub & _ & Hn & _ & _ & Hr)]]].
  - exfalso. vm_compute in Hlt. done.
  - exfalso. vm_compute in He. done.
  - vm_compute in Ht. simplify_eq. exists ids. split; [exact Hsub|]. split; [exact Hn|].
    destruct (Hr eq_refl) as [_ Hall].
    apply (Hall _ (mkBlockInfo (hash_bytes (hash 21)) (hash_bytes (hash 10)) 1));
      [left|reflexivity|vm_compute; congruence].
Defined.
End SampleStore.
