(* ===== verification/Chain.v ===== *)
(** * The blockchain object

    Models [jormungandr/src/blockchain/chain.rs] with the pieces it is made of:
    [reference.rs] ([Ref]), [branch.rs], [reference_cache.rs], [multiverse.rs],
    and the reading of block 0 in [jormungandr/src/blockcfg/mod.rs].  Ledgers,
    leadership schedules, time frames and the multiverse of ledgers belong to
    the chain library and are parameters (classes [LedgerTypes],
    [MultiverseOps]). *)

From S2P Require Import Prelude BlockDate Lru Deque Fragment FragmentLogs Storage.

(** The configuration parameters of block 0 that the node looks for. *)
Inductive ConfigParam :=
| SlotDuration (seconds : Z)        (* a [u8] *)
| SlotsPerEpoch (slots : Z)         (* a [u32] *)
| Block0Date (seconds : Z)          (* a [u64] *)
| OtherParam.

Inductive RewardsInfoParameters := ReportAll | ReportDefault.

Class LedgerTypes `{ChainTypes} := {
  Ledger : Type;
  Leadership : Type;
  TimeFrame : Type;
  EpochRewardsInfo : Type;
  StakeDistribution : Type;
  LedgerErr : Type;
  LeadershipError : Type;
  (** [ConfigParams::iter] *)
  config_params : Payload → list ConfigParam;
  (** [ledger.settings().epoch_stability_depth] *)
  epoch_stability_depth : Ledger → Z;
  (** [ledger.get_static_parameters().block0_initial_hash] *)
  block0_initial_hash : Ledger → HeaderHash;
  (** [ledger.consensus_version() == ConsensusVersion::GenesisPraos] *)
  is_genesis_praos : Ledger → bool;
  ledger_new : HeaderHash → list Fragment → result LedgerErr Ledger;
  (** [ledger.apply_block(contents, &header.get_content_eval_context())] *)
  ledger_apply_block : Ledger → list Fragment → Header → result LedgerErr Ledger;
  apply_protocol_changes : Ledger → result LedgerErr Ledger;
  distribute_rewards :
    Ledger → StakeDistribution → RewardsInfoParameters →
    result LedgerErr (Ledger * EpochRewardsInfo);
  leadership_new : Z → Ledger → Leadership;
  stake_distribution : Leadership → option StakeDistribution;
  (** [leadership.verify(header)]: the failure, if any *)
  leadership_verify : Leadership → Header → option LeadershipError;
  (** [TimeFrame::new(Timeline::new(start), SlotDuration::from_secs(secs))] *)
  time_frame_new : Z → Z → TimeFrame;
  ChainSlot : Type;
  (** [leadership.era().from_era_to_slot] *)
  from_era_to_slot : Leadership → BlockDate → ChainSlot;
  (** in nanoseconds after the UNIX epoch *)
  slot_to_systemtime : TimeFrame → ChainSlot → option Z;
  (** whether writing the reward dump of an epoch succeeds *)
  write_reward_info : Z → HeaderHash → EpochRewardsInfo → bool;
}.

(** [chain_impl_mockchain::multiverse] *)
Class MultiverseOps `{LedgerTypes} := {
  multiverse : Type;
  mv_ref : Type;
  mv_new : multiverse;
  mv_insert : Z → HeaderHash → Ledger → multiverse → multiverse * mv_ref;
  mv_get_ref : HeaderHash → multiverse → option mv_ref;
  mv_get : HeaderHash → multiverse → option Ledger;
  mv_gc : Z → multiverse → multiverse;
  mv_id : mv_ref → HeaderHash;
  mv_state : mv_ref → Ledger;
}.
Class MultiverseLaws `{MultiverseOps} : Prop := {
  mv_insert_id n h l m : mv_id (mv_insert n h l m).2 = h;
  mv_insert_state n h l m : mv_state (mv_insert n h l m).2 = l;
}.

(** ** References (reference.rs)

    [Arc<Ref>]: [ref_arc] is the allocation, which [Arc::ptr_eq] compares. *)
#[warnings="-register-all"]
Inductive Ref `{MultiverseOps} := mkRef {
  ref_arc : nat;
  ref_ledger : mv_ref;
  ref_time_frame : TimeFrame;
  epoch_leadership_schedule : Leadership;
  ref_rewards_info : option EpochRewardsInfo;
  ref_header : Header;
  previous_epoch_state : option Ref;
}.
Arguments mkRef {_ _ _ _} _ _ _ _ _ _ _.

Module Reference.
Section reference.
Context `{MultiverseOps}.

Definition ref_hash (r : Ref) : HeaderHash := mv_id (ref_ledger r).
Definition ref_parent_hash (r : Ref) : HeaderHash := block_parent_hash (ref_header r).
Definition ref_date (r : Ref) : BlockDate := header_block_date (ref_header r).
Definition ref_length (r : Ref) : Z := chain_length (ref_header r).
Definition ledger_of (r : Ref) : Ledger := mv_state (ref_ledger r).
Definition last_ref_previous_epoch (r : Ref) : option Ref := previous_epoch_state r.
Definition ref_slot (r : Ref) : ChainSlot :=
  from_era_to_slot (epoch_leadership_schedule r) (ref_date r).
(** [None] is the [unreachable_unchecked] branch. *)
Definition ref_time (r : Ref) : option Z := slot_to_systemtime (ref_time_frame r) (ref_slot r).
(** The elapsed time, or by how much the block is in the future. *)
Definition ref_elapsed (now : Z) (r : Ref) : option (result Z Z) :=
  t ← ref_time r;
  Some (if (t <=? now)%Z then Ok (now - t)%Z else Err (t - now)%Z).
End reference.
End Reference.

(** [Branch] (branch.rs) *)
Record Branch `{MultiverseOps} := mkBranch { branch_ref : Ref }.
Arguments mkBranch {_ _ _ _} _.

(** ** Block 0 (blockcfg/mod.rs) *)
Module Block0.
Inductive Block0Error :=
| NoInitialSettings
| NoStartTime
| NoSlotDuration
| NoSlotsPerEpoch.

Section block0.
Context `{LedgerTypes}.

Fixpoint find_initial (fs : list Fragment) : result Block0Error Payload :=
  match fs with
  | [] => Err NoInitialSettings
  | Initial init :: _ => Ok init
  | _ :: fs' => find_initial fs'
  end.

Definition initial (b : Block) : result Block0Error Payload := find_initial (block_fragments b).

Fixpoint find_param {A} (f : ConfigParam → option A) (l : list ConfigParam) : option A :=
  match l with
  | [] => None
  | c :: l' => match f c with Some a => Some a | None => find_param f l' end
  end.

(** In seconds. *)
Definition slot_duration (b : Block) : result Block0Error Z :=
  let? init := initial b in
  match find_param (λ c, match c with SlotDuration d => Some d | _ => None end)
          (config_params init) with
  | Some d => Ok d
  | None => Err NoSlotDuration
  end.

Definition slots_per_epoch (b : Block) : result Block0Error Z :=
  let? init := initial b in
  match find_param (λ c, match c with SlotsPerEpoch d => Some d | _ => None end)
          (config_params init) with
  | Some d => Ok d
  | None => Err NoSlotsPerEpoch
  end.

(** In seconds after the UNIX epoch. *)
Definition start_time (b : Block) : result Block0Error Z :=
  let? init := initial b in
  match find_param (λ c, match c with Block0Date d => Some d | _ => None end)
          (config_params init) with
  | Some d => Ok d
  | None => Err NoStartTime
  end.
End block0.
End Block0.

(** ** Reporting on a stream of blocks *)
Module StreamReporter.
Section reporter.
Context `{ChainTypes}.

Definition PROCESS_LOGGING_DISTANCE : Z := 2500.

Record StreamInfo := mkStreamInfo {
  start : Z;
  last_reported : Z;
  last_bytes_received : Z;
  bytes_received : Z;
  block_received : Z;
  last_block_description : option HeaderDesc;
}.

Definition reporter_new (now : Z) : StreamInfo := mkStreamInfo now now 0 0 0 None.

(** The report of [load_from_storage]: it panics when the clock went back since
    the last report, or when there is no block to describe. *)
Definition report_loading (now : Z) (i : StreamInfo) : bool :=
  (last_reported i <=? now)%Z && bool_decide (is_Some (last_block_description i)).

(** The report of [bootstrap_from_stream]. *)
Definition report_bootstrap (now : Z) (i : StreamInfo) : bool :=
  bool_decide (is_Some (last_block_description i)).

(** [append_block]: the clock is read by the report, then by the reporter. *)
Definition append_block (report : Z → StreamInfo → bool) (now : Clock) (b : Block)
    (i : StreamInfo) : option StreamInfo :=
  let bytes_received := usize_add (bytes_received i) (bytes_len (block_serialize b)) in
  let block_received := usize_add (block_received i) 1 in
  let i := mkStreamInfo (start i) (last_reported i) (last_bytes_received i) bytes_received
             block_received (Some (header_description (block_header b))) in
  if (block_received mod PROCESS_LOGGING_DISTANCE =? 0)%Z then
    if report (now 0%nat) i
    then Some (mkStreamInfo (start i) (now 1%nat) bytes_received bytes_received block_received
                 (last_block_description i))
    else None
  else Some i.
End reporter.
End StreamReporter.

(** ** The blockchain (chain.rs) *)
Module Blockchain.
Import Reference Block0.

Definition MAIN_BRANCH_TAG : string := "HEAD".

Section chain.
Context `{BlockStore} `{!LedgerTypes} `{!MultiverseOps} `{!LruCache HeaderHash Ref}.

Inductive HeaderChainVerifyError :=
| NewLeadershipScheduleFailed (e : LeadershipError)
| BlockDateBeforeParent (child parent : BlockDate)
| ChainLengthNotIncremental (child parent : Z).

(** The variants of [Error] that the node's functions return; [Intercom] carries
    the storage error it was made from. *)
Inductive Error :=
| StorageErr (e : Storage.Error)
| Intercom (e : Storage.Error)
| Block0Err (e : Block0Error)
| Block0InitialLedgerError (e : LedgerErr)
| Block0AlreadyInStorage
| Block0NotAlreadyInStorage
| MissingParentBlock (h : HeaderHash)
| NoTag (tag : string)
| BlockHeaderVerificationFailed (e : HeaderChainVerifyError)
| CannotApplyBlock (e : LedgerErr)
| TransactionSendError
| SendError.

Definition pre_verify_link (header parent : Header) : result HeaderChainVerifyError unit :=
  if date_leb (header_block_date header) (header_block_date parent)
  then Err (BlockDateBeforeParent (header_block_date header) (header_block_date parent))
  else if decide (chain_length header ≠ chain_length_next (chain_length parent))
  then Err (ChainLengthNotIncremental (chain_length header) (chain_length parent))
  else Ok tt.

(** [Blockchain], with the number of references allocated so far. *)
Record Blockchain := mkBlockchain {
  ref_cache : lru HeaderHash Ref;
  ledgers : multiverse;
  storage : store;
  block0 : HeaderHash;
  rewards_report_all : bool;
  next_arc : nat;
}.

Definition set_ref_cache (c : lru HeaderHash Ref) (b : Blockchain) : Blockchain :=
  mkBlockchain c (ledgers b) (storage b) (block0 b) (rewards_report_all b) (next_arc b).
Definition set_ledgers (m : multiverse) (b : Blockchain) : Blockchain :=
  mkBlockchain (ref_cache b) m (storage b) (block0 b) (rewards_report_all b) (next_arc b).
Definition set_storage (s : store) (b : Blockchain) : Blockchain :=
  mkBlockchain (ref_cache b) (ledgers b) s (block0 b) (rewards_report_all b) (next_arc b).
Definition set_next_arc (n : nat) (b : Blockchain) : Blockchain :=
  mkBlockchain (ref_cache b) (ledgers b) (storage b) (block0 b) (rewards_report_all b) n.

Definition M := prog Blockchain Error.

Definition blockchain_new (block0 : HeaderHash) (s : store) (cache_capacity : nat)
    (rewards_report_all : bool) : Blockchain :=
  mkBlockchain (lru_new cache_capacity) mv_new s block0 rewards_report_all 0.

(** A query of the storage. *)
Definition query {A} (f : store → result Storage.Error A) : M A :=
  λ b, Some (b, map_err StorageErr (f (storage b))).
(** An update of the storage. *)
Definition update (f : store → result Storage.Error store) : M unit :=
  λ b, match f (storage b) with
       | Ok s => Some (set_storage s b, Ok tt)
       | Err e => Some (b, Err (StorageErr e))
       end.

Inductive PreCheckedHeader :=
| AlreadyPresent (header : Header) (cached_reference : option Ref)
| MissingParent (header : Header)
| HeaderWithCache (header : Header) (parent_ref : Ref).

Record EpochLeadership := mkEpochLeadership {
  el_state : Ledger;
  el_leadership : Leadership;
  el_rewards_info : option EpochRewardsInfo;
  el_time_frame : TimeFrame;
  el_previous_state : option Ref;
}.

Record PostCheckedHeader := mkPostChecked {
  pc_header : Header;
  pc_leadership : EpochLeadership;
}.

Record LeadershipBlock := mkLeadershipBlock {
  lb_block : Block;
  lb_new_ledger : Ledger;
  lb_leadership : EpochLeadership;
}.

Inductive AppliedBlock := New (r : Ref) | Existing (r : Ref).
Definition cached_ref (a : AppliedBlock) : Ref := match a with New r => r | Existing r => r end.
Definition new_ref (a : AppliedBlock) : option Ref :=
  match a with New r => Some r | Existing _ => None end.

Inductive CheckHeaderProof := SkipFromStorage | Enabled.

(** *** The reference cache and the multiverse *)
Definition ref_cache_insert (key : HeaderHash) (value : Ref) : M unit :=
  modify_state (λ b, set_ref_cache (lru_put key value (ref_cache b)) b).

Definition ref_cache_get (key : HeaderHash) : M (option Ref) :=
  λ b, let '(c, r) := lru_get key (ref_cache b) in Some (set_ref_cache c b, Ok r).

Definition multiverse_insert (n : Z) (h : HeaderHash) (l : Ledger) : M mv_ref :=
  λ b, let '(m, r) := mv_insert n h l (ledgers b) in Some (set_ledgers m b, Ok r).

(** [Arc::new] *)
Definition arc_new : M nat := λ b, Some (set_next_arc (S (next_arc b)) b, Ok (next_arc b)).

Definition create_and_store_reference (header_hash : HeaderHash) (header : Header)
    (ledger : Ledger) (time_frame : TimeFrame) (leadership : Leadership)
    (rewards_info : option EpochRewardsInfo) (previous : option Ref) : M Ref :=
  ledger_ref ← multiverse_insert (chain_length header) header_hash ledger;
  arc ← arc_new;
  let reference := mkRef arc ledger_ref time_frame leadership rewards_info header previous in
  _ ← ref_cache_insert header_hash reference;
  mret reference.

Definition get_ref (header_hash : HeaderHash) : M (option Ref) :=
  maybe_ref ← ref_cache_get header_hash;
  _ ← query (Storage.block_exists header_hash);
  mret maybe_ref.

(** [branches]: the references of the tips, up to the first error. *)
Fixpoint branches_loop (ids : list HeaderHash) : M (list Branch) :=
  match ids with
  | [] => mret []
  | id :: ids' =>
      r ← get_ref id;
      rest ← branches_loop ids';
      mret (match r with Some r => mkBranch r :: rest | None => rest end)
  end.
Definition branches : M (list Branch) :=
  ids ← query Storage.get_branches;
  branches_loop ids.

(** [self.storage.gc]: an error keeps the branches pruned before it. *)
Definition storage_gc (depth : Z) (tip : HeaderHash) : M unit :=
  λ b, let '(s, r) := Storage.gc depth tip (storage b) in
       Some (set_storage s b, map_err StorageErr r).

Definition gc (tip : Ref) : M unit :=
  let depth := epoch_stability_depth (ledger_of tip) in
  _ ← modify_state (λ b, set_ledgers (mv_gc depth (ledgers b)) b);
  storage_gc depth (ref_hash tip).

(** *** Checking headers *)
Definition load_header_parent (header : Header) (force : bool) : M PreCheckedHeader :=
  let block_id := header_hash header in
  let parent_block_id := block_parent_hash header in
  maybe_self_ref ← (if force then mret None else get_ref block_id);
  maybe_parent_ref ← get_ref parent_block_id;
  mret (match maybe_self_ref, maybe_parent_ref with
        | Some self_ref, _ => AlreadyPresent header (Some self_ref)
        | None, Some parent_ref => HeaderWithCache header parent_ref
        | None, None => MissingParent header
        end).

Definition pre_check_header (header : Header) (force : bool) : M PreCheckedHeader :=
  pre_check ← load_header_parent header force;
  match pre_check with
  | HeaderWithCache header parent_ref =>
      _ ← lift (map_err BlockHeaderVerificationFailed
                  (pre_verify_link header (ref_header parent_ref)));
      mret pre_check
  | _ => mret pre_check
  end.

Definition reward_params (report_all : bool) : RewardsInfoParameters :=
  if report_all then ReportAll else ReportDefault.

(** The rewards of the parent's epoch: the transition state and what was
    distributed; [None] is a panic. *)
Definition transition (epoch : Z) (parent : Ref) (report_all : bool)
    : option (Ledger * option EpochRewardsInfo) :=
  match apply_protocol_changes (ledger_of parent) with
  | Err _ => None
  | Ok ledger =>
      match stake_distribution (epoch_leadership_schedule parent) with
      | Some distribution =>
          match distribute_rewards ledger distribution (reward_params report_all) with
          | Err _ => None
          | Ok (ledger, rewards_info) =>
              if write_reward_info epoch (ref_hash parent) rewards_info
              then Some (ledger, Some rewards_info)
              else None
          end
      | None => Some (ledger, ref_rewards_info parent)
      end
  end.

Definition new_epoch_leadership_from (new_epoch : Z) (parent : Ref) (report_all : bool)
    : option EpochLeadership :=
  if (epoch (ref_date parent) <? new_epoch)%Z then
    '(transition_state, epoch_rewards_info) ← transition new_epoch parent report_all;
    let epoch_state :=
      if is_genesis_praos transition_state then
        match last_ref_previous_epoch parent with
        | Some r => ledger_of r
        | None => ledger_of parent
        end
      else transition_state in
    Some (mkEpochLeadership transition_state (leadership_new new_epoch epoch_state)
            epoch_rewards_info (ref_time_frame parent) (Some parent))
  else
    Some (mkEpochLeadership (ledger_of parent) (epoch_leadership_schedule parent)
            (ref_rewards_info parent) (ref_time_frame parent) (last_ref_previous_epoch parent)).

Definition post_check_header (header : Header) (parent : Ref) (check : CheckHeaderProof)
    : M PostCheckedHeader :=
  report_all ← gets rewards_report_all;
  el ← expect (new_epoch_leadership_from (epoch (header_block_date header)) parent report_all);
  _ ← (match check with
       | Enabled =>
           match leadership_verify (el_leadership el) header with
           | Some error =>
               throw (BlockHeaderVerificationFailed (NewLeadershipScheduleFailed error))
           | None => mret tt
           end
       | SkipFromStorage => mret tt
       end);
  mret (mkPostChecked header el).

(** *** Applying blocks *)
Definition apply_block_dry_run (pc : PostCheckedHeader) (b : Block) : result Error Ledger :=
  map_err CannotApplyBlock
    (ledger_apply_block (el_state (pc_leadership pc)) (block_fragments b) (pc_header pc)).

Definition apply_block_check_rewards (report_all : bool) (pc : PostCheckedHeader) (l : Ledger)
    : result Error unit :=
  match stake_distribution (el_leadership (pc_leadership pc)) with
  | Some distribution =>
      let? _ := map_err CannotApplyBlock
                  (distribute_rewards l distribution (reward_params report_all)) in Ok tt
  | None => Ok tt
  end.

Definition apply_block_finalize (pc : PostCheckedHeader) (new_ledger : Ledger) : M Ref :=
  let header := pc_header pc in
  let el := pc_leadership pc in
  create_and_store_reference (header_hash header) header new_ledger (el_time_frame el)
    (el_leadership el) (el_rewards_info el) (el_previous_state el).

Definition store_and_apply_block_finalize (pc : PostCheckedHeader) (b : Block)
    (new_ledger : Ledger) : M AppliedBlock :=
  res ← attempt (update (Storage.put_block b));
  match res with
  | Ok _ => block_ref ← apply_block_finalize pc new_ledger; mret (New block_ref)
  | Err (StorageErr Storage.BlockAlreadyPresent) =>
      block_ref ← apply_block_finalize pc new_ledger; mret (Existing block_ref)
  | Err e => throw e
  end.

Definition apply_and_store_block (pc : PostCheckedHeader) (b : Block) : M AppliedBlock :=
  report_all ← gets rewards_report_all;
  new_ledger ← lift (apply_block_dry_run pc b);
  _ ← lift (apply_block_check_rewards report_all pc new_ledger);
  store_and_apply_block_finalize pc b new_ledger.

Definition apply_and_store_leadership_block (lb : LeadershipBlock) : M AppliedBlock :=
  let pc := mkPostChecked (block_header (lb_block lb)) (lb_leadership lb) in
  report_all ← gets rewards_report_all;
  _ ← lift (apply_block_check_rewards report_all pc (lb_new_ledger lb));
  store_and_apply_block_finalize pc (lb_block lb) (lb_new_ledger lb).

Definition block0_time_frame (b : Block) : result Block0Error TimeFrame :=
  let? t := start_time b in
  let? d := slot_duration b in
  Ok (time_frame_new t (wrap32 d)).

Definition apply_block0 (b : Block) : M Branch :=
  let block0_id := header_hash (block_header b) in
  let block0_date := header_block_date (block_header b) in
  tf ← lift (map_err Block0Err (block0_time_frame b));
  block0_ledger ← lift (map_err Block0InitialLedgerError
                          (ledger_new block0_id (block_fragments b)));
  r ← create_and_store_reference block0_id (block_header b) block0_ledger tf
        (leadership_new (epoch block0_date) block0_ledger) None None;
  mret (mkBranch r).

(** A new [Tip] is the branch it holds. *)
Definition load_from_block0 (b : Block) : M Branch :=
  let block0_id := header_hash (block_header b) in
  already_exist ← query (Storage.block_exists block0_id);
  if already_exist : bool then throw Block0AlreadyInStorage
  else
    block0_branch ← apply_block0 b;
    _ ← update (Storage.put_block b);
    _ ← update (Storage.put_tag MAIN_BRANCH_TAG block0_id);
    mret block0_branch.

Definition handle_bootstrap_block (b : Block) (check : CheckHeaderProof) : M Ref :=
  pre_checked_header ← pre_check_header (block_header b) true;
  match pre_checked_header with
  | HeaderWithCache header parent_ref =>
      post_checked ← post_check_header header parent_ref check;
      applied ← apply_and_store_block post_checked b;
      mret (cached_ref applied)
  | AlreadyPresent _ cached_reference => expect cached_reference
  | MissingParent header => throw (MissingParentBlock (block_parent_hash header))
  end.

(** The loop of [load_from_storage] over the stored blocks. *)
Fixpoint load_loop (now : Clock) (items : list (result Storage.Error Block))
    (reporter : StreamReporter.StreamInfo) (last_ref : Ref) : M Ref :=
  match items with
  | [] => mret last_ref
  | item :: items' =>
      b ← lift (map_err Intercom item);
      reporter ← expect (StreamReporter.append_block StreamReporter.report_loading now b reporter);
      last_ref ← handle_bootstrap_block b SkipFromStorage;
      load_loop (tick 2 now) items' reporter last_ref
  end.

Definition load_from_storage (now : Clock) (b : Block) : M Branch :=
  let block0_id := header_hash (block_header b) in
  already_exist ← query (Storage.block_exists block0_id);
  if negb already_exist then throw Block0NotAlreadyInStorage
  else
    opt ← query (Storage.get_tag MAIN_BRANCH_TAG);
    match opt with
    | None => throw (NoTag MAIN_BRANCH_TAG)
    | Some head_hash =>
        block0_branch ← apply_block0 b;
        items ← query (Storage.stream_from_to block0_id head_hash);
        last_ref ← load_loop (tick 1 now) items (StreamReporter.reporter_new (now 0))
                     (branch_ref block0_branch);
        mret (mkBranch last_ref)
    end.

End chain.
End Blockchain.

(** ** A ledger for the examples

    It records the blocks applied to it and counts them; the leader
    of every slot is whoever claims it, within the epoch of the schedule. *)
Module SampleChain.
Import SampleFragments SampleStore.

Record toy_ledger := mkToy { toy_block0 : Z; toy_blocks : list Z }.

#[export] Instance toy_ledgers : LedgerTypes := {|
  Ledger := toy_ledger;
  Leadership := Z;
  TimeFrame := Z * Z;
  EpochRewardsInfo := Z;
  StakeDistribution := unit;
  LedgerErr := unit;
  LeadershipError := unit;
  config_params _ := [OtherParam; SlotDuration 10; SlotsPerEpoch 100; Block0Date 1000];
  epoch_stability_depth _ := 2%Z;
  block0_initial_hash := toy_block0;
  is_genesis_praos _ := true;
  ledger_new h _ := Ok (mkToy h [h]);
  ledger_apply_block l _ hd :=
    if decide (chain_length hd = Z.of_nat (length (toy_blocks l)))
    then Ok (mkToy (toy_block0 l) (header_hash hd :: toy_blocks l))
    else Err tt;
  apply_protocol_changes l := Ok l;
  distribute_rewards l _ _ := Ok (l, 0%Z);
  leadership_new e _ := e;
  stake_distribution _ := Some tt;
  leadership_verify e hd :=
    if decide (epoch (header_block_date hd) = e) then None else Some tt;
  time_frame_new t d := (t, d);
  ChainSlot := Z;
  from_era_to_slot _ d := (100 * epoch d + slot_id d)%Z;
  slot_to_systemtime tf s := Some ((tf.1 + tf.2 * s) * 1000000000)%Z;
  write_reward_info _ _ _ := true;
|}.

#[export] Instance toy_multiverse : MultiverseOps := {|
  multiverse := list (Z * toy_ledger);
  mv_ref := Z * toy_ledger;
  mv_new := [];
  mv_insert _ h l m := ((h, l) :: m, (h, l));
  mv_get_ref h m := match alist_get h m with Some l => Some (h, l) | None => None end;
  mv_get := alist_get;
  mv_gc _ m := m;
  mv_id := fst;
  mv_state := snd;
|}.
#[export] Instance toy_multiverse_laws : MultiverseLaws.
Proof. split; reflexivity. Qed.

(** Block [h] on top of [p], the [n]-th of the chain, at slot [s] of epoch [e]. *)
Definition chain_block (h p n e s : Z) (fs : list Fragment) : Block :=
  mkBlock (mkHeader h p (mkBlockDate e s) n) fs.
Definition genesis : Block := chain_block 10 9 0 0 0 [Initial 0%Z].
End SampleChain.
