(* ===== verification/ChainInv.v ===== *)
(** * Validity of the references the node holds

    The contract of [chain.rs]: every [Ref] the blockchain object hands out or
    keeps in its cache stands for a chain of blocks back to block 0, in which
    each block passed the checks of the source against its parent.  Module
    [ChainInv] states this as [valid_chain] (the references of a chain, newest
    first) and proves that every method of [Blockchain] preserves it. *)

From S2P Require Import Prelude BlockDate Lru Deque Fragment FragmentLogs Storage Chain.

Module ChainInv.
Import Reference Block0 Blockchain.

Section inv.
Context `{BlockStore} `{!LedgerTypes} `{!MultiverseOps} `{!LruCache HeaderHash Ref}.

(** Block 0, and whether the rewards of all accounts are reported. *)
Variable B0 : Block.
Variable report_all : bool.
(** The headers whose proof the node does not check again: its own blocks and
    those it reloads from its storage. *)
Variable trusted : Header → Prop.

Definition block0_ref (r : Ref) : Prop :=
  ref_header r = block_header B0 ∧
  ref_hash r = header_hash (block_header B0) ∧
  block0_time_frame B0 = Ok (ref_time_frame r) ∧
  ledger_new (header_hash (block_header B0)) (block_fragments B0) = Ok (ledger_of r) ∧
  epoch_leadership_schedule r = leadership_new (epoch (ref_date r)) (ledger_of r) ∧
  ref_rewards_info r = None ∧ previous_epoch_state r = None.

(** [r] is the reference of a block accepted on top of [p]. *)
Definition link (p r : Ref) : Prop :=
  ∃ el b,
    block_header b = ref_header r ∧
    ref_hash r = header_hash (ref_header r) ∧
    ref_parent_hash r = ref_hash p ∧
    pre_verify_link (ref_header r) (ref_header p) = Ok tt ∧
    new_epoch_leadership_from (epoch (ref_date r)) p report_all = Some el ∧
    (leadership_verify (el_leadership el) (ref_header r) = None ∨ trusted (ref_header r)) ∧
    ledger_apply_block (el_state el) (block_fragments b) (ref_header r) = Ok (ledger_of r) ∧
    apply_block_check_rewards report_all (mkPostChecked (ref_header r) el) (ledger_of r) = Ok tt ∧
    ref_time_frame r = el_time_frame el ∧
    epoch_leadership_schedule r = el_leadership el ∧
    ref_rewards_info r = el_rewards_info el ∧
    previous_epoch_state r = el_previous_state el.

Fixpoint valid_chain (l : list Ref) : Prop :=
  match l with
  | [] => False
  | [r] => block0_ref r
  | r :: (p :: _) as rest => link p r ∧ valid_chain rest
  end.

Definition valid_ref (r : Ref) : Prop := ∃ rest, valid_chain (r :: rest).

Lemma valid_block0 r : block0_ref r → valid_ref r.
Proof. exists []. done. Qed.
Lemma valid_child p r : valid_ref p → link p r → valid_ref r.
Proof. intros [rest Hp] Hl. by exists (p :: rest). Qed.

Lemma valid_ref_hash r : valid_ref r → ref_hash r = header_hash (ref_header r).
Proof.
  intros [[|p rest] Hr]; simpl in Hr.
  - destruct Hr as (-> & -> & _). done.
  - destruct Hr as [(el & b & _ & Hh & _) _]. done.
Qed.

(** Induction on the chains. *)
Lemma valid_chain_ind (P : Ref → list Ref → Prop) :
  (∀ r, block0_ref r → P r []) →
  (∀ p r rest, link p r → valid_chain (p :: rest) → P p rest → P r (p :: rest)) →
  ∀ rest r, valid_chain (r :: rest) → P r rest.
Proof.
  intros Hbase HS rest. induction rest as [|p rest IH]; intros r Hr; [by apply Hbase|].
  destruct Hr as [Hl Hp]. apply HS; [done|done|by apply IH].
Qed.

(** ** What a valid chain looks like *)
Definition ref_epoch (r : Ref) : Z := epoch (ref_date r).

Lemma pre_verify_link_ok h p :
  pre_verify_link h p = Ok tt ↔
  date_ltb (header_block_date p) (header_block_date h) = true ∧
  chain_length h = chain_length_next (chain_length p).
Proof.
  unfold pre_verify_link, date_leb. destruct (date_ltb _ _); simpl; [|naive_solver].
  case_decide; naive_solver.
Qed.

Lemma link_date p r : link p r → date_ltb (ref_date p) (ref_date r) = true.
Proof. intros (el & b & _ & _ & _ & [Hd _]%pre_verify_link_ok & _). done. Qed.

Lemma link_length p r : link p r → ref_length r = chain_length_next (ref_length p).
Proof. intros (el & b & _ & _ & _ & [_ Hd]%pre_verify_link_ok & _). done. Qed.

Lemma date_ltb_epoch a b : date_ltb a b = true → (epoch a ≤ epoch b)%Z.
Proof. rewrite date_ltb_spec. lia. Qed.

Lemma chain_dates r rest :
  valid_chain (r :: rest) → StronglySorted (λ a b, date_ltb (ref_date b) (ref_date a) = true) (r :: rest).
Proof.
  revert rest r. apply (valid_chain_ind (λ r rest, StronglySorted _ (r :: rest))).
  - repeat constructor.
  - intros p r rest Hl _ Hs. constructor; [done|]. apply link_date in Hl.
    constructor; [done|]. apply StronglySorted_inv in Hs as [_ Hs].
    eapply Forall_impl; [exact Hs|]. simpl. intros x Hx. by eapply ltb_trans.
Qed.

Lemma chain_epochs r rest p :
  valid_chain (r :: rest) → p ∈ rest → (ref_epoch p ≤ ref_epoch r)%Z.
Proof.
  intros Hs%chain_dates Hp. apply StronglySorted_inv in Hs as [_ Hs].
  rewrite Forall_forall in Hs. by apply date_ltb_epoch, Hs.
Qed.

Definition last_of_earlier_epoch (e : Z) (rest : list Ref) : option Ref :=
  head (filter (λ p, (ref_epoch p < e)%Z) rest).

Lemma chain_previous r rest :
  valid_chain (r :: rest) →
  previous_epoch_state r = last_of_earlier_epoch (ref_epoch r) rest.
Proof.
  revert rest r. apply (valid_chain_ind (λ r rest, previous_epoch_state r = _)).
  - intros r (_ & _ & _ & _ & _ & _ & ->). done.
  - intros p r rest Hl Hp IH. pose proof (date_ltb_epoch _ _ (link_date _ _ Hl)) as Hle.
    destruct Hl as (el & b & _ & _ & _ & _ & Hel & _ & _ & _ & _ & _ & _ & ->).
    unfold new_epoch_leadership_from in Hel. unfold last_of_earlier_epoch, ref_epoch in *.
    destruct (Z.ltb_spec (epoch (ref_date p)) (epoch (ref_date r))) as [Hlt|Hge].
    + rewrite filter_cons_True by done.
      destruct (transition _ _ _) as [[? ?]|]; simplify_eq/=. done.
    + rewrite filter_cons_False by lia. simplify_eq/=.
      replace (epoch (ref_date r)) with (epoch (ref_date p)) by lia. done.
Qed.

Lemma chain_leadership r rest :
  valid_chain (r :: rest) →
  ∃ st, epoch_leadership_schedule r = leadership_new (ref_epoch r) st.
Proof.
  revert rest r. apply (valid_chain_ind (λ r rest, ∃ st, _ = _)).
  - intros r (_ & _ & _ & _ & -> & _). by eexists.
  - intros p r rest Hl Hp [st Hst]. pose proof (date_ltb_epoch _ _ (link_date _ _ Hl)) as Hle.
    destruct Hl as (el & b & _ & _ & _ & _ & Hel & _ & _ & _ & _ & -> & _).
    unfold new_epoch_leadership_from in Hel. unfold ref_epoch in *.
    destruct (Z.ltb_spec (epoch (ref_date p)) (epoch (ref_date r))) as [Hlt|Hge].
    + destruct (transition _ _ _) as [[? ?]|]; simplify_eq/=. by eexists.
    + simplify_eq/=. exists st. rewrite Hst. f_equal. lia.
Qed.

Lemma chain_hashes r rest :
  valid_chain (r :: rest) →
  ∀ i a b, (r :: rest) !! i = Some a → (r :: rest) !! S i = Some b → ref_parent_hash a = ref_hash b.
Proof.
  revert rest r. apply (valid_chain_ind (λ r rest, ∀ i a b,
    (r :: rest) !! i = Some a → (r :: rest) !! S i = Some b → ref_parent_hash a = ref_hash b)).
  - intros r _ i a b _ Hb. by rewrite lookup_cons in Hb.
  - intros p r rest Hl _ IH [|i] a b Ha Hb; simpl in *; simplify_eq; [|by eapply IH].
    destruct Hl as (el & bl & _ & _ & Hh & _). done.
Qed.

Context `{!ChainTypesLaws}.

Lemma chain_lengths r rest :
  valid_chain (r :: rest) →
  (chain_length (block_header B0) + Z.of_nat (length rest) < U32)%Z →
  ref_length r = (chain_length (block_header B0) + Z.of_nat (length rest))%Z.
Proof.
  revert rest r. apply (valid_chain_ind (λ r rest,
    (chain_length (block_header B0) + Z.of_nat (length rest) < U32)%Z →
    ref_length r = (chain_length (block_header B0) + Z.of_nat (length rest))%Z)).
  - intros r (Hh & _) _. unfold ref_length. rewrite Hh. simpl. lia.
  - intros p r rest Hl _ IH Hlt. rewrite (link_length _ _ Hl).
    pose proof (chain_length_u32 (block_header B0)). simpl length in *.
    rewrite IH by lia. rewrite chain_length_next_succ by lia. lia.
Qed.

(** C23: Every reference of a valid chain is what its documentation says.  Block
    dates strictly increase along the chain and parent hashes match; the chain
    length counts the blocks since block 0; [last_ref_previous_epoch] of a
    reference is the most recent of its ancestors in an earlier epoch (none
    exactly when all of them are in its own epoch); and its leadership schedule
    is one computed for its own epoch. *)
Theorem valid_chain_structure r rest :
  valid_chain (r :: rest) →
  StronglySorted (λ a b, date_ltb (ref_date b) (ref_date a) = true) (r :: rest) ∧
  (∀ i a b, (r :: rest) !! i = Some a → (r :: rest) !! S i = Some b →
     ref_parent_hash a = ref_hash b) ∧
  ((chain_length (block_header B0) + Z.of_nat (length rest) < U32)%Z →
     ref_length r = (chain_length (block_header B0) + Z.of_nat (length rest))%Z) ∧
  last_ref_previous_epoch r = last_of_earlier_epoch (ref_epoch r) rest ∧
  ∃ st, epoch_leadership_schedule r = leadership_new (ref_epoch r) st.
Proof.
  intros Hr. split_and!.
  - by apply chain_dates.
  - by apply chain_hashes.
  - by apply chain_lengths.
  - by apply chain_previous.
  - by eapply chain_leadership.
Qed.

(** ** The invariant of the blockchain object *)
Context `{!LruLaws HeaderHash Ref, !MultiverseLaws}.

Definition cache_ok (bc : Blockchain) : Prop :=
  rewards_report_all bc = report_all ∧
  ∀ h r, (h, r) ∈ lru_entries (ref_cache bc) → ref_hash r = h ∧ valid_ref r.

(** [safe m Q]: [m] keeps the invariant, whether it succeeds or fails, and what
    it returns satisfies [Q]. *)
Definition safe {A} (m : M A) (Q : A → Prop) : Prop :=
  hoare True cache_ok m (λ a s, Q a ∧ cache_ok s) (λ _, cache_ok).

Lemma safe_bind {A B} (m : M A) (f : A → M B) Q Q' :
  safe m Q → (∀ a, Q a → safe (f a) Q') → safe (mbind f m) Q'.
Proof. intros Hm Hf. eapply hoare_bind; [exact Hm|]. intros a. apply hoare_pure. by apply Hf. Qed.
Lemma safe_ret {A} (a : A) (Q : A → Prop) : Q a → safe (mret a) Q.
Proof. intros Ha s Hs. done. Qed.
Lemma safe_weaken {A} (m : M A) (Q Q' : A → Prop) : safe m Q → (∀ a, Q a → Q' a) → safe m Q'.
Proof. intros Hm HQ. eapply hoare_conseq; [exact Hm|done| |done|done]. naive_solver. Qed.
Lemma safe_throw {A} e (Q : A → Prop) : safe (throw e) Q.
Proof. by apply hoare_throw. Qed.
Lemma safe_lift {A} (r : result Error A) : safe (lift r) (λ a, r = Ok a).
Proof. by apply hoare_lift. Qed.
Lemma safe_expect {A} (o : option A) : safe (expect o) (λ a, o = Some a).
Proof. by apply hoare_expect. Qed.
Lemma safe_query {A} (f : store → result Storage.Error A) : safe (query f) (λ _, True).
Proof. intros s Hs. unfold query. by destruct (f _). Qed.
Lemma safe_update f : safe (update f) (λ _, True).
Proof. intros s Hs. unfold update. by destruct (f _). Qed.
Lemma safe_attempt {A} (m : M A) Q :
  safe m Q → safe (attempt m) (λ r, match r with Ok a => Q a | Err _ => True end).
Proof.
  intros Hm. eapply hoare_conseq; [eapply (hoare_attempt _ _ (λ _, cache_ok)), Hm|done| |done|done].
  intros [a|e]; naive_solver.
Qed.
Lemma safe_report_all : safe (gets rewards_report_all) (λ b, b = report_all).
Proof. intros s Hs. simpl. split; [by destruct Hs|done]. Qed.
Lemma safe_arc_new : safe arc_new (λ _, True).
Proof. intros s Hs. done. Qed.
Lemma safe_multiverse_insert n h l :
  safe (multiverse_insert n h l) (λ m, mv_id m = h ∧ mv_state m = l).
Proof.
  intros s Hs. unfold multiverse_insert.
  pose proof (mv_insert_id n h l (ledgers s)). pose proof (mv_insert_state n h l (ledgers s)).
  by destruct (mv_insert _ _ _ _).
Qed.
Lemma safe_ref_cache_get k :
  safe (ref_cache_get k) (λ o, ∀ r, o = Some r → ref_hash r = k ∧ valid_ref r).
Proof.
  intros s [Hra Hc]. unfold ref_cache_get.
  destruct (lru_get_spec k (ref_cache s)) as (Hg & He & _).
  destruct (lru_get k (ref_cache s)) as [c o]. simpl in *. split.
  - intros r ->. apply Hc. by apply alist_get_elem.
  - split; [done|]. simpl. intros h r. rewrite He.
    intros [?|(v & ? & ?)]%lru_touch_elem; simplify_eq/=; by apply Hc.
Qed.
Lemma safe_ref_cache_insert h r :
  ref_hash r = h → valid_ref r → safe (ref_cache_insert h r) (λ _, True).
Proof.
  intros Hh Hr s [Hra Hc]. simpl. split; [done|]. split; [done|].
  intros h' r' [?|?]%lru_put_elem; simplify_eq; [done|by apply Hc].
Qed.

Create HintDb chain_safe.
#[local] Hint Resolve safe_query safe_update safe_arc_new safe_multiverse_insert
  safe_ref_cache_get safe_report_all safe_lift safe_expect safe_throw : chain_safe.

(** Run the first operation of a sequence. *)
Tactic Notation "step" "as" simple_intropattern(x) simple_intropattern(Hx) :=
  eapply safe_bind; [solve [eauto with chain_safe]|cbv beta; intros x Hx].
Tactic Notation "step" := step as ? ?.

Lemma safe_create_and_store_reference h hd l tf ls ri prev :
  (∀ arc m, mv_id m = h → mv_state m = l → valid_ref (mkRef arc m tf ls ri hd prev)) →
  safe (create_and_store_reference h hd l tf ls ri prev)
    (λ r, valid_ref r ∧ ref_header r = hd ∧ ref_hash r = h).
Proof.
  intros Hv. unfold create_and_store_reference. do 2 step.
  eapply safe_bind; [apply safe_ref_cache_insert|intros _ _; apply safe_ret]; naive_solver.
Qed.

Lemma safe_get_ref h : safe (get_ref h) (λ o, ∀ r, o = Some r → ref_hash r = h ∧ valid_ref r).
Proof. unfold get_ref. do 2 step. by apply safe_ret. Qed.
#[local] Hint Resolve safe_get_ref : chain_safe.

Lemma safe_branches : safe branches (Forall (λ b, valid_ref (branch_ref b))).
Proof.
  unfold branches. step as ids _. induction ids as [|id ids IH]; simpl.
  { by apply safe_ret. }
  step as a Ha. eapply safe_bind; [exact IH|]. intros rest Hrest. apply safe_ret.
  destruct a as [r|]; [|done]. constructor; [|done]. naive_solver.
Qed.

Lemma safe_gc tip : safe (gc tip) (λ _, True).
Proof.
  intros s Hs. unfold gc, storage_gc. unfold mbind, prog_bind. simpl.
  destruct (Storage.gc _ _ _) as [s' [u|e]]; done.
Qed.

(** What the checks of a header establish. *)
Definition pre_checked_ok (header : Header) (pre : PreCheckedHeader) : Prop :=
  match pre with
  | AlreadyPresent h (Some r) => h = header ∧ valid_ref r ∧ ref_hash r = header_hash header
  | AlreadyPresent _ None => False
  | MissingParent h => h = header
  | HeaderWithCache h p =>
      h = header ∧ valid_ref p ∧ ref_hash p = block_parent_hash header
  end.

Lemma safe_load_header_parent hd force :
  safe (load_header_parent hd force) (pre_checked_ok hd).
Proof.
  unfold load_header_parent.
  eapply (safe_bind _ _ (λ o, ∀ r, o = Some r → ref_hash r = header_hash hd ∧ valid_ref r)).
  { destruct force; [by apply safe_ret|eauto with chain_safe]. }
  intros self Hself. step as a Ha. apply safe_ret.
  destruct self as [r|]; simpl; [naive_solver|]. destruct a as [p|]; simpl; naive_solver.
Qed.

Lemma safe_pre_check_header hd force :
  safe (pre_check_header hd force)
    (λ pre, pre_checked_ok hd pre ∧
       ∀ h p, pre = HeaderWithCache h p → pre_verify_link hd (ref_header p) = Ok tt).
Proof.
  unfold pre_check_header. eapply safe_bind; [apply safe_load_header_parent|]. intros pre Hpre.
  destruct pre as [h r|h|h p]; [by apply safe_ret..|].
  step. apply safe_ret. split; [done|]. intros ? ? ?. simplify_eq.
  destruct Hpre as (-> & _). destruct (pre_verify_link _ _) as [[]|]; done.
Qed.

(** The parts of [link] known after [post_check_header]. *)
Definition post_checked_ok (pc : PostCheckedHeader) (p : Ref) : Prop :=
  valid_ref p ∧ block_parent_hash (pc_header pc) = ref_hash p ∧
  pre_verify_link (pc_header pc) (ref_header p) = Ok tt ∧
  new_epoch_leadership_from (epoch (header_block_date (pc_header pc))) p report_all
    = Some (pc_leadership pc) ∧
  (leadership_verify (el_leadership (pc_leadership pc)) (pc_header pc) = None ∨
   trusted (pc_header pc)).

Lemma safe_post_check_header hd p check :
  valid_ref p → block_parent_hash hd = ref_hash p → pre_verify_link hd (ref_header p) = Ok tt →
  (check = SkipFromStorage → trusted hd) →
  safe (post_check_header hd p check) (λ pc, pc_header pc = hd ∧ post_checked_ok pc p).
Proof.
  intros Hp Hh Hl Ht. unfold post_check_header. step as ? ->. step as el Hel.
  eapply (safe_bind _ _
    (λ _, leadership_verify (el_leadership el) hd = None ∨ trusted hd)).
  { destruct check; [apply safe_ret; auto|].
    destruct (leadership_verify _ _) eqn:?; [apply safe_throw|apply safe_ret; auto]. }
  intros _ Hv. apply safe_ret. split; [done|]. split_and!; done.
Qed.

Lemma link_of_checks pc p b arc m l :
  post_checked_ok pc p → block_header b = pc_header pc →
  apply_block_dry_run pc b = Ok l → apply_block_check_rewards report_all pc l = Ok tt →
  mv_id m = header_hash (pc_header pc) → mv_state m = l →
  link p (mkRef arc m (el_time_frame (pc_leadership pc)) (el_leadership (pc_leadership pc))
            (el_rewards_info (pc_leadership pc)) (pc_header pc)
            (el_previous_state (pc_leadership pc))).
Proof.
  intros (Hp & Hh & Hl & Hel & Hv) Hb Hdry Hrew Hid Hst. destruct pc as [hd el]. simpl in *.
  exists el, b. unfold ref_hash, ledger_of. simpl. rewrite Hid, Hst. split_and!; try done.
  unfold apply_block_dry_run in Hdry. simpl in Hdry.
  destruct (ledger_apply_block _ _ _); simplify_eq/=. done.
Qed.

Lemma safe_store_and_apply pc p b l :
  post_checked_ok pc p → block_header b = pc_header pc →
  apply_block_dry_run pc b = Ok l → apply_block_check_rewards report_all pc l = Ok tt →
  safe (store_and_apply_block_finalize pc b l)
    (λ a, valid_ref (cached_ref a) ∧ ref_header (cached_ref a) = pc_header pc).
Proof.
  intros Hpc Hb Hdry Hrew. unfold store_and_apply_block_finalize.
  eapply safe_bind; [apply safe_attempt, safe_update|]. intros res _.
  assert (safe (apply_block_finalize pc l)
            (λ r, valid_ref r ∧ ref_header r = pc_header pc)) as Hfin.
  { unfold apply_block_finalize. 
    eapply safe_weaken; [apply safe_create_and_store_reference|naive_solver]. intros arc m Hid Hst.
    eapply valid_child; [apply Hpc|]. by eapply link_of_checks. }
  assert (∀ f : Ref → AppliedBlock, (∀ r, cached_ref (f r) = r) →
    safe (r ← apply_block_finalize pc l; mret (f r))
      (λ a, valid_ref (cached_ref a) ∧ ref_header (cached_ref a) = pc_header pc)) as Hboth.
  { intros f Hf. eapply safe_bind; [exact Hfin|]. intros r Hr. apply safe_ret. by rewrite Hf. }
  destruct res as [u|[[]| | | | | | | | | | |]]; auto using safe_throw.
Qed.

Lemma safe_apply_and_store_block pc p b :
  post_checked_ok pc p → block_header b = pc_header pc →
  safe (apply_and_store_block pc b)
    (λ a, valid_ref (cached_ref a) ∧ ref_header (cached_ref a) = pc_header pc).
Proof.
  intros Hpc Hb. unfold apply_and_store_block. step as ? ->. step as l Hl. step as [] Hr.
  by eapply safe_store_and_apply.
Qed.

(** A block made by the node's own leadership task: on a valid parent, with the
    ledger that results from it. *)
Definition leadership_block_ok (lb : LeadershipBlock) : Prop :=
  let pc := mkPostChecked (block_header (lb_block lb)) (lb_leadership lb) in
  ∃ p, post_checked_ok pc p ∧ apply_block_dry_run pc (lb_block lb) = Ok (lb_new_ledger lb).

Lemma safe_apply_and_store_leadership_block lb :
  leadership_block_ok lb →
  safe (apply_and_store_leadership_block lb)
    (λ a, valid_ref (cached_ref a) ∧ ref_header (cached_ref a) = block_header (lb_block lb)).
Proof.
  intros (p & Hpc & Hdry). unfold apply_and_store_leadership_block. step as ? ->. step as [] Hr.
  by eapply (safe_store_and_apply (mkPostChecked (block_header (lb_block lb)) (lb_leadership lb))).
Qed.

Lemma safe_handle_bootstrap_block b check :
  (check = SkipFromStorage → trusted (block_header b)) →
  safe (handle_bootstrap_block b check) (λ r, valid_ref r ∧ ref_hash r = header_hash (block_header b)).
Proof.
  intros Ht. unfold handle_bootstrap_block.
  eapply safe_bind; [apply safe_pre_check_header|]. intros pre [Hpre Hl].
  destruct pre as [h [r|]|h|h p]; simpl in Hpre; [|done|apply safe_throw|].
  - destruct Hpre as (_ & ? & ?). eapply safe_weaken; [apply safe_expect|]. naive_solver.
  - destruct Hpre as (-> & Hp & Hh). specialize (Hl _ _ eq_refl).
    eapply safe_bind; [by apply safe_post_check_header|]. intros pc [Hhd Hpc].
    eapply safe_bind; [by eapply safe_apply_and_store_block|]. intros a [Hv Ha].
    apply safe_ret. split; [done|]. rewrite valid_ref_hash by done. congruence.
Qed.

Lemma safe_apply_block0 :
  safe (apply_block0 B0) (λ b, valid_ref (branch_ref b) ∧
    ref_hash (branch_ref b) = header_hash (block_header B0)).
Proof.
  unfold apply_block0. step as tf Htf. step as l Hl.
  eapply safe_bind; [apply safe_create_and_store_reference|].
  - intros arc m Hid Hst. apply valid_block0. unfold block0_ref, ref_hash, ledger_of, ref_date.
    simpl. rewrite Hid, Hst. split_and!; try done.
    + by destruct (block0_time_frame B0); simplify_eq/=.
    + by destruct (ledger_new _ _); simplify_eq/=.
  - intros r (? & _ & ?). by apply safe_ret.
Qed.

Lemma safe_load_from_block0 :
  safe (load_from_block0 B0) (λ b, valid_ref (branch_ref b)).
Proof.
  unfold load_from_block0. step as [] _; [apply safe_throw|].
  eapply safe_bind; [apply safe_apply_block0|]. intros b [Hb _]. do 2 step. by apply safe_ret.
Qed.

Definition trusted_items (items : list (result Storage.Error Block)) : Prop :=
  ∀ b, Ok b ∈ items → trusted (block_header b).

Lemma safe_load_loop now items rep r :
  trusted_items items → valid_ref r → safe (load_loop now items rep r) valid_ref.
Proof.
  revert now rep r. induction items as [|item items IH]; intros now rep r Ht Hr; simpl.
  { by apply safe_ret. }
  step as b Hb. step as rep' _. destruct item as [b'|e]; simplify_eq/=.
  eapply safe_bind; [apply safe_handle_bootstrap_block; intros _; apply Ht; set_solver|].
  intros r' [Hr' _]. apply IH; [|done]. intros b' Hb'. apply Ht. set_solver.
Qed.

Lemma apply_block0_storage b s s' r : apply_block0 b s = Some (s', r) → storage s' = storage s.
Proof.
  unfold apply_block0, create_and_store_reference, multiverse_insert, mbind, prog_bind, lift.
  destruct (map_err Block0Err _); [|by intros; simplify_eq].
  destruct (map_err Block0InitialLedgerError _); [|by intros; simplify_eq].
  destruct (mv_insert _ _ _ _). simpl. by intros [= <- _].
Qed.

(** [m] from the state [s] keeps the invariant and returns something in [Q]. *)
Definition safe_from {A} (s : Blockchain) (m : M A) (Q : A → Prop) : Prop :=
  hoare True (λ s', s' = s) m (λ a s, Q a ∧ cache_ok s) (λ _, cache_ok).

Lemma safe_from_safe {A} s (m : M A) Q : cache_ok s → safe m Q → safe_from s m Q.
Proof. intros Hs Hm ? ->. by apply Hm. Qed.

Lemma safe_load_from_storage now s :
  cache_ok s →
  (∀ head items, Storage.stream_from_to (header_hash (block_header B0)) head (storage s) = Ok items →
     trusted_items items) →
  safe_from s (load_from_storage now B0) (λ b, valid_ref (branch_ref b)).
Proof.
  intros Hs Ht ? ->. unfold load_from_storage, query. unfold mbind at 1, prog_bind at 1.
  destruct (Storage.block_exists _ _) as [[]|]; simpl; [|done|done].
  unfold mbind at 1, prog_bind at 1.
  destruct (Storage.get_tag _ _) as [[head|]|]; simpl; [|done|done].
  unfold mbind at 1, prog_bind at 1. pose proof (safe_apply_block0 s Hs) as H0s.
  destruct (apply_block0 B0 s) as [[s1 [br|e]]|] eqn:Happ; [|done|done].
  destruct H0s as [[Hbr _] Hs1]. unfold mbind at 1, prog_bind at 1.
  rewrite (apply_block0_storage _ _ _ _ Happ).
  destruct (Storage.stream_from_to _ _ _) as [items|] eqn:Hst; simpl; [|done].
  assert (safe (load_loop (tick 1 now) items (StreamReporter.reporter_new (now 0)) (branch_ref br)
    ≫= λ last_ref, mret (mkBranch last_ref)) (λ b, valid_ref (branch_ref b))) as Hl.
  { eapply safe_bind; [apply safe_load_loop; [by eapply Ht|done]|]. intros r Hr. by apply safe_ret. }
  exact (Hl s1 Hs1).
Qed.

(** ** Every state the node reaches *)

(** The calls the tasks of the node make on the shared [Blockchain]. *)
Inductive Call :=
| CallLoadFromBlock0
| CallLoadFromStorage (now : Clock)
| CallBootstrap (b : Block) (check : CheckHeaderProof)
| CallPreCheck (header : Header) (force : bool)
| CallApply (parent : Ref) (b : Block) (check : CheckHeaderProof)
| CallLeadershipBlock (lb : LeadershipBlock)
| CallGetRef (h : HeaderHash)
| CallBranches
| CallGc (tip : Ref).

Definition pre_checked_refs (pre : PreCheckedHeader) : list Ref :=
  match pre with
  | AlreadyPresent _ (Some r) => [r]
  | AlreadyPresent _ None | MissingParent _ => []
  | HeaderWithCache _ p => [p]
  end.

(** A call, and the references it returns.  [CallApply] checks a block on top
    of a parent returned by [pre_check_header], then applies it. *)
Definition run_call (c : Call) : M (list Ref) :=
  match c with
  | CallLoadFromBlock0 => b ← load_from_block0 B0; mret [branch_ref b]
  | CallLoadFromStorage now => b ← load_from_storage now B0; mret [branch_ref b]
  | CallBootstrap b check => r ← handle_bootstrap_block b check; mret [r]
  | CallPreCheck header force => pre ← pre_check_header header force; mret (pre_checked_refs pre)
  | CallApply parent b check =>
      pc ← post_check_header (block_header b) parent check;
      a ← apply_and_store_block pc b;
      mret [cached_ref a]
  | CallLeadershipBlock lb => a ← apply_and_store_leadership_block lb; mret [cached_ref a]
  | CallGetRef h => o ← get_ref h; mret (option_list o)
  | CallBranches => bs ← branches; mret (branch_ref <$> bs)
  | CallGc tip => _ ← gc tip; mret []
  end.

(** What a caller guarantees. *)
Definition call_ok (c : Call) (s : Blockchain) : Prop :=
  match c with
  | CallLoadFromStorage _ =>
      ∀ head items,
        Storage.stream_from_to (header_hash (block_header B0)) head (storage s) = Ok items →
        trusted_items items
  | CallBootstrap b check => check = SkipFromStorage → trusted (block_header b)
  | CallApply p b check =>
      valid_ref p ∧ block_parent_hash (block_header b) = ref_hash p ∧
      pre_verify_link (block_header b) (ref_header p) = Ok tt ∧
      (check = SkipFromStorage → trusted (block_header b))
  | CallLeadershipBlock lb => leadership_block_ok lb
  | _ => True
  end.

Lemma run_call_safe c s : cache_ok s → call_ok c s → safe_from s (run_call c) (Forall valid_ref).
Proof.
  intros Hs Hc.
  assert (∀ A (m : M A) (f : A → list Ref) Q, safe_from s m Q → (∀ a, Q a → Forall valid_ref (f a)) →
    safe_from s (a ← m; mret (f a)) (Forall valid_ref)) as Hret.
  { intros A m f Q Hm Hf. eapply hoare_bind; [exact Hm|]. intros a.
    apply hoare_pure. intros Ha s' Hs'. split; [by apply Hf|done]. }
  assert (∀ A (m : M A) (f : A → list Ref) Q, safe m Q → (∀ a, Q a → Forall valid_ref (f a)) →
    safe_from s (a ← m; mret (f a)) (Forall valid_ref)) as Hsafe.
  { intros. eapply Hret; [by apply safe_from_safe|done]. }
  destruct c; simpl in *.
  - eapply Hsafe; [apply safe_load_from_block0|]. by repeat constructor.
  - eapply Hret; [by apply safe_load_from_storage|]. by repeat constructor.
  - eapply Hsafe; [by apply safe_handle_bootstrap_block|]. intros r [? _]. by repeat constructor.
  - eapply Hsafe; [apply safe_pre_check_header|].
    intros [? [r|]|?|? p] [Hp _]; simpl in *; repeat constructor; apply Hp.
  - destruct Hc as (Hp & Hh & Hl & Ht). apply safe_from_safe; [done|].
    eapply safe_bind; [by apply safe_post_check_header|]. intros pc [Hhd Hpc].
    eapply safe_bind; [by eapply safe_apply_and_store_block|]. intros a [Hv _].
    apply safe_ret. by repeat constructor.
  - eapply Hsafe; [by apply safe_apply_and_store_leadership_block|].
    intros a [? _]. by repeat constructor.
  - eapply Hsafe; [apply safe_get_ref|]. intros [r|] Hr; repeat constructor. by apply Hr.
  - eapply Hsafe; [apply safe_branches|]. intros bs Hbs. by apply Forall_fmap.
  - eapply Hsafe; [apply safe_gc|]. done.
Qed.

(** The states after a sequence of calls, with the references returned. *)
Inductive reach (s0 : Blockchain) : Blockchain → list Ref → Prop :=
| reach_start : reach s0 s0 []
| reach_call s rs c s' r :
    reach s0 s rs → call_ok c s → run_call c s = Some (s', r) →
    reach s0 s' (rs ++ match r with Ok new => new | Err _ => [] end).


(** ** No panic at the epoch boundary *)

(** Checking the first block of an epoch does not panic.  The node
    distributes the rewards of the ending epoch with [expect]; this succeeds on
    every valid parent because [apply_block_check_rewards] tried the
    distribution when the parent was accepted.  The assumptions are on the
    ledger: a protocol update succeeds and does not make a possible
    distribution impossible, the distribution of block 0 is possible, and the
    optional dump of the rewards can be written. *)
Theorem new_epoch_never_panics e p :
  (∀ l, ∃ l', apply_protocol_changes l = Ok l') →
  (∀ l l' d q, apply_protocol_changes l = Ok l' →
     is_ok (distribute_rewards l d q) = true → is_ok (distribute_rewards l' d q) = true) →
  (∀ r d, block0_ref r → stake_distribution (epoch_leadership_schedule r) = Some d →
     is_ok (distribute_rewards (ledger_of r) d (reward_params report_all)) = true) →
  (∀ r i, valid_ref r → write_reward_info e (ref_hash r) i = true) →
  valid_ref p →
  is_Some (new_epoch_leadership_from e p report_all).
Proof.
  intros Hup Hkeep Hb0 Hdump Hp.
  assert (∀ d, stake_distribution (epoch_leadership_schedule p) = Some d →
    is_ok (distribute_rewards (ledger_of p) d (reward_params report_all)) = true) as Hd.
  { destruct (Hp) as [[|q rest] Hc]; [by eauto|]. destruct Hc as [Hl _].
    destruct Hl as (el & b & _ & _ & _ & _ & _ & _ & _ & Hrew & _ & -> & _).
    intros d Hd. unfold apply_block_check_rewards in Hrew. simpl in Hrew. rewrite Hd in Hrew.
    by destruct (distribute_rewards _ _ _). }
  unfold new_epoch_leadership_from. destruct (_ <? _)%Z; [|done]. unfold transition.
  destruct (Hup (ledger_of p)) as [l' Hl']. rewrite Hl'.
  destruct (stake_distribution _) as [d|]; [|done].
  specialize (Hkeep _ _ _ _ Hl' (Hd d eq_refl)).
  destruct (distribute_rewards _ _ _) as [[l2 i]|]; [|done]. by rewrite Hdump.
Qed.
End inv.

(** ** The behaviour of the checks, branch by branch *)
Section behaviour.
Context `{BlockStore} `{!LedgerTypes} `{!MultiverseOps} `{!LruCache HeaderHash Ref}.
Context `{!LruLaws HeaderHash Ref, !MultiverseLaws}.

(** The cached reference of a hash. *)
Definition cached (s : Blockchain) (h : HeaderHash) : option Ref :=
  alist_get h (lru_entries (ref_cache s)).

(** The same storage and the same cached references. *)
Definition same_refs (s s' : Blockchain) : Prop :=
  storage s' = storage s ∧ ∀ h, cached s' h = cached s h.

Lemma get_ref_run h s :
  ∃ s', same_refs s s' ∧
    get_ref h s = Some (s', match Storage.block_exists h (storage s) with
                            | Ok _ => Ok (cached s h)
                            | Err e => Err (StorageErr e)
                            end).
Proof.
  unfold get_ref, ref_cache_get, query, mbind, prog_bind.
  destruct (lru_get_spec h (ref_cache s)) as (Hg & He & _).
  destruct (lru_get h (ref_cache s)) as [c o]. simpl in *. exists (set_ref_cache c s). split.
  - split; [done|]. intros h'. unfold cached. simpl. rewrite He, lru_touch_get.
    case_decide; [subst|done]. by destruct (alist_get _ _).
  - rewrite Hg. by destruct (Storage.block_exists _ _).
Qed.

(** [pre_check_header] sorts a header by the references in the cache, as
    long as the storage answers: a header whose own reference is cached is
    already present (unless the load is forced), one whose parent is cached
    is verified against it, and any other has a missing parent.  It never
    answers [AlreadyPresent] without a reference, for a block that is in the
    storage only, and it changes neither the storage nor the set of cached
    references. *)
Theorem pre_check_header_correct hd force s x y :
  Storage.block_exists (header_hash hd) (storage s) = Ok x →
  Storage.block_exists (block_parent_hash hd) (storage s) = Ok y →
  ∃ s', same_refs s s' ∧
    pre_check_header hd force s = Some (s',
      match (if force then None else cached s (header_hash hd)), cached s (block_parent_hash hd) with
      | Some r, _ => Ok (AlreadyPresent hd (Some r))
      | None, Some p =>
          match pre_verify_link hd (ref_header p) with
          | Ok _ => Ok (HeaderWithCache hd p)
          | Err e => Err (BlockHeaderVerificationFailed e)
          end
      | None, None => Ok (MissingParent hd)
      end).
Proof.
  intros Hx Hy.
  assert (∃ s1, same_refs s s1 ∧
    (if force then mret None else get_ref (header_hash hd)) s
    = Some (s1, Ok (if force then None else cached s (header_hash hd)))) as (s1 & [Hst1 Hc1] & Hself).
  { destruct force; [by exists s|]. destruct (get_ref_run (header_hash hd) s) as (s1 & ? & Hr).
    exists s1. by rewrite Hr, Hx. }
  destruct (get_ref_run (block_parent_hash hd) s1) as (s2 & [Hst2 Hc2] & Hpar).
  rewrite Hst1, Hy, Hc1 in Hpar.
  exists s2. split; [split; [congruence|intros h; by rewrite Hc2]|].
  unfold pre_check_header, load_header_parent. unfold mbind, prog_bind. rewrite Hself, Hpar.
  destruct (if force then None else _) as [r|]; simpl; [done|].
  destruct (cached s (block_parent_hash hd)) as [p|]; simpl; [|done].
  unfold lift. by destruct (pre_verify_link hd (ref_header p)).
Qed.

(** What a successful [pre_check_header] says, without assuming that the storage
    answers. *)
Definition pre_check_post (hd : Header) (s : Blockchain) (pre : PreCheckedHeader) : Prop :=
  match pre with
  | AlreadyPresent h (Some r) => h = hd ∧ cached s (header_hash hd) = Some r
  | AlreadyPresent _ None => False
  | MissingParent h =>
      h = hd ∧ cached s (header_hash hd) = None ∧ cached s (block_parent_hash hd) = None
  | HeaderWithCache h p =>
      h = hd ∧ cached s (header_hash hd) = None ∧ cached s (block_parent_hash hd) = Some p ∧
      pre_verify_link hd (ref_header p) = Ok tt
  end.

Lemma pre_check_run hd s :
  ∃ s' r, pre_check_header hd false s = Some (s', r) ∧ same_refs s s' ∧
    ∀ pre, r = Ok pre → pre_check_post hd s pre.
Proof.
  unfold pre_check_header, load_header_parent, mbind, prog_bind.
  destruct (get_ref_run (header_hash hd) s) as (s1 & [Hst1 Hc1] & ->).
  destruct (Storage.block_exists (header_hash hd) _); [|by exists s1; eexists; split_and!].
  destruct (get_ref_run (block_parent_hash hd) s1) as (s2 & [Hst2 Hc2] & ->). rewrite Hst1, Hc1.
  assert (same_refs s s2) as Hsame by (split; [congruence|intros h; by rewrite Hc2]).
  destruct (Storage.block_exists (block_parent_hash hd) _); [|by exists s2; eexists; split_and!].
  destruct (cached s (header_hash hd)) as [r|] eqn:Hself; simpl.
  { exists s2. eexists. split_and!; [done|done|]. intros ? [= <-]. by simpl. }
  destruct (cached s (block_parent_hash hd)) as [p|] eqn:Hpar; simpl.
  2:{ exists s2. eexists. split_and!; [done|done|]. intros ? [= <-]. by simpl. }
  unfold lift. destruct (pre_verify_link hd (ref_header p)) as [[]|e] eqn:Hl; simpl;
    (exists s2; eexists; split_and!; [done|done|]); [|done].
  intros ? [= <-]. by simpl.
Qed.

Lemma same_refs_trans s1 s2 s3 : same_refs s1 s2 → same_refs s2 s3 → same_refs s1 s3.
Proof. intros [? H12] [? H23]. split; [congruence|]. intros h. by rewrite H23. Qed.

Lemma create_run h hd l tf ls ri prev s :
  ∃ s' r, create_and_store_reference h hd l tf ls ri prev s = Some (s', Ok r) ∧
    storage s' = storage s ∧ ref_hash r = h ∧ ledger_of r = l ∧ ref_header r = hd ∧
    epoch_leadership_schedule r = ls ∧ previous_epoch_state r = prev ∧
    (0 < lru_cap (ref_cache s) → cached s' h = Some r).
Proof.
  unfold create_and_store_reference, multiverse_insert, mbind, prog_bind.
  pose proof (mv_insert_id (chain_length hd) h l (ledgers s)) as Hid.
  pose proof (mv_insert_state (chain_length hd) h l (ledgers s)) as Hst.
  destruct (mv_insert _ _ _ _) as [m r]. simpl in *.
  eexists _, _. split_and!; try done. unfold cached. simpl. rewrite lru_put_entries.
  intros Hcap. destruct (lru_cap (ref_cache s)); [lia|]. simpl. by rewrite decide_True.
Qed.

(** C25: [apply_and_store_block] is all or nothing.  It fails exactly when the
    ledger refuses the block, the rewards cannot be distributed, or the storage
    fails for a reason other than the block being there already, and then it
    changes nothing.  Otherwise it returns a reference with the new ledger
    state, and puts it in the cache; it reports the block as new exactly when
    this call stored it. *)
Theorem apply_and_store_block_atomic pc b s :
  let stored := Storage.put_block b (storage s) in
  match apply_and_store_block pc b s with
  | None => False
  | Some (s', Err e) =>
      s' = s ∧
      (apply_block_dry_run pc b = Err e ∨
       (∃ l, apply_block_dry_run pc b = Ok l ∧
             apply_block_check_rewards (rewards_report_all s) pc l = Err e) ∨
       (∃ se, stored = Err se ∧ se ≠ Storage.BlockAlreadyPresent ∧ e = StorageErr se))
  | Some (s', Ok a) =>
      (∃ l, apply_block_dry_run pc b = Ok l ∧
            apply_block_check_rewards (rewards_report_all s) pc l = Ok tt ∧
            ledger_of (cached_ref a) = l) ∧
      ref_hash (cached_ref a) = header_hash (pc_header pc) ∧
      ref_header (cached_ref a) = pc_header pc ∧
      (0 < lru_cap (ref_cache s) → cached s' (header_hash (pc_header pc)) = Some (cached_ref a)) ∧
      match a with
      | New _ => stored = Ok (storage s')
      | Existing _ => stored = Err Storage.BlockAlreadyPresent ∧ storage s' = storage s
      end
  end.
Proof.
  intros stored. unfold apply_and_store_block, mbind, prog_bind, gets, lift.
  destruct (apply_block_dry_run pc b) as [l|e] eqn:Hdry; [|by auto].
  destruct (apply_block_check_rewards _ pc l) as [[]|e] eqn:Hrew; [|by eauto 10].
  unfold store_and_apply_block_finalize, mbind, prog_bind, attempt, update. fold stored.
  assert (∀ s1 f, (∀ r, cached_ref (f r) = r) → ref_cache s1 = ref_cache s →
    ∃ s' r, (r ← apply_block_finalize pc l; mret (f r) : M AppliedBlock) s1 = Some (s', Ok (f r)) ∧
    storage s' = storage s1 ∧ ref_hash r = header_hash (pc_header pc) ∧ ledger_of r = l ∧
    ref_header r = pc_header pc ∧
    (0 < lru_cap (ref_cache s) → cached s' (header_hash (pc_header pc)) = Some r)) as Hfin.
  { intros s1 f Hf Hrc. unfold apply_block_finalize, mbind, prog_bind.
    edestruct create_run as (s' & r & -> & Hst & ? & ? & ? & _ & _ & Hca). rewrite Hrc in Hca.
    by exists s', r. }
  unfold mbind, prog_bind in Hfin. destruct stored as [st|se] eqn:Hput.
  - destruct (Hfin (set_storage st s) New) as (s' & r & -> & Hst & ? & ? & ? & ?); [done..|].
    simpl. rewrite Hst. eauto 10.
  - destruct (Hfin s Existing) as (s' & r & Heq & Hst & ? & ? & ? & ?); [done..|].
    destruct se; try (split; [done|]; right; right; by eexists).
    rewrite Heq. simpl. eauto 10.
Qed.

(** A chain stays valid when more headers are trusted. *)
Lemma valid_chain_trusted B0 all (t t' : Header → Prop) l :
  (∀ h, t h → t' h) → valid_chain B0 all t l → valid_chain B0 all t' l.
Proof.
  intros Ht. induction l as [|r [|p rest] IH]; [done|done|]. intros [Hl Hv].
  split; [|by apply IH]. destruct Hl as (el & b & ? & ? & ? & ? & ? & Hver & ?).
  destruct_and!. exists el, b. split_and!; try done. destruct Hver; auto.
Qed.
End behaviour.
End ChainInv.

(** ** Witnesses *)
Module ChainWitness.
Import ListLru SampleFragments SampleStore SampleChain Blockchain ChainInv.

Definition start : Blockchain := blockchain_new (hash 10) (store_of []) 8 false.

(** Run a call, keeping the state and the references returned. *)
Definition after (c : Call) (s : Blockchain) : Blockchain :=
  match run_call genesis c s with Some (s', _) => s' | None => s end.
Definition refs_of (c : Call) (s : Blockchain) : list Ref :=
  match run_call genesis c s with Some (_, Ok rs) => rs | _ => [] end.
Definition succeeds (c : Call) (s : Blockchain) : bool :=
  match run_call genesis c s with Some (_, Ok _) => true | _ => false end.

Lemma run_succeeds c s :
  succeeds c s = true → run_call genesis c s = Some (after c s, Ok (refs_of c s)).
Proof. unfold succeeds, after, refs_of. by destruct (run_call genesis c s) as [[s' []]|]. Qed.

Definition b11 : Block := chain_block 11 10 1 0 5 [].
Definition b12 : Block := chain_block 12 11 2 1 3 [].
Definition s0 : Blockchain := after CallLoadFromBlock0 start.
Definition s1 : Blockchain := after (CallBootstrap b11 Enabled) s0.
Definition s2 : Blockchain := after (CallBootstrap b12 Enabled) s1.
Definition no_header : Header → Prop := λ _, False.

Definition dummy : Ref := mkRef 0 (0%Z, mkToy 0 []) (0, 0)%Z 0%Z None (block_header b11) None.
Definition r10 : Ref := hd dummy (refs_of CallLoadFromBlock0 start).
Definition r11 : Ref := hd dummy (refs_of (CallBootstrap b11 Enabled) s0).
Definition r12 : Ref := hd dummy (refs_of (CallBootstrap b12 Enabled) s1).

Lemma chain12 : valid_chain genesis false no_header [r12; r11; r10].
Proof.
  split; [|split; [|by repeat split]].
  - eexists _, b12. repeat split; left; reflexivity.
  - eexists _, b11. repeat split; left; reflexivity.
Qed.

(** Block 12 is the first of its epoch: its previous epoch ends with block 11. *)
Lemma valid_chain_structure_witness :
  Reference.last_ref_previous_epoch r12 = Some r11 ∧ Reference.ref_length r12 = 2%Z.
Proof.
  destruct (valid_chain_structure genesis false no_header r12 [r11; r10] chain12)
    as (_ & _ & Hlen & Hprev & _).
  split; [exact Hprev|]. rewrite Hlen; [|reflexivity]. reflexivity.
Defined.


Lemma new_epoch_never_panics_witness :
  is_Some (new_epoch_leadership_from 1 r11 false).
Proof.
  apply (new_epoch_never_panics genesis false no_header 1 r11).
  - intros l. by exists l.
  - done.
  - done.
  - done.
  - exists [r10]. apply chain12.
Defined.

(** The cache stays valid along these calls. *)
Lemma after_ok c s :
  cache_ok genesis false no_header s → call_ok genesis false no_header c s → succeeds c s = true →
  cache_ok genesis false no_header (after c s).
Proof.
  intros Hs Hc Hok. pose proof (run_call_safe genesis false no_header c s Hs Hc s eq_refl) as Hr.
  rewrite (run_succeeds c s Hok) in Hr. apply Hr.
Qed.

Lemma s2_ok : cache_ok genesis false no_header s2.
Proof.
  repeat (apply after_ok; [|done|reflexivity]). split; [done|]. intros h r Hin. simpl in Hin. set_solver.
Qed.

(** Block 12 applied on top of block 11. *)
Definition pc12 : PostCheckedHeader :=
  mkPostChecked (block_header b12)
    (default (mkEpochLeadership (mkToy 0 []) 0%Z None (0, 0)%Z None)
       (new_epoch_leadership_from 1 r11 false)).

Lemma apply_and_store_block_atomic_witness :
  ∃ s' r, apply_and_store_block pc12 b12 s1 = Some (s', Ok (New r)) ∧
          Reference.ref_hash r = hash 12 ∧
          Storage.put_block b12 (storage s1) = Ok (storage s').
Proof.
  pose proof (apply_and_store_block_atomic pc12 b12 s1) as Ha. cbv zeta in Ha.
  assert (match apply_and_store_block pc12 b12 s1 with Some (_, Ok (New _)) => true | _ => false end
          = true) as Hnew by reflexivity.
  destruct (apply_and_store_block pc12 b12 s1) as [[s' [[r|r]|e]]|]; try discriminate Hnew.
  destruct Ha as (_ & Hh & _ & _ & Hp).
  exists s', r. split; [reflexivity|]. split; [exact Hh|exact Hp].
Defined.

(** Block 12 on top of the cached block 11, and block 11 again. *)
Lemma pre_check_header_correct_witness :
  (∃ s' p, pre_check_header (block_header b12) false s1
           = Some (s', Ok (HeaderWithCache (block_header b12) p))) ∧
  (∃ s' r, pre_check_header (block_header b11) false s1
           = Some (s', Ok (AlreadyPresent (block_header b11) (Some r)))).
Proof.
  split.
  - destruct (pre_check_header_correct (block_header b12) false s1 false true eq_refl eq_refl)
      as (s' & _ & Heq).
    assert (cached s1 (header_hash (block_header b12)) = None) as Hself by reflexivity.
    assert (∃ p, cached s1 (block_parent_hash (block_header b12)) = Some p ∧
      pre_verify_link (block_header b12) (ref_header p) = Ok tt) as (p & Hp & Hl)
      by (eexists; split; reflexivity).
    rewrite Hself, Hp, Hl in Heq. exists s', p. exact Heq.
  - destruct (pre_check_header_correct (block_header b11) false s1 true true eq_refl eq_refl)
      as (s' & _ & Heq).
    assert (∃ r, cached s1 (header_hash (block_header b11)) = Some r) as (r & Hr)
      by (eexists; reflexivity).
    rewrite Hr in Heq. exists s', r. exact Heq.
Defined.
End ChainWitness.
