(* ===== verification/Checkpoints.v ===== *)
(** * Checkpoints

    Models [jormungandr/src/blockchain/checkpoints.rs]: the list of block
    hashes a node sends to a peer so that the peer can find the last block they
    share.  [new_from] walks the references to previous epochs, skipping one
    more of them after every checkpoint it takes. *)

From S2P Require Import Prelude BlockDate Lru Deque Fragment FragmentLogs Storage Chain ChainInv.

Module Checkpoints.
Import Reference.
Section checkpoints.
Context `{MultiverseOps}.

(** The inner loop: up to [n] more epochs back. *)
Fixpoint skip_epochs (n : nat) (r : Ref) : Ref :=
  match n with
  | O => r
  | S n' => match last_ref_previous_epoch r with Some p => skip_epochs n' p | None => r end
  end.

(** The outer loop; [None] is only for too little fuel. *)
Fixpoint checkpoints_loop (fuel : nat) (ignore_prev : nat) (current_ref : Ref)
    (checkpoints : list HeaderHash) : option (list HeaderHash) :=
  match last_ref_previous_epoch current_ref with
  | None => Some checkpoints
  | Some prev_epoch =>
      match fuel with
      | O => None
      | S fuel =>
          let current_ref := skip_epochs ignore_prev prev_epoch in
          let hash := ref_hash current_ref in
          if decide (last checkpoints = Some hash)
          then checkpoints_loop fuel ignore_prev current_ref checkpoints
          else checkpoints_loop fuel (S ignore_prev) current_ref (checkpoints ++ [hash])
      end
  end.

(** The previous epochs of a reference. *)
Fixpoint epoch_refs (r : Ref) : list Ref :=
  match previous_epoch_state r with Some p => p :: epoch_refs p | None => [] end.

Definition new_from (from : Ref) : option (list HeaderHash) :=
  let checkpoints := [ref_hash from; ref_parent_hash from] in
  let block0_hash := block0_initial_hash (ledger_of from) in
  checkpoints ← checkpoints_loop (length (epoch_refs from)) 0 from checkpoints;
  Some (if decide (Some block0_hash ≠ checkpoints !! 1%nat)
        then checkpoints ++ [block0_hash] else checkpoints).

(** ** Termination and size *)
Lemma epoch_refs_eq r :
  epoch_refs r = match last_ref_previous_epoch r with Some p => p :: epoch_refs p | None => [] end.
Proof. by destruct r. Qed.

Lemma skip_epochs_refs n r :
  skip_epochs n r :: epoch_refs (skip_epochs n r) `suffix_of` r :: epoch_refs r ∧
  length (epoch_refs (skip_epochs n r)) = length (epoch_refs r) - n.
Proof.
  revert r. induction n as [|n IH]; intros r; simpl; [split; [done|lia]|].
  rewrite (epoch_refs_eq r). destruct (last_ref_previous_epoch r) as [p|] eqn:Hp.
  - destruct (IH p) as [Hs ->]. split; [by apply suffix_cons_r|done].
  - rewrite epoch_refs_eq, Hp. done.
Qed.

(** The epochs needed for [n] checkpoints when the first skips [ignore] epochs. *)
Fixpoint span (ignore n : nat) : nat :=
  match n with O => 0 | S n' => S ignore + span (S ignore) n' end.

Lemma span_double ignore n : 2 * span ignore n = n * (2 * ignore + n + 1).
Proof. revert ignore. induction n as [|n IH]; intros ignore; simpl span; [done|]. specialize (IH (S ignore)). nia. Qed.

Lemma suffix_fmap_sublist {A B} (f : A → B) (l k : list A) :
  l `suffix_of` k → sublist (f <$> l) (f <$> k).
Proof. intros [k' ->]. rewrite fmap_app. by apply sublist_inserts_l. Qed.

Lemma checkpoints_loop_spec fuel ignore r cps :
  length (epoch_refs r) ≤ fuel →
  ∃ mid, checkpoints_loop fuel ignore r cps = Some (cps ++ mid) ∧
    sublist mid (ref_hash <$> epoch_refs r) ∧
    (mid = [] ∨ span ignore (pred (length mid)) < length (epoch_refs r)).
Proof.
  revert ignore r cps. induction fuel as [|fuel IH]; intros ignore r cps Hf; simpl.
  all: rewrite (epoch_refs_eq r) in *; destruct (last_ref_previous_epoch r) as [p|]; simpl in *.
  1: lia.
  1, 3: exists []; rewrite app_nil_r; split_and!; [done|constructor|by left].
  destruct (skip_epochs_refs ignore p) as [Hsuf Hlen]. set (c := skip_epochs ignore p) in *.
  apply (suffix_fmap_sublist ref_hash) in Hsuf. simpl in Hsuf.
  case_decide.
  - destruct (IH ignore c cps) as (mid & Heq & Hsub & Hsp); [lia|]. exists mid. split_and!; [done| |].
    + etrans; [|exact Hsuf]. by constructor.
    + destruct Hsp; [by left|right; lia].
  - destruct (IH (S ignore) c (cps ++ [ref_hash c])) as (mid & Heq & Hsub & Hsp); [lia|].
    exists (ref_hash c :: mid). split_and!.
    + rewrite Heq, <- app_assoc. done.
    + etrans; [|exact Hsuf]. by constructor.
    + right. simpl. destruct Hsp as [->|Hsp]; simpl; [lia|]. destruct mid; simpl in *; lia.
Qed.

(** The loop ends for every reference. *)
Lemma new_from_Some r : ∃ cps, new_from r = Some cps.
Proof.
  unfold new_from. destruct (checkpoints_loop_spec (length (epoch_refs r)) 0 r
    [ref_hash r; ref_parent_hash r]) as (mid & -> & _); [done|]. simpl. by eexists.
Qed.
End checkpoints.

(** ** Checkpoints of a valid chain *)
Section valid.
Import Blockchain ChainInv.
Context `{BlockStore} `{!LedgerTypes} `{!MultiverseOps} `{!LruCache HeaderHash Ref}.
Variables (B0 : Block) (report_all : bool) (trusted : Header → Prop).
#[local] Abbreviation valid_chain := (valid_chain B0 report_all trusted).

Lemma valid_chain_suffix l1 p l2 : valid_chain (l1 ++ p :: l2) → valid_chain (p :: l2).
Proof.
  induction l1 as [|r l1 IH]; [done|]. destruct l1 as [|r' l1]; simpl; intros [_ Hv]; [done|by apply IH].
Qed.

Lemma chain_previous_split r rest p :
  valid_chain (r :: rest) → last_ref_previous_epoch r = Some p →
  ∃ l1 l2, rest = l1 ++ p :: l2 ∧ valid_chain (p :: l2) ∧ (ref_epoch p < ref_epoch r)%Z.
Proof.
  intros Hv Hp. unfold last_ref_previous_epoch in Hp. rewrite (chain_previous _ _ _ _ _ Hv) in Hp.
  unfold last_of_earlier_epoch in Hp.
  assert (p ∈ filter (λ p, (ref_epoch p < ref_epoch r)%Z) rest) as Hin.
  { destruct (filter _ rest); simplify_eq/=. set_solver. }
  apply list_elem_of_filter in Hin as [Hlt (l1 & l2 & ->)%list_elem_of_split].
  exists l1, l2. split; [done|]. split; [|done]. by apply (valid_chain_suffix (r :: l1)).
Qed.

Lemma chain_first_epoch rest r :
  valid_chain (r :: rest) → (epoch (header_block_date (block_header B0)) ≤ ref_epoch r)%Z.
Proof.
  revert rest r. apply (valid_chain_ind _ _ _ (λ r rest, (_ ≤ ref_epoch r)%Z)).
  - intros r (Hh & _). unfold ref_epoch, ref_date. by rewrite Hh.
  - intros p r rest Hl%link_date%date_ltb_epoch _ IH. unfold ref_epoch in *. lia.
Qed.

Lemma epoch_refs_chain n r rest :
  length rest ≤ n → valid_chain (r :: rest) →
  sublist (epoch_refs r) rest ∧
  (Z.of_nat (length (epoch_refs r)) ≤
   ref_epoch r - epoch (header_block_date (block_header B0)))%Z.
Proof.
  revert r rest. induction n as [|n IH]; intros r rest Hn Hv.
  all: pose proof (chain_first_epoch _ _ Hv); rewrite (epoch_refs_eq r).
  all: destruct (last_ref_previous_epoch r) as [p|] eqn:Hp; [|split; [apply sublist_nil_l|simpl; lia]].
  all: destruct (chain_previous_split _ _ _ Hv Hp) as (l1 & l2 & -> & Hv' & Hlt).
  all: rewrite length_app in Hn; simpl in Hn; try lia.
  destruct (IH p l2) as [Hsub Hlen]; [lia|done|]. split; [|simpl; lia].
  apply sublist_inserts_l. by constructor.
Qed.

End valid.
End Checkpoints.

Module CheckpointsWitness.
Import ListLru SampleFragments SampleStore SampleChain ChainWitness.


Example checkpoints_r12 : Checkpoints.new_from r12 = Some [hash 12; hash 11; hash 10].
Proof. reflexivity. Qed.
End CheckpointsWitness.
