(* ===== verification/Tip.v ===== *)
(** * Chain selection and the tip

    Models [jormungandr/src/blockchain/chain_selection.rs] and [tip.rs]: which of
    two branches the node prefers, and the task that owns the tip of the main
    branch, keeps the HEAD tag of the storage in step with it and tells the
    memory pool which fragments are now in a block.  Message boxes are the
    lists of the messages sent; whether a box accepts one more is a parameter
    ([can_send]), since it depends on the receiving task. *)

From S2P Require Import Prelude BlockDate Lru Deque Fragment FragmentLogs Storage Chain ChainInv.

Module ChainSelection.
Import Reference.
Section selection.
Context `{MultiverseOps}.

(** In nanoseconds. *)
Definition ALLOWED_TIME_DISCREPANCY : Z := 1000000000.

Inductive ComparisonResult := PreferCurrent | PreferCandidate.

Definition check_rollback_up_to (epoch_stability_depth : Z) (ref1 ref2 : Ref) : bool := true.

Definition in_future (now : Z) (candidate : Ref) : option bool :=
  e ← ref_elapsed now candidate;
  Some (match e with
        | Err duration => (ALLOWED_TIME_DISCREPANCY <? duration)%Z
        | Ok _ => false
        end).

Definition compare_against (now : Z) (current candidate : Ref) : option ComparisonResult :=
  let epoch_stability_depth := epoch_stability_depth (ledger_of current) in
  let rollback_possible := check_rollback_up_to epoch_stability_depth current candidate in
  in_future ← in_future now candidate;
  Some (if rollback_possible && negb in_future && (ref_length current <? ref_length candidate)%Z
        then PreferCandidate else PreferCurrent).
End selection.
End ChainSelection.

Module Tip.
Import Reference Blockchain ChainSelection.
Section tip.
Context `{BlockStore} `{!FragmentOps} `{!LedgerTypes} `{!MultiverseOps}
  `{!LruCache HeaderHash Ref}.

(** The messages of [TransactionMsg] sent by the tip updater, and of [WatchMsg]. *)
Inductive FragmentMsg :=
| RemoveTransactions (ids : list FragmentId) (status : FragmentStatus)
| BranchSwitch (date : BlockDate).
Inductive WatchMsg :=
| NewBlock (b : Block)
| NewTip (h : Header).

(** [TipUpdater]; the shared [Tip] is the reference it holds. *)
Record TipUpdater := mkTipUpdater {
  tip : Ref;
  blockchain : Blockchain;
  watch_mbox : option (list WatchMsg);
  fragment_mbox : option (list FragmentMsg);
  (** the last call of [stats_counter.set_tip_block] *)
  tip_block : option (Block * Ref);
}.

Definition set_tip (r : Ref) (t : TipUpdater) : TipUpdater :=
  mkTipUpdater r (blockchain t) (watch_mbox t) (fragment_mbox t) (tip_block t).
Definition set_blockchain (b : Blockchain) (t : TipUpdater) : TipUpdater :=
  mkTipUpdater (tip t) b (watch_mbox t) (fragment_mbox t) (tip_block t).
Definition set_watch (m : option (list WatchMsg)) (t : TipUpdater) : TipUpdater :=
  mkTipUpdater (tip t) (blockchain t) m (fragment_mbox t) (tip_block t).
Definition set_fragment (m : option (list FragmentMsg)) (t : TipUpdater) : TipUpdater :=
  mkTipUpdater (tip t) (blockchain t) (watch_mbox t) m (tip_block t).
Definition set_tip_block (b : Block) (r : Ref) (t : TipUpdater) : TipUpdater :=
  mkTipUpdater (tip t) (blockchain t) (watch_mbox t) (fragment_mbox t) (Some (b, r)).

(** What the tasks at the other end of the boxes accept. *)
Record Boxes := mkBoxes {
  can_send : list FragmentMsg → bool;
  can_watch : list WatchMsg → bool;
}.
Variable boxes : Boxes.

Definition T := prog TipUpdater Error.

(** A method of the blockchain object. *)
Definition on_chain {A} (m : M A) : T A :=
  λ t, match m (blockchain t) with
       | Some (b, r) => Some (set_blockchain b t, r)
       | None => None
       end.

(** [if let Some(ref mut mbox) = self.fragment_mbox { mbox.try_send(msg)?; }] *)
Definition try_send (msg : FragmentMsg) : T unit :=
  λ t, match fragment_mbox t with
       | Some sent =>
           if can_send boxes sent then Some (set_fragment (Some (sent ++ [msg])) t, Ok tt)
           else Some (t, Err TransactionSendError)
       | None => Some (t, Ok tt)
       end.

Definition try_request_fragment_removal (ids : list FragmentId) (header : Header) : T unit :=
  try_send (RemoveTransactions ids (InABlock (header_block_date header) (header_hash header))).

(** [block.fragments().map(|f| f.id()).collect()] *)
Definition block_fragment_ids (b : Block) : list FragmentId := fragment_hash <$> block_fragments b.

(** The loop over the blocks of the new branch. *)
Fixpoint removal_loop (items : list (result Storage.Error Block)) : T unit :=
  match items with
  | [] => mret tt
  | item :: items' =>
      block ← lift (map_err Intercom item);
      _ ← try_request_fragment_removal (block_fragment_ids block) (block_header block);
      removal_loop items'
  end.

(** [None] panics: no common ancestor, or no block in the stream. *)
Definition switch_tip_branch (candidate : Ref) (tip_hash : HeaderHash) : T unit :=
  let candidate_hash := ref_hash candidate in
  st ← gets (λ t, storage (blockchain t));
  found ← expect (Storage.find_common_ancestor candidate_hash tip_hash st);
  common_ancestor ← lift (map_err StorageErr found);
  stream ← lift (map_err StorageErr (Storage.stream_from_to common_ancestor candidate_hash st));
  first ← expect (head stream);
  ancestor ← lift (map_err Intercom first);
  _ ← try_send (BranchSwitch (header_block_date (block_header ancestor)));
  _ ← removal_loop (tail stream);
  _ ← on_chain (update (Storage.put_tag MAIN_BRANCH_TAG candidate_hash));
  modify_state (set_tip candidate).

Definition update_current_branch_tip (candidate : Ref) (block : Block) : T unit :=
  let candidate_hash := ref_hash candidate in
  _ ← on_chain (update (Storage.put_tag MAIN_BRANCH_TAG candidate_hash));
  _ ← try_request_fragment_removal (block_fragment_ids block) (block_header block);
  modify_state (set_tip candidate).

(** The message to the watch clients; a failure is only logged. *)
Definition send_new_tip (h : Header) : T unit :=
  modify_state (λ t, match watch_mbox t with
                     | Some sent => if can_watch boxes sent
                                    then set_watch (Some (sent ++ [NewTip h])) t else t
                     | None => t
                     end).

Definition process_new_ref (now : Z) (candidate : Ref) : T unit :=
  let candidate_hash := ref_hash candidate in
  tip_ref ← gets tip;
  cmp ← expect (compare_against now tip_ref candidate);
  match cmp with
  | PreferCurrent => mret tt
  | PreferCandidate =>
      maybe_block ← on_chain (query (Storage.get candidate_hash));
      block ← lift (match maybe_block with
                    | Some b => Ok b
                    | None => Err (StorageErr Storage.BlockNotFound)
                    end);
      let tip_hash := ref_hash tip_ref in
      _ ← (if decide (tip_hash = ref_parent_hash candidate)
           then update_current_branch_tip candidate block
           else switch_tip_branch candidate tip_hash);
      _ ← modify_state (set_tip_block block candidate);
      send_new_tip (ref_header candidate)
  end.

(** [Iterator::max_by] with the comparison of [reprocess_tip]: the accumulated
    maximum is replaced unless the comparison says [Greater].  The clock is
    read once per comparison. *)
Fixpoint best_branch (now : Clock) (best : Ref) (refs : list Ref) : option Ref :=
  match refs with
  | [] => Some best
  | r :: refs' =>
      cmp ← compare_against (now 0) best r;
      best_branch (tick 1 now) (match cmp with PreferCurrent => best | PreferCandidate => r end) refs'
  end.

(** [reprocess_tip]: the reference sent to the tip updater's own queue, if any. *)
Definition reprocess_tip (now : Clock) (tip : Ref) : M (option Ref) :=
  bs ← branches;
  match branch_ref <$> bs with
  | [] => mret None
  | r :: refs =>
      new_tip ← expect (best_branch now r refs);
      mret (if decide (ref_arc tip = ref_arc new_tip) then None else Some new_tip)
  end.

(** ** What the updater sends *)
Definition removal_msg (b : Block) : FragmentMsg :=
  RemoveTransactions (block_fragment_ids b)
    (InABlock (header_block_date (block_header b)) (header_hash (block_header b))).

Definition add_msgs (ms : list FragmentMsg) (t : TipUpdater) : TipUpdater :=
  set_fragment ((λ sent, sent ++ ms) <$> fragment_mbox t) t.

Lemma add_msgs_nil t : add_msgs [] t = t.
Proof. destruct t as [? ? ? [sent|] ?]; unfold add_msgs; simpl; [|done]. by rewrite app_nil_r. Qed.
Lemma add_msgs_app ms ms' t : add_msgs ms' (add_msgs ms t) = add_msgs (ms ++ ms') t.
Proof. destruct t as [? ? ? [sent|] ?]; unfold add_msgs; simpl; [|done]. by rewrite app_assoc. Qed.

Lemma try_send_run msg t :
  try_send msg t = Some (add_msgs [msg] t, Ok tt) ∨ try_send msg t = Some (t, Err TransactionSendError).
Proof.
  unfold try_send, add_msgs. destruct t as [? ? ? [sent|] ?]; simpl; [|by left].
  destruct (can_send boxes sent); [by left|by right].
Qed.

Lemma removal_loop_run items t :
  ∃ ms r, removal_loop items t = Some (add_msgs ms t, r) ∧
    (r = Ok tt → ∃ bs, items = Ok <$> bs ∧ ms = removal_msg <$> bs).
Proof.
  revert t. induction items as [|[b|e] items IH]; intros t; simpl.
  - exists [], (Ok tt). rewrite add_msgs_nil. split; [done|]. intros _. by exists [].
  - unfold mbind, prog_bind, lift. simpl. unfold try_request_fragment_removal.
    fold (removal_msg b). destruct (try_send_run (removal_msg b) t) as [->| ->].
    + destruct (IH (add_msgs [removal_msg b] t)) as (ms & r & -> & Hr).
      exists (removal_msg b :: ms), r. rewrite add_msgs_app. split; [done|].
      intros Hok. destruct (Hr Hok) as (bs & -> & ->). by exists (b :: bs).
    + exists [], (Err TransactionSendError). by rewrite add_msgs_nil.
  - exists [], (Err (Intercom e)). by rewrite add_msgs_nil.
Qed.

Definition stored (t : TipUpdater) : store := storage (blockchain t).

(** The state after the HEAD tag and the tip moved to [c], with [ms] sent. *)
Definition moved (c : Ref) (st : store) (ms : list FragmentMsg) (t : TipUpdater) : TipUpdater :=
  set_tip c (set_blockchain (set_storage st (blockchain t)) (add_msgs ms t)).

Lemma switch_tip_branch_run c h t :
  match switch_tip_branch c h t with
  | None => True
  | Some (t', Err _) => ∃ ms, t' = add_msgs ms t
  | Some (t', Ok _) =>
      ∃ anc first rest st,
        Storage.find_common_ancestor (ref_hash c) h (stored t) = Some (Ok anc) ∧
        Storage.stream_from_to anc (ref_hash c) (stored t) = Ok (Ok <$> (first :: rest)) ∧
        Storage.put_tag MAIN_BRANCH_TAG (ref_hash c) (stored t) = Ok st ∧
        t' = moved c st (BranchSwitch (header_block_date (block_header first))
                           :: (removal_msg <$> rest)) t
  end.
Proof.
  unfold switch_tip_branch, gets, expect, lift, mbind, prog_bind, stored.
  destruct (Storage.find_common_ancestor _ _ _) as [[anc|e]|]; simpl;
    [|by exists []; rewrite add_msgs_nil|done].
  destruct (Storage.stream_from_to _ _ _) as [items|e] eqn:Hst; simpl; [|by exists []; rewrite add_msgs_nil].
  destruct items as [|[first|e] items]; simpl; [done| |by exists []; rewrite add_msgs_nil].
  destruct (try_send_run (BranchSwitch (header_block_date (block_header first))) t) as [->| ->];
    [|by exists []; rewrite add_msgs_nil].
  destruct (removal_loop_run items (add_msgs [BranchSwitch (header_block_date (block_header first))] t))
    as (ms & r & -> & Hr). rewrite add_msgs_app. destruct r as [[]|e]; [|by eexists].
  destruct (Hr eq_refl) as (rest & -> & ->). unfold on_chain, update. simpl.
  destruct (Storage.put_tag _ _ _) as [st|e] eqn:Hput; simpl; [|by eexists].
  by exists anc, first, rest, st.
Qed.

Lemma update_current_branch_tip_run c b t :
  match update_current_branch_tip c b t with
  | None => False
  | Some (t', Err _) => tip t' = tip t ∧ ref_cache (blockchain t') = ref_cache (blockchain t)
  | Some (t', Ok _) =>
      ∃ st, Storage.put_tag MAIN_BRANCH_TAG (ref_hash c) (stored t) = Ok st ∧
            t' = moved c st [removal_msg b] t
  end.
Proof.
  unfold update_current_branch_tip, mbind, prog_bind, on_chain, update, stored.
  destruct (Storage.put_tag _ _ _) as [st|e]; simpl; [|done].
  unfold try_request_fragment_removal. fold (removal_msg b).
  destruct (try_send_run (removal_msg b) (set_blockchain (set_storage st (blockchain t)) t))
    as [->| ->]; [|done]. by exists st.
Qed.

(** The blocks whose fragments leave the memory pool when the tip moves from
    [tip t] to [c], and the messages that say so. *)
Definition move_msgs (t : TipUpdater) (c : Ref) (b : Block) (ms : list FragmentMsg) : Prop :=
  (ref_hash (tip t) = ref_parent_hash c ∧ ms = [removal_msg b]) ∨
  (ref_hash (tip t) ≠ ref_parent_hash c ∧
   ∃ anc first rest,
     Storage.find_common_ancestor (ref_hash c) (ref_hash (tip t)) (stored t) = Some (Ok anc) ∧
     Storage.stream_from_to anc (ref_hash c) (stored t) = Ok (Ok <$> (first :: rest)) ∧
     ms = BranchSwitch (header_block_date (block_header first)) :: (removal_msg <$> rest)).

Lemma compare_prefers now cur c :
  compare_against now cur c = Some PreferCandidate ↔
  in_future now c = Some false ∧ (ref_length cur < ref_length c)%Z.
Proof.
  unfold compare_against. destruct (in_future now c) as [[]|]; simpl; try naive_solver.
  destruct (Z.ltb_spec (ref_length cur) (ref_length c)); naive_solver lia.
Qed.

Lemma send_new_tip_frame h t t' r :
  send_new_tip h t = Some (t', r) →
  r = Ok tt ∧ tip t' = tip t ∧ blockchain t' = blockchain t ∧ fragment_mbox t' = fragment_mbox t ∧
  tip_block t' = tip_block t.
Proof.
  unfold send_new_tip, modify_state. intros [= <- <-].
  destruct t as [? ? [sent|] ? ?]; simpl; [|done]. by destruct (can_watch boxes sent).
Qed.

Context `{!ChainTypesLaws, !BlockStoreLaws}.

Lemma head_after st st' h :
  Storage.put_tag MAIN_BRANCH_TAG h st = Ok st' →
  Storage.get_tag MAIN_BRANCH_TAG st' = Ok (Some h).
Proof.
  unfold Storage.put_tag, Storage.get_tag. destruct (bs_put_tag _ _ _) eqn:Hp; intros; simplify_eq/=.
  rewrite (bs_put_get_tag _ _ _ _ Hp). simpl. unfold Storage.deserialize_hash. by rewrite hash_roundtrip.
Qed.

(** C4: The tip moves only to a better branch.  [process_new_ref] keeps the tip
    whenever it fails.  When it succeeds, either the candidate is not longer
    than the tip or lies in the future by more than a second, and nothing has
    changed; or the candidate is the new tip: it is longer, not in the future,
    its block is in the storage, the HEAD tag names it, and the memory pool has
    been sent, after everything sent before and in the order of the chain, the
    removal of the fragments of the new block, or the switch of branch followed
    by the removals for the later blocks streamed from the common ancestor. *)
Theorem process_new_ref_correct now c t :
  match process_new_ref now c t with
  | None => True
  | Some (t', Err _) => tip t' = tip t
  | Some (t', Ok _) =>
      (compare_against now (tip t) c = Some PreferCurrent ∧ t' = t) ∨
      (tip t' = c ∧ (ref_length (tip t) < ref_length c)%Z ∧ in_future now c = Some false ∧
       Storage.get_tag MAIN_BRANCH_TAG (stored t') = Ok (Some (ref_hash c)) ∧
       ∃ b ms, Storage.get (ref_hash c) (stored t) = Ok (Some b) ∧ tip_block t' = Some (b, c) ∧
         move_msgs t c b ms ∧ fragment_mbox t' = (λ sent, sent ++ ms) <$> fragment_mbox t)
  end.
Proof.
  unfold process_new_ref, gets, expect, lift. unfold mbind at 1 2, prog_bind at 1 2.
  destruct (compare_against now (tip t) c) as [[]|] eqn:Hcmp; [by left| |done].
  apply compare_prefers in Hcmp as [Hfut Hlen].
  unfold mbind, prog_bind. unfold on_chain, query. fold (stored t).
  assert (set_blockchain (blockchain t) t = t) as -> by by destruct t.
  destruct (Storage.get _ _) as [[b|]|e] eqn:Hget; simpl; [|done|done].
  set (move := if decide _ then _ else _). destruct (move t) as [[t1 [[]|e]]|] eqn:Hmove; [| |done].
  - destruct (send_new_tip _ _) as [[t' r]|] eqn:Hs; [|done].
    apply send_new_tip_frame in Hs as (-> & Htip & Hbc & Hfm & Htb). right.
    assert (∃ st ms, Storage.put_tag MAIN_BRANCH_TAG (ref_hash c) (stored t) = Ok st ∧
      move_msgs t c b ms ∧ t1 = moved c st ms t) as (st & ms & Hput & Hms & ->).
    { unfold move in Hmove. case_decide.
      - pose proof (update_current_branch_tip_run c b t) as Hrun. rewrite Hmove in Hrun.
        destruct Hrun as (st & ? & ->). exists st, [removal_msg b]. by repeat split; try left.
      - pose proof (switch_tip_branch_run c (ref_hash (tip t)) t) as Hrun. rewrite Hmove in Hrun.
        destruct Hrun as (anc & first & rest & st & ? & ? & ? & ->). eexists st, _.
        split_and!; [done| |done]. right. split; [done|]. by exists anc, first, rest. }
    unfold stored. rewrite Htip, Hbc, Hfm, Htb. simpl. split_and!; [done..| |].
    + by apply head_after in Hput.
    + by exists b, ms.
  - unfold move in Hmove. case_decide.
    + pose proof (update_current_branch_tip_run c b t) as Hrun. rewrite Hmove in Hrun. apply Hrun.
    + pose proof (switch_tip_branch_run c (ref_hash (tip t)) t) as Hrun. rewrite Hmove in Hrun.
      by destruct Hrun as [ms ->].
Qed.

(** ** The task over time

    The updater takes candidates from its queues, logging the ones that fail,
    while the other tasks change the blockchain object. *)
Inductive tip_run (t0 : TipUpdater) : TipUpdater → list Ref → Prop :=
| run_start : tip_run t0 t0 []
| run_candidate t cs now c t' r :
    tip_run t0 t cs → process_new_ref now c t = Some (t', r) → tip_run t0 t' (c :: cs)
| run_others t cs b :
    tip_run t0 t cs → tip_run t0 (set_blockchain b t) cs.

(** The node never goes back to a shorter chain.  Whatever candidates the
    task processes, whatever fails, and whatever the other tasks do meanwhile,
    the tip is the initial one or one of the candidates, and its chain length
    never decreases; it increases whenever the tip changes. *)
Theorem tip_never_shrinks t0 t cs :
  tip_run t0 t cs →
  (tip t = tip t0 ∨ (tip t ∈ cs ∧ (ref_length (tip t0) < ref_length (tip t))%Z)).
Proof.
  induction 1 as [|t cs now c t' r _ IH Hp|t cs b _ IH]; [by left| |done].
  pose proof (process_new_ref_correct now c t) as Hc. rewrite Hp in Hc.
  destruct r as [[]|e].
  - destruct Hc as [[_ ->]|(-> & Hlt & _)]; [set_solver|]. right.
    split; [set_solver|]. destruct IH as [IH|[_ ?]]; [rewrite <- IH|]; lia.
  - rewrite Hc. set_solver.
Qed.

(** ** Reprocessing the branches *)
Lemma best_branch_spec n best refs :
  (∀ r, r ∈ refs → in_future n r = Some false) →
  ∃ b, best_branch (λ _, n) best refs = Some b ∧ b ∈ best :: refs ∧
       ∀ r, r ∈ best :: refs → (ref_length r ≤ ref_length b)%Z.
Proof.
  revert best. induction refs as [|r refs IH]; intros best Hf; simpl.
  { exists best. split; [done|]. set_solver. }
  unfold compare_against. rewrite Hf by set_solver. simpl.
  change (tick 1 (λ _, n)) with (λ _ : nat, n).
  destruct (Z.ltb_spec (ref_length best) (ref_length r)).
  - destruct (IH r) as (b & -> & Hin & Hall); [set_solver|]. exists b. split; [done|].
    split; [set_solver|]. intros x [->|?]%elem_of_cons; [|by apply Hall].
    transitivity (ref_length r); [lia|]. apply Hall. set_solver.
  - destruct (IH best) as (b & -> & Hin & Hall); [set_solver|]. exists b. split; [done|].
    split; [set_solver|]. intros x [->|[->|?]%elem_of_cons]%elem_of_cons; [apply Hall; set_solver| |].
    + transitivity (ref_length best); [lia|]. apply Hall. set_solver.
    + apply Hall. set_solver.
Qed.

(** Reprocessing proposes the longest branch.  When none of the branches of
    the storage is in the future, [reprocess_tip] either finds that the tip is
    itself a longest branch, or sends a longest branch to the tip updater,
    which prefers it exactly when it is longer than the tip. *)
Theorem reprocess_tip_longest n old s s' bs :
  branches s = Some (s', Ok bs) →
  (∀ b, b ∈ bs → in_future n (branch_ref b) = Some false) →
  ∃ o, reprocess_tip (λ _, n) old s = Some (s', Ok o) ∧
    match o with
    | None => bs = [] ∨ ∃ b, b ∈ bs ∧ ref_arc old = ref_arc (branch_ref b) ∧
        ∀ b', b' ∈ bs → (ref_length (branch_ref b') ≤ ref_length (branch_ref b))%Z
    | Some r =>
        (∃ b, b ∈ bs ∧ branch_ref b = r) ∧
        (∀ b', b' ∈ bs → (ref_length (branch_ref b') ≤ ref_length r)%Z) ∧
        (compare_against n old r = Some PreferCandidate ↔ (ref_length old < ref_length r)%Z)
    end.
Proof.
  intros Hbs Hf. unfold reprocess_tip, mbind, prog_bind. rewrite Hbs.
  destruct bs as [|b0 bs]; [exists None; by split; [|left]|]. rewrite fmap_cons.
  destruct (best_branch_spec n (branch_ref b0) (branch_ref <$> bs)) as (r & Hr & Hin & Hall).
  { intros r (b & -> & ?)%list_elem_of_fmap. apply Hf. set_solver. }
  unfold expect. rewrite Hr.
  assert (∃ b, b ∈ b0 :: bs ∧ branch_ref b = r) as (b & Hb & Hbr).
  { apply elem_of_cons in Hin as [->|(b & -> & ?)%list_elem_of_fmap]; eexists; split; set_solver. }
  assert (∀ b', b' ∈ b0 :: bs → (ref_length (branch_ref b') ≤ ref_length r)%Z) as Hmax.
  { intros b' Hb'. apply Hall. apply elem_of_cons in Hb' as [->|?]; [set_solver|].
    right. apply list_elem_of_fmap. by eexists. }
  eexists. split; [done|]. case_decide.
  - right. exists b. by rewrite Hbr.
  - split; [by exists b|]. split; [done|]. rewrite compare_prefers.
    subst r. rewrite Hf by done. naive_solver.
Qed.

End tip.
End Tip.

(** ** Witnesses: two branches from block 10 *)
Module SampleTip.
Import ListLru SampleFragments SampleStore SampleChain Reference Blockchain ChainInv ChainWitness Tip.

Definition b21 : Block := chain_block 21 10 1 0 6 [sample 1 90 10].
Definition b22 : Block := chain_block 22 21 2 0 8 [sample 2 90 10].
Definition b23 : Block := chain_block 23 22 3 1 4 [sample 3 90 10].
Definition s21 : Blockchain := after (CallBootstrap b21 Enabled) s2.
Definition s22 : Blockchain := after (CallBootstrap b22 Enabled) s21.
Definition s23 : Blockchain := after (CallBootstrap b23 Enabled) s22.
Definition r23 : Ref := hd dummy (refs_of (CallBootstrap b23 Enabled) s22).

Definition open_boxes : Boxes := mkBoxes (λ _, true) (λ _, true).
(** The node at block 12, and a time after every block of the examples. *)
Definition updater12 : TipUpdater :=
  mkTipUpdater r12 (match update (Storage.put_tag MAIN_BRANCH_TAG (hash 12)) s23 with
                    | Some (s, _) => s | None => s23 end) (Some []) (Some []) None.
Definition later : Z := 9000000000000.

Definition switched : TipUpdater :=
  match process_new_ref open_boxes later r23 updater12 with Some (t, _) => t | None => updater12 end.

Lemma switched_eq : process_new_ref open_boxes later r23 updater12 = Some (switched, Ok tt).
Proof.
  assert (match process_new_ref open_boxes later r23 updater12 with
          | Some (_, Ok _) => true | _ => false end = true) as Hok by reflexivity.
  unfold switched. by destruct (process_new_ref _ _ _ _) as [[t [[]|]]|].
Qed.

(** The hash of the branch found by loading the storage anew. *)
Definition reloaded : option HeaderHash :=
  match load_from_storage (λ _, later) genesis (blockchain_new (hash 10) (stored updater12) 8 false) with
  | Some (_, Ok b) => Some (ref_hash (branch_ref b))
  | _ => None
  end.

(** Switching branches forgets the first block of the new branch.  The node
    is at block 12 and block 23 arrives, on the branch 21, 22, 23 from block 10.
    [switch_tip_branch] takes the first block of the stream for the common
    ancestor, but the stream starts after it, which [load_from_storage] relies
    on to load the same storage: the branch switch is announced with the date
    of block 21 instead of block 10, and the fragments of block 21 are never
    removed from the pool. *)
Theorem switch_skips_first_block :
  reloaded = Some (hash 12) ∧
  Storage.find_common_ancestor (hash 23) (hash 12) (stored updater12) = Some (Ok (hash 10)) ∧
  tip switched = r23 ∧
  fragment_mbox switched = Some [BranchSwitch (header_block_date (block_header b21));
                                 removal_msg b22; removal_msg b23] ∧
  Forall (λ m, match m with
               | RemoveTransactions ids _ => fragment_hash (sample 1 90 10) ∉ ids
               | BranchSwitch _ => True
               end) (default [] (fragment_mbox switched)).
Proof.
  assert (fragment_mbox switched = Some [BranchSwitch (header_block_date (block_header b21));
                                         removal_msg b22; removal_msg b23]) as Hm by reflexivity.
  split_and!; [reflexivity..|exact Hm|]. rewrite Hm.
  repeat constructor; apply (bool_decide_unpack _); vm_compute; exact I.
Qed.

Lemma process_new_ref_correct_witness :
  tip switched = r23 ∧ (ref_length (tip updater12) < ref_length r23)%Z.
Proof.
  pose proof (process_new_ref_correct open_boxes later r23 updater12) as Hc.
  rewrite switched_eq in Hc. destruct Hc as [[_ Hsame]|(Htip & Hlen & _)]; [|split; [exact Htip|exact Hlen]].
  exfalso. apply (f_equal (λ t, ref_hash (tip t))) in Hsame.
  assert (ref_hash (tip switched) = hash 23) as H1 by reflexivity.
  assert (ref_hash (tip updater12) = hash 12) as H2 by reflexivity.
  cbv beta in Hsame. rewrite H1, H2 in Hsame. unfold hash in Hsame. discriminate Hsame.
Defined.

Lemma tip_never_shrinks_witness :
  tip switched = tip updater12 ∨
  (tip switched ∈ [r23] ∧ (ref_length (tip updater12) < ref_length (tip switched))%Z).
Proof.
  apply (tip_never_shrinks open_boxes updater12 switched [r23]).
  apply (run_candidate open_boxes updater12 updater12 [] later r23 switched (Ok tt)).
  - apply run_start.
  - apply switched_eq.
Defined.

(** Both branches are known; the longer one is found. *)
Lemma reprocess_tip_longest_witness :
  ∃ s' r, reprocess_tip (λ _, later) r12 s23 = Some (s', Ok (Some r)) ∧
    ∀ b, match branches s23 with Some (_, Ok bs) => b ∈ bs | _ => False end →
      (ref_length (branch_ref b) ≤ ref_length r)%Z.
Proof.
  assert (match branches s23 with
          | Some (_, Ok bs) => forallb (λ b, match ChainSelection.in_future later (branch_ref b) with
                                             | Some false => true | _ => false end) bs
          | _ => false end = true) as Hf by reflexivity.
  assert (match reprocess_tip (λ _, later) r12 s23 with Some (_, Ok (Some _)) => true | _ => false end
          = true) as Hsome by reflexivity.
  destruct (branches s23) as [[s' [bs|e]]|] eqn:Hb; [|discriminate Hf..].
  destruct (reprocess_tip_longest later r12 s23 s' bs Hb) as (o & Heq & Ho).
  { intros b Hin. rewrite forallb_forall in Hf. specialize (Hf b). rewrite <- list_elem_of_In in Hf.
    specialize (Hf Hin).
    destruct (ChainSelection.in_future later (branch_ref b)) as [[|]|];
      [discriminate Hf|reflexivity|discriminate Hf]. }
  rewrite Heq in Hsome. destruct o as [r|]; [|discriminate Hsome].
  destruct Ho as (_ & Hmax & _). exists s', r. split; [exact Heq|exact Hmax].
Defined.
End SampleTip.
