(* ===== verification/Candidate.v ===== *)
(** * Candidate branches

    Models [jormungandr/src/blockchain/candidate.rs]: the headers of a branch
    proposed by a peer are skipped while they are already present, the first
    one that is not must have a known parent, and the following ones must form
    a chain on top of it; at most [BLOCKS] hashes are picked up for download.
    A stream of headers is the list of the headers it will deliver. *)

From S2P Require Import Prelude BlockDate Lru Deque Fragment FragmentLogs Storage Chain ChainInv.

Module Candidate.
Import Reference Blockchain ChainInv.
Section candidate.
Context `{BlockStore} `{!LedgerTypes} `{!MultiverseOps} `{!LruCache HeaderHash Ref}.

(** [chunk_sizes::BLOCKS] *)
Definition BLOCKS : nat := 32.

Inductive Error :=
| EmptyHeaderStream
| BlockchainError (e : Blockchain.Error)
| MissingParentBlock (h : HeaderHash)
| BrokenHeaderChain (h : HeaderHash)
| HeaderChainVerificationFailed (e : HeaderChainVerifyError).

Definition C := prog Blockchain Error.

Definition start (stream : list Header) : result Error (Header * list Header) :=
  match stream with
  | header :: stream => Ok (header, stream)
  | [] => Err EmptyHeaderStream
  end.

Fixpoint skip_present_blocks (header : Header) (stream : list Header)
    : C (option (Header * list Header)) :=
  pre_checked ← map_error BlockchainError (pre_check_header header false);
  match pre_checked with
  | AlreadyPresent _ _ =>
      match stream with
      | header :: stream => skip_present_blocks header stream
      | [] => mret None
      end
  | HeaderWithCache header _ => mret (Some (header, stream))
  | MissingParent header => throw (MissingParentBlock (block_parent_hash header))
  end.

Record ChainAdvance := mkAdvance {
  adv_stream : list Header;
  parent_header : Header;
  adv_header : option Header;
  new_hashes : list HeaderHash;
}.

Inductive Outcome := Incomplete | Complete.

Definition process_header (header : Header) (a : ChainAdvance) : result Error ChainAdvance :=
  let block_hash := header_hash header in
  let parent_hash := block_parent_hash header in
  if decide (parent_hash ≠ header_hash (parent_header a)) then Err (BrokenHeaderChain parent_hash)
  else
    let? _ := map_err HeaderChainVerificationFailed (pre_verify_link header (parent_header a)) in
    Ok (mkAdvance (adv_stream a) header (adv_header a) (new_hashes a ++ [block_hash])).

(** The loop of [poll_done], once [header] has been taken. *)
Fixpoint poll_stream (stream : list Header) (a : ChainAdvance)
    : result Error (ChainAdvance * Outcome) :=
  match stream with
  | [] => Ok (mkAdvance [] (parent_header a) None (new_hashes a), Complete)
  | header :: stream =>
      let? a := process_header header (mkAdvance stream (parent_header a) None (new_hashes a)) in
      if (BLOCKS <=? length (new_hashes a))%nat then Ok (a, Incomplete) else poll_stream stream a
  end.

Definition poll_done (a : ChainAdvance) : result Error (ChainAdvance * Outcome) :=
  match adv_header a with
  | Some header =>
      let? a := process_header header
                  (mkAdvance (adv_stream a) (parent_header a) None (new_hashes a)) in
      if (BLOCKS <=? length (new_hashes a))%nat then Ok (a, Incomplete)
      else poll_stream (adv_stream a) a
  | None => poll_stream (adv_stream a) a
  end.

Definition land_header_chain (stream : list Header) : C (option ChainAdvance) :=
  '(header, stream) ← lift (start stream);
  maybe_new ← skip_present_blocks header stream;
  mret (match maybe_new with
        | Some (header, stream) => Some (mkAdvance stream header None [header_hash header])
        | None => None
        end).

Definition advance_branch (stream : list Header) : C (list HeaderHash * option (list Header)) :=
  advance ← land_header_chain stream;
  match advance with
  | Some advance =>
      '(advance, done) ← lift (poll_done advance);
      mret (new_hashes advance,
            match done with Complete => None | Incomplete => Some (adv_stream advance) end)
  | None => mret ([], None)
  end.

(** ** Correctness *)
#[local] Opaque BLOCKS.

(** Headers that follow one another, starting from the parent [p]. *)
Fixpoint linked (p : Header) (hs : list Header) : Prop :=
  match hs with
  | [] => True
  | h :: hs => block_parent_hash h = header_hash p ∧ pre_verify_link h p = Ok tt ∧ linked h hs
  end.

Lemma poll_stream_spec stream a :
  length (new_hashes a) < BLOCKS →
  match poll_stream stream a with
  | Ok (a', o) =>
      ∃ hs rest, stream = hs ++ rest ∧ linked (parent_header a) hs ∧
        new_hashes a' = new_hashes a ++ (header_hash <$> hs) ∧ length (new_hashes a') ≤ BLOCKS ∧
        adv_stream a' = rest ∧
        match o with Complete => rest = [] | Incomplete => length (new_hashes a') = BLOCKS end
  | Err (BrokenHeaderChain h) => ∃ hd, hd ∈ stream ∧ h = block_parent_hash hd
  | Err (HeaderChainVerificationFailed e) =>
      ∃ p hd, hd ∈ stream ∧ block_parent_hash hd = header_hash p ∧ pre_verify_link hd p = Err e
  | Err _ => False
  end.
Proof.
  revert a. induction stream as [|h stream IH]; intros a Hlt; simpl.
  { exists [], []. simpl. rewrite app_nil_r. repeat split; lia. }
  unfold process_header. simpl. case_decide as Hp; [set_solver|].
  destruct (pre_verify_link h (parent_header a)) as [[]|e] eqn:Hl; simpl; [|set_solver].
  destruct (Nat.leb_spec BLOCKS (length (new_hashes a ++ [header_hash h]))) as [Hle|Hgt].
  - exists [h], stream. simpl in *. rewrite length_app in *. simpl in *. repeat split; auto; lia.
  - specialize (IH (mkAdvance stream h None (new_hashes a ++ [header_hash h])) Hgt). simpl in IH.
    destruct (poll_stream stream _) as [[a' o]|[]]; try done; [|set_solver..].
    destruct IH as (hs & rest & -> & Hlk & Hn & Hb & Hs & Ho). exists (h :: hs), rest.
    rewrite Hn, <- app_assoc. rewrite Hn, <- app_assoc in Hb, Ho. done.
Qed.

Context `{!LruLaws HeaderHash Ref}.

(** The header can be put on top of a cached reference. *)
Definition lands (s : Blockchain) (h : Header) : Prop :=
  cached s (header_hash h) = None ∧
  ∃ p, cached s (block_parent_hash h) = Some p ∧ pre_verify_link h (ref_header p) = Ok tt.
Definition present (s : Blockchain) (h : Header) : Prop := is_Some (cached s (header_hash h)).

Lemma present_same s s' h : same_refs s s' → present s' h → present s h.
Proof. intros [_ Hc]. unfold present. by rewrite Hc. Qed.
Lemma lands_same s s' h : same_refs s s' → lands s' h → lands s h.
Proof. intros [_ Hc]. unfold lands. by rewrite !Hc. Qed.

Lemma skip_present_spec header stream s :
  ∃ s' r, skip_present_blocks header stream s = Some (s', r) ∧ same_refs s s' ∧
    match r with
    | Ok None => Forall (present s) (header :: stream)
    | Ok (Some (h, rest)) =>
        ∃ before, header :: stream = before ++ h :: rest ∧ Forall (present s) before ∧ lands s h
    | Err (MissingParentBlock ph) =>
        cached s ph = None ∧ ∃ h, h ∈ header :: stream ∧ ph = block_parent_hash h
    | Err (BlockchainError _) => True
    | Err _ => False
    end.
Proof.
  revert header s. induction stream as [|h' stream IH]; intros header s; simpl;
    unfold mbind, prog_bind, map_error;
    destruct (pre_check_run header s) as (s1 & r & -> & Hsame & Hpre); simpl;
    destruct r as [pre|e]; simpl; try (by eexists _, _);
    specialize (Hpre _ eq_refl); destruct pre as [h [r|]|h|h p]; simpl in Hpre; try done.
  - exists s1, (Ok None). split_and!; [done|done|]. destruct Hpre as [_ Hr].
    constructor; [by exists r|done].
  - destruct Hpre as (-> & _ & Hp). eexists s1, _. split_and!; [done|done|].
    split; [done|]. exists header. set_solver.
  - destruct Hpre as (-> & Hs & Hp & Hl). eexists s1, _. split_and!; [done|done|].
    exists []. repeat split; eauto.
  - destruct (IH h' s1) as (s2 & r2 & -> & Hsame2 & Hr2). exists s2, r2.
    assert (present s header) as Hhd by (destruct Hpre as [_ Hr]; by exists r).
    split_and!; [done|by eapply same_refs_trans|].
    destruct r2 as [[[h2 rest]|]|[]]; try done.
    + destruct Hr2 as (before & -> & Hb & Hl). exists (header :: before).
      split_and!; [done| |by eapply lands_same].
      constructor; [done|]. eapply Forall_impl; [exact Hb|]. intros x. by apply present_same.
    + constructor; [done|]. eapply Forall_impl; [exact Hr2|]. intros x. by apply present_same.
    + destruct Hsame as [_ Hc]. rewrite <- Hc. set_solver.
  - destruct Hpre as (-> & _ & Hp). eexists s1, _. split_and!; [done|done|].
    split; [done|]. exists header. set_solver.
  - destruct Hpre as (-> & Hs & Hp & Hl). eexists s1, _. split_and!; [done|done|].
    exists []. repeat split; eauto.
Qed.

(** C26: [advance_branch] asks for the right blocks.  It never panics and leaves
    the storage and the cached references as they are.  When it succeeds, the
    stream splits into headers already present, a chain of headers and the rest
    left unread: the first of the chain is not cached and is verified against
    its cached parent, each other one against its predecessor, and the hashes
    returned are those of the chain, in order and at most 32; the rest is
    returned only when there are 32 of them, and is empty otherwise. *)
Theorem advance_branch_correct stream s :
  ∃ s' r, advance_branch stream s = Some (s', r) ∧ same_refs s s' ∧
    match r with
    | Ok (hashes, o) =>
        ∃ before chain rest,
          stream = before ++ chain ++ rest ∧ Forall (present s) before ∧
          hashes = header_hash <$> chain ∧ length chain ≤ BLOCKS ∧
          match chain with [] => True | h :: hs => lands s h ∧ linked h hs end ∧
          match o with None => rest = [] | Some unread => unread = rest ∧ length chain = BLOCKS end
    | Err EmptyHeaderStream => stream = []
    | Err (MissingParentBlock h) =>
        cached s h = None ∧ ∃ hd, hd ∈ stream ∧ h = block_parent_hash hd
    | Err (BrokenHeaderChain h) => ∃ hd, hd ∈ stream ∧ h = block_parent_hash hd
    | Err (HeaderChainVerificationFailed e) =>
        ∃ p hd, hd ∈ stream ∧ block_parent_hash hd = header_hash p ∧ pre_verify_link hd p = Err e
    | Err (BlockchainError _) => True
    end.
Proof.
  unfold advance_branch, land_header_chain, lift, mbind, prog_bind. destruct stream as [|hd stream]; simpl.
  { eexists s, _. by split_and!. }
  destruct (skip_present_spec hd stream s) as (s1 & r & -> & Hsame & Hr).
  destruct r as [[[h rest]|]|e]; simpl.
  - destruct Hr as (before & Hsp & Hb & Hl). rewrite Hsp. unfold poll_done. simpl.
    pose proof (poll_stream_spec rest (mkAdvance rest h None [header_hash h])) as Hpoll.
    simpl in Hpoll. specialize (Hpoll ltac:(apply Nat.ltb_lt; reflexivity)).
    destruct (poll_stream _ _) as [[a o]|e]; eexists s1, _; (split_and!; [done|done|]); simpl.
    + destruct Hpoll as (hs & rest' & -> & Hlk & Hn & Hlen & Hs & Ho).
      assert (length (h :: hs) = length (new_hashes a)) as Hlen'.
      { rewrite Hn. simpl. by rewrite length_fmap. }
      exists before, (h :: hs), rest'. rewrite Hn. split_and!; [done..|lia|done|done|].
      destruct o; simpl in *; [split; [done|lia]|done].
    + destruct e; try done; set_solver.
  - eexists s1, _. split_and!; [done|done|]. exists (hd :: stream), [], [].
    rewrite app_nil_r. simpl. split_and!; try done. lia.
  - eexists s1, _. split_and!; [done|done|]. destruct e; done.
Qed.
End candidate.
End Candidate.

Module CandidateWitness.
Import ListLru SampleFragments SampleStore SampleChain Blockchain ChainInv ChainWitness Candidate.

Definition h13 : Header := block_header (chain_block 13 12 3 1 7 []).
Definition h14 : Header := block_header (chain_block 14 13 4 1 9 []).

(** Blocks 11 and 12 are known, 13 and 14 are to be fetched. *)
Lemma advance_branch_correct_witness :
  ∃ s', advance_branch [block_header b11; block_header b12; h13; h14] s2
        = Some (s', Ok ([hash 13; hash 14], None)) ∧ same_refs s2 s'.
Proof.
  destruct (advance_branch_correct [block_header b11; block_header b12; h13; h14] s2)
    as (s' & r & Heq & Hsame & _).
  exists s'. split; [|exact Hsame].
  assert (match advance_branch [block_header b11; block_header b12; h13; h14] s2 with
          | Some (_, r) => r | None => Err EmptyHeaderStream end = Ok ([hash 13; hash 14], None))
    as Hr by reflexivity.
  rewrite Heq in Hr |- *. subst r. reflexivity.
Defined.
End CandidateWitness.
