(* ===== verification/BlockProcess.v ===== *)
(** * The block task and the bootstrap

    Models [jormungandr/src/blockchain/process.rs] (blocks and headers received
    from the leadership task and from the network) and [bootstrap.rs] (the
    first synchronisation with a peer).  A handler is a program on the state
    shared by the tasks; each handler runs as one step.  Message boxes and the
    command channels of the two schedulers are the lists of what was put in
    them; whether they accept one more is the parameter [Channels]. *)

From S2P Require Import Prelude BlockDate Lru Deque Fragment FragmentLogs Storage Chain ChainInv Checkpoints Tip Candidate.

Module BlockProcess.
Import Reference Blockchain.
Section process.
Context `{BlockStore} `{!FragmentOps} `{!LedgerTypes} `{!MultiverseOps}
  `{!LruCache HeaderHash Ref} {NodeId : Type}.

(** The messages of [NetworkMsg] that the block task sends. *)
Inductive NetworkMsg :=
| PropagateBlock (header : Header)
| GetBlocks (ids : list HeaderHash).

(** The commands sent to a [FireForgetScheduler]. *)
Inductive SchedulerCommand (D : Type) :=
| Schedule (tid : HeaderHash) (wid : NodeId) (data : D)
| DeclareCompleted (tid : HeaderHash).
Arguments Schedule {D} _ _ _.
Arguments DeclareCompleted {D} _.

(** [intercom::Error], by its code. *)
Inductive ReplyError := Failed | FailedPrecondition | InvalidArgument.

Record State := mkState {
  blockchain : Blockchain;
  blockchain_tip : Ref;
  block_recv_cnt : Z;
  network_msgs : list NetworkMsg;
  watch_msgs : list Tip.WatchMsg;
  tip_updates : list Ref;
  pull_headers : list (SchedulerCommand (list HeaderHash));
  get_next_block : list (SchedulerCommand unit);
  (** the replies sent to the peers *)
  replies : list (result ReplyError unit);
}.

Definition set_blockchain (b : Blockchain) (s : State) : State :=
  mkState b (blockchain_tip s) (block_recv_cnt s) (network_msgs s) (watch_msgs s)
    (tip_updates s) (pull_headers s) (get_next_block s) (replies s).
Definition incr_block_recv (s : State) : State :=
  mkState (blockchain s) (blockchain_tip s) (usize_add (block_recv_cnt s) 1) (network_msgs s)
    (watch_msgs s) (tip_updates s) (pull_headers s) (get_next_block s) (replies s).
Definition add_network (m : NetworkMsg) (s : State) : State :=
  mkState (blockchain s) (blockchain_tip s) (block_recv_cnt s) (network_msgs s ++ [m])
    (watch_msgs s) (tip_updates s) (pull_headers s) (get_next_block s) (replies s).
Definition add_watch (m : Tip.WatchMsg) (s : State) : State :=
  mkState (blockchain s) (blockchain_tip s) (block_recv_cnt s) (network_msgs s)
    (watch_msgs s ++ [m]) (tip_updates s) (pull_headers s) (get_next_block s) (replies s).
Definition add_tip_update (r : Ref) (s : State) : State :=
  mkState (blockchain s) (blockchain_tip s) (block_recv_cnt s) (network_msgs s) (watch_msgs s)
    (tip_updates s ++ [r]) (pull_headers s) (get_next_block s) (replies s).
Definition add_pull (c : SchedulerCommand (list HeaderHash)) (s : State) : State :=
  mkState (blockchain s) (blockchain_tip s) (block_recv_cnt s) (network_msgs s) (watch_msgs s)
    (tip_updates s) (pull_headers s ++ [c]) (get_next_block s) (replies s).
Definition add_next (c : SchedulerCommand unit) (s : State) : State :=
  mkState (blockchain s) (blockchain_tip s) (block_recv_cnt s) (network_msgs s) (watch_msgs s)
    (tip_updates s) (pull_headers s) (get_next_block s ++ [c]) (replies s).
Definition add_reply (r : result ReplyError unit) (s : State) : State :=
  mkState (blockchain s) (blockchain_tip s) (block_recv_cnt s) (network_msgs s) (watch_msgs s)
    (tip_updates s) (pull_headers s) (get_next_block s) (replies s ++ [r]).

(** What the channels accept, given what was put in them before. *)
Record Channels := mkChannels {
  network_open : list NetworkMsg → bool;
  watch_open : list Tip.WatchMsg → bool;
  tip_ready : list Ref → bool;
  pull_ready : list (SchedulerCommand (list HeaderHash)) → bool;
  next_ready : list (SchedulerCommand unit) → bool;
}.
Variable ch : Channels.

Definition P := prog State Error.

Definition on_chain {A} (m : M A) : P A :=
  λ s, match m (blockchain s) with
       | Some (b, r) => Some (set_blockchain b s, r)
       | None => None
       end.

(** [network_msg_box.send(msg).await] and [watch_msg_box.send(msg).await] *)
Definition send_network (m : NetworkMsg) : P unit :=
  λ s, if network_open ch (network_msgs s) then Some (add_network m s, Ok tt)
       else Some (s, Err SendError).
Definition send_watch (m : Tip.WatchMsg) : P unit :=
  λ s, if watch_open ch (watch_msgs s) then Some (add_watch m s, Ok tt)
       else Some (s, Err SendError).

(** The commands to the schedulers; failures are logged. *)
Definition schedule_pull (c : SchedulerCommand (list HeaderHash)) : P unit :=
  modify_state (λ s, if pull_ready ch (pull_headers s) then add_pull c s else s).
Definition schedule_next (c : SchedulerCommand unit) : P unit :=
  modify_state (λ s, if next_ready ch (get_next_block s) then add_next c s else s).

Definition process_and_propagate_new_ref (new_block_ref : Ref) : P unit :=
  let header := ref_header new_block_ref in
  _ ← modify_state (λ s, if tip_ready ch (tip_updates s) then add_tip_update new_block_ref s else s);
  send_network (PropagateBlock header).

Definition process_leadership_block_inner (lb : LeadershipBlock) : P Ref :=
  applied ← on_chain (apply_and_store_leadership_block lb);
  expect (new_ref applied).

Definition process_leadership_block (lb : LeadershipBlock) : P unit :=
  let block := lb_block lb in
  new_block_ref ← process_leadership_block_inner lb;
  _ ← send_watch (Tip.NewBlock block);
  process_and_propagate_new_ref new_block_ref.

Definition process_block_announcement (header : Header) (node_id : NodeId) : P unit :=
  pre_checked ← on_chain (pre_check_header header false);
  match pre_checked with
  | AlreadyPresent _ _ => mret tt
  | MissingParent header =>
      tip ← gets blockchain_tip;
      from ← expect (Checkpoints.new_from tip);
      schedule_pull (Schedule (header_hash header) node_id from)
  | HeaderWithCache header _ => schedule_next (Schedule (header_hash header) node_id tt)
  end.

Definition check_and_apply_block (parent_ref : Ref) (block : Block) : P (option Ref) :=
  post_checked ← on_chain (post_check_header (block_header block) parent_ref Enabled);
  applied_block ← on_chain (apply_and_store_block post_checked block);
  match applied_block with
  | New block_ref =>
      _ ← modify_state (λ s, if watch_open ch (watch_msgs s)
                             then add_watch (Tip.NewBlock block) s else s);
      mret (Some block_ref)
  | Existing _ => mret None
  end.

Definition process_network_block (block : Block) : P (option Ref) :=
  let header := block_header block in
  _ ← schedule_next (DeclareCompleted (header_hash header));
  pre_checked ← on_chain (pre_check_header header false);
  match pre_checked with
  | AlreadyPresent _ _ => mret None
  | MissingParent header => throw (MissingParentBlock (block_parent_hash header))
  | HeaderWithCache _ parent_ref => check_and_apply_block parent_ref block
  end.

Definition network_block_error_into_reply (err : Error) : ReplyError :=
  match err with
  | StorageErr _ => Failed
  | Block0Err _ => Failed
  | MissingParentBlock _ => FailedPrecondition
  | BlockHeaderVerificationFailed _ => InvalidArgument
  | _ => Failed
  end.

Definition reply (r : result ReplyError unit) : P unit := modify_state (add_reply r).

(** The loop of [process_network_blocks]: the last block accepted. *)
Fixpoint network_blocks_loop (stream : list Block) (candidate : option Ref) : P (option Ref) :=
  match stream with
  | [] => _ ← reply (Ok tt); mret candidate
  | block :: stream =>
      res ← attempt (process_network_block block);
      match res with
      | Ok (Some r) =>
          _ ← modify_state incr_block_recv;
          network_blocks_loop stream (Some r)
      | Ok None => _ ← reply (Ok tt); mret candidate
      | Err e => _ ← reply (Err (network_block_error_into_reply e)); mret candidate
      end
  end.

Definition process_network_blocks (stream : list Block) : P unit :=
  maybe_updated ← network_blocks_loop stream None;
  match maybe_updated with
  | Some new_block_ref => process_and_propagate_new_ref new_block_ref
  | None => mret tt
  end.

Definition chain_header_error_into_reply (err : Candidate.Error) : ReplyError :=
  match err with
  | Candidate.BlockchainError _ => Failed
  | Candidate.EmptyHeaderStream => InvalidArgument
  | Candidate.MissingParentBlock _ => FailedPrecondition
  | Candidate.BrokenHeaderChain _ => InvalidArgument
  | Candidate.HeaderChainVerificationFailed _ => InvalidArgument
  end.

(** [try_for_each]: stops at the first failure. *)
Fixpoint declare_all (ids : list HeaderHash) (s : State) : State :=
  match ids with
  | [] => s
  | id :: ids =>
      if pull_ready ch (pull_headers s) then declare_all ids (add_pull (DeclareCompleted id) s) else s
  end.

(** The branch of the candidate headers, with its own error type. *)
Definition advance (stream : list Header) : P (result Candidate.Error (list HeaderHash)) :=
  λ s, match Candidate.advance_branch stream (blockchain s) with
       | Some (b, Ok (ids, _)) => Some (set_blockchain b s, Ok (Ok ids))
       | Some (b, Err e) => Some (set_blockchain b s, Ok (Err e))
       | None => None
       end.

(** Sending to a closed network box panics here ([unwrap]). *)
Definition process_chain_headers (stream : list Header) : P unit :=
  r ← advance stream;
  match r with
  | Err e => reply (Err (chain_header_error_into_reply e))
  | Ok header_ids =>
      _ ← modify_state (declare_all header_ids);
      match header_ids with
      | [] => mret tt
      | _ :: _ =>
          sent ← attempt (send_network (GetBlocks header_ids));
          _ ← expect (match sent with Ok u => Some u | Err _ => None end);
          reply (Ok tt)
      end
  end.

Definition blockchain_gc : P unit :=
  tip ← gets blockchain_tip;
  on_chain (gc tip).

Inductive BlockMsg :=
| LeadershipBlockMsg (lb : LeadershipBlock)
| AnnouncedBlock (header : Header) (node_id : NodeId)
| NetworkBlocks (stream : list Block)
| ChainHeaders (stream : list Header).

(** [handle_input]: the task spawned for a message, run to its end. *)
Definition handle_input (input : BlockMsg) : P unit :=
  match input with
  | LeadershipBlockMsg lb => process_leadership_block lb
  | AnnouncedBlock header node_id => process_block_announcement header node_id
  | NetworkBlocks stream => process_network_blocks stream
  | ChainHeaders stream => process_chain_headers stream
  end.

(** Nothing changed but the blockchain object, the watchers and the schedulers. *)
Definition quiet (s s' : State) : Prop :=
  tip_updates s' = tip_updates s ∧ network_msgs s' = network_msgs s ∧
  block_recv_cnt s' = block_recv_cnt s ∧ replies s' = replies s ∧
  blockchain_tip s' = blockchain_tip s.

Lemma declare_all_frame ids s :
  blockchain (declare_all ids s) = blockchain s ∧ quiet s (declare_all ids s).
Proof.
  revert s. induction ids as [|id ids IH]; intros s; simpl; [done|].
  destruct (pull_ready ch _); [|done].
  exact (IH (add_pull (DeclareCompleted id) s)).
Qed.

(** ** The references handed on by the task are valid *)
Section valid.
Import ChainInv.
Context `{!ChainTypesLaws, !LruLaws HeaderHash Ref, !MultiverseLaws}.
Variables (B0 : Block) (report_all : bool) (trusted : Header → Prop).
#[local] Abbreviation valid_ref := (valid_ref B0 report_all trusted).
#[local] Abbreviation cache_ok := (cache_ok B0 report_all trusted).
#[local] Abbreviation safe := (safe B0 report_all trusted).

Definition task_ok (s : State) : Prop :=
  cache_ok (blockchain s) ∧ Forall valid_ref (tip_updates s).

(** [keeps m Q]: [m] preserves [task_ok], and returns something in [Q]. *)
Definition keeps {A} (m : P A) (Q : A → Prop) : Prop :=
  hoare True task_ok m (λ a s, Q a ∧ task_ok s) (λ _, task_ok).

Lemma keeps_bind {A B} (m : P A) (f : A → P B) Q Q' :
  keeps m Q → (∀ a, Q a → keeps (f a) Q') → keeps (mbind f m) Q'.
Proof. intros Hm Hf. eapply hoare_bind; [exact Hm|]. intros a. apply hoare_pure. by apply Hf. Qed.
Lemma keeps_ret {A} (a : A) (Q : A → Prop) : Q a → keeps (mret a) Q.
Proof. intros Ha s Hs. done. Qed.
Lemma keeps_throw {A} e (Q : A → Prop) : keeps (throw e) Q.
Proof. by apply hoare_throw. Qed.
Lemma keeps_expect {A} (o : option A) : keeps (expect o) (λ a, o = Some a).
Proof. by apply hoare_expect. Qed.
Lemma keeps_on_chain {A} (m : M A) Q : safe m Q → keeps (on_chain m) Q.
Proof.
  intros Hm s [Hc Ht]. specialize (Hm _ Hc). unfold on_chain.
  destruct (m (blockchain s)) as [[b [a|e]]|]; simpl; [|done|done].
  destruct Hm. split; [done|]. by split.
Qed.
Lemma keeps_attempt {A} (m : P A) Q :
  keeps m Q → keeps (attempt m) (λ r, match r with Ok a => Q a | Err _ => True end).
Proof.
  intros Hm. eapply hoare_conseq; [eapply (hoare_attempt _ _ (λ _, task_ok)), Hm|done| |done|done].
  intros [a|e]; naive_solver.
Qed.
(** Changing the channels and counters only. *)
Lemma keeps_modify (f : State → State) :
  (∀ s, blockchain (f s) = blockchain s ∧ tip_updates (f s) = tip_updates s) →
  keeps (modify_state f) (λ _, True).
Proof. intros Hf s [Hc Ht]. simpl. split; [done|]. destruct (Hf s) as [Hb Hu]. split; congruence. Qed.
Lemma keeps_send_network m : keeps (send_network m) (λ _, True).
Proof. intros s Hs. unfold send_network. by destruct (network_open ch _). Qed.
Lemma keeps_send_watch m : keeps (send_watch m) (λ _, True).
Proof. intros s Hs. unfold send_watch. by destruct (watch_open ch _). Qed.

Lemma keeps_schedule_pull c : keeps (schedule_pull c) (λ _, True).
Proof. apply keeps_modify. intros s. by destruct (pull_ready ch _). Qed.
Lemma keeps_schedule_next c : keeps (schedule_next c) (λ _, True).
Proof. apply keeps_modify. intros s. by destruct (next_ready ch _). Qed.
Lemma keeps_reply r : keeps (reply r) (λ _, True).
Proof. by apply keeps_modify. Qed.

Lemma keeps_process_and_propagate r :
  valid_ref r → keeps (process_and_propagate_new_ref r) (λ _, True).
Proof.
  intros Hr. eapply (keeps_bind _ _ (λ _, True)); [|intros _ _; apply keeps_send_network].
  intros s [Hc Ht]. simpl. split; [done|]. destruct (tip_ready ch _); [|done].
  split; [done|]. simpl. apply Forall_app. by repeat constructor.
Qed.

Lemma keeps_process_leadership_block lb :
  leadership_block_ok B0 report_all trusted lb →
  keeps (process_leadership_block lb) (λ _, True).
Proof.
  intros Hlb. unfold process_leadership_block, process_leadership_block_inner.
  eapply (keeps_bind _ _ valid_ref).
  - eapply keeps_bind; [by apply keeps_on_chain, safe_apply_and_store_leadership_block|].
    intros [r|r] [Ha _]; simpl in *; [|done].
    eapply hoare_conseq; [apply keeps_expect|done|naive_solver|done|done].
  - intros r Hr. eapply keeps_bind; [apply keeps_send_watch|]. intros _ _.
    by apply keeps_process_and_propagate.
Qed.

Lemma keeps_process_block_announcement hd n :
  keeps (process_block_announcement hd n) (λ _, True).
Proof.
  unfold process_block_announcement.
  eapply keeps_bind; [by apply keeps_on_chain, safe_pre_check_header|]. intros pre _.
  destruct pre; [by apply keeps_ret| |apply keeps_schedule_next].
  eapply (keeps_bind _ _ (λ _, True)); [done|]. intros tip _.
  eapply keeps_bind; [apply keeps_expect|]. intros cps _. apply keeps_schedule_pull.
Qed.

Lemma keeps_process_network_block b :
  keeps (process_network_block b) (λ o, ∀ r, o = Some r → valid_ref r ∧ ref_header r = block_header b).
Proof.
  unfold process_network_block. eapply keeps_bind; [apply keeps_schedule_next|]. intros _ _.
  eapply keeps_bind; [by apply keeps_on_chain, safe_pre_check_header|]. intros pre [Hpre Hl].
  destruct pre as [? ?|h|h p]; [by apply keeps_ret|apply keeps_throw|].
  destruct Hpre as (-> & Hp & Hh). specialize (Hl _ _ eq_refl). unfold check_and_apply_block.
  eapply keeps_bind; [by apply keeps_on_chain, safe_post_check_header|]. intros pc [Hhd Hpc].
  eapply keeps_bind; [by eapply keeps_on_chain, safe_apply_and_store_block|].
  intros [r|r] [Hv Hr]; simpl in *; [|by apply keeps_ret].
  eapply keeps_bind; [apply keeps_modify; intros s; by destruct (watch_open ch _)|].
  intros _ _. apply keeps_ret. intros ? [= <-]. split; [done|congruence].
Qed.

Lemma keeps_network_blocks_loop stream o :
  (∀ r, o = Some r → valid_ref r) →
  keeps (network_blocks_loop stream o) (λ o, ∀ r, o = Some r → valid_ref r).
Proof.
  revert o. induction stream as [|b stream IH]; intros o Ho; simpl.
  { eapply keeps_bind; [apply keeps_reply|]. intros _ _. by apply keeps_ret. }
  eapply keeps_bind; [apply keeps_attempt, keeps_process_network_block|].
  intros [[r|]|e] Hr; simpl in Hr.
  - eapply keeps_bind; [by apply keeps_modify|]. intros _ _. apply IH. naive_solver.
  - eapply keeps_bind; [apply keeps_reply|]. intros _ _. by apply keeps_ret.
  - eapply keeps_bind; [apply keeps_reply|]. intros _ _. by apply keeps_ret.
Qed.

Lemma keeps_process_network_blocks stream : keeps (process_network_blocks stream) (λ _, True).
Proof.
  unfold process_network_blocks. eapply keeps_bind; [by apply keeps_network_blocks_loop|].
  intros [r|] Hr; [|by apply keeps_ret]. apply keeps_process_and_propagate. by apply Hr.
Qed.

Lemma safe_skip_present hd stream :
  hoare True cache_ok (Candidate.skip_present_blocks hd stream) (λ _, cache_ok) (λ _, cache_ok).
Proof.
  revert hd. induction stream as [|h stream IH]; intros hd; simpl.
  all: eapply hoare_bind; [apply hoare_map_error; by apply safe_pre_check_header|].
  all: intros [? ?|?|? ?]; apply hoare_pure; intros _; try apply IH; by intros s Hs.
Qed.

Lemma keeps_advance stream : keeps (advance stream) (λ _, True).
Proof.
  intros s [Hc Ht]. unfold advance.
  assert (hoare True cache_ok (Candidate.advance_branch stream) (λ _, cache_ok) (λ _, cache_ok)) as Ha.
  { unfold Candidate.advance_branch. eapply (hoare_bind _ _ _ _ _ (λ _, cache_ok)).
    - unfold Candidate.land_header_chain. eapply (hoare_bind _ _ _ _ _ (λ _, cache_ok)).
      + intros s' Hs'. unfold lift. by destruct (Candidate.start stream).
      + intros [hd rest]. eapply hoare_bind; [apply safe_skip_present|]. by intros a s' Hs'.
    - intros [a|]; [|by intros s' Hs']. eapply (hoare_bind _ _ _ _ _ (λ _, cache_ok)).
      + intros s' Hs'. unfold lift. by destruct (Candidate.poll_done a).
      + by intros [a' o] s' Hs'. }
  specialize (Ha _ Hc).
  destruct (Candidate.advance_branch stream (blockchain s)) as [[b [[ids o]|e]]|]; [| |done];
    split; [done| |done|]; by split.
Qed.

Lemma keeps_process_chain_headers stream : keeps (process_chain_headers stream) (λ _, True).
Proof.
  unfold process_chain_headers. eapply keeps_bind; [apply keeps_advance|].
  intros [ids|e] _; [|apply keeps_reply].
  eapply keeps_bind; [apply keeps_modify; intros s; split; apply declare_all_frame|]. intros _ _.
  destruct ids as [|id ids]; [by apply keeps_ret|].
  eapply keeps_bind; [apply keeps_attempt, keeps_send_network|]. intros sent _.
  eapply keeps_bind; [apply keeps_expect|]. intros _ _. apply keeps_reply.
Qed.

Definition msg_ok (m : BlockMsg) : Prop :=
  match m with
  | LeadershipBlockMsg lb => leadership_block_ok B0 report_all trusted lb
  | _ => True
  end.

Lemma keeps_handle_input m : msg_ok m → keeps (handle_input m) (λ _, True).
Proof.
  destruct m; simpl; intros Hm.
  - by apply keeps_process_leadership_block.
  - apply keeps_process_block_announcement.
  - apply keeps_process_network_blocks.
  - apply keeps_process_chain_headers.
Qed.

(** The block task over time: messages, failing or not, and garbage collections. *)
Inductive task_run (s0 : State) : State → Prop :=
| task_start : task_run s0 s0
| task_msg s m s' r :
    task_run s0 s → msg_ok m → handle_input m s = Some (s', r) → task_run s0 s'
| task_gc s s' r : task_run s0 s → blockchain_gc s = Some (s', r) → task_run s0 s'.

(** C5: Whatever the network sends, the block task proposes only verified
    blocks for the tip.  Start from a state whose cached references are valid;
    after any sequence of messages -- block streams, announcements and header
    streams with arbitrary contents, own blocks made on a valid parent -- and
    garbage collections, the cache is still valid and every reference that was
    sent to the tip updater stands for a verified chain down to block 0. *)
Theorem block_task_refs_valid s0 s :
  task_ok s0 → task_run s0 s →
  (∀ h r, (h, r) ∈ lru_entries (ref_cache (blockchain s)) → ref_hash r = h ∧ valid_ref r) ∧
  Forall valid_ref (tip_updates s).
Proof.
  intros H0s Hrun. cut (task_ok s); [by intros [[_ ?] ?]|].
  induction Hrun as [|s m s' r _ IH Hm Hh|s s' r _ IH Hg]; [done| |].
  - pose proof (keeps_handle_input m Hm s IH) as Hk. rewrite Hh in Hk. destruct r; [apply Hk|done].
  - assert (keeps blockchain_gc (λ _, True)) as Hk.
    { eapply (keeps_bind _ _ (λ _, True)); [done|]. intros tip _.
      apply keeps_on_chain, safe_gc. }
    specialize (Hk s IH). rewrite Hg in Hk. destruct r; [apply Hk|done].
Qed.
End valid.

(** ** What the handlers do, branch by branch *)
Section behaviour.
Import ChainInv.
Context `{!LruLaws HeaderHash Ref, !MultiverseLaws}.

Definition stored (s : State) : store := storage (blockchain s).

Lemma post_check_run hd p c bc bc' r :
  post_check_header hd p c bc = Some (bc', r) →
  bc' = bc ∧ ∀ pc, r = Ok pc → pc_header pc = hd.
Proof.
  unfold post_check_header, gets, expect, mbind, prog_bind.
  destruct (new_epoch_leadership_from _ _ _) as [el|]; [|done].
  destruct c; [|destruct (leadership_verify _ _)]; intros [= <- <-]; split; try done;
    by intros ? [= <-].
Qed.

Lemma check_and_apply_run p b s s' r :
  check_and_apply_block p b s = Some (s', r) →
  quiet s s' ∧
  match r with
  | Ok (Some x) => ref_header x = block_header b ∧ Storage.put_block b (stored s) = Ok (stored s')
  | _ => stored s' = stored s
  end.
Proof.
  unfold check_and_apply_block, mbind, prog_bind, on_chain.
  destruct (post_check_header _ _ _ _) as [[bc1 [pc|e]]|] eqn:Hpost; [| |done].
  2:{ apply post_check_run in Hpost as [-> _]. intros [= <- <-]. by repeat split. }
  apply post_check_run in Hpost as [-> Hpc]. specialize (Hpc _ eq_refl). simpl.
  pose proof (apply_and_store_block_atomic pc b (blockchain s)) as Ha. cbv zeta in Ha.
  destruct (apply_and_store_block pc b (blockchain s)) as [[bc2 [[x|x]|e]]|]; [| | |done].
  - destruct Ha as (_ & _ & Hx & _ & Hput). simpl in *. unfold modify_state.
    intros [= <- <-]. unfold stored. destruct (watch_open ch _); simpl; (split; [by repeat split|]);
      split; [congruence|done|congruence|done].
  - destruct Ha as (_ & _ & _ & _ & _ & Hst). intros [= <- <-]. by repeat split.
  - destruct Ha as [-> _]. intros [= <- <-]. by repeat split.
Qed.

Lemma process_network_block_run b s s' r :
  process_network_block b s = Some (s', r) →
  quiet s s' ∧
  match r with
  | Ok (Some x) => ref_header x = block_header b ∧ Storage.put_block b (stored s) = Ok (stored s')
  | _ => stored s' = stored s
  end.
Proof.
  unfold process_network_block, mbind, prog_bind, schedule_next, modify_state.
  set (s1 := if next_ready ch _ then _ else _).
  assert (quiet s s1 ∧ blockchain s1 = blockchain s) as [Hq1 Hb1]
    by (unfold s1; destruct (next_ready ch _); by repeat split).
  unfold on_chain at 1. rewrite Hb1.
  destruct (pre_check_run (block_header b) (blockchain s)) as (bc & pr & -> & [Hst _] & _).
  assert (quiet s (set_blockchain bc s1)) as Hq2 by (destruct Hq1 as (?&?&?&?&?); by repeat split).
  assert (stored (set_blockchain bc s1) = stored s) as Hst2 by (by unfold stored).
  destruct pr as [pre|e]; [|by intros [= <- <-]]. destruct pre as [? ?|h|h p]; [by intros [= <- <-]..|].
  intros [Hq Hr]%check_and_apply_run. rewrite Hst2 in Hr. split; [|done].
  destruct Hq2 as (?&?&?&?&?), Hq as (?&?&?&?&?). repeat split; congruence.
Qed.

(** Storing blocks one after the other. *)
Fixpoint put_all (bs : list Block) (st : store) : result Storage.Error store :=
  match bs with [] => Ok st | b :: bs => let? st := Storage.put_block b st in put_all bs st end.

(** What the loop did: it accepted [refs], stored the corresponding first blocks
    of the stream in order, and sent one reply [rep]. *)
Definition loop_post (stream : list Block) (s s' : State) (refs : list Ref)
    (rep : result ReplyError unit) : Prop :=
  length refs ≤ length stream ∧
  ref_header <$> refs = block_header <$> take (length refs) stream ∧
  put_all (take (length refs) stream) (stored s) = Ok (stored s') ∧
  wrap64 (block_recv_cnt s') = wrap64 (block_recv_cnt s + Z.of_nat (length refs)) ∧
  replies s' = replies s ++ [rep] ∧ (length refs = length stream → rep = Ok tt) ∧
  tip_updates s' = tip_updates s ∧ network_msgs s' = network_msgs s.

Lemma loop_post_stop stream s s1 rep :
  quiet s s1 → stored s1 = stored s → (stream = [] → rep = Ok tt) →
  loop_post stream s (add_reply rep s1) [] rep.
Proof.
  intros (Ht & Hn & Hc & Hr & _) Hst Hrep. unfold loop_post. simpl. rewrite Z.add_0_r, Hr, Hc.
  split_and!; try done; [lia|by rewrite <- Hst|]. destruct stream; [auto|done].
Qed.

Lemma loop_post_step b stream s s1 s' x refs rep :
  quiet s s1 → ref_header x = block_header b → Storage.put_block b (stored s) = Ok (stored s1) →
  loop_post stream (incr_block_recv s1) s' refs rep → loop_post (b :: stream) s s' (x :: refs) rep.
Proof.
  intros (Ht & Hn & Hc & Hr & _) Hx Hput (Hlen & Hh & Hall & Hcnt & Hrep & Hok & Ht' & Hn').
  unfold loop_post. simpl length. rewrite firstn_cons, !fmap_cons, Hx, Hh. split_and!.
  - lia.
  - done.
  - simpl. by rewrite Hput.
  - rewrite Hcnt. simpl. rewrite Hc. unfold usize_add. rewrite wrap64_add_l. f_equal. lia.
  - rewrite Hrep. simpl. by rewrite Hr.
  - intros ?. apply Hok. lia.
  - by rewrite Ht'.
  - by rewrite Hn'.
Qed.

Lemma network_blocks_loop_run stream o s s' res :
  network_blocks_loop stream o s = Some (s', res) →
  ∃ refs rep, res = Ok (last (option_list o ++ refs)) ∧ loop_post stream s s' refs rep.
Proof.
  revert o s. induction stream as [|b stream IH]; intros o s; simpl.
  { intros [= <- <-]. exists [], (Ok tt). rewrite app_nil_r.
    split; [by destruct o|]. by apply loop_post_stop. }
  unfold mbind, prog_bind, attempt.
  destruct (process_network_block b s) as [[s1 r1]|] eqn:Hb; [|done].
  apply process_network_block_run in Hb as [Hq Hst].
  destruct r1 as [[x|]|e].
  - destruct Hst as [Hx Hput]. intros (refs & rep & -> & Hpost)%IH. exists (x :: refs), rep.
    split; [f_equal; by destruct o, refs|]. by eapply loop_post_step.
  - intros [= <- <-]. exists [], (Ok tt). rewrite app_nil_r.
    split; [by destruct o|]. by apply loop_post_stop.
  - intros [= <- <-]. eexists [], _. rewrite app_nil_r.
    split; [by destruct o|]. by apply loop_post_stop.
Qed.


(** A stream of headers makes the node ask the network for the blocks it is
    missing.  When the headers form a branch on a known block, it asks in one
    request for the (at most 32) blocks of the chain and replies; on an invalid
    stream it replies with the error and asks for nothing.  When every header is
    already present it neither asks nor replies. *)
Theorem chain_headers_correct stream s s' r :
  process_chain_headers stream s = Some (s', r) →
  r = Ok tt ∧ tip_updates s' = tip_updates s ∧ stored s' = stored s ∧
  ((∃ e, replies s' = replies s ++ [Err e] ∧ network_msgs s' = network_msgs s) ∨
   (replies s' = replies s ∧ network_msgs s' = network_msgs s ∧
    Forall (Candidate.present (blockchain s)) stream) ∨
   (∃ before chain rest,
      stream = before ++ chain ++ rest ∧ Forall (Candidate.present (blockchain s)) before ∧
      0 < length chain ≤ Candidate.BLOCKS ∧
      network_msgs s' = network_msgs s ++ [GetBlocks (header_hash <$> chain)] ∧
      replies s' = replies s ++ [Ok tt])).
Proof.
  unfold process_chain_headers, advance, mbind, prog_bind.
  destruct (Candidate.advance_branch_correct stream (blockchain s)) as (bc & res & -> & [Hst _] & Hr).
  destruct res as [[ids o]|e]; simpl.
  2:{ intros [= <- <-]. split_and!; [done..|]. left. by eexists. }
  destruct Hr as (before & chain & rest & -> & Hb & -> & Hlen & _ & Ho).
  destruct (declare_all_frame (header_hash <$> chain) (set_blockchain bc s))
    as (Hbc & Ht & Hn & _ & Hrep & _). set (s1 := declare_all _ _) in *. simpl in *.
  assert (stored s1 = stored s) as Hst1 by (unfold stored; by rewrite Hbc).
  destruct chain as [|h chain]; simpl.
  - intros [= <- <-]. split_and!; [done..|]. right. left. split_and!; [done..|].
    destruct o as [unread|]; [destruct Ho as [_ Ho]; by vm_compute in Ho|]. subst rest.
    by rewrite app_nil_r.
  - unfold attempt, send_network, expect. rewrite Hn.
    destruct (network_open ch _); [|done]. intros [= <- <-]. simpl. rewrite Ht, Hn, Hrep.
    split_and!; [done..|]. right. right. exists before, (h :: chain), rest. simpl in *.
    split_and!; try done; lia.
Qed.
End behaviour.

End process.
Arguments Schedule {_ _ _} _ _ _.
Arguments DeclareCompleted {_ _ _} _.
End BlockProcess.

(** ** Bootstrap from a peer (bootstrap.rs) *)
Module Bootstrap.
Import Reference Blockchain Tip.
Section bootstrap.
Context `{BlockStore} `{!FragmentOps} `{!LedgerTypes} `{!MultiverseOps}
  `{!LruCache HeaderHash Ref}.
Variable boxes : Boxes.

(** [NetworkError] and [ReadError] keep no details here. *)
Inductive Error :=
| BlockchainError (e : Blockchain.Error)
| PullStreamFailed
| BlockDeserialize
| Interrupted.

Definition B := prog TipUpdater Error.

Definition new_ref_candidate (now : Z) (r : Ref) : B unit :=
  map_error BlockchainError (process_new_ref boxes now r).

(** A failure first makes the best of the blocks received so far. *)
Definition stop_with {A} (now : Z) (maybe_parent_tip : option Ref) (err : Error) : B A :=
  match maybe_parent_tip with
  | Some bootstrap_tip => _ ← new_ref_candidate now bootstrap_tip; throw err
  | None => throw err
  end.

Definition handle_block (b : Block) : B (result Error Ref) :=
  attempt (map_error BlockchainError (on_chain (handle_bootstrap_block b Enabled))).

(** The loop over the stream, whose items are the deserialized blocks. *)
Fixpoint bootstrap_loop (now : Clock) (block0 : HeaderHash) (stream : list (result Error Block))
    (bootstrap_info : StreamReporter.StreamInfo) (maybe_parent_tip : option Ref) : B (option Ref) :=
  match stream with
  | [] => mret maybe_parent_tip
  | Ok block :: stream =>
      if decide (header_hash (block_header block) = block0)
      then bootstrap_loop now block0 stream bootstrap_info maybe_parent_tip
      else
        bootstrap_info ← expect (StreamReporter.append_block StreamReporter.report_bootstrap now
                                   block bootstrap_info);
        res ← handle_block block;
        match res with
        | Ok parent_tip =>
            bootstrap_loop (tick 2 now) block0 stream bootstrap_info (Some parent_tip)
        | Err err => stop_with (now 2) maybe_parent_tip err
        end
  | Err err :: _ => stop_with (now 0) maybe_parent_tip err
  end.

(** [interrupted]: the cancellation ended the stream.  [later] is the time when
    the loop has ended. *)
Definition bootstrap_from_stream (now : Clock) (later : Z) (stream : list (result Error Block))
    (interrupted : bool) : B (option Ref) :=
  block0 ← gets (λ t, block0 (blockchain t));
  maybe_parent_tip ← bootstrap_loop (tick 1 now) block0 stream
                       (StreamReporter.reporter_new (now 0)) None;
  _ ← (match maybe_parent_tip with
       | Some bootstrap_tip => new_ref_candidate later bootstrap_tip
       | None => mret tt
       end);
  if interrupted then throw Interrupted else mret maybe_parent_tip.

(** ** The node after a bootstrap *)
Section valid.
Import ChainInv.
Context `{!ChainTypesLaws, !BlockStoreLaws, !LruLaws HeaderHash Ref, !MultiverseLaws}.
Variables (B0 : Block) (report_all : bool) (trusted : Header → Prop) (L : Z).
#[local] Abbreviation valid_ref := (valid_ref B0 report_all trusted).
#[local] Abbreviation cache_ok := (cache_ok B0 report_all trusted).
#[local] Abbreviation safe := (safe B0 report_all trusted).

(** Valid references, and a tip not shorter than [L]. *)
Definition node_ok (t : TipUpdater) : Prop :=
  cache_ok (blockchain t) ∧ valid_ref (tip t) ∧ (L ≤ ref_length (tip t))%Z.

Definition keeps {E A} (m : prog TipUpdater E A) (Q : A → Prop) : Prop :=
  hoare True node_ok m (λ a t, Q a ∧ node_ok t) (λ _, node_ok).

Lemma boot_bind {E A C} (m : prog TipUpdater E A) (f : A → prog TipUpdater E C) Q Q' :
  keeps m Q → (∀ a, Q a → keeps (f a) Q') → keeps (mbind f m) Q'.
Proof. intros Hm Hf. eapply hoare_bind; [exact Hm|]. intros a. apply hoare_pure. by apply Hf. Qed.
Lemma boot_ret {E A} (a : A) (Q : A → Prop) : Q a → keeps (mret a : prog TipUpdater E A) Q.
Proof. intros Ha s Hs. done. Qed.
Lemma boot_on_chain {A} (m : M A) Q : safe m Q → keeps (on_chain m) Q.
Proof.
  intros Hm t (Hc & Hv & HL). specialize (Hm _ Hc). unfold on_chain.
  destruct (m (blockchain t)) as [[b [a|e]]|]; simpl; [|by split_and!|done].
  destruct Hm. split; [done|]. by split_and!.
Qed.
Lemma boot_map_error {E F A} (f : F → E) (m : prog TipUpdater F A) Q :
  keeps m Q → keeps (map_error f m) Q.
Proof. intros Hm. apply hoare_map_error. exact Hm. Qed.

Lemma boot_attempt {E F A} (m : prog TipUpdater F A) Q :
  keeps m Q →
  keeps (attempt m : prog TipUpdater E _) (λ r, match r with Ok a => Q a | Err _ => True end).
Proof.
  intros Hm t Ht. specialize (Hm t Ht). unfold attempt.
  by destruct (m t) as [[t' [a|e]]|].
Qed.

(** The updater touches only the storage of the blockchain object. *)
Definition same_cache (bc : Blockchain) (t : TipUpdater) : Prop :=
  ref_cache (blockchain t) = ref_cache bc ∧ rewards_report_all (blockchain t) = rewards_report_all bc.

Lemma same_cache_try_send bc msg : preserves (same_cache bc) (try_send boxes msg).
Proof. intros t Ht. by destruct (try_send_run boxes msg t) as [->| ->]. Qed.
Lemma same_cache_update bc f : preserves (same_cache bc) (on_chain (update f)).
Proof. intros t Ht. unfold on_chain, update. by destruct (f _). Qed.
Lemma same_cache_query {A} bc (f : store → result Storage.Error A) :
  preserves (same_cache bc) (on_chain (query f)).
Proof. intros t Ht. unfold on_chain, query. by destruct (f _). Qed.
Lemma same_cache_removal_loop bc items : preserves (same_cache bc) (removal_loop boxes items).
Proof. intros t Ht. destruct (removal_loop_run boxes items t) as (ms & r & -> & _). by destruct r. Qed.
#[local] Hint Resolve same_cache_try_send same_cache_update same_cache_query
  same_cache_removal_loop : prog.

Lemma same_cache_process_new_ref bc now c :
  preserves (same_cache bc) (process_new_ref boxes now c).
Proof.
  unfold process_new_ref. repeat (apply preserves_bind; [by auto with prog|intros ?]).
  destruct a0; [by auto with prog|]. apply preserves_bind; [by auto with prog|intros mb].
  apply preserves_bind; [by auto with prog|intros b].
  apply preserves_bind; [case_decide|intros _].
  - unfold update_current_branch_tip, try_request_fragment_removal.
    repeat (apply preserves_bind; [by auto with prog|intros ?]). by apply preserves_modify.
  - unfold switch_tip_branch. repeat (apply preserves_bind; [by auto with prog|intros ?]).
    by apply preserves_modify.
  - apply preserves_bind; [by apply preserves_modify|intros _]. apply preserves_modify.
    intros t Ht. destruct (watch_mbox t); [|done]. by destruct (can_watch boxes _).
Qed.

Lemma keeps_process_new_ref now c :
  valid_ref c → keeps (process_new_ref boxes now c) (λ _, True).
Proof.
  intros Hc t (Hcache & Hv & HL).
  pose proof (same_cache_process_new_ref (blockchain t) now c t ltac:(done)) as Hsame.
  pose proof (process_new_ref_correct boxes now c t) as Htip.
  assert (∀ t', same_cache (blockchain t) t' → tip t' = tip t ∨
    (tip t' = c ∧ (ref_length (tip t) < ref_length c)%Z) → node_ok t') as Hok.
  { intros t' [Hrc Hrr] Hor. split.
    - destruct Hcache as [Hra Hall]. split; [congruence|]. by rewrite Hrc.
    - destruct Hor as [->|[-> ?]]; split; done || lia. }
  destruct (process_new_ref boxes now c t) as [[t' [u|e]]|]; [| |done].
  - split; [done|]. apply Hok; [done|]. destruct Htip as [[_ ->]|(? & ? & _)]; auto.
  - apply Hok; auto.
Qed.

Lemma keeps_new_ref_candidate now c : valid_ref c → keeps (new_ref_candidate now c) (λ _, True).
Proof. intros Hc. by apply boot_map_error, keeps_process_new_ref. Qed.

Definition valid_option (o : option Ref) : Prop := ∀ r, o = Some r → valid_ref r.

Lemma keeps_stop_with {A} now o e (Q : A → Prop) : valid_option o → keeps (stop_with now o e) Q.
Proof.
  intros Ho. destruct o as [r|]; simpl; [|by apply hoare_throw].
  eapply boot_bind; [apply keeps_new_ref_candidate; by apply Ho|]. intros _ _. by apply hoare_throw.
Qed.

Lemma keeps_bootstrap_loop now b0 stream info o :
  valid_option o → keeps (bootstrap_loop now b0 stream info o) valid_option.
Proof.
  revert now info o. induction stream as [|[b|e] stream IH]; intros now info o Ho; simpl.
  - by apply boot_ret.
  - case_decide; [by apply IH|].
    eapply (boot_bind _ _ (λ _, True)).
    { intros t Ht. unfold expect. by destruct (StreamReporter.append_block _ _ _ _). }
    intros info' _. eapply (boot_bind _ _ (λ r, match r with Ok x => valid_ref x | Err _ => True end)).
    + apply boot_attempt, boot_map_error, boot_on_chain.
      eapply safe_weaken.
      * by apply (safe_handle_bootstrap_block B0 report_all trusted b Enabled).
      * by intros r [Hr _].
    + intros [r|e] Hr; [|by apply keeps_stop_with]. apply IH. intros r' Hr'. congruence.
  - by apply keeps_stop_with.
Qed.

Lemma keeps_bootstrap now later stream interrupted :
  keeps (bootstrap_from_stream now later stream interrupted) valid_option.
Proof.
  unfold bootstrap_from_stream. eapply (boot_bind _ _ (λ _, True)); [done|]. intros b0 _.
  eapply boot_bind; [by apply keeps_bootstrap_loop|]. intros o Ho.
  eapply (boot_bind _ _ (λ _, True)).
  - destruct o as [r|]; [apply keeps_new_ref_candidate; by apply Ho|by apply boot_ret].
  - intros _ _. destruct interrupted; [by apply hoare_throw|by apply boot_ret].
Qed.
End valid.

Context `{!ChainTypesLaws, !BlockStoreLaws, !LruLaws HeaderHash Ref, !MultiverseLaws}.

(** Bootstrapping from an arbitrary peer is safe.  Whatever stream of blocks,
    garbage and errors the peer sends, and whether or not the bootstrap is
    interrupted, afterwards every cached reference stands for a verified chain
    down to block 0, so does the tip, which is at least as long as before, and
    so does the reference returned. *)
Theorem bootstrap_safe B0 report_all trusted now later stream interrupted t t' r :
  ChainInv.cache_ok B0 report_all trusted (blockchain t) →
  ChainInv.valid_ref B0 report_all trusted (tip t) →
  bootstrap_from_stream now later stream interrupted t = Some (t', r) →
  ChainInv.cache_ok B0 report_all trusted (blockchain t') ∧
  ChainInv.valid_ref B0 report_all trusted (tip t') ∧
  (ref_length (tip t) ≤ ref_length (tip t'))%Z ∧
  match r with Ok (Some x) => ChainInv.valid_ref B0 report_all trusted x | _ => True end.
Proof.
  intros Hc Hv Hrun.
  pose proof (keeps_bootstrap B0 report_all trusted (ref_length (tip t)) now later stream interrupted t
    ltac:(by split_and!)) as Hk.
  rewrite Hrun in Hk. destruct r as [[x|]|e].
  - destruct Hk as [Hx (? & ? & ?)]. split_and!; [done..|]. by apply Hx.
  - by destruct Hk as [_ (? & ? & ?)].
  - by destruct Hk as (? & ? & ?).
Qed.
End bootstrap.
End Bootstrap.

Module ProcessWitness.
Import ListLru SampleFragments SampleStore SampleChain Reference Blockchain ChainInv ChainWitness
  BlockProcess.

Definition open_channels : Channels (NodeId := Z) :=
  mkChannels (λ _, true) (λ _, true) (λ _, true) (λ _, true) (λ _, true).
Definition node2 : State (NodeId := Z) := mkState s2 r12 0 [] [] [] [] [] [].
Definition b13 : Block := chain_block 13 12 3 1 7 [].
Definition b99 : Block := chain_block 99 98 9 2 1 [].
Definition blocks : list Block := [b13; b99].
Definition headers : list Header := [block_header b11; block_header b13].

(** The outcome of a handler that does not panic. *)
Definition outcome {A} (m : P (NodeId := Z) A) (d : result Error A) : State * result Error A :=
  match m node2 with Some x => x | None => (node2, d) end.
Definition total {A} (m : P (NodeId := Z) A) : bool :=
  match m node2 with Some _ => true | None => false end.
Lemma outcome_eq {A} (m : P (NodeId := Z) A) d :
  total m = true → m node2 = Some ((outcome m d).1, (outcome m d).2).
Proof. unfold total, outcome. by destruct (m node2) as [[]|]. Qed.

(** Block 13 is accepted, block 99 has no known parent. *)
Definition node3 := (outcome (process_network_blocks open_channels blocks) (Ok tt)).1.

Example node3_tip : ref_hash <$> tip_updates node3 = [hash 13].
Proof. reflexivity. Qed.
Example node3_reply : replies node3 = [Err FailedPrecondition].
Proof. reflexivity. Qed.


Lemma block_task_refs_valid_witness :
  Forall (valid_ref genesis false no_header) (tip_updates node3).
Proof.
  apply (block_task_refs_valid open_channels genesis false no_header node2 node3).
  - split; [apply s2_ok|constructor].
  - apply (task_msg open_channels genesis false no_header node2 node2 (NetworkBlocks blocks) node3
      (outcome (process_network_blocks open_channels blocks) (Ok tt)).2).
    + apply task_start.
    + exact I.
    + exact (outcome_eq (process_network_blocks open_channels blocks) (Ok tt) eq_refl).
Defined.

(** Block 11 is known, block 13 is requested. *)
Definition node4 := (outcome (process_chain_headers open_channels headers) (Ok tt)).1.

Lemma chain_headers_correct_witness :
  stored node4 = stored node2 ∧ tip_updates node4 = tip_updates node2.
Proof.
  destruct (chain_headers_correct open_channels headers node2 node4 _
    (outcome_eq (process_chain_headers open_channels headers) (Ok tt) eq_refl))
    as (_ & Ht & Hs & _).
  split; [exact Hs|exact Ht].
Defined.

(** A peer sends block 0, block 13 and an error. *)
Definition peer_stream : list (result Bootstrap.Error Block) :=
  [Ok genesis; Ok b13; Err Bootstrap.PullStreamFailed].
Definition updater2 : Tip.TipUpdater := Tip.mkTipUpdater r12 s2 None None None.
Definition peer_boxes : Tip.Boxes := Tip.mkBoxes (λ _, true) (λ _, true).
Definition time9000 : Clock := λ _, 9000000000000%Z.
Definition updater3 : Tip.TipUpdater :=
  match Bootstrap.bootstrap_from_stream peer_boxes time9000 9000000000000 peer_stream false updater2 with
  | Some (t, _) => t
  | None => updater2
  end.

Lemma bootstrap_eq :
  Bootstrap.bootstrap_from_stream peer_boxes time9000 9000000000000 peer_stream false updater2
  = Some (updater3, Err Bootstrap.PullStreamFailed).
Proof.
  unfold updater3.
  assert (match Bootstrap.bootstrap_from_stream peer_boxes time9000 9000000000000 peer_stream false
            updater2 with Some (_, Err Bootstrap.PullStreamFailed) => true | _ => false end = true)
    as Hok by reflexivity.
  destruct (Bootstrap.bootstrap_from_stream _ _ _ _ _ _) as [[t' [|[]]]|];
    first [reflexivity|discriminate Hok].
Qed.

Example bootstrap_tip : ref_hash (Tip.tip updater3) = hash 13.
Proof. reflexivity. Qed.

Lemma bootstrap_safe_witness : valid_ref genesis false no_header (Tip.tip updater3).
Proof.
  apply (Bootstrap.bootstrap_safe peer_boxes genesis false no_header time9000
    9000000000000 peer_stream false updater2 updater3 (Err Bootstrap.PullStreamFailed)).
  - apply s2_ok.
  - exists [r11; r10]. apply chain12.
  - exact bootstrap_eq.
Defined.
End ProcessWitness.
