(* ===== verification/Scheduler.v ===== *)
(** * The fire-and-forget scheduler

    Models [jormungandr/src/utils/fire_forget_scheduler.rs], which limits the
    requests the node has in flight: tasks are queued, launched on workers and
    considered running until they are declared complete or time out.  The
    queue of timeouts ([tokio_util]'s [DelayQueue]) is a parameter, with its
    documented behaviour as laws; the launcher is the list of what it was
    called with. *)

From S2P Require Import Prelude.

(** [DelayQueue<V>]: [dq_entries] are the keys and values it holds; [remove]
    panics on an unknown key; [poll_expired] takes out an entry, if one has
    expired at the given time, or fails with the error of the timer. *)
Class DelayQueue (V : Type) := {
  dq : Type;
  dq_key : Type;
  dq_key_eq_dec :: EqDecision dq_key;
  dq_new : dq;
  dq_entries : dq → list (dq_key * V);
  dq_insert : V → dq → dq * dq_key;
  dq_remove : dq_key → dq → option dq;
  dq_timer_error : Type;
  dq_poll_expired : Z → dq → option (result dq_timer_error (V * dq));
}.
Arguments dq V {_}.
Arguments dq_key V {_}.
Arguments dq_timer_error V {_}.

Class DelayQueueLaws (V : Type) `{!DelayQueue V} : Prop := {
  dq_new_entries : dq_entries (dq_new : dq V) = [];
  dq_NoDup (q : dq V) : NoDup (dq_entries q).*1;
  dq_insert_entries v (q : dq V) :
    ((dq_insert v q).2 ∉ (dq_entries q).*1) ∧
    dq_entries (dq_insert v q).1 = dq_entries q ++ [((dq_insert v q).2, v)];
  dq_remove_Some k (q : dq V) :
    k ∈ (dq_entries q).*1 → ∃ q', dq_remove k q = Some q' ∧ dq_entries q' = alist_del k (dq_entries q);
  dq_poll_entries now (q : dq V) v q' :
    dq_poll_expired now q = Some (Ok (v, q')) →
    ∃ k, (k, v) ∈ dq_entries q ∧ dq_entries q' = alist_del k (dq_entries q);
}.

Module Scheduler.
Section scheduler.
Context {TID WID Data : Type} `{EqDecision TID, EqDecision WID}.

Record ScheduledTask := mkScheduled { tid : TID; wid : WID; data : Data }.
Record TimedOutTask := mkTimedOut { to_tid : TID; to_wid : WID }.

Context `{!DelayQueue TimedOutTask}.

Record RunningTask := mkRunning {
  run_tid : TID;
  run_wid : WID;
  timeout_key : dq_key TimedOutTask;
}.

(** [FireForgetSchedulerFuture].  [capacity] is that of the vector of running
    tasks; [launched] records the calls of the launcher. *)
Record State := mkState {
  scheduled : list ScheduledTask;
  running : list RunningTask;
  timeouts : dq TimedOutTask;
  launched : list ScheduledTask;
  capacity : nat;
  max_running_same_task : nat;
}.

Inductive Command :=
| Schedule (task : ScheduledTask)
| DeclareCompleted (task : TID).

(** [FireForgetSchedulerFuture::new]: the vector is allocated with
    [config.max_running] places, which is its capacity: [Vec] allocates that
    many elements, and they are never more than it holds. *)
Definition scheduler_new (max_running max_same : nat) : State :=
  mkState [] [] dq_new [] max_running max_same.

Definition is_scheduled (a b : ScheduledTask) : bool :=
  bool_decide (tid a = tid b) && bool_decide (wid a = wid b).
Definition is_completed (task : TID) (s : ScheduledTask) : bool := bool_decide (tid s = task).
Definition update_data (a b : ScheduledTask) : ScheduledTask := mkScheduled (tid a) (wid a) (data b).
Definition to_running (t : ScheduledTask) (k : dq_key TimedOutTask) : RunningTask :=
  mkRunning (tid t) (wid t) k.
Definition to_timed_out (t : ScheduledTask) : TimedOutTask := mkTimedOut (tid t) (wid t).
Definition run_is_completed (task : TID) (r : RunningTask) : bool := bool_decide (run_tid r = task).
Definition is_timed_out (t : TimedOutTask) (r : RunningTask) : bool :=
  bool_decide (run_tid r = to_tid t) && bool_decide (run_wid r = to_wid t).
Definition is_running_same_task (t : ScheduledTask) (r : RunningTask) : bool :=
  bool_decide (run_tid r = tid t).

Definition task_run_count (t : ScheduledTask) (s : State) : nat :=
  length (filter (λ r, is_running_same_task t r = true) (running s)).

(** [position] and [VecDeque::remove]: the first runnable task and the others. *)
Fixpoint take_runnable (p : ScheduledTask → bool) (l : list ScheduledTask)
    : option (ScheduledTask * list ScheduledTask) :=
  match l with
  | [] => None
  | t :: l' =>
      if p t then Some (t, l')
      else match take_runnable p l' with Some (x, rest) => Some (x, t :: rest) | None => None end
  end.

Definition pop_next_runnable_task (s : State) : option (ScheduledTask * State) :=
  match take_runnable (λ t, task_run_count t s <? max_running_same_task s)%nat (scheduled s) with
  | Some (t, rest) =>
      Some (t, mkState rest (running s) (timeouts s) (launched s) (capacity s)
                 (max_running_same_task s))
  | None => None
  end.

(** Start a task: its timeout, its place among the running ones, its launch. *)
Definition start_task (t : ScheduledTask) (s : State) : State :=
  let '(q, key) := dq_insert (to_timed_out t) (timeouts s) in
  mkState (scheduled s) (running s ++ [to_running t key]) q (launched s ++ [t]) (capacity s)
    (max_running_same_task s).

Fixpoint try_run (fuel : nat) (s : State) : State :=
  match fuel with
  | O => s
  | S fuel =>
      if (length (running s) <? capacity s)%nat then
        match pop_next_runnable_task s with
        | Some (t, s') => try_run fuel (start_task t s')
        | None => s
        end
      else s
  end.

(** Every turn takes a task out of the queue. *)
Definition try_run_scheduled (s : State) : State := try_run (length (scheduled s)) s.

(** [find] and [update_data] on the first task with the same identifiers. *)
Fixpoint update_scheduled (t : ScheduledTask) (l : list ScheduledTask)
    : option (list ScheduledTask) :=
  match l with
  | [] => None
  | x :: l' =>
      if is_scheduled x t then Some (update_data x t :: l')
      else match update_scheduled t l' with Some l'' => Some (x :: l'') | None => None end
  end.

Definition set_scheduled (l : list ScheduledTask) (s : State) : State :=
  mkState l (running s) (timeouts s) (launched s) (capacity s) (max_running_same_task s).

Definition schedule (task : ScheduledTask) (s : State) : State :=
  match update_scheduled task (scheduled s) with
  | Some l => set_scheduled l s
  | None => try_run_scheduled (set_scheduled (scheduled s ++ [task]) s)
  end.

(** [retain] on the running tasks, removing the timeouts of the completed ones. *)
Fixpoint retain_running (task : TID) (rs : list RunningTask) (q : dq TimedOutTask)
    : option (list RunningTask * dq TimedOutTask) :=
  match rs with
  | [] => Some ([], q)
  | r :: rs' =>
      if run_is_completed task r then
        q' ← dq_remove (timeout_key r) q;
        retain_running task rs' q'
      else
        '(kept, q') ← retain_running task rs' q;
        Some (r :: kept, q')
  end.

Definition declare_completed (task : TID) (s : State) : option State :=
  let sch := filter (λ t, is_completed task t = false) (scheduled s) in
  '(rs, q) ← retain_running task (running s) (timeouts s);
  Some (try_run_scheduled
          (mkState sch rs q (launched s) (capacity s) (max_running_same_task s))).

Definition declare_timed_out (t : TimedOutTask) (s : State) : State :=
  let rs := filter (λ r, is_timed_out t r = false) (running s) in
  try_run_scheduled
    (mkState (scheduled s) rs (timeouts s) (launched s) (capacity s) (max_running_same_task s)).

Inductive Error :=
| CommandSend (cause : string)
| CommandQueueClosed
| Timer (e : dq_timer_error TimedOutTask).

Inductive TrySendError := Closed | Full.

Definition error_from (e : TrySendError) : Error :=
  CommandSend (match e with Closed => "channel closed" | Full => "no available capacity" end).

(** The sender's [schedule] and [declare_completed], on a channel with room
    for [size] commands that holds [queue]. *)
Definition try_send (closed : bool) (size : nat) (c : Command) (queue : list Command)
    : result Error (list Command) :=
  if closed then Err (error_from Closed)
  else if (length queue <? size)%nat then Ok (queue ++ [c]) else Err (error_from Full).

(** The first loop of [poll], over what the channel has ready: commands, or
    its end ([None]).  The state is kept with the error of the future, if it
    has stopped. *)
Fixpoint poll_commands (cs : list (option Command)) (s : State) : option (State * option Error) :=
  match cs with
  | [] => Some (s, None)
  | None :: _ => Some (s, Some CommandQueueClosed)
  | Some (Schedule task) :: cs => poll_commands cs (schedule task s)
  | Some (DeclareCompleted task) :: cs => s' ← declare_completed task s; poll_commands cs s'
  end.

Definition set_timeouts (q : dq TimedOutTask) (s : State) : State :=
  mkState (scheduled s) (running s) q (launched s) (capacity s) (max_running_same_task s).

(** The second loop of [poll]; [None] is only for too little fuel. *)
Fixpoint poll_timeouts (fuel : nat) (now : Z) (s : State) : option (State * option Error) :=
  match dq_poll_expired now (timeouts s) with
  | None => Some (s, None)
  | Some (Err e) => Some (s, Some (Timer e))
  | Some (Ok (expired, q)) =>
      match fuel with
      | O => None
      | S fuel => poll_timeouts fuel now (declare_timed_out expired (set_timeouts q s))
      end
  end.

(** One [poll]: the commands received, then the timeouts.  Every expired
    timeout takes an entry out of the queue of timeouts, and every task that
    is started instead one out of the queue of tasks. *)
Definition poll (cs : list (option Command)) (now : Z) (s : State) : option (State * option Error) :=
  '(s, e) ← poll_commands cs s;
  match e with
  | Some e => Some (s, Some e)
  | None => poll_timeouts (length (dq_entries (timeouts s)) + length (scheduled s)) now s
  end.

(** ** The invariant *)
Context `{!DelayQueueLaws TimedOutTask}.

Definition run_count (t : TID) (rs : list RunningTask) : nat :=
  length (filter (λ r, run_tid r = t) rs).

Definition run_value (r : RunningTask) : TimedOutTask := mkTimedOut (run_tid r) (run_wid r).

Record sched_ok (s : State) : Prop := {
  ok_capacity : length (running s) ≤ capacity s;
  ok_same_task t : run_count t (running s) ≤ max_running_same_task s;
  ok_scheduled : NoDup ((λ t, (tid t, wid t)) <$> scheduled s);
  ok_keys : NoDup (timeout_key <$> running s);
  ok_timeouts r : r ∈ running s → (timeout_key r, run_value r) ∈ dq_entries (timeouts s);
}.

(** No queued task could be running. *)
Definition busy (s : State) : Prop :=
  length (running s) = capacity s ∨
  ∀ t, t ∈ scheduled s → max_running_same_task s ≤ run_count (tid t) (running s).

Lemma task_run_count_eq t s : task_run_count t s = run_count (tid t) (running s).
Proof.
  unfold task_run_count, run_count. f_equal. apply list_filter_iff. intros r.
  unfold is_running_same_task. by rewrite bool_decide_eq_true.
Qed.

Lemma run_count_app t rs rs' : run_count t (rs ++ rs') = run_count t rs + run_count t rs'.
Proof. unfold run_count. by rewrite filter_app, length_app. Qed.

Lemma run_count_one t r : run_count t [r] = if decide (run_tid r = t) then 1 else 0.
Proof. unfold run_count. rewrite filter_cons. by case_decide. Qed.

Lemma run_count_sublist t rs rs' : sublist rs rs' → run_count t rs ≤ run_count t rs'.
Proof.
  unfold run_count. induction 1; [done|..]; rewrite !filter_cons; repeat case_decide; simpl; lia.
Qed.

Lemma take_runnable_Some p l t rest :
  take_runnable p l = Some (t, rest) → p t = true ∧ ∃ l1 l2, l = l1 ++ t :: l2 ∧ rest = l1 ++ l2.
Proof.
  revert rest. induction l as [|x l IH]; intros rest; simpl; [done|].
  destruct (p x) eqn:Hp; [intros [= <- <-]; split; [done|by exists [], l]|].
  destruct (take_runnable p l) as [[y rest']|]; [|done]. intros [= <- <-].
  destruct (IH rest' eq_refl) as (? & l1 & l2 & -> & ->). split; [done|]. by exists (x :: l1), l2.
Qed.

Lemma take_runnable_None p l : take_runnable p l = None → ∀ t, t ∈ l → p t = false.
Proof.
  induction l as [|x l IH]; simpl; [set_solver|]. destruct (p x) eqn:Hp; [done|].
  destruct (take_runnable p l) as [[]|]; [done|]. intros _ t [->|?]%elem_of_cons; auto.
Qed.

(** What one start does. *)
Lemma start_task_ok t l1 l2 s :
  scheduled s = l1 ++ t :: l2 → length (running s) < capacity s →
  run_count (tid t) (running s) < max_running_same_task s → sched_ok s →
  sched_ok (start_task t (set_scheduled (l1 ++ l2) s)).
Proof.
  intros Hsch Hlen Hcnt [Hcap Hsame Hnd Hkeys Hto]. unfold start_task, set_scheduled. simpl.
  destruct (dq_insert_entries (to_timed_out t) (timeouts s)) as [Hfresh Hent].
  destruct (dq_insert _ _) as [q k]. simpl in *. split; simpl.
  - rewrite length_app. simpl. lia.
  - intros t'. rewrite run_count_app, run_count_one. simpl. specialize (Hsame t').
    case_decide; [subst; lia|lia].
  - eapply sublist_NoDup; [exact Hnd|]. rewrite Hsch. apply fmap_sublist.
    apply sublist_app; [done|]. by apply sublist_cons.
  - rewrite fmap_app. apply NoDup_app. split_and!; [done| |by apply NoDup_singleton].
    intros k' Hk' ->%list_elem_of_singleton. apply Hfresh.
    apply list_elem_of_fmap in Hk' as (r & Hk & Hr). simpl in *. rewrite Hk.
    apply list_elem_of_fmap. eexists. split; [|by apply Hto]. done.
  - intros r. rewrite Hent. rewrite elem_of_app, list_elem_of_singleton.
    intros [Hr| ->]; [apply elem_of_app; left; by apply Hto|]. apply elem_of_app. right. simpl.
    by apply list_elem_of_singleton.
Qed.

(** The tasks are conserved: what leaves the queue is launched. *)
Definition conserves (s s' : State) : Prop :=
  Permutation (launched s' ++ scheduled s') (launched s ++ scheduled s) ∧
  length (dq_entries (timeouts s')) + length (scheduled s') =
    length (dq_entries (timeouts s)) + length (scheduled s) ∧
  (∀ r, r ∈ running s' → r ∈ running s ∨ ∃ t, t ∈ scheduled s ∧ tid t = run_tid r) ∧
  (∀ t, t ∈ scheduled s' → t ∈ scheduled s) ∧
  capacity s' = capacity s ∧ max_running_same_task s' = max_running_same_task s.

(** Without a launch no task starts to run. *)
Definition grows (s s' : State) : Prop :=
  ∃ l, launched s' = launched s ++ l ∧ (l = [] → ∀ r, r ∈ running s' → r ∈ running s).

Lemma grows_refl s : grows s s.
Proof. exists []. by rewrite app_nil_r. Qed.

Lemma grows_trans s1 s2 s3 : grows s1 s2 → grows s2 s3 → grows s1 s3.
Proof.
  intros (l1 & H1 & R1) (l2 & H2 & R2). exists (l1 ++ l2). rewrite H2, H1, app_assoc.
  split; [done|]. intros [-> ->]%app_eq_nil. auto.
Qed.

Lemma conserves_refl s : conserves s s.
Proof. split_and!; auto. Qed.

Lemma conserves_trans s1 s2 s3 : conserves s1 s2 → conserves s2 s3 → conserves s1 s3.
Proof.
  intros (P1 & L1 & R1 & S1 & C1 & M1) (P2 & L2 & R2 & S2 & C2 & M2). split_and!; try congruence.
  - by rewrite P2.
  - intros r [?|(t & ? & ?)]%R2; [auto|]. right. exists t. auto.
  - auto.
Qed.

Lemma start_task_conserves t l1 l2 s :
  scheduled s = l1 ++ t :: l2 → conserves s (start_task t (set_scheduled (l1 ++ l2) s)).
Proof.
  intros Hsch. unfold conserves, start_task, set_scheduled. simpl.
  destruct (dq_insert_entries (to_timed_out t) (timeouts s)) as [_ Hent].
  destruct (dq_insert _ _) as [q k]. simpl in *. rewrite Hent, Hsch.
  rewrite !length_app. simpl. split_and!; [|lia| |set_solver|done|done].
  - rewrite <- app_assoc. apply Permutation_app_head. simpl. by rewrite Permutation_middle.
  - intros r [?| ->%list_elem_of_singleton]%elem_of_app; [by left|]. right. exists t. set_solver.
Qed.

Lemma try_run_ok fuel s :
  length (scheduled s) ≤ fuel → sched_ok s →
  sched_ok (try_run fuel s) ∧ busy (try_run fuel s) ∧ conserves s (try_run fuel s).
Proof.
  revert s. induction fuel as [|fuel IH]; intros s Hf Hok; simpl.
  { split_and!; [done| |apply conserves_refl]. right. intros t Ht.
    destruct (scheduled s); [set_solver|simpl in Hf; lia]. }
  destruct (Nat.ltb_spec (length (running s)) (capacity s)) as [Hlt|Hge].
  2:{ split_and!; [done| |apply conserves_refl]. left. destruct Hok. lia. }
  unfold pop_next_runnable_task. destruct (take_runnable _ _) as [[t rest]|] eqn:Ht.
  - apply take_runnable_Some in Ht as (Hp & l1 & l2 & Hsch & ->).
    apply Nat.ltb_lt in Hp. rewrite task_run_count_eq in Hp.
    fold (set_scheduled (l1 ++ l2) s).
    pose proof (start_task_conserves t l1 l2 s Hsch) as Hcons.
    destruct (IH (start_task t (set_scheduled (l1 ++ l2) s))) as (Hok' & Hb & Hc).
    + unfold start_task. destruct (dq_insert _ _). simpl.
      rewrite Hsch in Hf. rewrite length_app in *. simpl in Hf. lia.
    + by apply start_task_ok.
    + split_and!; [done|done|]. by eapply conserves_trans.
  - split_and!; [done| |apply conserves_refl]. right. intros t Hin.
    apply (take_runnable_None _ _ Ht) in Hin. apply Nat.ltb_ge in Hin.
    by rewrite task_run_count_eq in Hin.
Qed.

Lemma try_run_grows fuel s : grows s (try_run fuel s).
Proof.
  revert s. induction fuel as [|fuel IH]; intros s; simpl; [apply grows_refl|].
  case_match; [|apply grows_refl]. unfold pop_next_runnable_task.
  destruct (take_runnable _ _) as [[t rest]|]; [|apply grows_refl].
  eapply grows_trans; [|apply IH]. unfold start_task. destruct (dq_insert _ _). by exists [t].
Qed.

Lemma try_run_scheduled_ok s :
  sched_ok s → sched_ok (try_run_scheduled s) ∧ busy (try_run_scheduled s) ∧
  conserves s (try_run_scheduled s).
Proof. by apply try_run_ok. Qed.

Definition sched_inv (s : State) : Prop := sched_ok s ∧ busy s.
Definition task_ids (t : ScheduledTask) : TID * WID := (tid t, wid t).

Lemma update_scheduled_Some t l l' :
  update_scheduled t l = Some l' →
  ∃ l1 x l2, l = l1 ++ x :: l2 ∧ task_ids x = task_ids t ∧ l' = l1 ++ update_data x t :: l2.
Proof.
  revert l'. induction l as [|x l IH]; intros l'; simpl; [done|]. unfold is_scheduled.
  destruct (decide (tid x = tid t ∧ wid x = wid t)) as [[Ht Hw]|Hn].
  - rewrite !bool_decide_true by done. intros [= <-]. exists [], x, l. unfold task_ids. naive_solver congruence.
  - replace (_ && _) with false by (symmetry; rewrite andb_false_iff, !bool_decide_eq_false;
      destruct (decide (tid x = tid t)); [right|left]; tauto).
    destruct (update_scheduled t l) as [l''|]; [|done]. intros [= <-].
    destruct (IH l'' eq_refl) as (l1 & y & l2 & -> & ? & ->). by exists (x :: l1), y, l2.
Qed.

Lemma update_scheduled_None t l : update_scheduled t l = None → task_ids t ∉ task_ids <$> l.
Proof.
  induction l as [|x l IH]; simpl; [set_solver|]. unfold is_scheduled.
  destruct (bool_decide_reflect (tid x = tid t)), (bool_decide_reflect (wid x = wid t)); simpl; try done;
    destruct (update_scheduled t l); try done; intros _; apply not_elem_of_cons;
    (split; [unfold task_ids; congruence|by apply IH]).
Qed.

Lemma update_data_ids l1 x l2 t :
  task_ids <$> (l1 ++ update_data x t :: l2) = task_ids <$> (l1 ++ x :: l2).
Proof. by rewrite !fmap_app. Qed.

Definition limits (s : State) : nat * nat := (capacity s, max_running_same_task s).

Lemma conserves_limits s s' : conserves s s' → limits s' = limits s.
Proof. intros (_ & _ & _ & _ & Hc & Hm). unfold limits. congruence. Qed.

Lemma sched_ok_push t s :
  sched_ok s → task_ids t ∉ task_ids <$> scheduled s →
  sched_ok (set_scheduled (scheduled s ++ [t]) s).
Proof.
  intros [? ? Hnd ? ?] Hu. split; simpl; try done.
  rewrite fmap_app. apply NoDup_app. split_and!; [done| |by apply NoDup_singleton].
  intros y Hy ->%list_elem_of_singleton. by apply Hu.
Qed.

Lemma schedule_inv t s : sched_inv s → sched_inv (schedule t s) ∧ limits (schedule t s) = limits s.
Proof.
  intros [Hok Hb]. unfold schedule. destruct (update_scheduled t (scheduled s)) as [l|] eqn:Hu.
  - apply update_scheduled_Some in Hu as (l1 & x & l2 & Hl & Hx & ->). destruct Hok.
    split; [|done]. split.
    + split; simpl; try done. rewrite Hl in *. fold task_ids. by rewrite update_data_ids.
    + destruct Hb as [?|Hb]; [by left|right]. simpl. intros y Hy. rewrite Hl in Hb.
      apply elem_of_app in Hy as [?|[->|?]%elem_of_cons]; [apply Hb; set_solver| |apply Hb; set_solver].
      apply (Hb x). set_solver.
  - apply update_scheduled_None in Hu.
    destruct (try_run_scheduled_ok _ (sched_ok_push _ _ Hok Hu)) as (? & ? & Hc).
    split; [done|]. by rewrite (conserves_limits _ _ Hc).
Qed.

Lemma retain_running_spec task rs q :
  NoDup (timeout_key <$> rs) →
  (∀ r, r ∈ rs → (timeout_key r, run_value r) ∈ dq_entries q) →
  ∃ q', retain_running task rs q = Some (filter (λ r, run_is_completed task r = false) rs, q') ∧
    (∀ k v, (k, v) ∈ dq_entries q → k ∉ timeout_key <$> rs → (k, v) ∈ dq_entries q') ∧
    (∀ r, r ∈ rs → run_is_completed task r = false → (timeout_key r, run_value r) ∈ dq_entries q').
Proof.
  revert q. induction rs as [|r rs IH]; intros q Hnd Hin; cbn [retain_running].
  { exists q. split_and!; [done|done|set_solver]. }
  rewrite fmap_cons in *. apply NoDup_cons in Hnd as [Hr Hnd]. rewrite filter_cons.
  destruct (run_is_completed task r) eqn:Hc.
  - destruct (dq_remove_Some (timeout_key r) q) as (q1 & Hq1 & He1).
    { apply list_elem_of_fmap. exists (timeout_key r, run_value r). split; [done|].
      apply Hin. set_solver. }
    destruct (IH q1 Hnd) as (q2 & Hrun & Hkeep & Hrs).
    { intros r' Hr'. rewrite He1. apply alist_del_elem. split; [apply Hin; set_solver|]. simpl.
      intros Heq. apply Hr. rewrite <- Heq. by apply list_elem_of_fmap_2. }
    exists q2. rewrite decide_False by done. rewrite Hq1. cbn [mbind option_bind]. split_and!; [done| |].
    + intros k v Hkv Hk. apply Hkeep; [|set_solver]. rewrite He1. apply alist_del_elem. set_solver.
    + intros r' [->|?]%elem_of_cons ?; [congruence|auto].
  - destruct (IH q Hnd) as (q2 & Hrun & Hkeep & Hrs); [intros r' ?; apply Hin; set_solver|].
    exists q2. rewrite decide_True by done. rewrite Hrun. cbn [mbind option_bind]. split_and!; [done| |].
    + intros k v ? ?. apply Hkeep; set_solver.
    + intros r' [->|?]%elem_of_cons ?; [|auto]. apply Hkeep; [apply Hin; set_solver|done].
Qed.

(** A state with fewer tasks, whose timeouts are all there. *)
Lemma sched_ok_sub s sch rs q :
  sched_ok s → sublist sch (scheduled s) → sublist rs (running s) →
  (∀ r, r ∈ rs → (timeout_key r, run_value r) ∈ dq_entries q) →
  sched_ok (mkState sch rs q (launched s) (capacity s) (max_running_same_task s)).
Proof.
  intros [Hcap Hsame Hnd Hkeys _] Hs Hr Hto. split; simpl; [| | | |done].
  - apply sublist_length in Hr. lia.
  - intros t. etrans; [by apply run_count_sublist|done].
  - eapply sublist_NoDup; [exact Hnd|]. by apply fmap_sublist.
  - eapply sublist_NoDup; [exact Hkeys|]. by apply fmap_sublist.
Qed.

Lemma declare_completed_run task s :
  sched_ok s →
  ∃ s1, declare_completed task s = Some (try_run_scheduled s1) ∧ sched_ok s1 ∧
    scheduled s1 = filter (λ t, is_completed task t = false) (scheduled s) ∧
    running s1 = filter (λ r, run_is_completed task r = false) (running s) ∧
    launched s1 = launched s ∧ limits s1 = limits s.
Proof.
  intros Hok. unfold declare_completed.
  destruct (retain_running_spec task (running s) (timeouts s)) as (q & Hrun & _ & Hq);
    [apply Hok|apply Hok|]. rewrite Hrun. cbn [mbind option_bind]. eexists. split_and!; try done.
  apply sched_ok_sub; [done|apply sublist_filter|apply sublist_filter|].
  intros r [Hc Hr]%list_elem_of_filter. by apply Hq.
Qed.

Lemma declare_timed_out_ok t s q k :
  sched_ok s → (k, t) ∈ dq_entries (timeouts s) → dq_entries q = alist_del k (dq_entries (timeouts s)) →
  ∃ s1, declare_timed_out t (set_timeouts q s) = try_run_scheduled s1 ∧ sched_ok s1 ∧
    scheduled s1 = scheduled s ∧ timeouts s1 = q ∧ launched s1 = launched s ∧ limits s1 = limits s.
Proof.
  intros Hok Hk Hq. eexists. split_and!; [done| |done..].
  apply (sched_ok_sub s); [done|done|apply sublist_filter|].
  intros r [Hc Hr]%list_elem_of_filter. simpl. rewrite Hq. apply alist_del_elem.
  destruct Hok as [_ _ _ _ Hto]. specialize (Hto r Hr). split; [done|]. simpl. intros <-.
  pose proof (alist_get_NoDup _ _ _ (dq_NoDup (timeouts s)) Hto) as H1.
  pose proof (alist_get_NoDup _ _ _ (dq_NoDup (timeouts s)) Hk) as H2.
  rewrite H1 in H2. injection H2 as <-. unfold is_timed_out in Hc. simpl in Hc.
  by rewrite !bool_decide_true in Hc by done.
Qed.

Lemma poll_commands_inv cs s :
  sched_inv s → ∃ s' e, poll_commands cs s = Some (s', e) ∧ sched_inv s' ∧ limits s' = limits s ∧
    (e = None ∨ e = Some CommandQueueClosed ∧ None ∈ cs).
Proof.
  revert s. induction cs as [|[[t|task]|] cs IH]; intros s Hs; simpl.
  - exists s, None. auto.
  - destruct (schedule_inv t s Hs) as [Hi Hl]. destruct (IH _ Hi) as (s' & e & -> & Hi' & Hl' & He).
    exists s', e. split_and!; [done|done|congruence|set_solver].
  - destruct (declare_completed_run task s) as (s1 & -> & Hok1 & _ & _ & _ & Hl1); [apply Hs|].
    cbn [mbind option_bind]. destruct (try_run_scheduled_ok s1 Hok1) as (Hok2 & Hb2 & Hc2).
    destruct (IH (try_run_scheduled s1)) as (s' & e & -> & Hi' & Hl' & He); [done|].
    exists s', e. split_and!; [done|done| |set_solver]. rewrite Hl', (conserves_limits _ _ Hc2). done.
  - exists s, (Some CommandQueueClosed). split_and!; [done..|]. right. set_solver.
Qed.

Lemma poll_timeouts_inv fuel now s :
  length (dq_entries (timeouts s)) + length (scheduled s) ≤ fuel → sched_inv s →
  ∃ s' e, poll_timeouts fuel now s = Some (s', e) ∧ sched_inv s' ∧ limits s' = limits s ∧
    Permutation (launched s' ++ scheduled s') (launched s ++ scheduled s) ∧
    (e = None ∧ dq_poll_expired now (timeouts s') = None ∨ ∃ t, e = Some (Timer t)).
Proof.
  revert s. induction fuel as [|fuel IH]; intros s Hf Hs; simpl.
  all: destruct (dq_poll_expired now (timeouts s)) as [[[v q]|e]|] eqn:Hp;
    [|exists s, (Some (Timer e)); split_and!; try done; right; by exists e|by exists s, None; split_and!; auto].
  all: apply dq_poll_entries in Hp as (k & Hk & Hq).
  { destruct (dq_entries (timeouts s)); [set_solver|simpl in Hf; lia]. }
  destruct (declare_timed_out_ok v s q k) as (s1 & -> & Hok1 & Hsch & Hto & Hla1 & Hl1); [apply Hs|done..|].
  destruct (try_run_scheduled_ok s1 Hok1) as (Hok2 & Hb2 & Hc2).
  destruct (IH (try_run_scheduled s1)) as (s' & e & -> & Hi' & Hl' & Hp' & He).
  - destruct Hc2 as (_ & -> & _). rewrite Hsch, Hto, Hq.
    destruct (alist_get_split k v (dq_entries (timeouts s))) as (l1 & l2 & Heq & _).
    { apply alist_get_NoDup; [apply dq_NoDup|done]. }
    pose proof (dq_NoDup (timeouts s)) as Hnd. rewrite Heq in *. rewrite alist_del_mid by done.
    rewrite !length_app in *. simpl in *. lia.
  - done.
  - exists s', e. split_and!; [done|done| | |done].
    + rewrite Hl', (conserves_limits _ _ Hc2). done.
    + destruct Hc2 as (Hp2 & _). by rewrite Hp', Hp2, Hla1, Hsch.
Qed.

(** The future is polled until it stops. *)
Fixpoint run_polls (ps : list (list (option Command) * Z)) (s : State) : option (State * option Error) :=
  match ps with
  | [] => Some (s, None)
  | (cs, now) :: ps =>
      '(s', e) ← poll cs now s;
      match e with Some e => Some (s', Some e) | None => run_polls ps s' end
  end.

Lemma run_polls_inv ps s :
  sched_inv s → ∃ s' e, run_polls ps s = Some (s', e) ∧ sched_inv s' ∧ limits s' = limits s ∧
    (e = Some CommandQueueClosed → Exists (λ p, None ∈ p.1) ps).
Proof.
  revert s. induction ps as [|[cs now] ps IH]; intros s Hs; simpl; [by exists s, None|].
  unfold poll. destruct (poll_commands_inv cs s Hs) as (s1 & e1 & -> & Hs1 & Hl1 & He1).
  cbn [mbind option_bind]. destruct e1 as [e1|]; cbn [mbind option_bind].
  { exists s1, (Some e1). split_and!; try done. intros _. constructor. naive_solver. }
  destruct (poll_timeouts_inv _ now s1 (le_n _) Hs1) as (s2 & e2 & -> & Hs2 & Hl2 & _ & He2).
  cbn [mbind option_bind]. destruct e2 as [e2|].
  { exists s2, (Some e2). split_and!; [done|done|congruence|naive_solver]. }
  destruct (IH s2 Hs2) as (s' & e & -> & Hs' & Hl' & He). exists s', e.
  split_and!; [done|done|congruence|]. intros ?. apply Exists_cons_tl. auto.
Qed.

Lemma scheduler_new_inv max_running max_same : sched_inv (scheduler_new max_running max_same).
Proof.
  split; [split; simpl; [lia|intros t; unfold run_count; simpl; lia|constructor|constructor|set_solver]|].
  right. set_solver.
Qed.

(** C10: The scheduler respects its limits, never panics and never idles.  After
    any sequence of polls, with any commands and at any times: at most
    [max_running] tasks are running, at most [max_running_same_task] of them
    with the same identifier, no task is queued twice for the same worker, and
    either all places are taken or every queued task has as many instances
    running as allowed.  Every poll returns: cancelling a timeout always finds
    it, and the loop over the expired ones ends.  The future stops only when
    its channel is closed or its timer fails. *)
Theorem scheduler_invariant max_running max_same ps :
  ∃ s e, run_polls ps (scheduler_new max_running max_same) = Some (s, e) ∧
    (e = Some CommandQueueClosed → Exists (λ p, None ∈ p.1) ps) ∧
    length (running s) ≤ max_running ∧
    (∀ t, run_count t (running s) ≤ max_same) ∧
    NoDup (task_ids <$> scheduled s) ∧
    (length (running s) = max_running ∨
     ∀ t, t ∈ scheduled s → run_count (tid t) (running s) = max_same).
Proof.
  destruct (run_polls_inv ps (scheduler_new max_running max_same)) as (s & e & Hrun & [Hok Hb] & Hl & He).
  { apply scheduler_new_inv. }
  unfold limits in Hl. simpl in Hl. injection Hl as Hc Hm. destruct Hok as [Hcap Hsame Hnd _ _].
  exists s, e. rewrite Hc in *. rewrite Hm in *. split_and!; [done..|].
  destruct Hb as [Hb|Hb]; [left; congruence|right]. intros t Ht.
  apply Nat.le_antisymm; [done|]. rewrite <- Hm. by apply Hb.
Qed.

(** Declaring a task complete ends it for good: no instance of it is queued
    or running afterwards, and every task of another identifier that was queued
    is still queued or has been launched, once. *)
Theorem declare_completed_correct task s :
  sched_inv s →
  ∃ s', declare_completed task s = Some s' ∧ sched_inv s' ∧
    (∀ t, t ∈ scheduled s' → tid t ≠ task) ∧ (∀ r, r ∈ running s' → run_tid r ≠ task) ∧
    Permutation (launched s' ++ scheduled s')
      (launched s ++ filter (λ t, tid t ≠ task) (scheduled s)).
Proof.
  intros Hs. destruct (declare_completed_run task s) as (s1 & -> & Hok1 & Hsch & Hrun & Hla & _); [apply Hs|].
  destruct (try_run_scheduled_ok s1 Hok1) as (Hok2 & Hb2 & Hp & _ & Hr & Hq & _).
  assert (∀ t, t ∈ scheduled s1 → tid t ≠ task) as Hs1.
  { intros t. rewrite Hsch. unfold is_completed. intros [Ht _]%list_elem_of_filter.
    by apply bool_decide_eq_false in Ht. }
  eexists. split_and!; [done|done| | |].
  - intros t Ht. by apply Hs1, Hq.
  - intros r [Hin|(t & Ht & <-)]%Hr; [|by apply Hs1]. rewrite Hrun in Hin.
    apply list_elem_of_filter in Hin as [Hc _]. unfold run_is_completed in Hc.
    by apply bool_decide_eq_false in Hc.
  - rewrite Hp, Hsch, Hla. apply Permutation_app_head.
    rewrite (list_filter_iff _ (λ t, tid t ≠ task)); [done|]. intros t. unfold is_completed. by rewrite bool_decide_eq_false.
Qed.

(** Scheduling a task that is queued already for the same worker replaces its
    data and launches nothing; any other task joins the queue, from which the
    tasks that may run are launched. *)
Theorem schedule_correct task s :
  sched_inv s →
  sched_inv (schedule task s) ∧
  ((∃ l1 old l2, scheduled s = l1 ++ old :: l2 ∧ task_ids old = task_ids task ∧
      scheduled (schedule task s) = l1 ++ task :: l2 ∧ launched (schedule task s) = launched s ∧
      running (schedule task s) = running s) ∨
   (task_ids task ∉ task_ids <$> scheduled s) ∧
   Permutation (launched (schedule task s) ++ scheduled (schedule task s))
     (launched s ++ scheduled s ++ [task])).
Proof.
  intros Hs. split; [by apply schedule_inv|]. unfold schedule.
  destruct (update_scheduled task (scheduled s)) as [l|] eqn:Hu.
  - left. apply update_scheduled_Some in Hu as (l1 & x & l2 & Hl & Hx & ->).
    exists l1, x, l2. split_and!; [done|done| |done|done]. simpl. do 2 f_equal.
    destruct task. unfold update_data, task_ids in *. simpl in *. congruence.
  - right. apply update_scheduled_None in Hu. split; [done|]. destruct Hs as [Hok _].
    by destruct (try_run_scheduled_ok _ (sched_ok_push _ _ Hok Hu)) as (_ & _ & Hp & _).
Qed.

Lemma poll_timeouts_grows fuel now s s' e : poll_timeouts fuel now s = Some (s', e) → grows s s'.
Proof.
  revert s. induction fuel as [|fuel IH]; intros s; simpl.
  all: destruct (dq_poll_expired now (timeouts s)) as [[[v q]|t]|];
    [|intros [= <- _]; apply grows_refl|intros [= <- _]; apply grows_refl].
  { done. }
  intros Hp%IH. eapply grows_trans; [|exact Hp]. unfold declare_timed_out, try_run_scheduled.
  eapply grows_trans; [|apply try_run_grows]. exists []. rewrite app_nil_r. split; [done|].
  intros _ r. simpl. by intros [_ ?]%list_elem_of_filter.
Qed.

(** Polls without new commands, each late enough that the timeouts set before
    it have expired. *)
Inductive fair_polls : State → nat → State → Prop :=
| fair_none s : fair_polls s 0 s
| fair_poll s now s1 n s2 :
    poll [] now s = Some (s1, None) →
    (∀ kv, kv ∈ dq_entries (timeouts s) → kv ∉ dq_entries (timeouts s1)) →
    fair_polls s1 n s2 → fair_polls s (S n) s2.

(** A fair poll launches a task of the queue. *)
Lemma fair_poll_progress now s s1 :
  sched_inv s → 0 < capacity s → 0 < max_running_same_task s →
  poll [] now s = Some (s1, None) →
  (∀ kv, kv ∈ dq_entries (timeouts s) → kv ∉ dq_entries (timeouts s1)) →
  sched_inv s1 ∧ limits s1 = limits s ∧
  Permutation (launched s1 ++ scheduled s1) (launched s ++ scheduled s) ∧
  length (scheduled s1) ≤ pred (length (scheduled s)).
Proof.
  intros Hs Hcap Hsame Hpoll Hfair. unfold poll in Hpoll. simpl in Hpoll.
  destruct (poll_timeouts_inv _ now s (le_n _) Hs) as (s' & e & Hrun & [Hok Hb] & Hl & Hp & _).
  rewrite Hrun in Hpoll. injection Hpoll as -> ->. apply poll_timeouts_grows in Hrun as (l & Hla & Hrun).
  split_and!; [done|done|done|]. pose proof (Permutation_length Hp) as Hlen.
  rewrite !length_app, Hla, length_app in Hlen. destruct l as [|t l]; [|simpl in Hlen; lia].
  assert (running s1 = []) as Hr.
  { destruct (running s1) as [|r rs] eqn:Heq; [done|]. exfalso.
    assert (r ∈ running s) as Hin by (apply Hrun; [done|set_solver]).
    destruct Hs as [[_ _ _ _ Hto] _]. apply (Hfair _ (Hto r Hin)). apply Hok. rewrite Heq. set_solver. }
  unfold limits in Hl. injection Hl as Hc Hm. destruct Hb as [Hb|Hb].
  - rewrite Hr, Hc in Hb. simpl in Hb. lia.
  - destruct (scheduled s1) as [|t l]; [simpl; lia|]. specialize (Hb t). rewrite Hr, Hm in Hb.
    unfold run_count in Hb. simpl in Hb. assert (max_running_same_task s ≤ 0) by set_solver. lia.
Qed.

(** C30: No queued task waits forever.  As long as the limits allow one task at
    all, polling the scheduler as often as there are tasks in the queue, each
    time late enough for the timeouts of the running tasks, launches every task
    of the queue, once: a task that is never declared complete delays the
    others only until it times out. *)
Theorem queued_tasks_are_launched n s s' :
  sched_inv s → 0 < capacity s → 0 < max_running_same_task s →
  length (scheduled s) ≤ n → fair_polls s n s' →
  scheduled s' = [] ∧ Permutation (launched s') (launched s ++ scheduled s).
Proof.
  intros Hs Hcap Hsame Hn Hf. revert Hs Hcap Hsame Hn.
  induction Hf as [s|s now s1 n s2 Hpoll Hfair _ IH]; intros Hs Hcap Hsame Hn.
  - destruct (scheduled s); [|simpl in Hn; lia]. by rewrite app_nil_r.
  - destruct (fair_poll_progress now s s1) as (Hs1 & Hl & Hp & Hlen); [done..|].
    unfold limits in Hl. injection Hl as Hc Hm.
    destruct IH as [Hsch Hp2]; [done|lia|lia|lia|]. split; [done|]. by rewrite Hp2.
Qed.
End scheduler.
End Scheduler.

(** ** A concrete queue of timeouts

    Keys are given out in order; the entry with key [k] expires after time [k]. *)
Module SampleDelayQueue.
Section queue.
Context {V : Type}.

Definition lq_wf (next : nat) (l : list (nat * V)) : bool :=
  bool_decide (NoDup l.*1 ∧ Forall (λ k, k < next) l.*1).

Record lq := mkLq { lq_next : nat; lq_entries : list (nat * V); lq_ok : lq_wf lq_next lq_entries = true }.

Lemma lq_wf_nil : lq_wf 0 [] = true.
Proof. apply bool_decide_eq_true. split; constructor. Qed.

Lemma lq_wf_insert next l v : lq_wf next l = true → lq_wf (S next) (l ++ [(next, v)]) = true.
Proof.
  unfold lq_wf. rewrite !bool_decide_eq_true, fmap_app. intros [Hnd Hlt]. split.
  - apply NoDup_app. split_and!; [done| |by apply NoDup_singleton].
    intros k Hk ->%list_elem_of_singleton. rewrite Forall_forall in Hlt. specialize (Hlt _ Hk). simpl in *. lia.
  - apply Forall_app. split; [|by repeat constructor]. eapply Forall_impl; [exact Hlt|]. simpl. lia.
Qed.

Lemma lq_wf_del next l k : lq_wf next l = true → lq_wf next (alist_del k l) = true.
Proof.
  unfold lq_wf. rewrite !bool_decide_eq_true. intros [Hnd Hlt]. split; [by apply alist_del_NoDup|].
  rewrite Forall_forall in *. intros k' [? _]%alist_del_key. auto.
Qed.

Definition lq_insert (v : V) (q : lq) : lq * nat :=
  (mkLq (S (lq_next q)) (lq_entries q ++ [(lq_next q, v)]) (lq_wf_insert _ _ v (lq_ok q)), lq_next q).

Definition lq_del (k : nat) (q : lq) : lq :=
  mkLq (lq_next q) (alist_del k (lq_entries q)) (lq_wf_del _ _ k (lq_ok q)).

Definition lq_remove (k : nat) (q : lq) : option lq :=
  match alist_get k (lq_entries q) with Some _ => Some (lq_del k q) | None => None end.

Definition lq_poll (now : Z) (q : lq) : option (result Empty_set (V * lq)) :=
  match head (lq_entries q) with
  | Some (k, v) => if (Z.of_nat k <? now)%Z then Some (Ok (v, lq_del k q)) else None
  | None => None
  end.

#[export] Instance list_queue : DelayQueue V := {|
  dq := lq; dq_key := nat; dq_new := mkLq 0 [] lq_wf_nil; dq_entries := lq_entries;
  dq_insert := lq_insert; dq_remove := lq_remove; dq_timer_error := Empty_set;
  dq_poll_expired := lq_poll |}.

#[export] Instance list_queue_laws : DelayQueueLaws V.
Proof.
  assert (∀ q : lq, NoDup (lq_entries q).*1 ∧ Forall (λ k, k < lq_next q) (lq_entries q).*1) as Hwf.
  { intros [n l Hl]. simpl. clear -Hl. unfold lq_wf in Hl. by apply bool_decide_eq_true in Hl. }
  split; simpl.
  - done.
  - intros q. apply Hwf.
  - intros v q. split; [|done]. intros Hin. destruct (Hwf q) as [_ Hlt].
    rewrite Forall_forall in Hlt. specialize (Hlt _ Hin). lia.
  - intros k q Hk. unfold lq_remove. apply alist_get_is_Some in Hk as [v ->]. eauto.
  - intros now q v q'. unfold lq_poll. destruct (head (lq_entries q)) as [[k v']|] eqn:Hl; [|done].
    case_match; [|done]. intros [= <- <-]. exists k. split; [|done].
    apply head_Some_elem_of in Hl. done.
Qed.
End queue.
End SampleDelayQueue.

Module SchedulerWitness.
Import Scheduler SampleDelayQueue.
Definition st : Type := @State nat nat nat list_queue.

Definition t1 : ScheduledTask := mkScheduled 1 1 10.
Definition t1' : ScheduledTask := mkScheduled 1 1 11.
Definition t2 : ScheduledTask := mkScheduled 1 2 20.
Definition t3 : ScheduledTask := mkScheduled 3 1 30.

(** One instance of task 1 running, one queued. *)
Definition busy1 : st := schedule t2 (schedule t1 (scheduler_new 2 1)).

Lemma busy1_inv : sched_inv busy1.
Proof. do 2 apply schedule_inv. apply scheduler_new_inv. Qed.

Lemma scheduler_invariant_witness :
  ∃ s e, run_polls [([Some (Schedule t1); Some (Schedule t2)], 0%Z); ([Some (DeclareCompleted 1)], 5%Z)]
           (scheduler_new 2 1 : st) = Some (s, e) ∧ length (running s) ≤ 2.
Proof.
  destruct (scheduler_invariant (TID:=nat) (WID:=nat) (Data:=nat) 2 1
    [([Some (Schedule t1); Some (Schedule t2)], 0%Z); ([Some (DeclareCompleted 1)], 5%Z)])
    as (s & e & Hrun & _ & Hlen & _). by exists s, e.
Defined.

Lemma declare_completed_correct_witness :
  sched_inv busy1 ∧ ∃ s', declare_completed 1 busy1 = Some s' ∧ ∀ t, t ∈ scheduled s' → tid t ≠ 1.
Proof.
  split; [exact busy1_inv|].
  destruct (declare_completed_correct 1 busy1 busy1_inv) as (s' & Hrun & _ & Hs & _). by exists s'.
Defined.

(** At time 1 the timeout of the first task has expired. *)
Definition polled : option (st * option Error) := poll [] 1 busy1.
Definition after_poll : st := match polled with Some (s, _) => s | None => busy1 end.

Lemma queued_tasks_are_launched_witness :
  fair_polls busy1 1 after_poll ∧ scheduled after_poll = [].
Proof.
  assert (fair_polls busy1 1 after_poll) as Hf.
  { apply (fair_poll busy1 1 after_poll 0 after_poll); [| |apply fair_none].
    - reflexivity.
    - intros kv Hkv Hkv'.
      apply (bool_decide_eq_false_1 (kv.1 = 1)).
      + assert (dq_entries (timeouts busy1) = [(0, mkTimedOut 1 1)]) as He by reflexivity.
        rewrite He in Hkv. apply list_elem_of_singleton in Hkv as ->. reflexivity.
      + assert (dq_entries (timeouts after_poll) = [(1, mkTimedOut 1 2)]) as He by reflexivity.
        rewrite He in Hkv'. by apply list_elem_of_singleton in Hkv' as ->. }
  split; [exact Hf|].
  destruct (queued_tasks_are_launched 1 busy1 after_poll) as [Hs _].
  - exact busy1_inv.
  - apply Nat.lt_0_succ.
  - apply Nat.lt_0_succ.
  - reflexivity.
  - exact Hf.
  - exact Hs.
Defined.

Lemma schedule_correct_witness :
  sched_inv busy1 ∧ sched_inv (schedule t3 busy1).
Proof.
  split; [exact busy1_inv|]. destruct (schedule_correct t3 busy1 busy1_inv) as [Hi _]. exact Hi.
Defined.
End SchedulerWitness.
