(* ===== verification/Enclave.v ===== *)
(** * Leader schedules and leadership logs

    Module [Enclave] models [jormungandr/src/secure/enclave.rs] and
    [jormungandr/src/leadership/enclave.rs]: the keys of the leader, the lazy
    enumeration of the slots it leads and the signature of headers.  Module
    [LeadershipLogs] models [jormungandr/src/leadership/logs.rs] and
    [jormungandr-lib/src/interfaces/leadership_log.rs].  Leader elections,
    signatures and header builders belong to the chain library and are
    parameters. *)

From S2P Require Import Prelude BlockDate Lru Deque Fragment FragmentLogs Storage Chain.

(** The types of [chain_impl_mockchain::leadership]. *)
Class LeaderTypes := {
  (** [Leader], with [bft_leader] and [genesis_leader] *)
  Leader : Type;
  BftLeader : Type;
  GenesisLeader : Type;
  bft_leader : Leader → option BftLeader;
  genesis_leader : Leader → option GenesisLeader;
  BftLeaderId : Type;
  PoolId : Type;
  Witness : Type;
}.

Inductive LeaderOutput `{LeaderTypes} :=
| NotLeader                                  (* [LeaderOutput::None] *)
| Bft (id : BftLeaderId)
| GenesisPraos (node : PoolId) (witness : Witness).

Inductive BlockVersion := VersionGenesis | Ed25519Signed | KesVrfproof.

(** Elections, and the builders of headers and blocks. *)
Class LeaderOps `{LeaderTypes, LedgerTypes} := {
  (** [leadership.date_at_slot], [is_leader_for_date], [epoch] *)
  date_at_slot : Leadership → Z → BlockDate;
  is_leader_for_date : Leadership → Leader → BlockDate → LeaderOutput;
  leadership_epoch : Leadership → Z;
  HeaderBuilder : Type;
  BftBuilder : Type;
  PraosBuilder : Type;
  AuthenticatedData : Type;
  Signature : Type;
  (** the header builder that [block_builder] gives to its closure *)
  header_builder : BlockVersion → list Fragment → HeaderBuilder;
  set_parent : HeaderHash → Z → HeaderBuilder → HeaderBuilder;
  set_date : BlockDate → HeaderBuilder → HeaderBuilder;
  into_unsigned_header : HeaderBuilder → option Header;
  into_bft_builder : HeaderBuilder → option BftBuilder;
  bft_set_consensus_data : BftLeaderId → BftBuilder → BftBuilder;
  bft_authenticated_data : BftBuilder → AuthenticatedData;
  bft_sign : BftLeader → AuthenticatedData → Signature;
  bft_set_signature : Signature → BftBuilder → Header;
  into_genesis_praos_builder : HeaderBuilder → option PraosBuilder;
  praos_set_consensus_data : PoolId → Witness → PraosBuilder → PraosBuilder;
  praos_authenticated_data : PraosBuilder → AuthenticatedData;
  praos_sign : GenesisLeader → AuthenticatedData → Signature;
  praos_set_signature : Signature → PraosBuilder → Header;
  (** the block [block_builder] makes of the header and the contents *)
  make_block : Header → list Fragment → Block;
}.

Module Enclave.
Section enclave.
Context `{LeaderOps}.

Inductive EnclaveError := EmptyEnclave.

Record LeaderEvent := mkEvent { ev_date : BlockDate; ev_output : LeaderOutput }.

Definition create_header_genesis_praos (leader_data : option Leader) (builder : PraosBuilder)
    : option Header :=
  l ← leader_data;
  leader ← genesis_leader l;
  let data := praos_authenticated_data builder in
  Some (praos_set_signature (praos_sign leader data) builder).

Definition create_header_bft (leader_data : option Leader) (builder : BftBuilder) : option Header :=
  l ← leader_data;
  leader ← bft_leader l;
  let data := bft_authenticated_data builder in
  Some (bft_set_signature (bft_sign leader data) builder).

Definition query_header_bft_finalize (leader_data : option Leader) (builder : BftBuilder)
    : result EnclaveError Header :=
  match create_header_bft leader_data builder with Some h => Ok h | None => Err EmptyEnclave end.

Definition query_header_genesis_praos_finalize (leader_data : option Leader) (builder : PraosBuilder)
    : result EnclaveError Header :=
  match create_header_genesis_praos leader_data builder with
  | Some h => Ok h
  | None => Err EmptyEnclave
  end.

(** [Schedule]: the slots of an epoch are looked at one by one, when the next
    event is asked for. *)
Record Schedule := mkSchedule {
  sc_leader : option Leader;
  sc_leadership : Leadership;
  current_slot : Z;
  stop_at_slot : Z;
  current_slot_data : list LeaderEvent;
}.

Definition schedule_new (leader_data : option Leader) (leadership : Leadership)
    (slot_start nb_slots : Z) : Schedule :=
  mkSchedule leader_data leadership slot_start (u32_add slot_start nb_slots) [].

(** The event of a slot, if the leader is elected for it. *)
Definition event_at (leadership : Leadership) (leader : Leader) (slot : Z) : option LeaderEvent :=
  let date := date_at_slot leadership slot in
  match is_leader_for_date leadership leader date with
  | NotLeader => None
  | leader_output => Some (mkEvent date leader_output)
  end.

Fixpoint fill_loop (fuel : nat) (leader : Leader) (s : Schedule) : Schedule :=
  match fuel with
  | O => s
  | S fuel =>
      match current_slot_data s with
      | [] =>
          if (current_slot s <? stop_at_slot s)%Z then
            let data :=
              match event_at (sc_leadership s) leader (current_slot s) with
              | None => []
              | Some e => [e]
              end in
            fill_loop fuel leader
              (mkSchedule (sc_leader s) (sc_leadership s) (u32_add (current_slot s) 1)
                 (stop_at_slot s) data)
          else s
      | _ :: _ => s
      end
  end.

(** The loop goes at most once through the slots that are left. *)
Definition fill (s : Schedule) : Schedule :=
  match sc_leader s with
  | None => s
  | Some leader => fill_loop (Z.to_nat (stop_at_slot s - current_slot s)) leader s
  end.

Definition set_slot_data (data : list LeaderEvent) (s : Schedule) : Schedule :=
  mkSchedule (sc_leader s) (sc_leadership s) (current_slot s) (stop_at_slot s) data.

(** [Vec::pop] takes the last element. *)
Definition next_event (s : Schedule) : Schedule * option LeaderEvent :=
  let s := fill s in
  let data := current_slot_data s in
  (set_slot_data (take (pred (length data)) data) s, last data).

Definition peek (s : Schedule) : Schedule * option LeaderEvent :=
  let s := fill s in (s, last (current_slot_data s)).

Definition schedule_epoch (s : Schedule) : Z := leadership_epoch (sc_leadership s).

Definition query_schedules (leader_data : option Leader) (leadership : Leadership)
    (slot_start nb_slots : Z) : result EnclaveError Schedule :=
  Ok (schedule_new leader_data leadership slot_start nb_slots).

(** ** The events of a schedule *)

(** The elected slots of a range, in order. *)
Definition events (leader_data : option Leader) (leadership : Leadership) (start stop : Z)
    : list LeaderEvent :=
  match leader_data with
  | None => []
  | Some leader => omap (event_at leadership leader) (seqZ start (stop - start))
  end.

(** What a schedule has still to deliver. *)
Definition pending (s : Schedule) : list LeaderEvent :=
  current_slot_data s ++ events (sc_leader s) (sc_leadership s) (current_slot s) (stop_at_slot s).

Record schedule_wf (s : Schedule) : Prop := {
  wf_slots : (0 ≤ current_slot s < U32)%Z;
  wf_stop : (0 ≤ stop_at_slot s < U32)%Z;
  wf_data : length (current_slot_data s) ≤ 1;
  wf_empty : sc_leader s = None → current_slot_data s = [];
}.

Lemma events_nil ld l start stop : (stop ≤ start)%Z → events ld l start stop = [].
Proof. intros Hle. unfold events. destruct ld; [|done]. by rewrite seqZ_nil by lia. Qed.

Lemma events_cons leader l start stop :
  (start < stop)%Z →
  events (Some leader) l start stop =
  match event_at l leader start with Some e => [e] | None => [] end
    ++ events (Some leader) l (start + 1) stop.
Proof.
  intros Hlt. unfold events. rewrite seqZ_cons by lia. simpl.
  replace (Z.pred (stop - start)) with (stop - (start + 1))%Z by lia.
  replace (Z.succ start) with (start + 1)%Z by lia. by destruct (event_at _ _ _).
Qed.

Lemma fill_loop_spec fuel leader s :
  schedule_wf s → sc_leader s = Some leader →
  Z.to_nat (stop_at_slot s - current_slot s) ≤ fuel →
  let s' := fill_loop fuel leader s in
  schedule_wf s' ∧ pending s' = pending s ∧ sc_leadership s' = sc_leadership s ∧
  sc_leader s' = sc_leader s ∧ (current_slot_data s' = [] → pending s' = []).
Proof.
  revert s. induction fuel as [|fuel IH]; intros s Hwf Hl Hf; simpl.
  { split_and!; try done. intros Hd. unfold pending. rewrite Hd. apply events_nil. lia. }
  destruct (current_slot_data s) as [|e d] eqn:Hd.
  2:{ split_and!; try done. congruence. }
  destruct (Z.ltb_spec (current_slot s) (stop_at_slot s)) as [Hlt|Hge].
  2:{ split_and!; try done. intros _. unfold pending. rewrite Hd. by apply events_nil. }
  destruct Hwf as [Hs Ht _ _].
  assert (u32_add (current_slot s) 1 = current_slot s + 1)%Z as Hadd by (apply wrap32_small; lia).
  destruct (IH (mkSchedule (sc_leader s) (sc_leadership s) (u32_add (current_slot s) 1) (stop_at_slot s)
    match event_at (sc_leadership s) leader (current_slot s) with None => [] | Some e => [e] end))
    as (? & Hp & ? & ? & ?).
  - split; simpl; [rewrite Hadd; lia|done|by destruct (event_at _ _ _); simpl; lia|congruence].
  - done.
  - simpl. lia.
  - split_and!; try done. rewrite Hp. unfold pending. simpl. rewrite Hd, Hadd, Hl.
    by rewrite (events_cons leader _ (current_slot s)) by done.
Qed.

Lemma fill_spec s :
  schedule_wf s →
  schedule_wf (fill s) ∧ pending (fill s) = pending s ∧ sc_leadership (fill s) = sc_leadership s ∧
  sc_leader (fill s) = sc_leader s ∧ current_slot_data (fill s) = option_list (head (pending s)).
Proof.
  intros Hwf.
  assert (schedule_wf (fill s) ∧ pending (fill s) = pending s ∧ sc_leadership (fill s) = sc_leadership s ∧
    sc_leader (fill s) = sc_leader s ∧ (current_slot_data (fill s) = [] → pending (fill s) = []))
    as (Hwf' & Hp & ? & ? & He).
  { unfold fill. destruct (sc_leader s) as [leader|] eqn:Hl.
    - rewrite <- Hl. by apply fill_loop_spec.
    - split_and!; try done. intros Hd. unfold pending. by rewrite Hd, Hl. }
  split_and!; try done. rewrite <- Hp. destruct (current_slot_data (fill s)) as [|e [|? ?]] eqn:Hd.
  - by rewrite He.
  - unfold pending. by rewrite Hd.
  - pose proof (wf_data _ Hwf') as Hlen. rewrite Hd in Hlen. simpl in Hlen. lia.
Qed.

Inductive op := Next | Peek.

Definition run_op (o : op) (s : Schedule) : Schedule * option LeaderEvent :=
  match o with Next => next_event s | Peek => peek s end.

Fixpoint run_ops (os : list op) (s : Schedule) : list (option LeaderEvent) :=
  match os with [] => [] | o :: os => let '(s, e) := run_op o s in e :: run_ops os s end.

(** The same on a list of events. *)
Fixpoint list_ops (os : list op) (l : list LeaderEvent) : list (option LeaderEvent) :=
  match os with
  | [] => []
  | Next :: os => head l :: list_ops os (tail l)
  | Peek :: os => head l :: list_ops os l
  end.

Lemma run_op_spec o s :
  schedule_wf s →
  schedule_wf (run_op o s).1 ∧ (run_op o s).2 = head (pending s) ∧
  pending (run_op o s).1 = (match o with Next => tail | Peek => id end) (pending s) ∧
  sc_leadership (run_op o s).1 = sc_leadership s ∧ sc_leader (run_op o s).1 = sc_leader s.
Proof.
  intros Hwf. destruct (fill_spec s Hwf) as (Hwf' & Hp & Hl & Hld & Hd).
  assert (last (current_slot_data (fill s)) = head (pending s)) as Hlast
    by (rewrite Hd; by destruct (pending s)).
  destruct o; simpl; unfold next_event, peek; simpl; split_and!; try done.
  - destruct Hwf' as [? ? Hlen Hnone]. split; simpl; [done|done| |].
    + rewrite length_take. lia.
    + intros Hn. by rewrite Hnone.
  - assert (pending s = option_list (head (pending s)) ++ pending (set_slot_data [] (fill s))) as Hrest.
    { rewrite <- Hp at 1. unfold pending at 1. by rewrite Hd. }
    rewrite Hd. destruct (pending s) as [|e l]; simpl in *; [by symmetry|congruence].
Qed.

Lemma run_ops_spec os s : schedule_wf s → run_ops os s = list_ops os (pending s).
Proof.
  revert s. induction os as [|o os IH]; intros s Hwf; simpl; [done|].
  destruct (run_op_spec o s Hwf) as (Hwf' & He & Hp & _). destruct (run_op o s) as [s' e]. simpl in *.
  subst e. rewrite IH by done. rewrite Hp. by destruct o.
Qed.

Lemma schedule_new_wf ld l start nb :
  (0 ≤ start)%Z → (0 ≤ nb)%Z → (start + nb < U32)%Z →
  schedule_wf (schedule_new ld l start nb) ∧
  pending (schedule_new ld l start nb) = events ld l start (start + nb).
Proof.
  intros Hs Hn Hlt. assert (u32_add start nb = start + nb)%Z as Hadd by (apply wrap32_small; lia).
  split; [|unfold pending; simpl; by rewrite Hadd].
  split; simpl; [lia|rewrite Hadd; lia|lia|done].
Qed.

(** C29: The lazy schedule is the list of the leader's slots.  A schedule made
    for the slots from [start] on answers every sequence of [next_event] and
    [peek] calls as the list of all elected slots of the range would, computed
    beforehand and in order: no slot is skipped or delivered twice, peeking
    loses nothing, and after the last slot, or without a leader, the answer
    stays empty. *)
Theorem schedule_enumerates os ld l start nb :
  (0 ≤ start)%Z → (0 ≤ nb)%Z → (start + nb < U32)%Z →
  run_ops os (schedule_new ld l start nb) = list_ops os (events ld l start (start + nb)).
Proof.
  intros Hs Hn Hlt. destruct (schedule_new_wf ld l start nb) as [Hwf <-]; [done..|].
  by apply run_ops_spec.
Qed.
End enclave.
End Enclave.

(** ** Leadership logs *)
Module LeadershipLogs.

Inductive LeadershipLogStatus `{FragmentTypes} :=
| Pending
| LogRejected (reason : string)
| LogBlock (block parent : HeaderHash) (chain_length : Z).

Record LeadershipLog `{FragmentTypes} := mkLeadershipLog {
  created_at_time : Z;
  scheduled_at_time : Z;
  scheduled_at_date : BlockDate;
  wake_at_time : option Z;
  finished_at_time : option Z;
  log_status : LeadershipLogStatus;
}.
Arguments mkLeadershipLog {_} _ _ _ _ _ _.

Section logs.
Context `{FragmentTypes} `{!LruCache BlockDate LeadershipLog}.

(** [LeadershipLogId] wraps the date of the event. *)
Definition leadership_log_new (now : Z) (date : BlockDate) (time : Z) : LeadershipLog :=
  mkLeadershipLog now time date None None Pending.
Definition leadership_log_id (l : LeadershipLog) : BlockDate := scheduled_at_date l.

(** The debug assertions of the source are not part of a release build. *)
Definition log_mark_wake (now : Z) (l : LeadershipLog) : LeadershipLog :=
  mkLeadershipLog (created_at_time l) (scheduled_at_time l) (scheduled_at_date l) (Some now)
    (finished_at_time l) (log_status l).
Definition log_mark_finished (now : Z) (l : LeadershipLog) : LeadershipLog :=
  mkLeadershipLog (created_at_time l) (scheduled_at_time l) (scheduled_at_date l) (wake_at_time l)
    (Some now) (log_status l).
Definition log_set_status (st : LeadershipLogStatus) (l : LeadershipLog) : LeadershipLog :=
  mkLeadershipLog (created_at_time l) (scheduled_at_time l) (scheduled_at_date l) (wake_at_time l)
    (finished_at_time l) st.

Definition Logs : Type := lru BlockDate LeadershipLog.

Definition logs_new (cap : nat) : Logs := lru_new cap.
Definition logs_insert (log : LeadershipLog) (ls : Logs) : Logs * BlockDate :=
  let id := leadership_log_id log in (lru_put id log ls, id).
Definition mark_wake (now : Z) (id : BlockDate) (ls : Logs) : Logs := lru_get_mut id (log_mark_wake now) ls.
Definition set_status (id : BlockDate) (st : LeadershipLogStatus) (ls : Logs) : Logs :=
  lru_get_mut id (log_set_status st) ls.
Definition mark_finished (now : Z) (id : BlockDate) (ls : Logs) : Logs :=
  lru_get_mut id (log_mark_finished now) ls.
Definition logs_list (ls : Logs) : list LeadershipLog := (lru_entries ls).*2.

Context `{!LruLaws BlockDate LeadershipLog}.

Definition log_of (id : BlockDate) (ls : Logs) : option LeadershipLog := alist_get id (lru_entries ls).

Lemma log_of_insert log ls :
  0 < lru_cap ls → log_of (leadership_log_id log) (logs_insert log ls).1 = Some log.
Proof.
  intros Hcap. unfold log_of, logs_insert. simpl. rewrite lru_put_entries.
  destruct (lru_cap ls); [lia|]. simpl. by rewrite decide_True.
Qed.

Lemma log_of_update id f ls :
  log_of id (lru_get_mut id f ls) = f <$> log_of id ls.
Proof. unfold log_of. rewrite lru_get_mut_entries, lru_touch_get. by rewrite decide_True. Qed.

(** An update of one log keeps the set of the logs. *)
Lemma log_of_update_other id id' f ls :
  id' ≠ id → log_of id' (lru_get_mut id f ls) = log_of id' ls.
Proof. intros Hne. unfold log_of. rewrite lru_get_mut_entries, lru_touch_get. by rewrite decide_False. Qed.
End logs.
End LeadershipLogs.
