(* ===== verification/Leadership.v ===== *)
(** * The leadership task

    Models [jormungandr/src/leadership/process.rs]: the task that waits for the
    slots the node leads, builds a block on top of the tip with the fragments
    of the memory pool, and hands it to the block task.  One [step] is an
    action followed by a wait.  Every reading of the system time takes the
    next value of the clock; an instant is kept as the duration until it.

    What the task relies on is the class [SelectsFragments], the promise of
    the memory pool, which the models of [Mempool.v] fulfil; what it promises
    to the block task is [leadership_block_ok] of [ChainInv.v]. *)

From S2P Require Import Prelude BlockDate Lru Deque Fragment FragmentLogs Selection Mempool Storage Chain ChainInv Enclave.

(** Time frames, eras and the ledger under construction. *)
Class LeadershipOps `{LeaderOps} `{!LedgerOps} := {
  (** [time_frame.slot_at(now)] *)
  time_frame_slot_at : TimeFrame → Z → option ChainSlot;
  (** [era.from_slot_to_era(slot)]: an epoch and a slot offset *)
  era_from_slot : Leadership → ChainSlot → option BlockDate;
  (** [era.slots_per_epoch()] *)
  era_slots_per_epoch : Leadership → Z;
  chain_length_increase : Z → Z;
  begin_block : Ledger → Z → BlockDate → result LedgerErr ApplyBlockLedger;
  (** [ledger.finish(&header.get_consensus_eval_context())] *)
  ledger_finish : ApplyBlockLedger → Header → Ledger;
}.

(** The total size of the contents of a block. *)
Definition contents_size `{FragmentOps} (fs : list Fragment) : Z :=
  foldr (λ f n, (serialized_size f + n)%Z) 0%Z fs.

(** The fields of [h] are those given to the builder. *)
Definition built_header `{ChainTypes} (p : HeaderHash) (n : Z) (d : BlockDate) (h : Header) : Prop :=
  block_parent_hash h = p ∧ chain_length h = n ∧ header_block_date h = d.

(** What the chain library says of its builders: a builder that was given a
    parent and a date, for the version it was made for, succeeds, and the
    header has these fields; and applying a block is to begin it, to apply its
    fragments in order and to finish it, as long as the size of the contents
    is allowed. *)
Class LeadershipLaws `{LeadershipOps} `{!FragmentOps} : Prop := {
  unsigned_header p n d c :
    (0 ≤ n < U32)%Z →
    ∃ h, into_unsigned_header (set_date d (set_parent p n (header_builder VersionGenesis c))) = Some h ∧
      built_header p n d h;
  bft_header p n d c :
    (0 ≤ n < U32)%Z →
    ∃ b, into_bft_builder (set_date d (set_parent p n (header_builder Ed25519Signed c))) = Some b ∧
      ∀ id sig, built_header p n d (bft_set_signature sig (bft_set_consensus_data id b));
  praos_header p n d c :
    (0 ≤ n < U32)%Z →
    ∃ b, into_genesis_praos_builder (set_date d (set_parent p n (header_builder KesVrfproof c))) = Some b ∧
      ∀ id w sig, built_header p n d (praos_set_signature sig (praos_set_consensus_data id w b));
  make_block_header h c : block_header (make_block h c) = h;
  make_block_fragments h c : block_fragments (make_block h c) = c;
  chain_length_increase_succ n : (0 ≤ n < U32 - 1)%Z → chain_length_increase n = (n + 1)%Z;
  apply_block_phases l fs h abl abl' :
    begin_block l (chain_length h) (header_block_date h) = Ok abl →
    Selection.apply_all abl fs = Some abl' →
    (contents_size fs ≤ block_content_max_size abl)%Z →
    ledger_apply_block l fs h = Ok (ledger_finish abl' h);
}.

Module Leadership.
Import Reference Blockchain Enclave LeadershipLogs.

Section leadership.
Context `{LeadershipOps} `{!MultiverseOps} `{!LruCache BlockDate LeadershipLog}.
Context {IntercomError : Type}.

Inductive Error :=
| TooEarlyForTimeFrame (time : Z)
| CannotScheduleWithEnclave (source : EnclaveError)
| FragmentSelectionFailed (e : IntercomError)
| CannotConnectToFragmentPool
| CannotSendLeadershipBlock
| CannotUpdateLogs
| LedgerFailed (e : LedgerErr).

(** [Module]; the message box of the block task is the list of what was sent. *)
Record State := mkState {
  schedule : option Schedule;
  logs : Logs;
  tip_ref : Ref;
  enclave : option Leader;
  block_messages : list LeadershipBlock;
  report_all : bool;
  block_hard_deadline : Z;
  clock : Clock;
}.

Definition set_schedule (sc : option Schedule) (s : State) : State :=
  mkState sc (logs s) (tip_ref s) (enclave s) (block_messages s) (report_all s)
    (block_hard_deadline s) (clock s).
Definition set_logs (l : Logs) (s : State) : State :=
  mkState (schedule s) l (tip_ref s) (enclave s) (block_messages s) (report_all s)
    (block_hard_deadline s) (clock s).
Definition set_tip_ref (r : Ref) (s : State) : State :=
  mkState (schedule s) (logs s) r (enclave s) (block_messages s) (report_all s)
    (block_hard_deadline s) (clock s).
Definition set_messages (m : list LeadershipBlock) (s : State) : State :=
  mkState (schedule s) (logs s) (tip_ref s) (enclave s) m (report_all s)
    (block_hard_deadline s) (clock s).
Definition set_clock (c : Clock) (s : State) : State :=
  mkState (schedule s) (logs s) (tip_ref s) (enclave s) (block_messages s) (report_all s)
    (block_hard_deadline s) c.

(** The answer of the memory pool to a request for fragments. *)
Inductive PoolAnswer :=
| PoolClosed
| PoolError (e : IntercomError)
| PoolSelected (contents : list Fragment) (ledger : ApplyBlockLedger).

(** When the deadlines fire while the block is being built, and whether the
    receiver of the signal still exists then. *)
Inductive Race :=
| DoneInTime
| PastSoftDeadline (soft_rx_alive : bool)
| PastHardDeadline (soft_rx_alive hard_rx_alive : bool).

(** What the rest of the node contributes to one step. *)
Record Env := mkEnv {
  ask_pool : ApplyBlockLedger → PoolAnswer;
  can_send_block : LeadershipBlock → bool;
  deadlines : Race;
  next_tip : Ref;
}.

Definition L := prog State Error.

Definition module_new (tip : Ref) (l : Logs) (leader : option Leader) (all : bool) (hard : Z)
    (c : Clock) : State :=
  mkState None l tip leader [] all hard c.

(** [SystemTime::now()] *)
Definition now : L Z := λ s, Some (set_clock (tick 1 (clock s)) s, Ok (clock s 0)).

Definition update_logs (f : Logs → Logs) : L unit := modify_state (λ s, set_logs (f (logs s)) s).

(** ** Slots and times *)
Definition current_slot : L ChainSlot :=
  tip ← gets tip_ref;
  t ← now;
  match time_frame_slot_at (ref_time_frame tip) t with
  | Some slot => mret slot
  | None => throw (TooEarlyForTimeFrame t)
  end.

Definition current_slot_position : L BlockDate :=
  tip ← gets tip_ref;
  slot ← current_slot;
  expect (era_from_slot (epoch_leadership_schedule tip) slot).

Definition slot_time_of (tip : Ref) (e slot : Z) : option Z :=
  slot_to_systemtime (ref_time_frame tip)
    (from_era_to_slot (epoch_leadership_schedule tip) (mkBlockDate e slot)).

Definition slot_time (e slot : Z) : L Z :=
  tip ← gets tip_ref; expect (slot_time_of tip e slot).

(** [duration_since]: [None] when the second time is after the first. *)
Definition duration_since (time earlier : Z) : option Z :=
  if (earlier <=? time)%Z then Some (time - earlier)%Z else None.

Definition epoch_time (e : Z) : L Z := slot_time e 0.

Definition epoch_instant (e : Z) : L Z :=
  t ← epoch_time e; n ← now; expect (duration_since t n).

Definition event_slot_time (event : LeaderEvent) : L Z :=
  slot_time (epoch (ev_date event)) (slot_id (ev_date event)).

Definition event_nth_future_slot_time (event : LeaderEvent) (n : Z) : L Z :=
  tip ← gets tip_ref;
  let e := epoch (ev_date event) in
  let slot := u32_add (slot_id (ev_date event)) n in
  if (era_slots_per_epoch (epoch_leadership_schedule tip) <=? slot)%Z
  then slot_time (u32_add e n) 0
  else slot_time e slot.

Definition event_following_slot_time (event : LeaderEvent) : L Z :=
  event_nth_future_slot_time event 1.

Definition slot_instant (e slot : Z) : L (option Z) :=
  t ← slot_time e slot; n ← now; mret (duration_since t n).

Definition too_late (now event_end : Z) : bool := (event_end <=? now)%Z.

(** ** Waiting *)
Definition wait_peek_deadline : L Z :=
  sc ← gets schedule;
  sc ← expect sc;
  let '(sc, next) := peek sc in
  _ ← modify_state (set_schedule (Some sc));
  match next with
  | None => epoch_instant (u32_add (schedule_epoch sc) 1)
  | Some event =>
      instant ← slot_instant (epoch (ev_date event)) (slot_id (ev_date event));
      match instant with Some d => mret d | None => mret 0%Z end
  end.

(** The tip may have changed while the task slept. *)
Definition wait (env : Env) : L unit :=
  _ ← wait_peek_deadline;
  modify_state (set_tip_ref (next_tip env)).

(** ** Building a block *)
Definition prepare_block (env : Env) (l : ApplyBlockLedger)
    : result Error (list Fragment * ApplyBlockLedger) :=
  match ask_pool env l with
  | PoolClosed => Err CannotConnectToFragmentPool
  | PoolError e => Err (FragmentSelectionFailed e)
  | PoolSelected contents ledger => Ok (contents, ledger)
  end.

(** The signature of the block, for the three kinds of leaders; [None] is the
    panic on an invalid header builder. *)
Definition sign_block (leader : option Leader) (event : LeaderEvent) (parent_id : HeaderHash)
    (chain_length : Z) (contents : list Fragment) : option (result EnclaveError Block) :=
  let builder ver := set_date (ev_date event) (set_parent parent_id chain_length (header_builder ver contents)) in
  match ev_output event with
  | NotLeader =>
      h ← into_unsigned_header (builder VersionGenesis);
      Some (Ok (make_block h contents))
  | Bft leader_id =>
      b ← into_bft_builder (builder Ed25519Signed);
      Some (let? h := query_header_bft_finalize leader (bft_set_consensus_data leader_id b) in
            Ok (make_block h contents))
  | GenesisPraos node_id witness =>
      b ← into_genesis_praos_builder (builder KesVrfproof);
      Some (let? h := query_header_genesis_praos_finalize leader
                        (praos_set_consensus_data node_id witness b) in
            Ok (make_block h contents))
  end.

Definition behind_schedule_reason : string :=
  "Not computing this schedule because of invalid state against the network blockchain".
Definition cannot_sign_reason (e : EnclaveError) : string :=
  "Cannot sign the block: " +:+ match e with EmptyEnclave => "Enclave does not have a leader set" end.
Definition missed_reason : string := "Missed the deadline to compute the schedule".

Definition send_block (env : Env) (lb : LeadershipBlock) : L unit :=
  if can_send_block env lb then modify_state (λ s, set_messages (block_messages s ++ [lb]) s)
  else throw CannotSendLeadershipBlock.

Definition action_run_entry_build_block (env : Env) (event : LeaderEvent) (log : BlockDate) : L unit :=
  tip ← gets tip_ref;
  if date_ltb (ref_date tip) (ev_date event) then
    let parent_id := ref_hash tip in
    let length := chain_length_increase (ref_length tip) in
    all ← gets report_all;
    leadership ← expect (new_epoch_leadership_from (epoch (ev_date event)) tip all);
    ledger ← lift (map_err LedgerFailed (begin_block (el_state leadership) length (ev_date event)));
    '(contents, ledger) ← lift (prepare_block env ledger);
    leader ← gets enclave;
    signing ← expect (sign_block leader event parent_id length contents);
    match signing with
    | Ok block =>
        let header := block_header block in
        _ ← send_block env (mkLeadershipBlock block (ledger_finish ledger header) leadership);
        update_logs (set_status log
          (LogBlock (header_hash header) (block_parent_hash header) (chain_length header)))
    | Err e => update_logs (set_status log (LogRejected (cannot_sign_reason e)))
    end
  else update_logs (set_status log (LogRejected behind_schedule_reason)).

(** The signals of the deadlines are sent with [unwrap]: it panics when the
    receiver was dropped. *)
Definition signals_received (r : Race) : option unit :=
  match r with
  | DoneInTime => Some tt
  | PastSoftDeadline soft => if soft then Some tt else None
  | PastHardDeadline soft hard => if soft && hard then Some tt else None
  end.

Definition action_run_entry_in_bound (env : Env) (event : LeaderEvent) (log : BlockDate)
    (event_end event_end_hard : Z) : L unit :=
  n ← now;
  _ ← expect (duration_since event_end n);
  _ ← expect (duration_since event_end_hard n);
  _ ← expect (signals_received (deadlines env));
  action_run_entry_build_block env event log.

(** The clock is read at the start, then for the right time (the task sleeps
    until then if it woke early), then again when the block is built. *)
Definition action_run_entry (env : Env) (event : LeaderEvent) (log : BlockDate) : L unit :=
  n ← now;
  _ ← event_slot_time event;
  event_end ← event_following_slot_time event;
  hard ← gets block_hard_deadline;
  event_end_hard ← event_nth_future_slot_time event hard;
  if too_late n event_end then update_logs (set_status log (LogRejected missed_reason))
  else
    _ ← slot_instant (epoch (ev_date event)) (slot_id (ev_date event));
    action_run_entry_in_bound env event log event_end event_end_hard.

Definition action_entry (env : Env) (event : LeaderEvent) : L unit :=
  scheduled_at_time ← slot_time (epoch (ev_date event)) (slot_id (ev_date event));
  created ← now;
  let log := leadership_log_new created (ev_date event) scheduled_at_time in
  let id := leadership_log_id log in
  _ ← update_logs (λ ls, (logs_insert log ls).1);
  woken ← now;
  _ ← update_logs (mark_wake woken id);
  _ ← action_run_entry env event id;
  finished ← now;
  update_logs (mark_finished finished id).

(** ** Scheduling *)
Definition action_run_schedule (leadership : Leadership) (slot_start nb_slots : Z) : L unit :=
  leader ← gets enclave;
  sc ← lift (map_err CannotScheduleWithEnclave (query_schedules leader leadership slot_start nb_slots));
  modify_state (set_schedule (Some sc)).

Definition action_schedule : L unit :=
  pos ← attempt current_slot_position;
  position ← expect (match pos with Ok p => Some p | Err _ => None end);
  tip ← gets tip_ref;
  let slot_start := u32_add (slot_id position) 1 in
  match (epoch (ref_date tip) ?= epoch position)%Z with
  | Lt =>
      el ← expect (new_epoch_leadership_from (epoch position) tip false);
      let leadership := el_leadership el in
      action_run_schedule leadership slot_start (wrap32 (era_slots_per_epoch leadership - slot_start))
  | Eq =>
      let leadership := epoch_leadership_schedule tip in
      action_run_schedule leadership slot_start (wrap32 (era_slots_per_epoch leadership - slot_start))
  | Gt => mret tt
  end.

Definition action (env : Env) : L unit :=
  sc ← gets schedule;
  match sc with
  | Some sc =>
      let '(sc, next) := next_event sc in
      _ ← modify_state (set_schedule (Some sc));
      match next with
      | Some event => action_entry env event
      | None => action_schedule
      end
  | None => action_schedule
  end.

Definition step (env : Env) : L unit := _ ← action env; wait env.

(** ** What building a block does *)

(** [lb] is the block made for an event on top of the tip. *)
Definition made_block (env : Env) (event : LeaderEvent) (s : State) (lb : LeadershipBlock) : Prop :=
  let tip := tip_ref s in
  let length := chain_length_increase (ref_length tip) in
  ∃ abl contents abl',
    date_ltb (ref_date tip) (ev_date event) = true ∧
    new_epoch_leadership_from (epoch (ev_date event)) tip (report_all s) = Some (lb_leadership lb) ∧
    begin_block (el_state (lb_leadership lb)) length (ev_date event) = Ok abl ∧
    ask_pool env abl = PoolSelected contents abl' ∧
    sign_block (enclave s) event (ref_hash tip) length contents = Some (Ok (lb_block lb)) ∧
    lb_new_ledger lb = ledger_finish abl' (block_header (lb_block lb)).

Definition block_status (lb : LeadershipBlock) : LeadershipLogStatus :=
  let header := block_header (lb_block lb) in
  LogBlock (header_hash header) (block_parent_hash header) (chain_length header).

(** The three ways an event can end: rejected, an error, or a block. *)
Definition entry_outcome (env : Env) (event : LeaderEvent) (log : BlockDate) (s s' : State)
    (r : result Error unit) : Prop :=
  (∃ reason, r = Ok tt ∧ s' = set_logs (set_status log (LogRejected reason) (logs s)) s) ∨
  (∃ e, r = Err e ∧ s' = s) ∨
  (∃ lb, r = Ok tt ∧ made_block env event s lb ∧
     s' = set_logs (set_status log (block_status lb) (logs s)) (set_messages (block_messages s ++ [lb]) s)).

Lemma build_block_run env event log s s' r :
  action_run_entry_build_block env event log s = Some (s', r) → entry_outcome env event log s s' r.
Proof.
  unfold action_run_entry_build_block, mbind, prog_bind. simpl.
  destruct (date_ltb _ _) eqn:Hd; simpl.
  2:{ intros [= <- <-]. left. by eexists. }
  unfold expect. destruct (new_epoch_leadership_from _ _ _) as [el|] eqn:Hel; [|done].
  unfold lift. destruct (begin_block _ _ _) as [abl|e] eqn:Hb; simpl.
  2:{ intros [= <- <-]. right. left. by eexists. }
  unfold prepare_block. destruct (ask_pool env abl) as [|e|c abl'] eqn:Hp; simpl.
  1,2: intros [= <- <-]; right; left; by eexists.
  destruct (sign_block _ _ _ _ _) as [[b|e]|] eqn:Hs; [| |done].
  2:{ intros [= <- <-]. left. by eexists. }
  unfold send_block. destruct (can_send_block _ _); simpl.
  2:{ intros [= <- <-]. right. left. by eexists. }
  intros [= <- <-]. right. right. exists (mkLeadershipBlock b (ledger_finish abl' (block_header b)) el).
  split_and!; [done| |done]. exists abl, c, abl'. done.
Qed.

Lemma slot_time_run e slot s :
  slot_time e slot s =
  match slot_time_of (tip_ref s) e slot with Some t => Some (s, Ok t) | None => None end.
Proof. done. Qed.

(** The end of the [n]-th slot after an event, for the tip [tip]. *)
Definition nth_slot_time (tip : Ref) (event : LeaderEvent) (n : Z) : option Z :=
  let slot := u32_add (slot_id (ev_date event)) n in
  if (era_slots_per_epoch (epoch_leadership_schedule tip) <=? slot)%Z
  then slot_time_of tip (u32_add (epoch (ev_date event)) n) 0
  else slot_time_of tip (epoch (ev_date event)) slot.

Lemma event_nth_run event n s :
  event_nth_future_slot_time event n s =
  match nth_slot_time (tip_ref s) event n with Some t => Some (s, Ok t) | None => None end.
Proof.
  unfold event_nth_future_slot_time, nth_slot_time, mbind, prog_bind. simpl. by case_match.
Qed.

Lemma action_run_entry_run env event log s s' r :
  action_run_entry env event log s = Some (s', r) →
  ∃ c, entry_outcome env event log (set_clock c s) s' r.
Proof.
  unfold action_run_entry, event_slot_time, event_following_slot_time, slot_instant,
    action_run_entry_in_bound, mbind, prog_bind.
  simpl. rewrite slot_time_run. destruct (slot_time_of _ _ _) as [t0|] eqn:Ht0; [|done].
  rewrite event_nth_run. destruct (nth_slot_time _ _ 1) as [t1|]; [|done]. simpl.
  rewrite event_nth_run. destruct (nth_slot_time _ _ _) as [t2|]; [|done]. simpl.
  destruct (too_late _ _). { intros [= <- <-]. eexists. left. by eexists. }
  rewrite slot_time_run, Ht0. simpl. unfold expect.
  destruct (duration_since t1 _); [|done]. destruct (duration_since t2 _); [|done].
  destruct (signals_received _); [|done]. intros Hb%build_block_run. by eexists.
Qed.

Context `{!LruLaws BlockDate LeadershipLog}.

(** Every leader event is accounted for.  When the handling of an event
    succeeds, its log (if the logs can hold one at all) has the times of waking
    and finishing and says truthfully what happened: either that the event was
    rejected, and then nothing was sent, or the hash, parent and chain length
    of the one block that was handed to the block task.  That block is built on
    the tip, with its ledger at the beginning of the event's epoch, only if the
    event is later than the tip. *)
Theorem action_entry_correct env event s s' :
  0 < lru_cap (logs s) →
  action_entry env event s = Some (s', Ok tt) →
  schedule s' = schedule s ∧ tip_ref s' = tip_ref s ∧
  ∃ log, log_of (ev_date event) (logs s') = Some log ∧
    is_Some (wake_at_time log) ∧ is_Some (finished_at_time log) ∧
    ((∃ reason, log_status log = LogRejected reason ∧ block_messages s' = block_messages s) ∨
     (∃ lb, log_status log = block_status lb ∧ block_messages s' = block_messages s ++ [lb] ∧
        made_block env event s lb)).
Proof.
  intros Hcap. unfold action_entry, mbind, prog_bind. rewrite slot_time_run.
  destruct (slot_time_of _ _ _) as [t|]; [|done]. simpl.
  set (log0 := leadership_log_new _ _ _). set (s1 := set_logs _ _).
  assert (log_of (ev_date event) (logs s1)
    = Some (log_mark_wake (clock s 1) log0)) as Hlog.
  { unfold s1. simpl. unfold mark_wake. rewrite log_of_update.
    pose proof (log_of_insert log0 (logs s) Hcap) as Hi. simpl in Hi. by rewrite Hi. }
  assert (∃ ls c, s1 = set_logs ls (set_clock c s)) as (ls & c1 & Hs1) by by do 2 eexists.
  clearbody s1. destruct (action_run_entry _ _ _ s1) as [[s2 r]|] eqn:Hrun; [|done].
  apply action_run_entry_run in Hrun as (c & Hout). unfold entry_outcome in Hout.
  destruct Hout as [(reason & -> & ->)|[(e & -> & ->)|(lb & -> & Hmade & ->)]]; [|done|];
    intros [= <-]; (split; [by rewrite Hs1|]); (split; [by rewrite Hs1|]);
    (eexists; split_and!;
      [simpl; unfold mark_finished; rewrite log_of_update; unfold set_status;
       rewrite log_of_update, Hlog; reflexivity|by eexists|by eexists|]); rewrite Hs1 in *.
  - left. by eexists.
  - right. by exists lb.
Qed.

(** ** The blocks sent to the block task *)
Section sound.
Context `{!FragmentOps} `{!LeadershipLaws} `{!ChainTypesLaws}.
Variable B0 : Block.
Variable all : bool.
Variable trusted : Header → Prop.

(** The promise of the memory pool: the ledger it answers with is the given one
    after the selected fragments, which fit into a block. *)
Class SelectsFragments (ask : ApplyBlockLedger → PoolAnswer) : Prop :=
  selected_sound l c l' : ask l = PoolSelected c l' →
    Selection.apply_all l c = Some l' ∧ (contents_size c ≤ block_content_max_size l)%Z.

Lemma sign_block_fields leader event p n c b :
  (0 ≤ n < U32)%Z → sign_block leader event p n c = Some (Ok b) →
  built_header p n (ev_date event) (block_header b) ∧ block_fragments b = c.
Proof.
  intros Hn.
  unfold sign_block, query_header_bft_finalize, query_header_genesis_praos_finalize.
  destruct (ev_output event) as [|id|id w].
  - destruct (unsigned_header p n (ev_date event) c Hn) as (h & -> & Hh). simpl. intros [= <-].
    by rewrite make_block_header, make_block_fragments.
  - destruct (bft_header p n (ev_date event) c Hn) as (h & -> & Hh). simpl.
    unfold create_header_bft. destruct leader as [l|]; [|done]. simpl.
    destruct (bft_leader l); [|done]. intros [= <-]. by rewrite make_block_header, make_block_fragments.
  - destruct (praos_header p n (ev_date event) c Hn) as (h & -> & Hh). simpl.
    unfold create_header_genesis_praos. destruct leader as [l|]; [|done]. simpl.
    destruct (genesis_leader l); [|done]. intros [= <-]. by rewrite make_block_header, make_block_fragments.
Qed.

Definition tip_ok (r : Ref) : Prop :=
  ChainInv.valid_ref B0 all trusted r ∧ (ref_length r < U32 - 1)%Z.

Lemma made_block_ok env event s lb :
  SelectsFragments (ask_pool env) → tip_ok (tip_ref s) → report_all s = all →
  made_block env event s lb → trusted (block_header (lb_block lb)) →
  ChainInv.leadership_block_ok B0 all trusted lb.
Proof.
  intros Hsel [Hv Hlen] Hall (abl & c & abl' & Hd & Hel & Hb & Hp & Hs & Hl) Ht.
  pose proof (chain_length_u32 (ref_header (tip_ref s))) as Hu. unfold ref_length in Hlen.
  apply sign_block_fields in Hs as [(Hpar & Hn & Hdate) Hc];
    [|unfold ref_length; rewrite chain_length_increase_succ; lia].
  apply Hsel in Hp as [Happ Hsize].
  exists (tip_ref s). split.
  - split_and!; simpl; [done|done| | |by right].
    + apply (ChainInv.pre_verify_link_ok trusted). rewrite Hdate, Hn. split; [done|].
      unfold ref_length in *. rewrite chain_length_increase_succ, chain_length_next_succ by lia. done.
    + by rewrite Hdate, <- Hall.
  - unfold apply_block_dry_run. simpl. rewrite Hc.
    rewrite (apply_block_phases _ _ _ abl abl'); [by rewrite Hl|by rewrite Hn, Hdate|done|done].
Qed.

(** The invariant of the task. *)
Definition module_ok (s : State) : Prop :=
  tip_ok (tip_ref s) ∧ report_all s = all ∧
  Forall (λ lb, trusted (block_header (lb_block lb)) → ChainInv.leadership_block_ok B0 all trusted lb)
    (block_messages s).

Definition env_ok (env : Env) : Prop := SelectsFragments (ask_pool env) ∧ tip_ok (next_tip env).

Lemma module_ok_now : preserves module_ok now.
Proof. by intros s. Qed.
Lemma module_ok_logs f : preserves module_ok (update_logs f).
Proof. by intros s. Qed.
Lemma module_ok_schedule sc : preserves module_ok (modify_state (set_schedule sc) : L unit).
Proof. by intros s. Qed.
Lemma module_ok_slot_time e slot : preserves module_ok (slot_time e slot).
Proof. intros s Hs. rewrite slot_time_run. by destruct (slot_time_of _ _ _). Qed.

Lemma module_ok_run_entry env event log :
  env_ok env → preserves module_ok (action_run_entry env event log).
Proof.
  intros [Hsel _] s (Htip & Hall & Hblocks).
  destruct (action_run_entry env event log s) as [[s' r]|] eqn:Hrun; [|done].
  apply action_run_entry_run in Hrun as (c & [(x & -> & ->)|[(e & -> & ->)|(lb & -> & Hm & ->)]]); [done|done|].
  split_and!; [done|done|]. simpl. apply Forall_app. split; [done|]. constructor; [|done]. intros Ht.
  by eapply made_block_ok.
Qed.

#[local] Hint Resolve module_ok_now module_ok_logs module_ok_schedule module_ok_slot_time
  module_ok_run_entry : prog.

Lemma module_ok_action_entry env event : env_ok env → preserves module_ok (action_entry env event).
Proof. intros Henv. unfold action_entry. auto 20 with prog. Qed.

Lemma module_ok_action_schedule : preserves module_ok action_schedule.
Proof.
  unfold action_schedule. apply preserves_bind.
  - apply preserves_attempt. unfold current_slot_position, current_slot.
    apply preserves_bind; [auto with prog|]. intros tip.
    apply preserves_bind; [|auto with prog]. apply preserves_bind; [auto with prog|]. intros tip'.
    apply preserves_bind; [auto with prog|]. intros t. case_match; auto with prog.
  - intros pos. apply preserves_bind; [auto with prog|]. intros position.
    apply preserves_bind; [auto with prog|]. intros tip.
    assert (∀ l a b, preserves module_ok (action_run_schedule l a b)) as Hsch
      by (intros; unfold action_run_schedule; auto with prog).
    case_match; auto with prog.
Qed.

Lemma module_ok_wait env : env_ok env → preserves module_ok (wait env).
Proof.
  intros [_ Htip]. unfold wait. apply preserves_bind.
  - unfold wait_peek_deadline. apply preserves_bind; [auto with prog|]. intros sc.
    apply preserves_bind; [auto with prog|]. intros sc'. destruct (peek sc') as [sc'' next].
    apply preserves_bind; [auto with prog|]. intros _. destruct next; [|unfold epoch_instant, epoch_time; auto with prog].
    apply preserves_bind; [unfold slot_instant; auto with prog|]. intros []; auto with prog.
  - intros _ s (_ & ? & ?). by split_and!.
Qed.

Lemma module_ok_step env : env_ok env → preserves module_ok (step env).
Proof.
  intros Henv. unfold step, action. apply preserves_bind; [|intros _; by apply module_ok_wait].
  apply preserves_bind; [auto with prog|]. intros [sc|]; [|apply module_ok_action_schedule].
  destruct (next_event sc) as [sc' [event|]]; (apply preserves_bind; [auto with prog|]); intros _.
  - by apply module_ok_action_entry.
  - apply module_ok_action_schedule.
Qed.

(** The task over time; the tip is what the rest of the node makes it. *)
Inductive leadership_run (s0 : State) : State → Prop :=
| run_start : leadership_run s0 s0
| run_step s env s' r : leadership_run s0 s → env_ok env → step env s = Some (s', r) → leadership_run s0 s'.

End sound.

(** ** The memory pool keeps its promise *)
Section pool.
Context `{!FragmentOps} `{!LruCache FragmentId (FragmentLog * option BlockDate)} `{!TipOps}.
Context `{!LruLaws FragmentId Logs.entry}.

(** The fragment task, asked for fragments. *)
Definition ask_mempool (env : Mempool.Env) (pool : Mempool.Pool) (l : ApplyBlockLedger) : PoolAnswer :=
  match Mempool.handle_msg env (Mempool.SelectTransactions l) pool with
  | Some (Ok (_, Mempool.Selected contents ledger)) => PoolSelected contents ledger
  | _ => PoolClosed
  end.

Lemma contents_size_sizes (l : list (FragmentId * Fragment)) : contents_size l.*2 = InternalPool.sizes l.
Proof.
  unfold contents_size, InternalPool.sizes. induction l as [|[id f] l IH]; [done|].
  rewrite fmap_cons. cbn [foldr]. by rewrite IH.
Qed.

#[export] Instance mempool_selects env pool entries :
  Mempool.mempool_inv pool entries → SelectsFragments (ask_mempool env pool).
Proof.
  intros [Hp Hl _] l c l'. unfold ask_mempool, Mempool.handle_msg, Mempool.select.
  rewrite (Mempool.pool_len_inv _ _ Hp), Nat2Z.id.
  destruct (Selection.select_spec (S (length entries)) (λ i, tick (3 * i) (Mempool.env_clock env))
    (Mempool.env_timings env) l (Mempool.logs pool) (Mempool.pool pool) entries Hp Hl)
    as (ls' & p' & r & os & kept & Hsel & _ & _ & _ & Hc & Happ & Hsize & _); [lia|].
  rewrite Hsel. simpl. intros [= <- <-]. split; [done|]. rewrite Hc, contents_size_sizes. done.
Qed.
End pool.

(** ** Panics *)

(** Without a schedule, a tip of a later epoch than the current time stops the
    task: no schedule is made, and the wait expects one. *)
Theorem future_tip_panics env s slot position :
  schedule s = None →
  time_frame_slot_at (ref_time_frame (tip_ref s)) (clock s 0) = Some slot →
  era_from_slot (epoch_leadership_schedule (tip_ref s)) slot = Some position →
  (epoch position < epoch (ref_date (tip_ref s)))%Z →
  step env s = None.
Proof.
  intros Hs Hslot Hpos Hlt.
  assert (action env s = Some (set_clock (tick 1 (clock s)) s, Ok tt)) as Ha.
  { unfold action, mbind, prog_bind. simpl. rewrite Hs.
    unfold action_schedule, current_slot_position, current_slot, attempt, mbind, prog_bind. simpl.
    rewrite Hslot. simpl. rewrite Hpos. simpl.
    destruct (Z.compare_spec (epoch (ref_date (tip_ref s))) (epoch position)); [lia|lia|done]. }
  unfold step, mbind, prog_bind. rewrite Ha.
  unfold wait, wait_peek_deadline, mbind, prog_bind. simpl. by rewrite Hs.
Qed.

(** An event that was in time when it was looked at, and whose slot ended
    before its block was begun, stops the task. *)
Theorem late_event_panics env event log s t0 t1 t2 :
  slot_time_of (tip_ref s) (epoch (ev_date event)) (slot_id (ev_date event)) = Some t0 →
  nth_slot_time (tip_ref s) event 1 = Some t1 →
  nth_slot_time (tip_ref s) event (block_hard_deadline s) = Some t2 →
  (clock s 0%nat < t1)%Z → (t1 < clock s 2%nat)%Z →
  action_run_entry env event log s = None.
Proof.
  intros H0t H1t H2t Hin Hout.
  unfold action_run_entry, event_slot_time, event_following_slot_time, slot_instant,
    action_run_entry_in_bound, mbind, prog_bind. simpl.
  rewrite slot_time_run. simpl. rewrite H0t. rewrite event_nth_run. simpl. rewrite H1t. simpl.
  rewrite event_nth_run. simpl. rewrite H2t. unfold too_late. simpl.
  destruct (Z.leb_spec t1 (clock s 0)); [lia|]. rewrite slot_time_run. simpl. rewrite H0t. simpl.
  unfold duration_since, tick. simpl. destruct (Z.leb_spec (clock s 2) t1); [lia|]. done.
Qed.

(** The deadlines of an event, for slots of [d] nanoseconds and epochs of
    [spe] slots.  The end of the event's slot is right, also at the end of an
    epoch.  The hard deadline is meant to be [n] slots after the start of the
    event; when that is in the next epoch it is instead [n] epochs later. *)
Theorem event_deadlines tip event t0 d spe n :
  let e := epoch (ev_date event) in
  let slot := slot_id (ev_date event) in
  era_slots_per_epoch (epoch_leadership_schedule tip) = spe →
  (∀ e slot, slot_time_of tip e slot = Some (t0 + d * (spe * e + slot))%Z) →
  (0 ≤ slot < spe)%Z → (0 ≤ e)%Z → (0 < n)%Z → (slot + n < U32)%Z → (e + n < U32)%Z →
  nth_slot_time tip event 1 = Some (t0 + d * (spe * e + slot + 1))%Z ∧
  nth_slot_time tip event n =
    Some (if (slot + n <? spe)%Z then t0 + d * (spe * e + slot + n)
          else t0 + d * (spe * (e + n)))%Z.
Proof.
  intros e slot Hspe Htime Hslot He Hn Hw1 Hw2. unfold nth_slot_time. rewrite Hspe, !Htime.
  fold e slot. unfold u32_add. rewrite !wrap32_small by lia. split.
  - destruct (Z.leb_spec spe (slot + 1)); do 3 f_equal; lia.
  - destruct (Z.leb_spec spe (slot + n)), (Z.ltb_spec (slot + n) spe); try lia; do 3 f_equal; lia.
Qed.
End leadership.
End Leadership.

(** ** An example node *)
Module SampleLeadership.
Import ListLru SampleFragments SampleStore SampleChain ChainWitness Blockchain Enclave LeadershipLogs Leadership.

#[export] Instance leader_types : LeaderTypes := {|
  Leader := unit; BftLeader := unit; GenesisLeader := unit;
  bft_leader _ := Some tt; genesis_leader _ := None;
  BftLeaderId := Z; PoolId := Z; Witness := Z |}.

(** A header under construction; its hash is derived from its chain length. *)
Definition sample_header_of (b : Z * Z * BlockDate) : Header :=
  mkHeader (b.1.2 + 100)%Z b.1.1 b.2 b.1.2.

(** The leader has every even slot. *)
#[export] Instance leader_ops : LeaderOps := {|
  date_at_slot e slot := mkBlockDate e slot;
  is_leader_for_date _ _ d := if Z.even (slot_id d) then Bft 7%Z else NotLeader;
  leadership_epoch e := e;
  HeaderBuilder := Z * Z * BlockDate;
  BftBuilder := Z * Z * BlockDate;
  PraosBuilder := Z * Z * BlockDate;
  AuthenticatedData := Z * Z * BlockDate;
  Signature := unit;
  header_builder _ _ := (0%Z, 0%Z, mkBlockDate 0 0);
  set_parent p n b := (p, n, b.2);
  set_date d b := (b.1, d);
  into_unsigned_header b := Some (sample_header_of b);
  into_bft_builder b := Some b;
  bft_set_consensus_data _ b := b;
  bft_authenticated_data b := b;
  bft_sign _ _ := tt;
  bft_set_signature _ b := sample_header_of b;
  into_genesis_praos_builder b := Some b;
  praos_set_consensus_data _ _ b := b;
  praos_authenticated_data b := b;
  praos_sign _ _ := tt;
  praos_set_signature _ b := sample_header_of b;
  make_block := mkBlock |}.

Lemma max_1000 : (0 ≤ 1000 < U32)%Z.
Proof. done. Qed.

(** The toy ledger under construction takes any fragment. *)
#[export] Instance block_ledger : LedgerOps := {|
  ApplyBlockLedger := toy_ledger;
  LedgerError := unit;
  block_content_max_size _ := 1000%Z;
  block_content_max_size_u32 _ := max_1000;
  ledger_block_date _ := mkBlockDate 0 12;
  apply_fragment l _ := Ok l;
  error_to_string _ := "";
  error_sources _ := [] |}.

Definition second : Z := 1000000000.

#[export] Instance leadership_ops : LeadershipOps := {|
  time_frame_slot_at tf t :=
    if (t <? tf.1 * second)%Z then None else Some ((t / second - tf.1) / tf.2)%Z;
  era_from_slot _ s := Some (mkBlockDate (s / 100) (s mod 100));
  era_slots_per_epoch _ := 100%Z;
  chain_length_increase n := (n + 1)%Z;
  begin_block l n _ := if decide (n = Z.of_nat (length (toy_blocks l))) then Ok l else Err tt;
  ledger_finish l h := mkToy (toy_block0 l) (header_hash h :: toy_blocks l) |}.

Lemma clamp32_small n : (0 ≤ n < U32)%Z → clamp32 n = n.
Proof.
  intros Hn. unfold clamp32. destruct (Z.leb_spec 0 n), (Z.ltb_spec n U32); done || lia.
Qed.

Lemma apply_all_toy (abl : toy_ledger) fs : Selection.apply_all abl fs = Some abl.
Proof. by induction fs. Qed.

#[export] Instance leadership_laws : LeadershipLaws.
Proof.
  assert (∀ p n d, (0 ≤ n < U32)%Z → built_header p n d (sample_header_of (p, n, d))) as Hb.
  { intros p n d Hn. split_and!; [done| |done]. by apply clamp32_small. }
  split.
  - intros p n d c Hn. eexists. split; [reflexivity|by apply Hb].
  - intros p n d c Hn. eexists. split; [reflexivity|]. intros. by apply Hb.
  - intros p n d c Hn. eexists. split; [reflexivity|]. intros. by apply Hb.
  - done.
  - done.
  - done.
  - intros l fs h abl abl'. cbn. case_decide as Hd; [|done]. intros [= <-].
    rewrite apply_all_toy. intros [= <-] _. done.
Qed.

Lemma schedule_enumerates_witness :
  run_ops [Peek; Next; Next; Next] (schedule_new (Some tt) 1%Z 96 3)
  = list_ops [Peek; Next; Next; Next] (events (Some tt) 1%Z 96 99).
Proof. by apply schedule_enumerates. Defined.

Example schedule_values :
  run_ops [Peek; Next; Next; Next] (schedule_new (Some tt) 1%Z 96 3)
  = [Some (mkEvent (mkBlockDate 1 96) (Bft 7%Z)); Some (mkEvent (mkBlockDate 1 96) (Bft 7%Z));
     Some (mkEvent (mkBlockDate 1 98) (Bft 7%Z)); None].
Proof. reflexivity. Qed.

#[local] Existing Instance SampleMempool.tip_ops.

(** The pool of the examples, behind the fragment task. *)
Definition node_pool : Mempool.Pool :=
  Mempool.mkMempool (Logs.logs_new 4) sample_pool [] None SampleMempool.metrics0.
Definition fragment_env : Mempool.Env :=
  Mempool.mkEnv SampleMempool.tip0 SampleMempool.clock7 SampleMempool.always (λ _, InTime).

Lemma node_pool_inv : Mempool.mempool_inv node_pool sample_entries.
Proof. split; [exact sample_pool_inv|apply Logs.logs_new_inv|reflexivity]. Qed.

Definition anyone : Header → Prop := λ _, True.

Definition env12 : Env (IntercomError := unit) :=
  mkEnv (ask_mempool fragment_env node_pool) (λ _, true) DoneInTime r12.

(** In slot 103, the slot of block 12, then in slot 104. *)
Definition times : Clock := λ i, if (i <? 2)%nat then (2035 * second)%Z else (2041 * second)%Z.
Definition node12 : State := module_new r12 (logs_new 4) (Some tt) false 10 times.

Definition next_state (s : State) : State :=
  match step env12 s with Some (s', _) => s' | None => s end.
Definition step_ok (s : State) : bool :=
  match step env12 s with Some (_, Ok _) => true | _ => false end.
Lemma step_run s : step_ok s = true → step env12 s = Some (next_state s, Ok tt).
Proof. unfold step_ok, next_state. by destruct (step env12 s) as [[s' [[]|]]|]. Qed.

(** After two steps: the schedule of the epoch, then block 13 in slot 104. *)
Definition node13 : State := next_state (next_state node12).

Lemma tip12_ok : tip_ok genesis false anyone r12.
Proof.
  split; [|reflexivity]. exists [r11; r10].
  by eapply ChainInv.valid_chain_trusted; [|exact chain12].
Qed.

Lemma env12_ok : env_ok genesis false anyone env12.
Proof. split; [exact (mempool_selects fragment_env node_pool sample_entries node_pool_inv)|exact tip12_ok]. Qed.


Definition event104 : LeaderEvent := mkEvent (mkBlockDate 1 4) (Bft 7%Z).
Definition entry_state : State := module_new r12 (logs_new 4) (Some tt) false 10 (λ _, 2041 * second)%Z.
Definition after_entry (s : State) : State :=
  match action_entry env12 event104 s with Some (s', _) => s' | None => s end.
Definition entry_ok (s : State) : bool :=
  match action_entry env12 event104 s with Some (_, Ok _) => true | _ => false end.
Lemma entry_run s : entry_ok s = true → action_entry env12 event104 s = Some (after_entry s, Ok tt).
Proof. unfold entry_ok, after_entry. by destruct (action_entry env12 event104 s) as [[s' [[]|]]|]. Qed.

Lemma action_entry_correct_witness :
  ∃ log, log_of (ev_date event104) (logs (after_entry entry_state)) = Some log ∧
    is_Some (finished_at_time log).
Proof.
  destruct (action_entry_correct env12 event104 entry_state (after_entry entry_state))
    as (_ & _ & log & Hlog & _ & Hfin & _).
  - apply Nat.lt_0_succ.
  - apply entry_run. reflexivity.
  - exists log. split; [exact Hlog|exact Hfin].
Defined.

Definition event198 : LeaderEvent := mkEvent (mkBlockDate 1 98) (Bft 7%Z).

(** An event two slots before the end of epoch 1, with a hard deadline of 10
    slots, may run until epoch 11. *)
Lemma event_deadlines_witness :
  nth_slot_time r12 event198 10
    = Some (1000 * second + 10 * second * (100 * (1 + 10)))%Z.
Proof.
  destruct (event_deadlines r12 event198 (1000 * second) (10 * second) 100 10)
    as [_ Hn].
  - reflexivity.
  - intros e slot. change (slot_time_of r12 e slot) with (Some ((1000 + 10 * (100 * e + slot)) * 1000000000)%Z).
    f_equal. unfold second. lia.
  - simpl. lia.
  - simpl. lia.
  - lia.
  - reflexivity.
  - reflexivity.
  - exact Hn.
Defined.

(** The fragments of block 13 are those of the pool. *)
Example block13_values :
  map (λ lb, (header_hash (block_header (lb_block lb)), block_parent_hash (block_header (lb_block lb)),
              length (block_fragments (lb_block lb)))) (block_messages node13) = [(103%Z, 12%Z, 3)].
Proof. reflexivity. Qed.
End SampleLeadership.
