(* ===== verification/Client.v ===== *)
(** * Serving the blockchain to peers

    Models [jormungandr/src/client.rs], the task that answers the requests of
    other nodes and of the REST interface for the tip, for blocks and for
    ranges of the chain, with the conversion of storage errors in
    [jormungandr/src/intercom.rs].  A reply stream is the list of the items
    sent into it; the receiver may hang up after some of them. *)

From S2P Require Import Prelude BlockDate Lru Deque Fragment FragmentLogs Storage Chain ChainInv.

Module Client.
Import Reference.
Section client.
Context `{BlockStore} `{!LedgerTypes} `{!MultiverseOps}.

(** [net_error::Code] *)
Inductive Code := Canceled | FailedPrecondition | InvalidArgument | NotFound | Internal.

Inductive Cause :=
| BlockNotKnown (id : HeaderHash)
| NoKnownBlock
| StorageCause (e : Storage.Error).

(** [intercom::Error] *)
Record Error := mkError { code : Code; cause : Cause }.

Definition not_found (c : Cause) : Error := mkError NotFound c.

(** [From<StorageError> for Error] *)
Definition from_storage (e : Storage.Error) : Error :=
  let code :=
    match e with
    | Storage.BlockNotFound => NotFound
    | Storage.CannotIterate => Internal
    | Storage.BackendErr _ => Internal
    | Storage.BlockAlreadyPresent => Internal
    | Storage.MissingParent => InvalidArgument
    | Storage.Deserialize _ => Internal
    end in
  mkError code (StorageCause e).

Inductive ReplySendError := ReplyNotSent.

(** What the other end of a [ReplyStreamHandle] gets. *)
Inductive StreamReply (T : Type) :=
| ReplyError (e : Error)
| Stream (items : list (result Error T)).
Arguments ReplyError {T} e.
Arguments Stream {T} items.

(** After how many items the receiver hangs up, if it does. *)
Definition Receiver : Type := option nat.

Definition listens (r : Receiver) : bool := match r with Some O => false | _ => true end.
Definition received (r : Receiver) : Receiver := match r with Some n => Some (pred n) | None => None end.

(** The loop of [fuse_send_items]: it stops after the first error. *)
Fixpoint fuse_loop {V} (r : Receiver) (items : list (result Error V))
    : list (result Error V) * result ReplySendError unit :=
  match items with
  | [] => ([], Ok tt)
  | item :: items =>
      if listens r then
        if is_ok item then
          let '(sent, res) := fuse_loop (received r) items in (item :: sent, res)
        else ([item], Ok tt)
      else ([], Err ReplyNotSent)
  end.

Definition fuse_send_items {V} (r : Receiver) (items : list (result Error V))
    : StreamReply V * result ReplySendError unit :=
  let '(sent, res) := fuse_loop r items in (Stream sent, res).

(** [send_all]: every item, errors included. *)
Fixpoint send_all {V} (r : Receiver) (items : list (result Error V))
    : list (result Error V) * result ReplySendError unit :=
  match items with
  | [] => ([], Ok tt)
  | item :: items =>
      if listens r then let '(sent, res) := send_all (received r) items in (item :: sent, res)
      else ([], Err ReplyNotSent)
  end.

(** [storage.send_branch_with] with its reply handle. *)
Definition send_branch_to {T} (r : Receiver) (to : HeaderHash) (depth : option Z) (f : Block → T)
    (s : store) : StreamReply T * result ReplySendError unit :=
  match Storage.send_branch_with to depth f s with
  | Err e => (ReplyError (from_storage e), Ok tt)
  | Ok items =>
      let '(sent, res) := send_all r (map_err from_storage <$> items) in (Stream sent, res)
  end.

(** ** The handlers *)
Definition get_block_tip (tip : Ref) : Header := ref_header tip.

Definition get_block_from_storage (s : store) (id : HeaderHash) : result Error Block :=
  match Storage.get id s with
  | Ok (Some block) => Ok block
  | Ok None => Err (not_found (BlockNotKnown id))
  | Err e => Err (from_storage e)
  end.

Definition send_range_from_storage {T} (r : Receiver) (from : list HeaderHash) (to : HeaderHash)
    (f : Block → T) (s : store) : StreamReply T * result ReplySendError unit :=
  let closest_ancestor :=
    let? maybe_ancestor := map_err from_storage (Storage.find_closest_ancestor from to s) in
    match maybe_ancestor with
    | Some ancestor => Ok (to, Storage.anc_distance ancestor)
    | None => Err (not_found NoKnownBlock)
    end in
  match closest_ancestor with
  | Ok (to, depth) => send_branch_to r to (Some depth) f s
  | Err e => (ReplyError e, Ok tt)
  end.

Definition handle_get_blocks (r : Receiver) (ids : list HeaderHash) (s : store) :=
  fuse_send_items r (get_block_from_storage s <$> ids).

Definition handle_get_headers (r : Receiver) (ids : list HeaderHash) (s : store) :=
  fuse_send_items r
    ((λ id, let? block := get_block_from_storage s id in Ok (block_header block)) <$> ids).

Definition handle_get_headers_range (r : Receiver) (from : list HeaderHash) (to : HeaderHash)
    (s : store) := send_range_from_storage r from to block_header s.

Definition handle_pull_blocks (r : Receiver) (from : list HeaderHash) (to : HeaderHash) (s : store) :=
  send_range_from_storage r from to id s.

Definition handle_pull_blocks_to_tip (r : Receiver) (tip : Ref) (from : list HeaderHash) (s : store) :=
  send_range_from_storage r from (header_hash (get_block_tip tip)) id s.

Inductive ClientMsg :=
| GetBlockTip
| GetHeaders (ids : list HeaderHash)
| PullHeaders (from : list HeaderHash) (to : HeaderHash)
| GetBlocks (ids : list HeaderHash)
| PullBlocks (from : list HeaderHash) (to : HeaderHash)
| PullBlocksToTip (from : list HeaderHash).

Inductive Reply :=
| TipReply (h : Header)
| HeadersReply (r : StreamReply Header * result ReplySendError unit)
| BlocksReply (r : StreamReply Block * result ReplySendError unit).

(** [handle_input]: what the spawned request sends. *)
Definition handle_input (r : Receiver) (tip : Ref) (s : store) (input : ClientMsg) : Reply :=
  match input with
  | GetBlockTip => TipReply (get_block_tip tip)
  | GetHeaders ids => HeadersReply (handle_get_headers r ids s)
  | PullHeaders from to => HeadersReply (handle_get_headers_range r from to s)
  | GetBlocks ids => BlocksReply (handle_get_blocks r ids s)
  | PullBlocks from to => BlocksReply (handle_pull_blocks r from to s)
  | PullBlocksToTip from => BlocksReply (handle_pull_blocks_to_tip r tip from s)
  end.

(** ** What a peer gets *)

(** [bs] is the chain of blocks from the child of [a] to [to]. *)
Fixpoint branch (a : HeaderHash) (bs : list Block) (to : HeaderHash) : Prop :=
  match bs with
  | [] => a = to
  | b :: bs => block_parent_hash (block_header b) = a ∧ branch (header_hash (block_header b)) bs to
  end.

(** The documented behaviour of the store's iterator: as many blocks as the
    distance, oldest first, ending at the given block. *)
Definition iterates_branches (s : store) : Prop :=
  ∀ a to d, bs_is_ancestor (hash_bytes a) (hash_bytes to) s = Ok (Some d) →
    ∃ bs, bs_iter (hash_bytes to) d s = Ok (Ok ∘ block_serialize <$> bs) ∧
      Z.of_nat (length bs) = d ∧ branch a bs to.

Lemma send_all_listening {V} (items : list (result Error V)) : send_all None items = (items, Ok tt).
Proof. induction items as [|i items IH]; simpl; [done|]. by rewrite IH. Qed.

Lemma send_all_prefix {V} (n : nat) (items : list (result Error V)) :
  send_all (Some n) items
  = (take n items, if (length items <=? n)%nat then Ok tt else Err ReplyNotSent).
Proof.
  revert n. induction items as [|i items IH]; intros [|n]; simpl; [done..|]. by rewrite IH.
Qed.

(** The valid items before the first error, and that error. *)
Fixpoint up_to_error {V} (items : list (result Error V)) : list (result Error V) :=
  match items with
  | [] => []
  | Ok v :: items => Ok v :: up_to_error items
  | Err e :: _ => [Err e]
  end.

Lemma fuse_loop_listening {V} (items : list (result Error V)) :
  fuse_loop None items = (up_to_error items, Ok tt).
Proof. induction items as [|[v|e] items IH]; simpl; [done| |done]. by rewrite IH. Qed.

Context `{!ChainTypesLaws}.

Lemma send_range_run from to s a :
  iterates_branches s → Storage.find_closest_ancestor from to s = Ok (Some a) →
  ∃ bs, Z.of_nat (length bs) = Storage.anc_distance a ∧ branch (Storage.anc_header_hash a) bs to ∧
    ∀ T r (f : Block → T), send_range_from_storage r from to f s
      = let '(sent, res) := send_all r (Ok ∘ f <$> bs) in (Stream sent, res).
Proof.
  intros Hit Ha. pose proof (Storage.closest_found from to s a Ha) as (_ & Hanc & _). destruct (Hit _ _ _ Hanc) as (bs & Hiter & Hlen & Hb).
  exists bs. split_and!; [done|done|]. intros T r f. unfold send_range_from_storage. rewrite Ha. simpl.
  unfold send_branch_to, Storage.send_branch_with. rewrite Hiter. simpl.
  rewrite <- !list_fmap_compose.
  erewrite (list_fmap_ext _ (Ok ∘ f) bs); [done|]. intros _ b _.
  unfold compose, Storage.deserialize_block. simpl. by rewrite block_roundtrip.
Qed.

(** A peer that asks for the chain up to a block gets what it misses.  When
    one of the checkpoints of a request is an ancestor of [to], the blocks sent
    are exactly those between the nearest such checkpoint and [to]: the first
    has that checkpoint as its parent, each has the previous one as its parent,
    the last is [to], and no checkpoint of the request is nearer.  A request for
    headers gets the headers of these blocks.  Without a known checkpoint, or
    when the storage fails, the reply is an error.  A receiver that hangs up
    after [n] items gets the first [n] of them, and the handler reports it if
    it had more to send. *)
Theorem pull_blocks_correct tip from to s :
  iterates_branches s →
  match Storage.find_closest_ancestor from to s with
  | Ok (Some a) =>
      Storage.anc_header_hash a ∈ from ∧
      ∃ bs, branch (Storage.anc_header_hash a) bs to ∧
        (∀ c m, c ∈ from → Storage.ancestor_at c to s m → (Z.of_nat (length bs) ≤ m)%Z) ∧
        handle_input None tip s (PullBlocks from to) = BlocksReply (Stream (Ok <$> bs), Ok tt) ∧
        handle_input None tip s (PullHeaders from to)
          = HeadersReply (Stream (Ok ∘ block_header <$> bs), Ok tt) ∧
        ∀ n, handle_input (Some n) tip s (PullBlocks from to)
          = BlocksReply (Stream (take n (Ok <$> bs)),
                         if (length bs <=? n)%nat then Ok tt else Err ReplyNotSent)
  | Ok None =>
      handle_input None tip s (PullBlocks from to)
      = BlocksReply (ReplyError (not_found NoKnownBlock), Ok tt)
  | Err e =>
      handle_input None tip s (PullBlocks from to) = BlocksReply (ReplyError (from_storage e), Ok tt)
  end.
Proof.
  intros Hit. simpl. unfold handle_pull_blocks, handle_get_headers_range.
  destruct (Storage.find_closest_ancestor from to s) as [[a|]|e] eqn:Ha.
  - destruct (Storage.closest_found from to s a Ha) as (Hin & _ & _ & Hnear). split; [done|].
    destruct (send_range_run from to s a Hit Ha) as (bs & Hlen & Hb & Hrun).
    exists bs. rewrite Hlen. split_and!; [done|done|..].
    + by rewrite Hrun, send_all_listening.
    + by rewrite Hrun, send_all_listening.
    + intros n. rewrite Hrun, send_all_prefix. by rewrite length_fmap.
  - unfold send_range_from_storage. by rewrite Ha.
  - unfold send_range_from_storage. by rewrite Ha.
Qed.
End client.
Arguments ReplyError {_ _ _} e.
Arguments Stream {_ _ _} items.
End Client.

(** ** The store in memory iterates over branches *)
Module SampleClient.
Import SampleFragments SampleStore SampleChain Client.

(** Blocks are stored under their own hash. *)
Definition mem_wf (s : mem) : Prop :=
  ∀ h e, mem_find (inl h) s = Ok e →
    ∃ b, e = (inr b, Storage.block_info_of b) ∧ header_hash (block_header b) = h.

Lemma store_of_wf bs : mem_wf (store_of bs).
Proof.
  unfold store_of. assert (mem_wf (mkMem [] [])) as Hwf by done. revert Hwf.
  generalize (mkMem [] []). induction bs as [|b bs IH]; intros s Hwf; simpl; [done|].
  apply IH. unfold Storage.put_block. cbn [bs_put_block mem_store]. unfold mem_put. simpl.
  match goal with |- context [match ?x with Some _ => _ | None => _ end] => destruct x end; simpl; [done|].
  intros h e. simpl. case_decide as Hh; [|by apply Hwf]. intros [= <-]. by exists b.
Qed.

Lemma branch_snoc a bs b p to :
  branch a bs p → block_parent_hash (block_header b) = p → header_hash (block_header b) = to →
  branch a (bs ++ [b]) to.
Proof.
  revert a. induction bs as [|b' bs IH]; intros a; simpl; [by intros <-|].
  intros [Hp Hb] Hpar Hto. split; [done|]. by apply IH.
Qed.

Lemma walk_branch n to s a i j :
  mem_wf s → find_index a i (mem_walk n (inl to) s) = Some j →
  ∃ bs : list Block, j = (i + Z.of_nat (length bs))%Z ∧
    (λ e : Bytes * BlockInfo, e.1) <$> reverse (take (length bs) (mem_walk n (inl to) s))
      = block_serialize <$> bs ∧
    branch a bs to.
Proof.
  intros Hwf. revert to i. induction n as [|n IH]; intros to i; cbn [mem_walk]; [done|].
  destruct (mem_find (inl to) s) as [e|] eqn:Hg; simpl; [|done].
  apply Hwf in Hg as (b & -> & Hb). simpl in *. case_decide as Ha.
  - intros [= <-]. exists []. simpl. split_and!; [lia|done|congruence].
  - intros Hf. apply IH in Hf as (bs & -> & Htake & Hbr). exists (bs ++ [b]).
    rewrite length_app, Nat.add_1_r. simpl. split_and!; [lia| |by eapply branch_snoc].
    rewrite reverse_cons, !fmap_app. by rewrite Htake.
Qed.

Lemma mem_iterates s : mem_wf s → iterates_branches s.
Proof.
  intros Hwf a to d. cbn [bs_is_ancestor bs_iter mem_store]. unfold mem_is_ancestor, mem_iter.
  change (hash_bytes a) with (inl a : Bytes). change (hash_bytes to) with (inl to : Bytes).
  destruct (mem_find (inl a) s) as [ea|]; [|done]. destruct (mem_find (inl to) s) as [et|] eqn:Hto; [|done].
  intros [= Hf]. apply walk_branch in Hf as (bs & -> & Htake & Hb); [|done].
  exists bs. rewrite Z.add_0_l. split_and!; [|done|done]. rewrite Nat2Z.id. f_equal.
  rewrite !list_fmap_compose. unfold mem_branch. rewrite <- Htake. by rewrite <- list_fmap_compose.
Qed.

(** A peer that knows blocks 11 and 21 gets blocks 12 and 13. *)
Lemma pull_blocks_correct_witness :
  ∃ bs, branch (hash 11) bs (hash 13) ∧
    handle_input None ChainInv.ChainWitness.r12 store0 (PullBlocks [hash 21; hash 11; hash 99] (hash 13))
    = BlocksReply (Stream (Ok <$> bs), Ok tt).
Proof.
  pose proof (pull_blocks_correct ChainInv.ChainWitness.r12 [hash 21; hash 11; hash 99] (hash 13) store0
    (mem_iterates store0 (store_of_wf _))) as Hpull.
  change (Storage.find_closest_ancestor [hash 21; hash 11; hash 99] (hash 13) store0)
    with (Ok (E := Storage.Error) (Some (Storage.mkAncestor (hash 11) 2))) in Hpull.
  destruct Hpull as (_ & bs & Hb & _ & Hrun & _). exists bs. split; [exact Hb|exact Hrun].
Defined.
End SampleClient.
