(* ===== verification/Peers.v ===== *)
(** * The peers a node is connected to

    Models [jormungandr/src/network/p2p/comm.rs] (the outbound streams to one
    peer, [CommHandle] and [PeerComms], and the operations of [Peers]) and
    [jormungandr/src/network/p2p/comm/peer_map.rs] (the table of the connected
    peers with the authentication of clients).  A subscription channel is kept
    as the items handed to it; whether it takes another one, and whether a
    connection attempt has completed, is decided by the environment.  Every
    operation runs under the lock of the table, as one step. *)

From S2P Require Import Prelude Lru Lhm.

Inductive ChanStatus := ChanReady | ChanFull | ChanClosed.

Inductive ErrorKind := NotSubscribed_ | SubscriptionClosed | StreamOverflow | Unexpected.

Module CommHandle.
Inductive SubscriptionDirection := Client | Server.

Section handle.
Context {T : Type}.

Record PropagateError := mkPropagateError { kind : ErrorKind; item : T }.

(** [SubscriptionState]: a sender is the list of what was sent through it. *)
Inductive SubscriptionState :=
| NotSubscribed
| Pending (pending : T)
| Subscribed (sender : list T).

Record CommHandle := mkHandle { state : SubscriptionState; direction : SubscriptionDirection }.

Definition default : CommHandle := mkHandle NotSubscribed Server.
Definition client_pending (item : T) : CommHandle := mkHandle (Pending item) Client.

Definition is_client (h : CommHandle) : bool := match direction h with Client => true | Server => false end.

Definition clear_pending (h : CommHandle) : CommHandle :=
  match state h with
  | Pending _ => mkHandle NotSubscribed (direction h)
  | _ => h
  end.

(** [chan n]: the state of the channel for the [n]-th item. *)
Definition try_send (chan : nat → ChanStatus) (item : T) (h : CommHandle)
    : CommHandle * result PropagateError unit :=
  match state h with
  | NotSubscribed => (h, Err (mkPropagateError NotSubscribed_ item))
  | Pending _ => (mkHandle (Pending item) (direction h), Ok tt)
  | Subscribed sender =>
      match chan (length sender) with
      | ChanReady => (mkHandle (Subscribed (sender ++ [item])) (direction h), Ok tt)
      | ChanClosed => (h, Err (mkPropagateError SubscriptionClosed item))
      | ChanFull => (h, Err (mkPropagateError StreamOverflow item))
      end
  end.

Definition update (chan : nat → ChanStatus) (newer : CommHandle) (h : CommHandle) : CommHandle :=
  let h' := mkHandle (state newer) (direction newer) in
  match state h with
  | Pending item => (try_send chan item h').1
  | _ => h'
  end.

(** The new channel has room for the pending item. *)
Definition subscribe (h : CommHandle) : CommHandle :=
  match state h with
  | Pending item => mkHandle (Subscribed [item]) (direction h)
  | _ => mkHandle (Subscribed []) (direction h)
  end.

Definition is_subscribed (h : CommHandle) : bool :=
  match state h with Subscribed _ => true | _ => false end.

(** An item that waits for a connection is not lost when the connection is
    made: it is the first to be sent, in any of the two directions. *)
Lemma pending_survives chan item newer sender :
  state newer = Subscribed sender → chan (length sender) = ChanReady →
  state (update chan newer (client_pending item)) = Subscribed (sender ++ [item]) ∧
  state (subscribe (client_pending item)) = Subscribed [item].
Proof. intros Hn Hc. unfold update, try_send. simpl. by rewrite Hn, Hc. Qed.
End handle.
Arguments PropagateError : clear implicits.
Arguments CommHandle : clear implicits.
Arguments SubscriptionState : clear implicits.
End CommHandle.

Module Peers.
Import CommHandle.

Section peers.
Context {Address NodeId Nonce Header BlockIds ChainPullRequest Fragment Gossip : Type}.
Context `{EqDecision Address, EqDecision NodeId}.

(** The five streams of a peer. *)
Inductive Chan := ChBlock | ChSolicit | ChPull | ChFragment | ChGossip.

Record PeerComms := mkComms {
  remote_addr : Address;
  block_announcements : CommHandle Header;
  block_solicitations : CommHandle BlockIds;
  chain_pulls : CommHandle ChainPullRequest;
  fragments : CommHandle Fragment;
  gossip : CommHandle Gossip;
}.

Definition comms_new (a : Address) : PeerComms := mkComms a default default default default default.

Definition has_client_subscriptions (c : PeerComms) : bool :=
  is_client (block_announcements c) || is_client (fragments c) || is_client (gossip c).

(** What the environment decides: the channels, and the connection attempts. *)
Inductive ConnectStatus :=
| NotConnected                          (* [Ok(None)] *)
| Connected (comms : PeerComms)
| ConnectCanceled.

Definition ConnectHandle : Type := nat.

Record Env := mkEnv {
  chan : Chan → nat → ChanStatus;
  try_complete : ConnectHandle → ConnectStatus;
}.

Definition comms_update (env : Env) (newer c : PeerComms) : PeerComms :=
  mkComms (remote_addr c)
    (update (chan env ChBlock) (block_announcements newer) (block_announcements c))
    (update (chan env ChSolicit) (block_solicitations newer) (block_solicitations c))
    (update (chan env ChPull) (chain_pulls newer) (chain_pulls c))
    (update (chan env ChFragment) (fragments newer) (fragments c))
    (update (chan env ChGossip) (gossip newer) (gossip c)).

Definition comms_clear_pending (c : PeerComms) : PeerComms :=
  mkComms (remote_addr c) (clear_pending (block_announcements c)) (clear_pending (block_solicitations c))
    (clear_pending (chain_pulls c)) (clear_pending (fragments c)) (clear_pending (gossip c)).

Definition set_block (h : CommHandle Header) (c : PeerComms) : PeerComms :=
  mkComms (remote_addr c) h (block_solicitations c) (chain_pulls c) (fragments c) (gossip c).
Definition set_solicit (h : CommHandle BlockIds) (c : PeerComms) : PeerComms :=
  mkComms (remote_addr c) (block_announcements c) h (chain_pulls c) (fragments c) (gossip c).
Definition set_pull (h : CommHandle ChainPullRequest) (c : PeerComms) : PeerComms :=
  mkComms (remote_addr c) (block_announcements c) (block_solicitations c) h (fragments c) (gossip c).
Definition set_fragment (h : CommHandle Fragment) (c : PeerComms) : PeerComms :=
  mkComms (remote_addr c) (block_announcements c) (block_solicitations c) (chain_pulls c) h (gossip c).
Definition set_gossip (h : CommHandle Gossip) (c : PeerComms) : PeerComms :=
  mkComms (remote_addr c) (block_announcements c) (block_solicitations c) (chain_pulls c) (fragments c) h.

Definition set_pending_block_announcement (header : Header) := set_block (client_pending header).
Definition set_pending_fragment (f : Fragment) := set_fragment (client_pending f).
Definition set_pending_gossip (g : Gossip) := set_gossip (client_pending g).

Definition try_send_block_announcement (env : Env) (header : Header) (c : PeerComms)
    : PeerComms * result (PropagateError Header) unit :=
  let '(h, r) := try_send (chan env ChBlock) header (block_announcements c) in (set_block h c, r).
Definition try_send_fragment (env : Env) (f : Fragment) (c : PeerComms)
    : PeerComms * result (PropagateError Fragment) unit :=
  let '(h, r) := try_send (chan env ChFragment) f (fragments c) in (set_fragment h c, r).
Definition try_send_gossip (env : Env) (g : Gossip) (c : PeerComms)
    : PeerComms * result (PropagateError Gossip) unit :=
  let '(h, r) := try_send (chan env ChGossip) g (gossip c) in (set_gossip h c, r).

Definition subscribe_to_block_events_comms (c : PeerComms) : PeerComms :=
  set_pull (subscribe (chain_pulls c))
    (set_solicit (subscribe (block_solicitations c)) (set_block (subscribe (block_announcements c)) c)).
Definition subscribe_to_fragments_comms (c : PeerComms) : PeerComms := set_fragment (subscribe (fragments c)) c.
Definition subscribe_to_gossip_comms (c : PeerComms) : PeerComms := set_gossip (subscribe (gossip c)) c.

(** ** Statistics *)
Record PeerStats := mkStats {
  created : Z;
  last_block_received : option Z;
  last_fragment_received : option Z;
  last_gossip_received : option Z;
}.

Definition stats_default (now : Z) : PeerStats := mkStats now None None None.

Definition update_last_timestamp (field : option Z) (timestamp : Z) : option Z :=
  match field with
  | None => Some timestamp
  | Some last => if (last <? timestamp)%Z then Some timestamp else field
  end.

Definition last_activity (s : PeerStats) : Z :=
  let get f := match f with Some t => t | None => created s end in
  Z.max (get (last_block_received s)) (Z.max (get (last_fragment_received s)) (get (last_gossip_received s))).

Definition update_last_block_received (t : Z) (s : PeerStats) : PeerStats :=
  mkStats (created s) (update_last_timestamp (last_block_received s) t) (last_fragment_received s)
    (last_gossip_received s).
Definition update_last_fragment_received (t : Z) (s : PeerStats) : PeerStats :=
  mkStats (created s) (last_block_received s) (update_last_timestamp (last_fragment_received s) t)
    (last_gossip_received s).
Definition update_last_gossip_received (t : Z) (s : PeerStats) : PeerStats :=
  mkStats (created s) (last_block_received s) (last_fragment_received s)
    (update_last_timestamp (last_gossip_received s) t).

(** ** The table of peers (peer_map.rs) *)
Record PeerData := mkData {
  comms : PeerComms;
  stats : PeerStats;
  connecting : option ConnectHandle;
}.

Inductive CommStatus := Connecting | Established.

Definition data_new (now : Z) (a : Address) : PeerData := mkData (comms_new a) (stats_default now) None.

Definition update_comm_status (env : Env) (d : PeerData) : PeerData * CommStatus :=
  match connecting d with
  | None => (d, Established)
  | Some handle =>
      match try_complete env handle with
      | NotConnected => (d, Connecting)
      | Connected newer => (mkData (comms_update env newer (comms d)) (stats d) None, Established)
      | ConnectCanceled => (mkData (comms d) (stats d) None, Established)
      end
  end.

Definition set_comms (c : PeerComms) (d : PeerData) : PeerData := mkData c (stats d) (connecting d).
Definition set_stats (s : PeerStats) (d : PeerData) : PeerData := mkData (comms d) s (connecting d).

Definition server_comms_data (d : PeerData) : PeerData := mkData (comms_clear_pending (comms d)) (stats d) None.

Context `{!LinkedHashMap NodeId PeerData} `{!LinkedHashMap Address NodeId} `{!LruCache Address Nonce}.

(** [PeerMap] with its [ClientAuth] and the gauge of connected peers. *)
Record PeerMap := mkPeerMap {
  map : lhm NodeId PeerData;
  in_progress : lru Address Nonce;
  established : lhm Address NodeId;
  capacity : nat;
  peer_connected_cnt : Z;
}.

Definition DEFAULT_OPEN_HANDSHAKED_LIMIT : nat := 128.

Definition peer_map_new (capacity : nat) (cnt : Z) : PeerMap :=
  mkPeerMap lhm_new (lru_new DEFAULT_OPEN_HANDSHAKED_LIMIT) lhm_new capacity cnt.

Definition set_map (m : lhm NodeId PeerData) (s : PeerMap) : PeerMap :=
  mkPeerMap m (in_progress s) (established s) (capacity s) (peer_connected_cnt s).
Definition set_established (e : lhm Address NodeId) (s : PeerMap) : PeerMap :=
  mkPeerMap (map s) (in_progress s) e (capacity s) (peer_connected_cnt s).
Definition set_in_progress (p : lru Address Nonce) (s : PeerMap) : PeerMap :=
  mkPeerMap (map s) p (established s) (capacity s) (peer_connected_cnt s).
Definition add_peer_connected_cnt (n : nat) (s : PeerMap) : PeerMap :=
  mkPeerMap (map s) (in_progress s) (established s) (capacity s)
    (usize_add (peer_connected_cnt s) (Z.of_nat n)).
Definition sub_peer_connected_cnt (n : nat) (s : PeerMap) : PeerMap :=
  mkPeerMap (map s) (in_progress s) (established s) (capacity s)
    (usize_sub (peer_connected_cnt s) (Z.of_nat n)).

(** *** Authentication of clients *)
Inductive AuthError := NonceMissing | VerifyFailed.

(** The random nonce is a parameter. *)
Definition generate_auth_nonce (nonce : Nonce) (addr : Address) (s : PeerMap) : PeerMap :=
  set_in_progress (lru_put addr nonce (in_progress s))
    (set_established (lhm_remove addr (established s)) s).

Definition auth_remove (addr : Address) (s : PeerMap) : PeerMap :=
  set_established (lhm_remove addr (established s)) s.

Definition client_id (addr : Address) (s : PeerMap) : option NodeId := lhm_get addr (established s).

Definition auth_complete_handshake (addr : Address) (id : NodeId) (verify : Nonce → bool) (s : PeerMap)
    : PeerMap * result AuthError unit :=
  let '(p, nonce) := lru_pop addr (in_progress s) in
  let s := set_in_progress p s in
  match nonce with
  | Some nonce =>
      if verify nonce then (set_established (lhm_insert addr id (established s)) s, Ok tt)
      else (s, Err VerifyFailed)
  | None => (s, Err NonceMissing)
  end.

(** *** Peers *)
Definition clear (s : PeerMap) : PeerMap :=
  set_map (lhm_clear (map s)) (sub_peer_connected_cnt (length (lhm_entries (map s))) s).

Definition refresh_peer (f : PeerStats → PeerStats) (id : NodeId) (s : PeerMap) : PeerMap * bool :=
  (set_map (lhm_get_refresh id (λ d, set_stats (f (stats d)) d) (map s)) s,
   bool_decide (is_Some (lhm_get id (map s)))).

Definition evict_if_full (s : PeerMap) : PeerMap :=
  if (capacity s <=? length (lhm_entries (map s)))%nat then
    let '(m, oldest) := lhm_pop_front (map s) in
    match oldest with
    | Some (_, v) => auth_remove (remote_addr (comms v)) (sub_peer_connected_cnt 1 (set_map m s))
    | None => set_map m s
    end
  else s.

Definition ensure_peer (now : Z) (id : NodeId) (addr : Address) (s : PeerMap) : PeerMap :=
  let s := match lhm_get id (map s) with
           | Some _ => s
           | None => add_peer_connected_cnt 1 (evict_if_full s)
           end in
  set_map (lhm_or_insert id (data_new now addr) (map s)) s.

(** [self.map.get_mut(id)], followed by a change of the data. *)
Definition alter_peer (f : PeerData → PeerData) (id : NodeId) (s : PeerMap) : PeerMap :=
  set_map (lhm_get_mut id f (map s)) s.

Definition add_connecting_map (env : Env) (now : Z) (id : NodeId) (addr : Address)
    (handle : ConnectHandle) (s : PeerMap) : PeerMap :=
  alter_peer (λ d, (update_comm_status env (mkData (comms d) (stats d) (Some handle))).1) id
    (ensure_peer now id addr s).

Definition add_client (env : Env) (now : Z) (id : NodeId) (addr : Address) (s : PeerMap) : PeerMap :=
  alter_peer (λ d, (update_comm_status env d).1) id (ensure_peer now id addr s).

Definition complete_handshake (env : Env) (now : Z) (addr : Address) (id : NodeId)
    (verify : Nonce → bool) (s : PeerMap) : PeerMap * result AuthError unit :=
  let '(s, r) := auth_complete_handshake addr id verify s in
  match r with
  | Ok _ => (add_client env now id addr s, Ok tt)
  | Err e => (s, Err e)
  end.

Definition remove_peer (env : Env) (id : NodeId) (s : PeerMap) : PeerMap * option PeerComms :=
  match lhm_get id (map s) with
  | None => (s, None)
  | Some d =>
      let d := (update_comm_status env d).1 in
      (auth_remove (remote_addr (comms d)) (sub_peer_connected_cnt 1 (set_map (lhm_remove id (map s)) s)),
       Some (comms d))
  end.

(** [iter.next_back]: the newest peer with an established connection; the
    status of the peers looked at is updated. *)
Fixpoint fetch_loop (env : Env) (newest_first : list (NodeId * PeerData)) (s : PeerMap)
    : PeerMap * option NodeId :=
  match newest_first with
  | [] => (s, None)
  | (id, d) :: rest =>
      let '(d, status) := update_comm_status env d in
      let s := alter_peer (λ _, d) id s in
      match status with
      | Established => (s, Some id)
      | Connecting => fetch_loop env rest s
      end
  end.

Definition next_peer_for_block_fetch (env : Env) (s : PeerMap) : PeerMap * option NodeId :=
  fetch_loop env (reverse (lhm_entries (map s))) s.

Definition infos (s : PeerMap) : list (NodeId * PeerStats) :=
  (λ e : NodeId * PeerData, (e.1, stats e.2)) <$> lhm_entries (map s).

(** The oldest peers with a client subscription are dropped from the table. *)
Definition evict_clients (num : nat) (s : PeerMap) : PeerMap :=
  let clients := filter (λ e, has_client_subscriptions (comms e.2) = true) (lhm_entries (map s)) in
  set_map (foldl (λ m (e : NodeId * PeerData), lhm_remove e.1 m) (map s) (take num clients)) s.

(** [Entry::remove] *)
Definition entry_remove (id : NodeId) (d : PeerData) (s : PeerMap) : PeerMap :=
  auth_remove (remote_addr (comms d)) (sub_peer_connected_cnt 1 (set_map (lhm_remove id (map s)) s)).

(** ** The operations of [Peers] (comm.rs) *)
Record ConnectOptions := mkOptions {
  pending_block_announcement : option Header;
  pending_fragment : option Fragment;
  pending_gossip : option Gossip;
  opt_evict_clients : nat;
}.

Definition if_some {A B} (o : option A) (f : A → B → B) (b : B) : B :=
  match o with Some a => f a b | None => b end.

Definition add_connecting (env : Env) (now : Z) (peer : NodeId) (addr : Address)
    (handle : ConnectHandle) (options : ConnectOptions) (s : PeerMap) : PeerMap :=
  let s := evict_clients (opt_evict_clients options) s in
  let s := add_connecting_map env now peer addr handle s in
  alter_peer (λ d, set_comms
    (if_some (pending_gossip options) set_pending_gossip
      (if_some (pending_fragment options) set_pending_fragment
        (if_some (pending_block_announcement options) set_pending_block_announcement (comms d)))) d) peer s.

Definition update_entry (env : Env) (peer : NodeId) (s : PeerMap) : PeerMap :=
  alter_peer (λ d, (update_comm_status env d).1) peer s.

(** The three subscriptions of a peer that connected as a client. *)
Definition subscribe_with (f : PeerComms → PeerComms) (peer : NodeId) (s : PeerMap) : PeerMap * bool :=
  (alter_peer (λ d, let d := server_comms_data d in set_comms (f (comms d)) d) peer s,
   bool_decide (is_Some (lhm_get peer (map s)))).
Definition subscribe_to_block_events := subscribe_with subscribe_to_block_events_comms.
Definition subscribe_to_fragments := subscribe_with subscribe_to_fragments_comms.
Definition subscribe_to_gossip := subscribe_with subscribe_to_gossip_comms.

(** Sending fails for a peer that is not there, and drops one whose stream
    does not take the item. *)
Definition propagate_with {T} (env : Env)
    (f : CommStatus → PeerComms → PeerComms * result (PropagateError T) unit) (peer : NodeId)
    (s : PeerMap) : PeerMap * result (option T) unit :=
  match lhm_get peer (map s) with
  | None => (s, Err None)
  | Some d =>
      let '(d, status) := update_comm_status env d in
      let '(c, r) := f status (comms d) in
      match r with
      | Ok _ => (alter_peer (λ _, set_comms c d) peer s, Ok tt)
      | Err e => (entry_remove peer d s, Err (Some (item e)))
      end
  end.

Definition send_or_pend {T} (send : PeerComms → PeerComms * result (PropagateError T) unit)
    (pend : PeerComms → PeerComms) (status : CommStatus) (c : PeerComms)
    : PeerComms * result (PropagateError T) unit :=
  match status with Established => send c | Connecting => (pend c, Ok tt) end.

(** The caller gets back the peer, for blocks and fragments. *)
Definition or_peer {T} (peer : NodeId) (r : PeerMap * result (option T) unit)
    : PeerMap * result NodeId unit := (r.1, map_err (λ _, peer) r.2).

Definition propagate_block (env : Env) (peer : NodeId) (header : Header) (s : PeerMap) :=
  or_peer peer (propagate_with env
    (send_or_pend (try_send_block_announcement env header) (set_pending_block_announcement header)) peer s).
Definition propagate_fragment (env : Env) (peer : NodeId) (f : Fragment) (s : PeerMap) :=
  or_peer peer (propagate_with env
    (send_or_pend (try_send_fragment env f) (set_pending_fragment f)) peer s).
(** ... and the gossip, which was not sent. *)
Definition propagate_gossip_to (env : Env) (peer : NodeId) (g : Gossip) (s : PeerMap)
    : PeerMap * result Gossip unit :=
  let '(s, r) := propagate_with env
    (send_or_pend (try_send_gossip env g) (set_pending_gossip g)) peer s in
  (s, map_err (λ o, match o with Some g => g | None => g end) r).

Definition refresh_peer_on_block (now : Z) := refresh_peer (update_last_block_received now).
Definition refresh_peer_on_fragment (now : Z) := refresh_peer (update_last_fragment_received now).
Definition refresh_peer_on_gossip (now : Z) := refresh_peer (update_last_gossip_received now).

(** [peer_comms] and a send; a peer that does not take it is removed. *)
Definition request_peer {T} (env : Env) (send : PeerComms → PeerComms * result (PropagateError T) unit)
    (peer : NodeId) (s : PeerMap) : PeerMap :=
  match lhm_get peer (map s) with
  | None => s
  | Some d =>
      let d := (update_comm_status env d).1 in
      let '(c, r) := send (comms d) in
      let s := alter_peer (λ _, set_comms c d) peer s in
      match r with Ok _ => s | Err _ => (remove_peer env peer s).1 end
  end.

Definition solicit_blocks_peer (env : Env) (peer : NodeId) (hashes : BlockIds) (s : PeerMap) : PeerMap :=
  request_peer env (λ c, let '(h, r) := try_send (chan env ChSolicit) hashes (block_solicitations c) in
                         (set_solicit h c, r)) peer s.

Definition solicit_blocks_any (env : Env) (hashes : BlockIds) (s : PeerMap) : PeerMap :=
  let '(s, found) := next_peer_for_block_fetch env s in
  match found with Some peer => solicit_blocks_peer env peer hashes s | None => s end.

Definition pull_headers (env : Env) (peer : NodeId) (request : ChainPullRequest) (s : PeerMap) : PeerMap :=
  request_peer env (λ c, let '(h, r) := try_send (chan env ChPull) request (chain_pulls c) in
                         (set_pull h c, r)) peer s.

(** ** All operations *)
Inductive Op :=
| OpClear
| OpAddConnecting (now : Z) (peer : NodeId) (addr : Address) (handle : ConnectHandle) (o : ConnectOptions)
| OpUpdateEntry (peer : NodeId)
| OpRemovePeer (peer : NodeId)
| OpNonce (nonce : Nonce) (addr : Address)
| OpHandshake (now : Z) (addr : Address) (id : NodeId) (verify : Nonce → bool)
| OpSubscribeBlocks (peer : NodeId)
| OpSubscribeFragments (peer : NodeId)
| OpSubscribeGossip (peer : NodeId)
| OpBlock (peer : NodeId) (header : Header)
| OpFragment (peer : NodeId) (f : Fragment)
| OpGossip (peer : NodeId) (g : Gossip)
| OpRefreshBlock (now : Z) (peer : NodeId)
| OpRefreshFragment (now : Z) (peer : NodeId)
| OpRefreshGossip (now : Z) (peer : NodeId)
| OpSolicitAny (hashes : BlockIds)
| OpSolicit (peer : NodeId) (hashes : BlockIds)
| OpPull (peer : NodeId) (request : ChainPullRequest).

Definition run_op (env : Env) (op : Op) (s : PeerMap) : PeerMap :=
  match op with
  | OpClear => clear s
  | OpAddConnecting now peer addr handle o => add_connecting env now peer addr handle o s
  | OpUpdateEntry peer => update_entry env peer s
  | OpRemovePeer peer => (remove_peer env peer s).1
  | OpNonce nonce addr => generate_auth_nonce nonce addr s
  | OpHandshake now addr id verify => (complete_handshake env now addr id verify s).1
  | OpSubscribeBlocks peer => (subscribe_to_block_events peer s).1
  | OpSubscribeFragments peer => (subscribe_to_fragments peer s).1
  | OpSubscribeGossip peer => (subscribe_to_gossip peer s).1
  | OpBlock peer header => (propagate_block env peer header s).1
  | OpFragment peer f => (propagate_fragment env peer f s).1
  | OpGossip peer g => (propagate_gossip_to env peer g s).1
  | OpRefreshBlock now peer => (refresh_peer_on_block now peer s).1
  | OpRefreshFragment now peer => (refresh_peer_on_fragment now peer s).1
  | OpRefreshGossip now peer => (refresh_peer_on_gossip now peer s).1
  | OpSolicitAny hashes => solicit_blocks_any env hashes s
  | OpSolicit peer hashes => solicit_blocks_peer env peer hashes s
  | OpPull peer request => pull_headers env peer request s
  end.

(** ** What every operation does to the table *)
Context `{!LinkedHashMapLaws NodeId PeerData} `{!LinkedHashMapLaws Address NodeId} `{!LruLaws Address Nonce}.

Abbreviation peers s := (lhm_entries (map s)).
Abbreviation auth s := (lhm_entries (established s)).

(** The building blocks: changes of the data of a peer, of the order, the
    removal of a peer with its authentication, an added peer.  [silent] says
    whether peers may be dropped without being counted. *)
Inductive change (silent : bool) : PeerMap → PeerMap → Prop :=
| ch_refl s : change silent s s
| ch_trans s1 s2 s3 : change silent s1 s2 → change silent s2 s3 → change silent s1 s3
| ch_data s m : (lhm_entries m).*1 ≡ₚ (peers s).*1 → change silent s (set_map m s)
| ch_remove s m a :
    S (length (lhm_entries m)) = length (peers s) →
    change silent s (auth_remove a (sub_peer_connected_cnt 1 (set_map m s)))
| ch_add s m :
    length (lhm_entries m) = S (length (peers s)) → length (lhm_entries m) ≤ Nat.max 1 (capacity s) →
    change silent s (set_map m (add_peer_connected_cnt 1 s))
| ch_evict s m : silent = true → length (lhm_entries m) ≤ length (peers s) → change silent s (set_map m s).

Lemma alter_peer_change b f id s : change b s (alter_peer f id s).
Proof. apply ch_data. by rewrite lhm_get_mut_entries, alist_alter_keys. Qed.

Lemma refresh_peer_change b f id s : change b s (refresh_peer f id s).1.
Proof.
  apply ch_data. rewrite lhm_get_refresh_entries. destruct (alist_get id (peers s)) as [d|] eqn:Hg; [|done].
  destruct (alist_get_split _ _ _ Hg) as (l1 & l2 & Heq & _). pose proof (lhm_NoDup (map s)) as Hnd.
  rewrite Heq in *. rewrite alist_del_mid by done. rewrite !fmap_app. simpl.
  rewrite <- app_assoc. apply Permutation_app_head. symmetry. apply Permutation_cons_append.
Qed.

Lemma remove_change b id d s a :
  lhm_get id (map s) = Some d →
  change b s (auth_remove a (sub_peer_connected_cnt 1 (set_map (lhm_remove id (map s)) s))).
Proof.
  rewrite lhm_get_spec. intros Hg. apply ch_remove. rewrite lhm_remove_entries.
  eapply alist_del_length_in; [apply lhm_NoDup|exact Hg].
Qed.

Lemma remove_peer_change b env id s : change b s (remove_peer env id s).1.
Proof.
  unfold remove_peer. destruct (lhm_get id (map s)) eqn:Hg; [|apply ch_refl]. by eapply remove_change.
Qed.

Definition bounded (s : PeerMap) : Prop := length (peers s) ≤ Nat.max 1 (capacity s).

Lemma change_bounded b s s' : change b s s' → bounded s → bounded s' ∧ capacity s' = capacity s.
Proof.
  unfold bounded. induction 1 as [| |s m Hp|s m a Hl|s m Hl Hc|s m _ Hl]; intros Hb; simpl in *.
  - done.
  - destruct IHchange1 as [? Heq]; [done|]. rewrite <- Heq. by apply IHchange2.
  - apply Permutation_length in Hp. rewrite !length_fmap in Hp. split; [lia|done].
  - split; [lia|done].
  - done.
  - split; [lia|done].
Qed.

Lemma evict_if_full_change b s :
  bounded s →
  change b s (evict_if_full s) ∧ capacity (evict_if_full s) = capacity s ∧
  length (peers (evict_if_full s)) < Nat.max 1 (capacity s) ∧
  ∀ id, lhm_get id (map s) = None → lhm_get id (map (evict_if_full s)) = None.
Proof.
  intros Hlen. unfold bounded in Hlen. unfold evict_if_full.
  destruct (Nat.leb_spec (capacity s) (length (peers s))) as [Hle|Hgt].
  2:{ split_and!; [apply ch_refl|done|lia|done]. }
  destruct (lhm_pop_front_spec (map s)) as [Hv Hm]. destruct (lhm_pop_front (map s)) as [m o]. simpl in *.
  subst o. destruct (peers s) as [|[k v] l] eqn:Hs; simpl in *.
  - split_and!; [|done|rewrite Hm; simpl; lia|].
    + apply ch_data. by rewrite Hm, Hs.
    + intros id. by rewrite !lhm_get_spec, Hm, Hs.
  - split_and!; [|done|rewrite Hm; lia|].
    + apply ch_remove. by rewrite Hm, Hs.
    + intros id. rewrite !lhm_get_spec. simpl. rewrite Hm, Hs. simpl. by case_decide.
Qed.

Lemma ensure_peer_change b now id addr s : bounded s → change b s (ensure_peer now id addr s).
Proof.
  intros Hb. unfold ensure_peer. destruct (lhm_get id (map s)) eqn:Hg.
  - apply ch_data. rewrite lhm_or_insert_entries. rewrite lhm_get_spec in Hg. by rewrite Hg.
  - destruct (evict_if_full_change b s Hb) as (Hc & Hcap & Hlt & Hnone). eapply ch_trans; [exact Hc|].
    apply Hnone in Hg. rewrite lhm_get_spec in Hg.
    pose proof (lhm_or_insert_entries id (data_new now addr) (map (evict_if_full s))) as He.
    rewrite Hg in He. apply (ch_add b (evict_if_full s)); cbn [map add_peer_connected_cnt]; rewrite He, length_app; simpl; lia.
Qed.

Lemma evict_clients_change n s :
  change true s (evict_clients n s) ∧ (n = 0 → evict_clients n s = s).
Proof.
  unfold evict_clients. split.
  - apply ch_evict; [done|]. generalize (take n (filter (λ e, has_client_subscriptions (comms e.2) = true) (peers s))).
    intros l. generalize (map s). induction l as [|e l IH]; intros m; simpl; [done|].
    etrans; [apply IH|]. rewrite lhm_remove_entries. apply alist_del_length_le.
  - intros ->. rewrite take_0. simpl. by destruct s.
Qed.

Lemma fetch_loop_change b env l s : change b s (fetch_loop env l s).1.
Proof.
  revert s. induction l as [|[id d] l IH]; intros s; simpl; [apply ch_refl|].
  destruct (update_comm_status env d) as [d' []]; simpl; [|apply alter_peer_change].
  eapply ch_trans; [apply alter_peer_change|apply IH].
Qed.

Lemma propagate_with_change {T} b env f peer s : change b s (propagate_with (T:=T) env f peer s).1.
Proof.
  unfold propagate_with. destruct (lhm_get peer (map s)) as [d|] eqn:Hg; [|apply ch_refl].
  destruct (update_comm_status env d) as [d' status]. destruct (f status (comms d')) as [c [u|e]]; simpl.
  - apply alter_peer_change.
  - by eapply remove_change.
Qed.

Lemma request_peer_change {T} b env f peer s : change b s (request_peer (T:=T) env f peer s).
Proof.
  unfold request_peer. destruct (lhm_get peer (map s)) as [d|] eqn:Hg; [|apply ch_refl].
  destruct (f _) as [c [u|e]]; [apply alter_peer_change|].
  eapply ch_trans; [apply alter_peer_change|apply remove_peer_change].
Qed.

(** Whether an operation may drop peers without counting them. *)
Definition evicts (op : Op) : bool :=
  match op with OpAddConnecting _ _ _ _ o => negb (opt_evict_clients o =? 0)%nat | _ => false end.

Lemma add_connecting_change env now peer addr handle o s :
  bounded s → change (negb (opt_evict_clients o =? 0)%nat) s (add_connecting env now peer addr handle o s).
Proof.
  intros Hb. unfold add_connecting. destruct (evict_clients_change (opt_evict_clients o) s) as [Hc H0].
  assert (change (negb (opt_evict_clients o =? 0)%nat) s (evict_clients (opt_evict_clients o) s)) as He.
  { destruct (Nat.eqb_spec (opt_evict_clients o) 0) as [Hz|Hz]; simpl; [rewrite H0 by done; apply ch_refl|done]. }
  destruct (change_bounded _ _ _ He Hb) as [Hb' _].
  eapply ch_trans; [exact He|]. eapply ch_trans; [|apply alter_peer_change]. unfold add_connecting_map.
  eapply ch_trans; [by apply ensure_peer_change|apply alter_peer_change].
Qed.

Lemma add_client_change b env now id addr s : bounded s → change b s (add_client env now id addr s).
Proof. intros Hb. eapply ch_trans; [by apply ensure_peer_change|apply alter_peer_change]. Qed.

Lemma solicit_any_change b env hashes s : change b s (solicit_blocks_any env hashes s).
Proof.
  unfold solicit_blocks_any, next_peer_for_block_fetch.
  pose proof (fetch_loop_change b env (reverse (peers s)) s) as Hc.
  destruct (fetch_loop _ _ _) as [s' [peer|]]; simpl in *; [|done].
  eapply ch_trans; [exact Hc|apply request_peer_change].
Qed.

(** The operations that do not touch the authentication except to remove it. *)
Definition plain (op : Op) : bool :=
  match op with OpClear | OpNonce _ _ | OpHandshake _ _ _ _ => false | _ => true end.

Lemma plain_op_change env op s : plain op = true → bounded s → change (evicts op) s (run_op env op s).
Proof.
  destruct op; intros Hp Hb; try discriminate Hp; cbn [run_op evicts];
    try first [by apply add_connecting_change|apply alter_peer_change|apply refresh_peer_change
      |apply remove_peer_change|apply solicit_any_change|apply request_peer_change
      |apply propagate_with_change].
  unfold propagate_gossip_to.
  pose proof (propagate_with_change false env
    (send_or_pend (try_send_gossip env g) (set_pending_gossip g)) peer s) as Hc.
  by destruct (propagate_with _ _ _ _).
Qed.

(** The table after a sequence of operations, the last one first. *)
Fixpoint table (cap : nat) (ops : list (Env * Op)) : PeerMap :=
  match ops with
  | [] => peer_map_new cap 0
  | (env, op) :: earlier => run_op env op (table cap earlier)
  end.

Definition counted (s : PeerMap) : Prop := peer_connected_cnt s = wrap64 (Z.of_nat (length (peers s))).

Lemma change_counted s s' : change false s s' → counted s → counted s'.
Proof.
  unfold counted. intros Hc. remember false as b eqn:Hb.
  induction Hc as [| |s m Hp|s m a Hl|s m Hl _|s m Ht _]; intros Hs; simpl in *; auto; [..|congruence].
  - apply Permutation_length in Hp. rewrite !length_fmap in Hp. by rewrite Hp.
  - unfold usize_sub. rewrite Hs, wrap64_sub_l. f_equal. lia.
  - unfold usize_add. rewrite Hs, wrap64_add_l. f_equal. lia.
Qed.

Lemma change_auth b s s' :
  change b s s' → in_progress s' = in_progress s ∧
  ∀ a id, client_id a s' = Some id → client_id a s = Some id.
Proof.
  unfold client_id. induction 1 as [|s1 s2 s3 _ [-> IH1] _ [-> IH2]|s m _|s m a _|s m _ _|s m _ _]; simpl; auto.
  split; [done|]. intros a' id. rewrite !lhm_get_spec, lhm_remove_entries, alist_get_del. by case_decide.
Qed.

(** A handshake is a change of the authentication, then a peer is added. *)
Lemma handshake_cases env now addr id verify s :
  let s1 := (auth_complete_handshake addr id verify s).1 in
  map s1 = map s ∧ capacity s1 = capacity s ∧ peer_connected_cnt s1 = peer_connected_cnt s ∧
  (bounded s → change false s1 (complete_handshake env now addr id verify s).1).
Proof.
  unfold complete_handshake, auth_complete_handshake. destruct (lru_pop addr (in_progress s)) as [p [n|]];
    [destruct (verify n)|]; simpl; split_and!; try done; intros Hb; try apply ch_refl.
  by apply add_client_change.
Qed.

Lemma table_step env op s :
  bounded s →
  bounded (run_op env op s) ∧ capacity (run_op env op s) = capacity s ∧
  (evicts op = false → counted s → counted (run_op env op s)).
Proof.
  intros Hb. destruct (plain op) eqn:Hp.
  { pose proof (plain_op_change env op s Hp Hb) as Hc. destruct (change_bounded _ _ _ Hc Hb).
    split_and!; [done..|]. intros He. rewrite He in Hc. by apply change_counted. }
  destruct op; try discriminate Hp; simpl.
  - unfold bounded, counted, clear in *. simpl. rewrite lhm_clear_entries. simpl.
    split_and!; [lia|done|]. intros _ Hs. unfold usize_sub. rewrite Hs, wrap64_sub_l. f_equal. lia.
  - done.
  - destruct (handshake_cases env now addr id verify s) as (Hm & Hcap & Hcnt & Hc).
    specialize (Hc Hb). unfold bounded, counted in *.
    destruct (change_bounded _ _ _ Hc) as [Hb' Hcap']; [unfold bounded; by rewrite Hm, Hcap|].
    split_and!; [done|by rewrite Hcap'|]. intros _ Hs.
    apply (change_counted _ _ Hc). unfold counted. by rewrite Hm, Hcnt.
Qed.

(** The table of peers stays within its bounds.  After any sequence of
    operations it holds at most [capacity] peers (one, if the capacity is
    0), each node at most once; and the gauge of connected peers is their
    number, unless clients were evicted to make room for a new connection:
    [evict_clients] drops peers without counting them. *)
Theorem peers_counted cap ops :
  (Z.of_nat (Nat.max 1 cap) < U64)%Z →
  let s := table cap ops in
  length (peers s) ≤ Nat.max 1 cap ∧ NoDup (peers s).*1 ∧
  (Forall (λ p, evicts p.2 = false) ops → peer_connected_cnt s = Z.of_nat (length (peers s))).
Proof.
  intros Hcap s.
  assert (bounded s ∧ capacity s = cap ∧ (Forall (λ p, evicts p.2 = false) ops → counted s)) as (Hb & Hc & Hcnt).
  { unfold s. clear s. induction ops as [|[env op] ops (Hb & Hc & IH)]; simpl.
    - unfold bounded, counted. simpl. rewrite lhm_new_entries. split_and!; [simpl; lia|done|done].
    - destruct (table_step env op (table cap ops) Hb) as (Hb' & Hc' & Hstep).
      split_and!; [done|congruence|]. intros [He Hf]%Forall_cons. auto. }
  unfold bounded in Hb. rewrite Hc in Hb. split_and!; [done|apply lhm_NoDup|].
  intros Hf. rewrite (Hcnt Hf). apply wrap64_small. lia.
Qed.

(** ** Authentication *)

(** What is known of the client at an address: nothing, a challenge that it
    was sent, or that the last challenge was answered for an identity. *)
Inductive AuthState := Unknown | Challenged (nonce : Nonce) | Authenticated (id : NodeId).

(** The protocol: a challenge is answered at most once. *)
Fixpoint auth_of (ops : list (Env * Op)) (addr : Address) : AuthState :=
  match ops with
  | [] => Unknown
  | (_, OpNonce nonce a) :: earlier =>
      if decide (a = addr) then Challenged nonce else auth_of earlier addr
  | (_, OpHandshake _ a id verify) :: earlier =>
      if decide (a = addr) then
        match auth_of earlier addr with
        | Challenged nonce => if verify nonce then Authenticated id else Unknown
        | st => st
        end
      else auth_of earlier addr
  | _ :: earlier => auth_of earlier addr
  end.

Definition auth_inv (ops : list (Env * Op)) (s : PeerMap) : Prop :=
  ∀ addr,
    (∀ id, client_id addr s = Some id → auth_of ops addr = Authenticated id) ∧
    (∀ n, alist_get addr (lru_entries (in_progress s)) = Some n → auth_of ops addr = Challenged n).

Lemma auth_inv_change b ops s s' : change b s s' → auth_inv ops s → auth_inv ops s'.
Proof.
  intros Hc Hs addr. destruct (change_auth _ _ _ Hc) as [Hp He]. destruct (Hs addr) as [H1 H2].
  split; [intros id Hid; by apply H1, He|by rewrite Hp].
Qed.

Lemma auth_inv_nonce ops env nonce a s :
  auth_inv ops s → auth_inv ((env, OpNonce nonce a) :: ops) (generate_auth_nonce nonce a s).
Proof.
  intros Hs addr. destruct (Hs addr) as [H1 H2]. unfold client_id, generate_auth_nonce in *. simpl.
  rewrite lhm_get_spec, lhm_remove_entries, alist_get_del. rewrite lhm_get_spec in H1.
  split.
  - intros id. destruct (decide (addr = a)) as [->|Hne]; [done|]. rewrite decide_False by done. apply H1.
  - intros n [[-> ->]|[Hne Hn]]%lru_put_get; [by rewrite decide_True|]. rewrite decide_False by done. by apply H2.
Qed.

Lemma auth_inv_handshake ops env now a id verify s :
  auth_inv ops s →
  auth_inv ((env, OpHandshake now a id verify) :: ops) (auth_complete_handshake a id verify s).1.
Proof.
  intros Hs addr. destruct (Hs addr) as [H1 H2]. unfold client_id, auth_complete_handshake in *.
  destruct (lru_pop_spec a (in_progress s)) as (Hn & He & _).
  destruct (lru_pop a (in_progress s)) as [p nonce]. simpl in *. subst nonce.
  assert (∀ n, alist_get addr (lru_entries p) = Some n →
    addr ≠ a ∧ alist_get addr (lru_entries (in_progress s)) = Some n) as Hp.
  { intros n. rewrite He, alist_get_del. by case_decide. }
  destruct (decide (a = addr)) as [->|Hne].
  - destruct (alist_get addr (lru_entries (in_progress s))) as [n|] eqn:Hg.
    + rewrite (H2 n eq_refl). destruct (verify n); simpl; (split; [|intros n' [? _]%Hp; done]).
      * intros id'. rewrite lhm_get_spec, lhm_insert_entries, alist_get_app, alist_get_del.
        rewrite decide_True by done. simpl. rewrite decide_True by done. by intros [= <-].
      * intros id' Hid. apply H1 in Hid. rewrite (H2 n eq_refl) in Hid. done.
    + simpl. split; [|intros n' [? _]%Hp; done]. intros id' Hid. by rewrite (H1 _ Hid).
  - assert (∀ id', lhm_get addr (lhm_insert a id (established s)) = Some id' →
      auth_of ops addr = Authenticated id') as Hest.
    { intros id'. rewrite lhm_get_spec, lhm_insert_entries, alist_get_app, alist_get_del.
      rewrite decide_False by done. simpl. rewrite decide_False by done. rewrite <- lhm_get_spec.
      intros Hid. apply H1. by destruct (lhm_get addr _). }
    destruct (alist_get a (lru_entries (in_progress s))) as [n|]; [destruct (verify n)|]; simpl;
      (split; [by auto|intros n' [_ ?]%Hp; by apply H2]).
Qed.

(** C9: Only clients that answered their last challenge are authenticated.
    After any sequence of operations, the node holds the client at an address
    for the node [id] only if the protocol says so: the last nonce it issued
    to that address was given, in the first handshake that followed, a proof
    that verified for [id], and no other nonce was issued to the address
    since. *)
Theorem clients_authenticated cap ops addr id :
  client_id addr (table cap ops) = Some id → auth_of ops addr = Authenticated id.
Proof.
  cut (auth_inv ops (table cap ops) ∧ bounded (table cap ops)); [intros [Hi _]; by apply Hi|].
  induction ops as [|[env op] ops [IH Hb]].
  { split; [|unfold bounded; simpl; rewrite lhm_new_entries; simpl; lia].
    intros a. unfold client_id. simpl. rewrite lhm_get_spec, lhm_new_entries, lru_new_entries. done. }
  split; [|by apply table_step]. destruct (plain op) eqn:Hp.
  - eapply auth_inv_change; [by apply plain_op_change|]. by destruct op.
  - destruct op; try discriminate Hp; cbn [table run_op]; [done|by apply auth_inv_nonce|].
    destruct (handshake_cases env now addr0 id0 verify (table cap ops)) as (_ & _ & _ & Hc).
    eapply auth_inv_change; [by apply Hc|]. by apply auth_inv_handshake.
Qed.
End peers.
End Peers.

(** ** An example *)
Module SamplePeers.
Import ListLru ListLhm CommHandle Peers.

Definition table_ :=
  table (Address := nat) (NodeId := nat) (Nonce := nat) (Header := nat) (BlockIds := nat)
    (ChainPullRequest := nat) (Fragment := nat) (Gossip := nat).

Definition env0 : Env (Address := nat) (Header := nat) (BlockIds := nat) (ChainPullRequest := nat)
    (Fragment := nat) (Gossip := nat) := mkEnv (λ _ _, ChanReady) (λ _, NotConnected).

Definition op : Type := Op (Address := nat) (NodeId := nat) (Nonce := nat) (Header := nat)
  (BlockIds := nat) (ChainPullRequest := nat) (Fragment := nat) (Gossip := nat).

(** Node 7 authenticates from address 1, then a block is announced to it; the
    last operation comes first. *)
Definition ops1 : list (_ * op) :=
  [(env0, OpSubscribeBlocks 7); (env0, OpHandshake 5 1 7 (λ n, n =? 42)%nat); (env0, OpNonce 42 1);
   (env0, OpHandshake 4 1 8 (λ _, true))].

(** A connection to node 9, with a block to announce to it, then one to node 3
    for which a client is evicted. *)
Definition ops2 : list (_ * op) :=
  [(env0, OpAddConnecting 7 3 2 1 (mkOptions None None None 1));
   (env0, OpAddConnecting 6 9 4 0 (mkOptions (Some 5) None None 0))].

Lemma clients_authenticated_witness :
  client_id 1 (table_ 4 ops1) = Some 7 ∧ auth_of ops1 1 = Authenticated 7.
Proof.
  assert (client_id 1 (table_ 4 ops1) = Some 7) as Hid by reflexivity.
  split; [exact Hid|]. exact (clients_authenticated 4 ops1 1 7 Hid).
Defined.

Lemma peers_counted_witness :
  peer_connected_cnt (table_ 4 ops1) = Z.of_nat (length (lhm_entries (map (table_ 4 ops1)))).
Proof.
  destruct (peers_counted 4 ops1) as (_ & _ & Hcnt); [reflexivity|].
  apply Hcnt. repeat constructor.
Defined.

(** Evicting a client leaves the gauge at 2 with one peer in the table. *)
Example evict_clients_uncounted :
  peer_connected_cnt (table_ 4 ops2) = 2%Z ∧ length (lhm_entries (map (table_ 4 ops2))) = 1.
Proof. split; reflexivity. Qed.
End SamplePeers.
