(* ===== verification/Gossip.v ===== *)
(** * Gossips, addresses and layers

    Models the parts of [jormungandr/src/topology/] that keep no pools: the
    addresses and the wire format of a gossip (gossip.rs), and the preferred
    list and the interest levels (layers/); with them the address filter of
    network/subscription.rs and jormungandr-lib/src/multiaddr.rs.  The codec of
    [chain_core], the check of a gossip's bytes by [poldercast] and the name
    resolver are parameters. *)

From S2P Require Import Prelude.

(** ** Addresses and gossips *)
Module Gossip.

Inductive IpAddr :=
| V4 (a b c d : Z)
| V6 (s0 s1 s2 s3 s4 s5 s6 s7 : Z).

#[export] Instance IpAddr_eq_dec : EqDecision IpAddr.
Proof. solve_decision. Defined.

Record SocketAddr := mkAddr { ip : IpAddr; port : Z }.

#[export] Instance SocketAddr_eq_dec : EqDecision SocketAddr.
Proof. solve_decision. Defined.

(** The tests of [std::net::Ipv4Addr] and [std::net::Ipv6Addr]. *)
Definition v4_unspecified (a b c d : Z) : bool := (a =? 0)%Z && (b =? 0)%Z && (c =? 0)%Z && (d =? 0)%Z.
Definition v4_broadcast (a b c d : Z) : bool := (a =? 255)%Z && (b =? 255)%Z && (c =? 255)%Z && (d =? 255)%Z.
Definition v4_multicast (a : Z) : bool := (224 <=? a)%Z && (a <=? 239)%Z.
Definition v4_documentation (a b c : Z) : bool :=
  ((a =? 192)%Z && (b =? 0)%Z && (c =? 2)%Z)
  || ((a =? 198)%Z && (b =? 51)%Z && (c =? 100)%Z)
  || ((a =? 203)%Z && (b =? 0)%Z && (c =? 113)%Z).
Definition v4_private (a b : Z) : bool :=
  (a =? 10)%Z || ((a =? 172)%Z && (16 <=? b)%Z && (b <=? 31)%Z) || ((a =? 192)%Z && (b =? 168)%Z).
Definition v4_loopback (a : Z) : bool := (a =? 127)%Z.
Definition v4_link_local (a b : Z) : bool := (a =? 169)%Z && (b =? 254)%Z.

Definition v6_unspecified (ip : IpAddr) : bool := bool_decide (ip = V6 0 0 0 0 0 0 0 0).
Definition v6_loopback (ip : IpAddr) : bool := bool_decide (ip = V6 0 0 0 0 0 0 0 1).
Definition v6_multicast (s0 : Z) : bool := (Z.land s0 65280 =? 65280)%Z.

(** [Ipv6Addr::to_ipv4]: of the compatible and the mapped addresses. *)
Definition to_ipv4 (ip : IpAddr) : option (Z * Z * Z * Z) :=
  match ip with
  | V6 s0 s1 s2 s3 s4 s5 ab cd =>
      if (s0 =? 0)%Z && (s1 =? 0)%Z && (s2 =? 0)%Z && (s3 =? 0)%Z && (s4 =? 0)%Z
         && ((s5 =? 0)%Z || (s5 =? 65535)%Z)
      then Some (Z.shiftr ab 8, Z.land ab 255, Z.shiftr cd 8, Z.land cd 255)
      else None
  | V4 _ _ _ _ => None
  end.

Definition has_valid_address (addr : SocketAddr) : bool :=
  match ip addr with
  | V4 a b c d =>
      if v4_unspecified a b c d then false
      else if v4_broadcast a b c d then false
      else if v4_multicast a then false
      else if v4_documentation a b c then false
      else true
  | V6 s0 _ _ _ _ _ _ _ as i =>
      if v6_unspecified i then false
      else if v6_multicast s0 then false
      else true
  end.

Definition is_ipv4_global (a b : Z) : bool :=
  if v4_private a b then false
  else if v4_loopback a then false
  else if v4_link_local a b then false
  else true.

Definition is_global (addr : SocketAddr) : bool :=
  if negb (has_valid_address addr) then false
  else match ip addr with
       | V4 a b _ _ => is_ipv4_global a b
       | V6 _ _ _ _ _ _ _ _ as i =>
           if v6_loopback i then false
           else match to_ipv4 i with
                | Some (a, b, _, _) => if negb (is_ipv4_global a b) then false else true
                | None => true
                end
       end.

(** [filter_gossip_node] of network/subscription.rs. *)
Definition filter_gossip_node (allow_private_addresses : bool) (addr : SocketAddr) : bool :=
  if allow_private_addresses then has_valid_address addr else is_global addr.

(** ** Reference: blocks of addresses in CIDR notation *)
Definition v4_bits (a b c d : Z) : Z := (a * 2 ^ 24 + b * 2 ^ 16 + c * 2 ^ 8 + d)%Z.

Record Cidr := mkCidr { base : Z; prefix : Z }.

Definition in_cidr (addr : Z) (c : Cidr) : bool :=
  (Z.shiftr addr (32 - prefix c) =? Z.shiftr (base c) (32 - prefix c))%Z.

Definition invalid_blocks : list Cidr :=
  [mkCidr (v4_bits 0 0 0 0) 32; mkCidr (v4_bits 255 255 255 255) 32; mkCidr (v4_bits 224 0 0 0) 4;
   mkCidr (v4_bits 192 0 2 0) 24; mkCidr (v4_bits 198 51 100 0) 24; mkCidr (v4_bits 203 0 113 0) 24].
Definition local_blocks : list Cidr :=
  [mkCidr (v4_bits 10 0 0 0) 8; mkCidr (v4_bits 172 16 0 0) 12; mkCidr (v4_bits 192 168 0 0) 16;
   mkCidr (v4_bits 127 0 0 0) 8; mkCidr (v4_bits 169 254 0 0) 16].

Definition octet (z : Z) : Prop := (0 ≤ z < 256)%Z.

Lemma in_cidr_iff a b c d k p :
  octet a → octet b → octet c → octet d → (0 ≤ p ≤ 32)%Z →
  in_cidr (v4_bits a b c d) (mkCidr k p) =
  ((v4_bits a b c d) / 2 ^ (32 - p) =? k / 2 ^ (32 - p))%Z.
Proof. intros. unfold in_cidr. cbn [base prefix]. by rewrite !Z.shiftr_div_pow2 by lia. Qed.

(** Decides a test on the octets against a test on the prefix. *)
Ltac cidr :=
  intros; rewrite in_cidr_iff by (done || lia); unfold octet, v4_bits in *;
  cbv [v4_unspecified v4_broadcast v4_multicast v4_documentation v4_private v4_loopback v4_link_local];
  apply eq_true_iff_eq; repeat rewrite ?andb_true_iff, ?orb_true_iff, ?Z.eqb_eq, ?Z.leb_le;
  cbn -[Z.mul Z.add Z.div]; split; intros; (lia || Z.to_euclidean_division_equations; lia).

Section v4.
Variables a b c d : Z.
Hypotheses (Ha : octet a) (Hb : octet b) (Hc : octet c) (Hd : octet d).
#[local] Abbreviation bits := (v4_bits a b c d).

Lemma cidr_unspecified : in_cidr bits (mkCidr (v4_bits 0 0 0 0) 32) = v4_unspecified a b c d.
Proof. cidr. Qed.
Lemma cidr_broadcast : in_cidr bits (mkCidr (v4_bits 255 255 255 255) 32) = v4_broadcast a b c d.
Proof. cidr. Qed.
Lemma cidr_multicast : in_cidr bits (mkCidr (v4_bits 224 0 0 0) 4) = v4_multicast a.
Proof. cidr. Qed.
Lemma cidr_documentation :
  in_cidr bits (mkCidr (v4_bits 192 0 2 0) 24) || (in_cidr bits (mkCidr (v4_bits 198 51 100 0) 24)
   || in_cidr bits (mkCidr (v4_bits 203 0 113 0) 24)) = v4_documentation a b c.
Proof.
  unfold v4_documentation. rewrite <- orb_assoc. repeat f_equal; cidr.
Qed.
Lemma cidr_private :
  in_cidr bits (mkCidr (v4_bits 10 0 0 0) 8) || (in_cidr bits (mkCidr (v4_bits 172 16 0 0) 12)
   || in_cidr bits (mkCidr (v4_bits 192 168 0 0) 16)) = v4_private a b.
Proof. unfold v4_private. rewrite <- orb_assoc. repeat f_equal; cidr. Qed.
Lemma cidr_loopback : in_cidr bits (mkCidr (v4_bits 127 0 0 0) 8) = v4_loopback a.
Proof. cidr. Qed.
Lemma cidr_link_local : in_cidr bits (mkCidr (v4_bits 169 254 0 0) 16) = v4_link_local a b.
Proof. cidr. Qed.

Lemma has_valid_address_v4 port :
  has_valid_address (mkAddr (V4 a b c d) port) = negb (existsb (in_cidr bits) invalid_blocks).
Proof.
  cbn [existsb invalid_blocks]. rewrite orb_false_r, cidr_unspecified, cidr_broadcast, cidr_multicast,
    cidr_documentation. unfold has_valid_address. cbn [ip]. by repeat case_match.
Qed.
Lemma is_ipv4_global_blocks : is_ipv4_global a b = negb (existsb (in_cidr bits) local_blocks).
Proof.
  cbn [existsb local_blocks]. rewrite orb_false_r, cidr_loopback, cidr_link_local.
  rewrite (orb_assoc (in_cidr _ (mkCidr (v4_bits 172 16 0 0) 12))), orb_assoc, cidr_private.
  unfold is_ipv4_global. by repeat case_match.
Qed.
End v4.

(** The IPv6 address that embeds an IPv4 address ([s5] is 0 or 65535). *)
Definition embed_v4 (s5 a b c d : Z) : IpAddr := V6 0 0 0 0 0 s5 (a * 256 + b) (c * 256 + d).

Lemma to_ipv4_embed s5 a b c d :
  octet a → octet b → octet c → octet d → s5 = 0%Z ∨ s5 = 65535%Z →
  to_ipv4 (embed_v4 s5 a b c d) = Some (a, b, c, d).
Proof.
  intros Ha Hb Hc Hd Hs. unfold to_ipv4, embed_v4.
  replace (_ && ((s5 =? 0)%Z || _)) with true by (destruct Hs as [-> | ->]; done).
  rewrite !Z.shiftr_div_pow2 by lia. change 255%Z with (Z.ones 8). rewrite !Z.land_ones by lia.
  unfold octet in *. repeat f_equal; Z.to_euclidean_division_equations; lia.
Qed.

(** The tests of a gossiped address are those of the reserved blocks in CIDR
    notation: an IPv4 address is valid exactly when it is outside the
    unspecified, broadcast, multicast and documentation blocks, and global
    exactly when it is also outside the private, loopback and link-local
    blocks.  An IPv4 address mapped into IPv6 is tested against the second
    group of blocks only, so that a mapped multicast or documentation address
    is taken for a global one. *)
Theorem is_global_blocks (a b c d port : Z) :
  octet a → octet b → octet c → octet d →
  let bits := v4_bits a b c d in
  let v4 := mkAddr (V4 a b c d) port in
  let v6 := mkAddr (embed_v4 65535 a b c d) port in
  has_valid_address v4 = negb (existsb (in_cidr bits) invalid_blocks) ∧
  is_global v4 = negb (existsb (in_cidr bits) (invalid_blocks ++ local_blocks)) ∧
  has_valid_address v6 = true ∧
  is_global v6 = negb (existsb (in_cidr bits) local_blocks).
Proof.
  intros Ha Hb Hc Hd bits v4 v6. subst bits v4 v6.
  assert (has_valid_address (mkAddr (embed_v4 65535 a b c d) port) = true) as H6.
  { unfold has_valid_address, v6_unspecified. cbn [ip embed_v4].
    by rewrite bool_decide_false by congruence. }
  split; [by apply has_valid_address_v4|split; [|split; [done|]]].
  - rewrite existsb_app, negb_orb. unfold is_global. rewrite has_valid_address_v4 by done. cbn [ip].
    rewrite (is_ipv4_global_blocks a b c d) by done. by destruct (existsb _ invalid_blocks).
  - unfold is_global. rewrite H6. cbn [ip negb]. rewrite <- (is_ipv4_global_blocks a b c d) by done.
    pose proof (to_ipv4_embed 65535 a b c d Ha Hb Hc Hd (or_intror eq_refl)) as Hto.
    unfold embed_v4 in *. rewrite Hto. unfold v6_loopback.
    rewrite bool_decide_false by congruence. by destruct (is_ipv4_global a b).
Qed.

(** A mapped multicast address. *)
Lemma is_global_blocks_witness :
  is_global (mkAddr (V4 224 0 0 1) 80) = false ∧ is_global (mkAddr (embed_v4 65535 224 0 0 1) 80) = true.
Proof.
  destruct (is_global_blocks 224 0 0 1 80) as (_ & H4 & _ & H6); try (unfold octet; lia).
  split; [exact H4|exact H6].
Defined.

(** ** The wire format of a gossip *)
Definition MAX_GOSSIP_SIZE : nat := 512.

Inductive ReadError := SizeTooBig (limit actual : nat) | InvalidData | UnexpectedEof.
Inductive WriteError := GossipTooBig.

(** The operations of [chain_core::packer::Codec] that are used, over a buffer
    of bytes: what is written is appended, what is read is taken off. *)
Class Codec := {
  put_be_u16 : Z → list Z;
  put_bytes : list Z → list Z;
  get_be_u16 : list Z → result ReadError (Z * list Z);
  get_bytes : nat → list Z → result ReadError (list Z * list Z);
}.

Class CodecLaws `{!Codec} : Prop := {
  get_put_u16 n rest : (0 ≤ n < 2 ^ 16)%Z → get_be_u16 (put_be_u16 n ++ rest) = Ok (n, rest);
  get_put_bytes bs rest : get_bytes (length bs) (put_bytes bs ++ rest) = Ok (bs, rest);
}.

Section wire.
Context {G : Type} `{!Codec}.
(** [poldercast::Gossip]: its bytes, and the check of a slice of bytes. *)
Context (as_bytes : G → list Z) (try_from_slice : list Z → option G).

Definition serialize (g : G) : result WriteError (list Z) :=
  let bytes := as_bytes g in
  if (MAX_GOSSIP_SIZE <? length bytes)%nat then Err GossipTooBig
  else Ok (put_be_u16 (Z.of_nat (length bytes) mod 2 ^ 16) ++ put_bytes bytes).

Definition deserialize (buf : list Z) : result ReadError (G * list Z) :=
  let? (bytes_size, buf) := get_be_u16 buf in
  let bytes_size := Z.to_nat bytes_size in
  if (MAX_GOSSIP_SIZE <? bytes_size)%nat then Err (SizeTooBig MAX_GOSSIP_SIZE bytes_size)
  else let? (bytes, buf) := get_bytes bytes_size buf in
       match try_from_slice bytes with
       | Some g => Ok (g, buf)
       | None => Err InvalidData
       end.

Context `{!CodecLaws} (slice_of_bytes : ∀ g, try_from_slice (as_bytes g) = Some g).

(** The wire format of a gossip round-trips: what is written for a gossip is
    read back as that gossip, and the rest of the buffer is left; a gossip is
    refused by the writer exactly when it is longer than 512 bytes, and the
    reader accepts none whose announced size is longer. *)
Theorem gossip_roundtrip (g : G) (rest : list Z) :
  (∀ out, serialize g = Ok out → deserialize (out ++ rest) = Ok (g, rest)) ∧
  (serialize g = Err GossipTooBig ↔ MAX_GOSSIP_SIZE < length (as_bytes g)) ∧
  (∀ size buf, (2 ^ 9 < size < 2 ^ 16)%Z →
     deserialize (put_be_u16 size ++ buf) = Err (SizeTooBig MAX_GOSSIP_SIZE (Z.to_nat size))).
Proof.
  split; [|split].
  - intros out. unfold serialize. case_match eqn:Hlen; [done|]. intros [= <-].
    apply Nat.ltb_ge in Hlen. unfold MAX_GOSSIP_SIZE in Hlen. unfold deserialize.
    rewrite <- app_assoc, Z.mod_small, get_put_u16, Nat2Z.id by lia.
    rewrite (proj2 (Nat.ltb_ge _ _)) by (unfold MAX_GOSSIP_SIZE; lia).
    by rewrite get_put_bytes, slice_of_bytes.
  - unfold serialize. rewrite <- Nat.ltb_lt. case_match; naive_solver.
  - intros size buf Hs. unfold deserialize. rewrite get_put_u16 by lia.
    by rewrite (proj2 (Nat.ltb_lt _ _)) by (unfold MAX_GOSSIP_SIZE; lia).
Qed.
End wire.
End Gossip.

(** ** Addresses in the configuration (jormungandr-lib/src/multiaddr.rs) *)
Module Multiaddr.
Import Gossip.

Inductive Protocol :=
| Ip4 (a b c d : Z)
| Ip6 (s0 s1 s2 s3 s4 s5 s6 s7 : Z)
| Dns (fqdn : string)
| Dns4 (fqdn : string)
| Dns6 (fqdn : string)
| Tcp (port : Z)
| OtherProtocol.

Definition Multiaddr : Type := list Protocol.

Inductive Error := InvalidMultiaddr | FailedToResolve | NotFound | NoIp4 | NoIp6.

Definition is_v4 (a : SocketAddr) : bool := match ip a with V4 _ _ _ _ => true | _ => false end.

Definition multiaddr_of_ip (i : IpAddr) : Protocol :=
  match i with
  | V4 a b c d => Ip4 a b c d
  | V6 s0 s1 s2 s3 s4 s5 s6 s7 => Ip6 s0 s1 s2 s3 s4 s5 s6 s7
  end.

Definition ok_or {E A} (e : E) (o : option A) : result E A :=
  match o with Some a => Ok a | None => Err e end.

(** The resolver of the operating system is a parameter ([None]: an I/O error). *)
Definition resolve_dns (to_socket_addrs : string → Z → option (list SocketAddr)) (addr : Multiaddr)
    : result Error Multiaddr :=
  let? ip_or_fqdn := ok_or InvalidMultiaddr (head addr) in
  let? port := ok_or InvalidMultiaddr (match addr !! 1%nat with Some (Tcp port) => Some port | _ => None end) in
  let? socket_addr :=
    match ip_or_fqdn with
    | Ip4 a b c d => Ok (mkAddr (V4 a b c d) port)
    | Ip6 s0 s1 s2 s3 s4 s5 s6 s7 => Ok (mkAddr (V6 s0 s1 s2 s3 s4 s5 s6 s7) port)
    | Dns fqdn =>
        let? l := ok_or FailedToResolve (to_socket_addrs fqdn port) in ok_or NotFound (head l)
    | Dns4 fqdn =>
        let? l := ok_or FailedToResolve (to_socket_addrs fqdn port) in
        ok_or NoIp4 (head (filter (λ a, is_v4 a = true) l))
    | Dns6 fqdn =>
        let? l := ok_or FailedToResolve (to_socket_addrs fqdn port) in
        ok_or NoIp6 (head (filter (λ a, is_v4 a = false) l))
    | _ => Err InvalidMultiaddr
    end in
  match addr !! 2%nat with
  | Some _ => Err InvalidMultiaddr
  | None => Ok [multiaddr_of_ip (ip socket_addr); Tcp (Gossip.port socket_addr)]
  end.

Definition to_tcp_socket_addr (addr : Multiaddr) : option SocketAddr :=
  i ← (c ← head addr;
       match c with
       | Ip4 a b c d => Some (V4 a b c d)
       | Ip6 s0 s1 s2 s3 s4 s5 s6 s7 => Some (V6 s0 s1 s2 s3 s4 s5 s6 s7)
       | _ => None
       end);
  port ← (c ← addr !! 1%nat; match c with Tcp port => Some port | _ => None end);
  Some (mkAddr i port).

(** A resolved address has a socket address; one given by name has none. *)
Lemma resolved_has_socket_addr resolver addr addr' :
  resolve_dns resolver addr = Ok addr' → is_Some (to_tcp_socket_addr addr').
Proof.
  assert (∀ sa, is_Some (to_tcp_socket_addr [multiaddr_of_ip (ip sa); Tcp (Gossip.port sa)])) as Hok.
  { intros [[] ?]; eexists; reflexivity. }
  unfold resolve_dns. intros Hr. destruct (ok_or _ (head addr)); [|done].
  destruct (ok_or _ _); [|done]. destruct (match a with Ip4 _ _ _ _ => _ | _ => _ end); [|done].
  destruct (addr !! 2); simplify_eq. apply Hok.
Qed.
Lemma dns_has_no_socket_addr fqdn rest :
  to_tcp_socket_addr (Dns fqdn :: rest) = None ∧ to_tcp_socket_addr (Dns4 fqdn :: rest) = None ∧
  to_tcp_socket_addr (Dns6 fqdn :: rest) = None.
Proof. done. Qed.
End Multiaddr.

(** ** The layers of the views (topology/layers) *)
Module Layers.
Import Gossip.

(** [poldercast::Topic] and [poldercast::InterestLevel]. *)
Definition Topic : Type := list Z.
Definition MESSAGES : Topic := replicate 32 0%Z.
Definition BLOCKS : Topic := replicate 32 1%Z.

Definition LOW_INTERESET : Z := 1.
Definition NORMAL_INTEREST : Z := 3.
Definition HIGH_INTEREST : Z := 5.

Record RingsConfig := mkRingsConfig { messages : Z; blocks : Z }.
Definition rings_default : RingsConfig := mkRingsConfig NORMAL_INTEREST NORMAL_INTEREST.

Inductive ParseError := mkParseError (found : string).

Definition parse_interest (interest : string) : result ParseError Z :=
  if decide (interest = "low"%string) then Ok LOW_INTERESET
  else if decide (interest = "normal"%string) then Ok NORMAL_INTEREST
  else if decide (interest = "high"%string) then Ok HIGH_INTEREST
  else Err (mkParseError interest).

Record TopicsOfInterest := mkTopics { topics_messages : string; topics_blocks : string }.

Definition rings_try_from (topics : TopicsOfInterest) : result ParseError RingsConfig :=
  let? messages := parse_interest (topics_messages topics) in
  let? blocks := parse_interest (topics_blocks topics) in
  Ok (mkRingsConfig messages blocks).

(** [Rings] delegates everything to the rings of poldercast, except for the
    interest levels, which are put into the priority map [put]. *)
Definition rings_subscriptions {M} (put : Z → Topic → M → M) (c : RingsConfig) (output : M) : M :=
  put (messages c) MESSAGES (put (blocks c) BLOCKS output).

Section preferred.
Context {NodeId Profile : Type} `{EqDecision NodeId}.
Context (profile_id : Profile → NodeId) (profile_address : Profile → SocketAddr).

Record TrustedPeer := mkTrusted { tp_addr : SocketAddr; tp_id : option NodeId }.

Record PreferredListConfig := mkPreferredConfig { cfg_view_max : nat; cfg_peers : list TrustedPeer }.

Record PreferredListLayer := mkPreferred {
  view_max : nat;
  peers : list (SocketAddr * option NodeId);
  current_peers : list NodeId;
}.

(** [collect] into a map: a later entry replaces an earlier one. *)
Definition collect_peers (l : list TrustedPeer) : list (SocketAddr * option NodeId) :=
  foldl (λ m p, (tp_addr p, tp_id p) :: alist_del (tp_addr p) m) [] l.

Definition preferred_new (config : PreferredListConfig) : PreferredListLayer :=
  mkPreferred (cfg_view_max config) (collect_peers (cfg_peers config)) [].

(** [choose_multiple] of the random generator is a parameter. *)
Definition preferred_view (choose_multiple : nat → list NodeId → list NodeId) (l : PreferredListLayer)
    : list NodeId := choose_multiple (view_max l) (current_peers l).

Definition preferred_reset (l : PreferredListLayer) : PreferredListLayer :=
  mkPreferred (view_max l) (peers l) [].

Definition preferred_remove (id : NodeId) (l : PreferredListLayer) : PreferredListLayer := l.

Definition preferred_populate (new_profile : Profile) (l : PreferredListLayer) : PreferredListLayer :=
  let addr := profile_address new_profile in
  let id := profile_id new_profile in
  match alist_get addr (peers l) with
  | Some trusted_id =>
      if bool_decide (trusted_id = None) || bool_decide (trusted_id = Some id) then
        mkPreferred (view_max l) (peers l)
          (if decide (id ∈ current_peers l) then current_peers l else id :: current_peers l)
      else l
  | None => l
  end.

Inductive LayerOp := Populate (p : Profile) | Remove (id : NodeId) | Reset.

Definition layer_op (o : LayerOp) (l : PreferredListLayer) : PreferredListLayer :=
  match o with
  | Populate p => preferred_populate p l
  | Remove id => preferred_remove id l
  | Reset => preferred_reset l
  end.

Definition layer_run (os : list LayerOp) (l : PreferredListLayer) : PreferredListLayer :=
  foldl (λ l o, layer_op o l) l os.

(** The profile is one of the preferred peers of the configuration: the last
    entry for its address names no identifier, or that of the profile. *)
Definition preferred (config : PreferredListConfig) (p : Profile) : Prop :=
  ∃ tp, last (filter (λ tp, tp_addr tp = profile_address p) (cfg_peers config)) = Some tp ∧
        (tp_id tp = None ∨ tp_id tp = Some (profile_id p)).

Lemma collect_peers_get addr l :
  alist_get addr (collect_peers l) = tp_id <$> last (filter (λ tp, tp_addr tp = addr) l).
Proof.
  unfold collect_peers. induction l as [|tp l IH] using rev_ind; [done|].
  rewrite foldl_app, filter_app. cbn [foldl alist_get]. destruct (decide (tp_addr tp = addr)) as [Heq|Hne].
  - by rewrite (filter_cons_True _ tp []), filter_nil, last_snoc.
  - rewrite (filter_cons_False _ tp []), filter_nil, app_nil_r, <- IH, alist_get_del by done.
    by rewrite decide_False by congruence.
Qed.

Lemma preferred_populate_spec config p l :
  peers l = collect_peers (cfg_peers config) →
  peers (preferred_populate p l) = peers l ∧ view_max (preferred_populate p l) = view_max l ∧
  (∀ id, id ∈ current_peers (preferred_populate p l) ↔
         id ∈ current_peers l ∨ id = profile_id p ∧ preferred config p).
Proof.
  intros Hp. unfold preferred_populate, preferred. rewrite Hp, collect_peers_get.
  destruct (last _) as [tp|]; simpl; [|repeat split; naive_solver].
  destruct (bool_decide (tp_id tp = None) || bool_decide (tp_id tp = Some (profile_id p))) eqn:Ht; simpl.
  - rewrite orb_true_iff, !bool_decide_eq_true in Ht. split; [done|split; [done|]].
    intros id. case_decide; set_solver.
  - rewrite orb_false_iff, !bool_decide_eq_false in Ht. repeat split; naive_solver.
Qed.

(** The profiles that came in since the last reset. *)
Definition since_reset (os : list LayerOp) : list Profile :=
  foldl (λ acc o, match o with Populate p => acc ++ [p] | Remove _ => acc | Reset => [] end) [] os.

Lemma layer_run_spec config os :
  let l := layer_run os (preferred_new config) in
  peers l = collect_peers (cfg_peers config) ∧ view_max l = cfg_view_max config ∧
  NoDup (current_peers l) ∧
  ∀ id, id ∈ current_peers l ↔ ∃ p, p ∈ since_reset os ∧ profile_id p = id ∧ preferred config p.
Proof.
  unfold layer_run, since_reset. induction os as [|o os IH] using rev_ind.
  { repeat split; simpl; [constructor|set_solver|set_solver]. }
  rewrite !foldl_app. simpl in *. set (l := foldl _ _ os) in *. destruct IH as (Hp & Hm & Hnd & Hc).
  destruct o as [p|id|]; simpl; [|done|].
  - destruct (preferred_populate_spec config p l Hp) as (Hp' & Hm' & Hc').
    split; [congruence|split; [congruence|split]].
    + unfold preferred_populate. repeat case_match; simpl; [done|by constructor|done|done].
    + intros id. rewrite Hc', Hc. set_solver.
  - repeat split; [done|done|constructor|set_solver|set_solver].
Qed.

(** The view of the preferred list holds at most [view_max] distinct nodes; each
    is a peer of the configuration that was announced with its configured
    address, and identifier if any, since the last reset; and a report against
    a node ([remove]) does not take it out. *)
Theorem preferred_view_correct choose_multiple config os :
  (∀ n l, choose_multiple n l ⊆ l) → (∀ n l, length (choose_multiple n l) ≤ n) →
  (∀ n l, NoDup l → NoDup (choose_multiple n l)) →
  let view := preferred_view choose_multiple (layer_run os (preferred_new config)) in
  NoDup view ∧ length view ≤ cfg_view_max config ∧
  ∀ id, id ∈ view → ∃ p, p ∈ since_reset os ∧ profile_id p = id ∧ preferred config p.
Proof.
  intros Hsub Hlen Hnd view. destruct (layer_run_spec config os) as (_ & Hm & Hn & Hc).
  unfold view, preferred_view. rewrite Hm. split; [by apply Hnd|split; [apply Hlen|]].
  intros id Hid. by apply Hc, (Hsub (cfg_view_max config)).
Qed.
End preferred.
Arguments PreferredListConfig : clear implicits.
Arguments TrustedPeer : clear implicits.
End Layers.

(** ** An instance of the codec *)
Module SampleGossip.
Import Gossip.

(** A codec and a gossip of fixed layout. *)
Definition sample_codec : Codec := {|
  put_be_u16 n := [n / 256; n mod 256]%Z;
  put_bytes bs := bs;
  get_be_u16 buf := match buf with a :: b :: rest => Ok (a * 256 + b, rest)%Z | _ => Err UnexpectedEof end;
  get_bytes n buf := if (length buf <? n)%nat then Err UnexpectedEof else Ok (take n buf, drop n buf);
|}.

Lemma sample_codec_laws : @CodecLaws sample_codec.
Proof.
  split; simpl.
  - intros n rest Hn. repeat f_equal. pose proof (Z.div_mod n 256). lia.
  - intros bs rest. rewrite length_app, (proj2 (Nat.ltb_ge _ _)) by lia.
    by rewrite take_app_length, drop_app_length.
Qed.

Lemma gossip_roundtrip_witness :
  @deserialize (list Z) sample_codec Some ([0; 2; 7; 9] ++ [5])%Z = Ok ([7; 9], [5])%Z.
Proof.
  pose proof (@gossip_roundtrip (list Z) sample_codec (λ g, g) Some sample_codec_laws (λ g, eq_refl) [7; 9]%Z [5]%Z)
    as [H _].
  apply H. reflexivity.
Defined.
End SampleGossip.
