(* ===== verification/Topology.v ===== *)
(** * The topology of the network

    Models [jormungandr/src/topology/]: the reports against nodes
    (quarantine.rs), the object [P2pTopology] (topology.rs) and the topology task
    (process.rs).  The [poldercast] crate is a parameter, with the three pools of
    profiles that doc/specs/network.md and the comments of the source describe. *)

From S2P Require Import Prelude Lru Gossip.

(** ** The topology object *)
Module Topology.
Import Gossip Layers.

Record LayersConfig (NodeId : Type) := mkLayersConfig {
  preferred_list : PreferredListConfig NodeId;
  rings : RingsConfig;
}.

(** The operations of [poldercast::Topology] that are used.  Its profiles are in
    three pools, listed by [pool], [trusted] and [dirty]. *)
Class Poldercast (NodeId G Profile Topo Selection SecretKey Subscription : Type) := {
  gossip_id : G → NodeId;
  gossip_address : G → SocketAddr;
  gossip_time : G → Z;
  gossip_subscriptions : G → list Subscription;
  from_gossip : G → Profile;
  profile_gossip : Profile → G;
  profile_id : Profile → NodeId;
  selection_any : Selection;
  topo_new_with : SocketAddr → SecretKey → LayersConfig NodeId → Topo;
  topo_subscribe_topic : Topic → Topo → Topo;
  topo_view : Selection → Topo → Topo * list Profile;
  topo_gossips_for : NodeId → Topo → Topo * list G;
  topo_update_profile_subscriptions : SecretKey → Topo → Topo;
  topo_self_profile : Topo → Profile;
  topo_add_peer : Profile → Topo → Topo * bool;
  topo_promote_peer : NodeId → Topo → Topo;
  topo_remove_peer : NodeId → Topo → Topo;
  topo_get : NodeId → Topo → Topo * option Profile;
  pool : Topo → list (NodeId * Profile);
  trusted : Topo → list (NodeId * Profile);
  dirty : Topo → list (NodeId * Profile);
}.

Section topology.
Context {NodeId G Profile Topo Selection SecretKey Subscription : Type} `{EqDecision NodeId}.
Context `{PC : !Poldercast NodeId G Profile Topo Selection SecretKey Subscription}.

Definition Instant : Type := Z.
Definition SystemTime : Type := Z.

(** [Instant::elapsed] at the reading [now] of the clock. *)
Definition elapsed (now t : Instant) : Z := Z.max 0 (now - t).

Record PeerInfo := mkPeerInfo {
  id : NodeId;
  address : SocketAddr;
  last_update : SystemTime;
  quarantined : option SystemTime;
  subscriptions : list Subscription;
}.

(** [Peer] is a gossip. *)
Definition peer_info_from (other : G) : PeerInfo :=
  mkPeerInfo (gossip_id other) (gossip_address other) (gossip_time other) None (gossip_subscriptions other).

(** *** Reports against nodes (quarantine.rs) *)
Record ReportRecord := mkRecord { peer_info : PeerInfo; report_time : Instant }.

Inductive ReportNodeStatus := StatusOk | StatusQuarantine | StatusSoftReport.

Context `{!LruCache NodeId unit} `{!LruCache NodeId ReportRecord}.

Record ReportRecords := mkRecords {
  report_duration : Z;
  report_whitelist : list SocketAddr;
  report_grace : lru NodeId unit;
  report_records : lru NodeId ReportRecord;
}.

(** Durations in milliseconds. *)
Definition DEFAULT_QUARANTINE_DURATION : Z := 10 * 60 * 1000.
Definition DEFAULT_MAX_QUARANTINE_DURATION : Z := 2 * 24 * 3600 * 1000.
Definition DEFAULT_MAX_NUM_QUARANTINE_RECORDS : nat := Z.to_nat 24000.

Record QuarantineConfig := mkQuarantineConfig {
  quarantine_duration : Z;
  max_quarantine : option Z;
  max_num_quarantine_records : option nat;
  quarantine_whitelist : list Multiaddr.Multiaddr;
}.

Definition quarantine_config_default : QuarantineConfig :=
  mkQuarantineConfig DEFAULT_QUARANTINE_DURATION (Some DEFAULT_MAX_QUARANTINE_DURATION)
    (Some DEFAULT_MAX_NUM_QUARANTINE_RECORDS) [].

(** [None]: the conversion of the whitelist panics. *)
Definition from_config (config : QuarantineConfig) : option ReportRecords :=
  let max_num := default DEFAULT_MAX_NUM_QUARANTINE_RECORDS (max_num_quarantine_records config) in
  whitelist ← mapM Multiaddr.to_tcp_socket_addr (quarantine_whitelist config);
  Some (mkRecords (quarantine_duration config) whitelist (lru_new max_num) (lru_new max_num)).

Definition records_default : ReportRecords :=
  mkRecords DEFAULT_QUARANTINE_DURATION [] (lru_new DEFAULT_MAX_NUM_QUARANTINE_RECORDS)
    (lru_new DEFAULT_MAX_NUM_QUARANTINE_RECORDS).

Definition set_records (rs : lru NodeId ReportRecord) (r : ReportRecords) : ReportRecords :=
  mkRecords (report_duration r) (report_whitelist r) (report_grace r) rs.
Definition set_grace (gs : lru NodeId unit) (r : ReportRecords) : ReportRecords :=
  mkRecords (report_duration r) (report_whitelist r) gs (report_records r).

(** [topology.peers().dirty().contains(id)] *)
Definition is_dirty (i : NodeId) (t : Topo) : bool := bool_decide (i ∈ (dirty t).*1).

Definition quarantine_report_node (now : Instant) (system_now : SystemTime) (t : Topo) (node : G)
    (r : ReportRecords) : Topo * ReportRecords * ReportNodeStatus :=
  if decide (gossip_address node ∈ report_whitelist r) then (t, r, StatusOk)
  else if lru_contains (gossip_id node) (report_grace r) then (t, r, StatusOk)
  else
    let info := peer_info_from node in
    let t := topo_remove_peer (id info) t in
    let '(info, result) :=
      if is_dirty (id info) t then
        (mkPeerInfo (id info) (address info) (last_update info) (Some system_now) (subscriptions info),
         StatusQuarantine)
      else (info, StatusSoftReport) in
    (t, set_records (lru_put (id info) (mkRecord info now) (report_records r)) r, result).

Definition reported_nodes (r : ReportRecords) : list PeerInfo :=
  (λ e, peer_info e.2) <$> lru_entries (report_records r).

Definition record_new_gossip (node : NodeId) (r : ReportRecords) : ReportRecords :=
  set_grace (lru_pop node (report_grace r)).1 r.

(** [clock i] is the reading of the clock in the i-th round of the loop; [None]
    stands for the panic of [unwrap] and for a loop that uses up its fuel. *)
Fixpoint lift_loop (fuel : nat) (clock : nat → Instant) (i : nat) (r : ReportRecords) (res : list PeerInfo)
    : option (ReportRecords * list PeerInfo) :=
  match fuel with
  | O => None
  | S fuel =>
      match lru_peek_lru (report_records r) with
      | Some (_, record) =>
          if (elapsed (clock i) (report_time record) <? report_duration r)%Z then Some (r, res)
          else
            let '(rs, popped) := lru_pop_lru (report_records r) in
            '(i', record) ← popped;
            lift_loop fuel clock (S i) (set_grace (lru_put i' () (report_grace r)) (set_records rs r))
              (res ++ [peer_info record])
      | None => Some (r, res)
      end
  end.

(** Every round takes a record out, so one more round than there are records is
    enough. *)
Definition quarantine_lift_reports (clock : nat → Instant) (r : ReportRecords)
    : option (ReportRecords * list PeerInfo) :=
  lift_loop (S (length (lru_entries (report_records r)))) clock 0 r [].

(** *** The object (topology.rs), with the two gauges it keeps *)
Definition LOCAL_ADDR : SocketAddr := mkAddr (V4 127 0 0 1) 0.

Record View := mkView { view_peers : list G; self_node : G }.

Record P2pTopology := mkTopology {
  topology : Topo;
  quarantine : ReportRecords;
  key : SecretKey;
  peer_available : Z;
  peer_quarantined : Z;
}.

Definition set_topology (t : Topo) (s : P2pTopology) : P2pTopology :=
  mkTopology t (quarantine s) (key s) (peer_available s) (peer_quarantined s).
Definition set_quarantine (q : ReportRecords) (s : P2pTopology) : P2pTopology :=
  mkTopology (topology s) q (key s) (peer_available s) (peer_quarantined s).
Definition set_peer_available_cnt (n : Z) (s : P2pTopology) : P2pTopology :=
  mkTopology (topology s) (quarantine s) (key s) n (peer_quarantined s).
Definition add_peer_quarantined_cnt (n : Z) (s : P2pTopology) : P2pTopology :=
  mkTopology (topology s) (quarantine s) (key s) (peer_available s) (usize_add (peer_quarantined s) n).
Definition sub_peer_quarantined_cnt (n : Z) (s : P2pTopology) : P2pTopology :=
  mkTopology (topology s) (quarantine s) (key s) (peer_available s) (usize_sub (peer_quarantined s) n).

Record Configuration := mkConfiguration {
  public_address : option SocketAddr;
  node_key : SecretKey;
  policy : QuarantineConfig;
  layers : LayersConfig NodeId;
}.

(** The gauges start at zero with the process. *)
Definition p2p_new (config : Configuration) : option P2pTopology :=
  let addr := default LOCAL_ADDR (public_address config) in
  q ← from_config (policy config);
  let t := topo_new_with addr (node_key config) (layers config) in
  let t := topo_subscribe_topic BLOCKS (topo_subscribe_topic MESSAGES t) in
  Some (mkTopology t q (node_key config) 0 0).

Definition p2p_view (selection : Selection) (s : P2pTopology) : P2pTopology * View :=
  let '(t, profiles) := topo_view selection (topology s) in
  (set_topology t s, mkView (profile_gossip <$> profiles) (profile_gossip (topo_self_profile t))).

Definition initiate_gossips (recipient : NodeId) (s : P2pTopology) : P2pTopology * list G :=
  let '(t, gossips) := topo_gossips_for recipient (topology s) in
  let gossips := match gossips with
                 | [] => [profile_gossip (topo_self_profile t)]
                 | _ => gossips
                 end in
  (set_topology t s, filter (λ g, gossip_address g ≠ LOCAL_ADDR) gossips).

Definition list_available (s : P2pTopology) : list G :=
  (λ e, profile_gossip e.2) <$> (pool (topology s) ++ trusted (topology s)).

Definition peer_available_cnt (s : P2pTopology) : Z := Z.of_nat (length (list_available s)).

Definition update_available (s : P2pTopology) : P2pTopology := set_peer_available_cnt (peer_available_cnt s) s.

Fixpoint accept_gossips (gossips : list G) (s : P2pTopology) : P2pTopology :=
  match gossips with
  | [] => s
  | gossip :: gossips =>
      let peer := from_gossip gossip in
      let peer_id := profile_id peer in
      let '(t, added) := topo_add_peer peer (topology s) in
      let s := set_topology t s in
      accept_gossips gossips
        (if added then update_available (set_quarantine (record_new_gossip peer_id (quarantine s)) s) else s)
  end.

Definition list_quarantined (s : P2pTopology) : list PeerInfo :=
  filter (λ profile, is_dirty (id profile) (topology s) = true) (reported_nodes (quarantine s)).

Definition list_non_public (s : P2pTopology) : list G :=
  filter (λ peer, is_global (gossip_address peer) = false)
    ((λ e, profile_gossip e.2) <$> (pool (topology s) ++ trusted (topology s))).

Definition promote_node (node : NodeId) (s : P2pTopology) : P2pTopology :=
  update_available (set_topology (topo_promote_peer node (topology s)) s).

Definition report_node (now : Instant) (system_now : SystemTime) (node_id : NodeId) (s : P2pTopology)
    : P2pTopology :=
  let '(t, node) := topo_get node_id (topology s) in
  let s := set_topology t s in
  match node with
  | Some node =>
      let '(t, q, result) :=
        quarantine_report_node now system_now (topology s) (profile_gossip node) (quarantine s) in
      let s := set_topology t (set_quarantine q s) in
      let s := match result with
               | StatusQuarantine | StatusSoftReport => update_available s
               | StatusOk => s
               end in
      match result with
      | StatusQuarantine => add_peer_quarantined_cnt 1 s
      | _ => s
      end
  | None => s
  end.

Definition update_gossip (s : P2pTopology) : P2pTopology :=
  set_topology (topo_update_profile_subscriptions (key s) (topology s)) s.

(** The closure of [filter_map], on the lifted reports in order. *)
Fixpoint lift_each (nodes : list PeerInfo) (s : P2pTopology) : P2pTopology * list G :=
  match nodes with
  | [] => (s, [])
  | node :: nodes =>
      match alist_get (id node) (dirty (topology s)) with
      | Some node =>
          let s := set_topology (topo_promote_peer (profile_id node) (topology s)) s in
          let s := update_available (sub_peer_quarantined_cnt 1 s) in
          let '(s, peers) := lift_each nodes s in
          (s, profile_gossip node :: peers)
      | None => lift_each nodes s
      end
  end.

Definition lift_reports (clock : nat → Instant) (s : P2pTopology) : option (P2pTopology * list G) :=
  '(q, nodes) ← quarantine_lift_reports clock (quarantine s);
  Some (lift_each nodes (set_quarantine q s)).

(** *** The task (process.rs) *)
Definition DEFAULT_NETWORK_STUCK_INTERVAL : Z := 60 * 5 * 1000.
Definition QUARANTINE_CHECK : Z := 60 * 1000.
Definition MAX_GOSSIP_NODES : nat := 10.

Inductive TopologyMsg :=
| AcceptGossip (gossip : list G)
| DemotePeer (id : NodeId)
| PromotePeer (id : NodeId)
| ViewMsg (selection : Selection)
| ListAvailable
| ListNonPublic
| ListQuarantined.

Inductive Reply := ReplyView (view : View) | ReplyInfo (infos : list PeerInfo).

Record Process := mkProcess {
  proc_topology : P2pTopology;
  last_gossip : Instant;
  network_stuck_check : Z;
  (** The messages handed to the network task. *)
  network_sent : list (G * list G);
}.

Definition set_proc_topology (t : P2pTopology) (s : Process) : Process :=
  mkProcess t (last_gossip s) (network_stuck_check s) (network_sent s).
Definition set_last_gossip (t : Instant) (s : Process) : Process :=
  mkProcess (proc_topology s) t (network_stuck_check s) (network_sent s).

(** The branch of [select!] that is taken. *)
Inductive Event := Input (msg : TopologyMsg) | GossipTick | QuarantineTick.

(** The readings of the clocks in one step, and whether the message box takes
    the n-th message. *)
Record Env := mkEnv {
  lift_clock : nat → Instant;
  check_clock : Instant;
  now : Instant;
  system_now : SystemTime;
  has_room : nat → bool;
}.

Fixpoint send_gossip_messages (room : nat → bool) (peers : list G) (s : Process) : Process :=
  match peers with
  | [] => s
  | peer :: peers =>
      let '(t, gossip) := initiate_gossips (gossip_id peer) (proc_topology s) in
      let s := set_proc_topology t s in
      let s := if room (length (network_sent s)) then
                 mkProcess (proc_topology s) (last_gossip s) (network_stuck_check s)
                   (network_sent s ++ [(peer, gossip)])
               else s in
      send_gossip_messages room peers s
  end.

Definition handle_msg (env : Env) (msg : TopologyMsg) (s : Process) : Process * option Reply :=
  match msg with
  | AcceptGossip gossip =>
      (set_last_gossip (now env) (set_proc_topology (accept_gossips gossip (proc_topology s)) s), None)
  | DemotePeer i =>
      (set_proc_topology (report_node (now env) (system_now env) i (proc_topology s)) s, None)
  | PromotePeer i => (set_proc_topology (promote_node i (proc_topology s)) s, None)
  | ViewMsg selection =>
      let '(t, v) := p2p_view selection (proc_topology s) in
      (set_proc_topology t s, Some (ReplyView v))
  | ListAvailable => (s, Some (ReplyInfo (peer_info_from <$> list_available (proc_topology s))))
  | ListNonPublic => (s, Some (ReplyInfo (peer_info_from <$> list_non_public (proc_topology s))))
  | ListQuarantined => (s, Some (ReplyInfo (list_quarantined (proc_topology s))))
  end.

Definition gossip_tick (env : Env) (s : Process) : Process :=
  let '(t, v) := p2p_view selection_any (update_gossip (proc_topology s)) in
  send_gossip_messages (has_room env) (view_peers v) (set_proc_topology t s).

Definition quarantine_tick (env : Env) (s : Process) : option Process :=
  '(t, nodes_to_contact) ← lift_reports (lift_clock env) (proc_topology s);
  let s := set_proc_topology t s in
  let '(s, nodes_to_contact) :=
    if (network_stuck_check s <? elapsed (check_clock env) (last_gossip s))%Z then
      (set_last_gossip (now env) s,
       nodes_to_contact ++
         take (MAX_GOSSIP_NODES - length nodes_to_contact) (list_available (proc_topology s)))
    else (s, nodes_to_contact) in
  Some (send_gossip_messages (has_room env) nodes_to_contact s).

Definition step (env : Env) (ev : Event) (s : Process) : option (Process * option Reply) :=
  match ev with
  | Input msg => Some (handle_msg env msg s)
  | GossipTick => Some (gossip_tick env s, None)
  | QuarantineTick => s ← quarantine_tick env s; Some (s, None)
  end.

(** [start], up to the loop. *)
Definition start (config : Configuration) (stuck_check : Z) (initial_peers : list G) (t0 : Instant)
    : option Process :=
  t ← p2p_new config;
  Some (mkProcess (accept_gossips initial_peers t) t0 stuck_check []).

Fixpoint run (evs : list (Env * Event)) (s : Process) : option Process :=
  match evs with
  | [] => Some s
  | (env, ev) :: evs => '(s, _) ← step env ev s; run evs s
  end.

(** ** What is relied on of poldercast *)

(** The same nodes are in the same pools. *)
Definition same_pools (t t' : Topo) : Prop :=
  (pool t').*1 ≡ₚ (pool t).*1 ∧ (trusted t').*1 ≡ₚ (trusted t).*1 ∧ (dirty t').*1 ≡ₚ (dirty t).*1.

(** Queries leave the pools alone; a node gets into the dirty pool only by its
    own demotion, and leaves it when it is promoted. *)
Class PoldercastLaws : Prop := {
  dirty_NoDup t : NoDup (dirty t).*1;
  dirty_profile_id t i p : (i, p) ∈ dirty t → profile_id p = i;
  new_pools a k c : pool (topo_new_with a k c) = [] ∧ trusted (topo_new_with a k c) = [] ∧
                    dirty (topo_new_with a k c) = [];
  subscribe_pools topic t : same_pools t (topo_subscribe_topic topic t);
  view_pools sel t : same_pools t (topo_view sel t).1;
  gossips_for_pools i t : same_pools t (topo_gossips_for i t).1;
  update_profile_pools k t : same_pools t (topo_update_profile_subscriptions k t);
  get_pools i t : same_pools t (topo_get i t).1;
  add_refused_pools p t : (topo_add_peer p t).2 = false → same_pools t (topo_add_peer p t).1;
  add_dirty p t : (dirty (topo_add_peer p t).1).*1 ⊆ (dirty t).*1;
  remove_dirty i t : (dirty (topo_remove_peer i t)).*1 ⊆ i :: (dirty t).*1;
  promote_dirty i t e : e ∈ dirty (topo_promote_peer i t) ↔ e ∈ dirty t ∧ e.1 ≠ i;
}.

Context `{!PoldercastLaws} `{!LruLaws NodeId unit} `{!LruLaws NodeId ReportRecord}.
Implicit Types (r : ReportRecords) (s : P2pTopology) (t : Topo).

(** ** Lifting reports *)
Definition entries r : list (NodeId * ReportRecord) := lru_entries (report_records r).
Definition graces r : list (NodeId * unit) := lru_entries (report_grace r).

Definition newest_first (es : list (NodeId * ReportRecord)) : Prop :=
  StronglySorted (λ e1 e2, (report_time e2.2 ≤ report_time e1.2)%Z) es.

(** The report [e] has not served its time at the reading [now]. *)
Definition running r (now : Instant) (e : NodeId * ReportRecord) : Prop :=
  (elapsed now (report_time e.2) < report_duration r)%Z.

Definition graced (lifted : list (NodeId * ReportRecord)) : list (NodeId * unit) :=
  (λ e, (e.1, ())) <$> reverse lifted.

Lemma running_kept r now es e :
  newest_first (es ++ [e]) → running r now e → ∀ e', e' ∈ es ++ [e] → running r now e'.
Proof.
  intros Hs He e' [Hin| ->%list_elem_of_singleton]%elem_of_app; [|done].
  apply StronglySorted_app in Hs as (Hs & _ & _).
  unfold running, elapsed in *. specialize (Hs e' e Hin ltac:(set_solver)). simpl in Hs. lia.
Qed.

Lemma newest_first_app_l es es' : newest_first (es ++ es') → newest_first es.
Proof. unfold newest_first. rewrite StronglySorted_app. tauto. Qed.

Lemma take_pred_snoc {A} (l : list A) x : take (pred (length (l ++ [x]))) (l ++ [x]) = l.
Proof. rewrite length_app, Nat.add_1_r. apply take_app_length. Qed.

Lemma snoc_keys {V} (es : list (NodeId * V)) k v k' : k' ∈ (es ++ [(k, v)]).*1 ↔ k' ∈ es.*1 ∨ k' = k.
Proof. rewrite fmap_app, elem_of_app. simpl. by rewrite list_elem_of_singleton. Qed.

(** One round of the loop: the oldest report moves to the grace list. *)
Lemma lift_round r es k rec :
  entries r = es ++ [(k, rec)] → (∀ k, k ∈ (entries r).*1 → k ∉ (graces r).*1) →
  let r1 := set_grace (lru_put k () (report_grace r)) (set_records (lru_pop_lru (report_records r)).1 r) in
  (lru_pop_lru (report_records r)).2 = Some (k, rec) ∧ entries r1 = es ∧
  graces r1 = take (lru_cap (report_grace r)) ((k, ()) :: graces r) ∧
  lru_cap (report_grace r1) = lru_cap (report_grace r) ∧
  (∀ k, k ∈ (entries r1).*1 → k ∉ (graces r1).*1).
Proof.
  intros Hes Hd r1. destruct (lru_pop_lru_spec (report_records r)) as (Hp & He & _).
  change (lru_entries (report_records r)) with (entries r) in *. rewrite Hes in Hp, He.
  rewrite last_snoc in Hp. rewrite take_pred_snoc in He.
  assert (graces r1 = take (lru_cap (report_grace r)) ((k, ()) :: graces r)) as Hg.
  { unfold graces at 1. cbn [r1 set_grace report_grace]. rewrite lru_put_entries, alist_del_absent; [done|].
    apply Hd. rewrite Hes. apply snoc_keys. tauto. }
  split; [done|split; [done|split; [done|split; [apply lru_put_cap|]]]].
  intros k' Hk' Hin. change (entries r1) with (lru_entries (lru_pop_lru (report_records r)).1) in Hk'.
  rewrite He in Hk'. rewrite Hg, fmap_take in Hin.
  apply elem_of_take in Hin as (j & Hj%list_elem_of_lookup_2 & _). apply elem_of_cons in Hj as [->|Hj].
  - pose proof (lru_NoDup (report_records r)) as Hnd. change (lru_entries _) with (entries r) in Hnd.
    rewrite Hes, fmap_app in Hnd. apply NoDup_app in Hnd as (_ & Hnd & _).
    eapply Hnd; [done|]. by apply list_elem_of_singleton.
  - revert Hj. apply Hd. rewrite Hes. apply snoc_keys. tauto.
Qed.

Definition lift_post (clock : nat → Instant) (i : nat) r r' (kept lifted : list (NodeId * ReportRecord)) : Prop :=
  entries r = kept ++ reverse lifted ∧ entries r' = kept ∧
  report_duration r' = report_duration r ∧ report_whitelist r' = report_whitelist r ∧
  graces r' = take (lru_cap (report_grace r)) (graced lifted ++ graces r) ∧
  (∀ j e, lifted !! j = Some e → ¬ running r (clock (i + j)) e) ∧
  (∀ e, e ∈ kept → running r (clock (i + length lifted)) e).

Lemma lift_loop_spec fuel clock i r res :
  length (entries r) < fuel → newest_first (entries r) →
  (∀ k, k ∈ (entries r).*1 → k ∉ (graces r).*1) →
  ∃ r' kept lifted, lift_post clock i r r' kept lifted ∧
    lift_loop fuel clock i r res = Some (r', res ++ ((λ e, peer_info e.2) <$> lifted)).
Proof.
  revert i r res. induction fuel as [|fuel IH]; intros i r res Hlen Hs Hd; [lia|].
  cbn [lift_loop]. rewrite lru_peek_lru_spec. change (lru_entries (report_records r)) with (entries r).
  destruct (entries r) as [|[k rec] es _] eqn:Hes using rev_ind.
  { exists r, [], []. rewrite app_nil_r. repeat split; try done; simpl; try set_solver.
    unfold graces. by rewrite take_ge by apply lru_bounded. }
  rewrite last_snoc. case_match eqn:Hrun.
  { exists r, (es ++ [(k, rec)]), []. rewrite app_nil_r. repeat split; try done; simpl.
    - by rewrite app_nil_r.
    - unfold graces. by rewrite take_ge by apply lru_bounded.
    - rewrite Nat.add_0_r. apply running_kept; [done|]. apply Z.ltb_lt in Hrun. exact Hrun. }
  rewrite <- Hes in Hd. destruct (lift_round r es k rec Hes Hd) as (Hp & He & Hg & Hcap & Hd').
  destruct (lru_pop_lru (report_records r)) as [rs popped]. cbn [fst snd] in *. rewrite Hp. simpl.
  set (r1 := set_grace _ _) in *.
  destruct (IH (S i) r1 (res ++ [peer_info rec])) as (r' & kept & lifted & Hpost & Hrec).
  { rewrite He. rewrite length_app in Hlen. simpl in Hlen. lia. }
  { rewrite He. by eapply newest_first_app_l. }
  { done. }
  exists r', kept, ((k, rec) :: lifted). rewrite Hrec. split; [|by rewrite <- app_assoc].
  destruct Hpost as (H1 & H2 & H3 & H4 & H5 & H6 & H7).
  repeat split; try done; simpl.
  - by rewrite Hes, reverse_cons, app_assoc, <- H1, He.
  - rewrite H5, Hg, Hcap, take_app_take. unfold graced. by rewrite reverse_cons, fmap_app, <- app_assoc.
  - intros [|j] e Hj; simplify_eq/=.
    + rewrite Nat.add_0_r. unfold running. simpl. apply Z.ltb_ge in Hrun. lia.
    + rewrite Nat.add_succ_r. by apply H6.
  - intros e He'. rewrite Nat.add_succ_r. by apply H7.
Qed.

(** The peers that are contacted of a list of lifted reports: those whose node
    is still in the dirty pool. *)
Definition still_dirty t (nodes : list PeerInfo) : list G :=
  omap (λ node, profile_gossip <$> alist_get (id node) (dirty t)) nodes.

Lemma still_dirty_cons t n nodes :
  still_dirty t (n :: nodes) =
  match alist_get (id n) (dirty t) with
  | Some p => profile_gossip p :: still_dirty t nodes
  | None => still_dirty t nodes
  end.
Proof. unfold still_dirty. cbn. by destruct (alist_get _ _). Qed.

Lemma dirty_get t i p : alist_get i (dirty t) = Some p ↔ (i, p) ∈ dirty t.
Proof. split; [apply alist_get_elem|apply alist_get_NoDup, dirty_NoDup]. Qed.

Lemma promote_get i i' t :
  alist_get i' (dirty (topo_promote_peer i t)) = if decide (i' = i) then None else alist_get i' (dirty t).
Proof.
  apply option_eq. intros p. rewrite dirty_get, promote_dirty. simpl. case_decide; [naive_solver|].
  rewrite dirty_get. naive_solver.
Qed.

Lemma still_dirty_promote i t nodes :
  i ∉ id <$> nodes → still_dirty (topo_promote_peer i t) nodes = still_dirty t nodes.
Proof.
  intros Hi. induction nodes as [|n nodes IH]; [done|]. rewrite !still_dirty_cons.
  rewrite promote_get, decide_False by set_solver. by rewrite IH by set_solver.
Qed.

Lemma lift_each_spec nodes s :
  NoDup (id <$> nodes) → (Z.of_nat (length (still_dirty (topology s) nodes)) ≤ peer_quarantined s < U64)%Z →
  let '(s', contacted) := lift_each nodes s in
  contacted = still_dirty (topology s) nodes ∧ quarantine s' = quarantine s ∧
  peer_quarantined s' = (peer_quarantined s - Z.of_nat (length contacted))%Z ∧
  (peer_available s = peer_available_cnt s → peer_available s' = peer_available_cnt s') ∧
  (∀ e, e ∈ dirty (topology s') ↔ e ∈ dirty (topology s) ∧ e.1 ∉ id <$> nodes).
Proof.
  revert s. induction nodes as [|n nodes IH]; intros s Hnd Hq.
  { repeat split; simpl; try lia; set_solver. }
  cbn [fmap list_fmap] in Hnd. apply NoDup_cons in Hnd as [Hn Hnd]. cbn [lift_each].
  rewrite still_dirty_cons in Hq |- *.
  destruct (alist_get (id n) (dirty (topology s))) as [p|] eqn:Hp; simpl in *.
  - pose proof (dirty_profile_id _ _ _ (alist_get_elem _ _ _ Hp)) as Hid. rewrite Hid.
    set (s1 := update_available _).
    assert (topology s1 = topo_promote_peer (id n) (topology s)) as Ht by done.
    assert (peer_quarantined s1 = (peer_quarantined s - 1)%Z) as Hq1.
    { unfold s1. simpl. unfold usize_sub. apply wrap64_small. unfold U64 in *. lia. }
    specialize (IH s1 Hnd). rewrite Ht, Hq1, still_dirty_promote in IH by done.
    destruct (lift_each nodes s1) as [s' contacted].
    destruct IH as (-> & Hqq & Hg & Hav & Hd); [lia|]. split; [done|split; [done|]].
    split; [rewrite Hg; simpl; lia|split; [by auto|]].
    intros e. rewrite Hd, promote_dirty. set_solver.
  - specialize (IH s Hnd). destruct (lift_each nodes s) as [s' contacted].
    destruct IH as (-> & Hqq & Hg & Hav & Hd); [done|].
    split; [done|split; [done|split; [done|split; [done|]]]].
    intros e. rewrite Hd. split; [|set_solver]. intros [He Hne]. split; [done|].
    intros [Heq|?]%elem_of_cons; [|done]. apply alist_get_None in Hp. apply Hp, list_elem_of_fmap. eauto.
Qed.

(** ** The invariant *)
Definition listed t (es : list (NodeId * ReportRecord)) : list (NodeId * ReportRecord) :=
  filter (λ e, e.1 ∈ (dirty t).*1) es.

Section invariant.
(** The whitelist and the duration of the configuration. *)
Context (W : list SocketAddr) (D : Z).

(** [T]: a time not before the last reading of the clock; [n]: the number of
    events handled. *)
Record topology_ok (T : Instant) (n : Z) s : Prop := {
  ok_config : report_whitelist (quarantine s) = W;
  ok_duration : report_duration (quarantine s) = D;
  ok_sorted : newest_first (entries (quarantine s));
  ok_time : ∀ e, e ∈ entries (quarantine s) → (report_time e.2 ≤ T)%Z;
  ok_keyed : ∀ e, e ∈ entries (quarantine s) → id (peer_info e.2) = e.1;
  ok_whitelist : ∀ e, e ∈ entries (quarantine s) → address (peer_info e.2) ∉ report_whitelist (quarantine s);
  ok_disjoint : ∀ i, i ∈ (entries (quarantine s)).*1 → i ∉ (graces (quarantine s)).*1;
  ok_available : peer_available s = peer_available_cnt s;
  ok_quarantined : (Z.of_nat (length (listed (topology s) (entries (quarantine s)))) ≤ peer_quarantined s ≤ n)%Z;
}.

Lemma listed_le t t' es es' :
  es' `sublist_of` es → (∀ i, i ∈ es'.*1 → i ∈ (dirty t').*1 → i ∈ (dirty t).*1) →
  length (listed t' es') ≤ length (listed t es).
Proof.
  intros Hsub Hi. apply filter_sublist_le; [done|]. intros e He. apply Hi, list_elem_of_fmap. eauto.
Qed.

Lemma same_pools_available t t' :
  same_pools t t' → length (pool t' ++ trusted t') = length (pool t ++ trusted t).
Proof.
  intros (Hp & Ht & _). apply Permutation_length in Hp, Ht. rewrite !length_fmap in Hp, Ht.
  rewrite !length_app. lia.
Qed.

Lemma same_pools_dirty t t' i : same_pools t t' → i ∈ (dirty t').*1 ↔ i ∈ (dirty t).*1.
Proof. intros (_ & _ & Hd). by rewrite Hd. Qed.

Lemma ok_set_topology T n s t :
  topology_ok T n s → same_pools (topology s) t → topology_ok T n (set_topology t s).
Proof.
  intros [] Hsame. split; try done; simpl.
  - rewrite ok_available0. unfold peer_available_cnt, list_available. rewrite !length_fmap. simpl.
    by rewrite (same_pools_available _ _ Hsame).
  - pose proof (listed_le (topology s) t (entries (quarantine s)) (entries (quarantine s))
      (reflexivity _)) as Hle.
    specialize (Hle (λ i _, proj1 (same_pools_dirty _ _ i Hsame))). lia.
Qed.

(** A change of the pools that adds no node to the dirty pool, with an update of
    the gauge of available peers. *)
Lemma ok_update T n s t :
  topology_ok T n s → (dirty t).*1 ⊆ (dirty (topology s)).*1 →
  topology_ok T n (update_available (set_topology t s)).
Proof.
  intros [] Hd. split; try done; simpl.
  pose proof (listed_le (topology s) t _ _ (reflexivity (entries (quarantine s))) (λ i _, Hd i)). lia.
Qed.

Lemma ok_new_gossip T n s i :
  topology_ok T n s → topology_ok T n (set_quarantine (record_new_gossip i (quarantine s)) s).
Proof.
  intros []. split; try done. intros k Hk. specialize (ok_disjoint0 k Hk). unfold graces in *. simpl.
  destruct (lru_pop_spec i (report_grace (quarantine s))) as (_ & -> & _).
  rewrite alist_del_key. tauto.
Qed.

Lemma accept_gossips_ok T n gossips s : topology_ok T n s → topology_ok T n (accept_gossips gossips s).
Proof.
  revert s. induction gossips as [|g gossips IH]; intros s Hok; [done|]. cbn [accept_gossips].
  pose proof (add_dirty (from_gossip g) (topology s)) as Hd.
  pose proof (add_refused_pools (from_gossip g) (topology s)) as Hr.
  destruct (topo_add_peer _ _) as [t [|]]; apply IH.
  - apply (ok_update _ _ _ t) in Hok; [|done]. by apply (ok_new_gossip _ _ _ (profile_id (from_gossip g))) in Hok.
  - by apply ok_set_topology, Hr.
Qed.

Lemma promote_node_ok T n i s : topology_ok T n s → topology_ok T n (promote_node i s).
Proof.
  intros Hok. apply ok_update; [done|]. intros k (e & -> & He%promote_dirty)%list_elem_of_fmap.
  apply list_elem_of_fmap. naive_solver.
Qed.

Lemma ok_mono T n T' n' s : topology_ok T n s → (T ≤ T')%Z → (n ≤ n')%Z → topology_ok T' n' s.
Proof. intros [] ? ?. split; try done; [|lia]. intros e He. specialize (ok_time0 e He). lia. Qed.

Lemma newest_first_sublist es es' : es' `sublist_of` es → newest_first es → newest_first es'.
Proof.
  unfold newest_first. induction 1 as [|x l k Hsub IH|x l k Hsub IH]; intros Hs; [done| |];
    apply StronglySorted_inv in Hs as [Hs Hx]; [|by apply IH].
  constructor; [by apply IH|]. rewrite Forall_forall in *. intros y Hy. apply Hx.
  by eapply elem_of_sublist.
Qed.

(** A new report: the most recent one, counted if the node is now dirty. *)
Lemma ok_new_report T n s t k b rec now :
  topology_ok T n s → (T ≤ now)%Z → (0 ≤ n < U64 - 1)%Z →
  (dirty t).*1 ⊆ k :: (dirty (topology s)).*1 → is_dirty k t = b →
  report_time rec = now → id (peer_info rec) = k → k ∉ (graces (quarantine s)).*1 →
  address (peer_info rec) ∉ report_whitelist (quarantine s) →
  let q := set_records (lru_put k rec (report_records (quarantine s))) (quarantine s) in
  let s' := update_available (set_topology t (set_quarantine q s)) in
  topology_ok now (n + 1) (if b then add_peer_quarantined_cnt 1 s' else s').
Proof.
  intros [] HT Hn Hd Hb Htime Hid Hg Hw q s'. set (es := entries (quarantine s)) in *.
  assert (entries q `sublist_of` (k, rec) :: alist_del k es) as Hsub.
  { unfold entries at 1, q. simpl. rewrite lru_put_entries. apply sublist_take. }
  assert (∀ e, e ∈ entries q → e = (k, rec) ∨ e ∈ es) as Hin by (intros e; apply lru_put_elem).
  assert (alist_del k es `sublist_of` es) as Hdel by apply sublist_filter.
  assert (length (listed t (entries q)) ≤
          (if b then 1 else 0) + length (listed (topology s) es)) as Hle.
  { etrans; [by apply (listed_le t t)|]. rewrite <- Hb. unfold listed at 1, is_dirty. rewrite filter_cons. simpl.
    assert (length (listed t (alist_del k es)) ≤ length (listed (topology s) es)) as Hle.
    { apply listed_le; [done|]. intros i [_ Hne]%alist_del_key Hi%Hd. set_solver. }
    unfold listed in Hle at 1. case_decide; [rewrite bool_decide_true by done|rewrite bool_decide_false by done];
      simpl; lia. }
  assert (peer_quarantined (if b then add_peer_quarantined_cnt 1 s' else s') =
          (peer_quarantined s + (if b then 1 else 0))%Z) as Hgauge.
  { destruct b; simpl; [|lia]. apply wrap64_small. unfold U64 in *. lia. }
  assert (quarantine (if b then add_peer_quarantined_cnt 1 s' else s') = q ∧
          topology (if b then add_peer_quarantined_cnt 1 s' else s') = t ∧
          peer_available (if b then add_peer_quarantined_cnt 1 s' else s') =
          peer_available_cnt (if b then add_peer_quarantined_cnt 1 s' else s'))
    as (Hq & Ht & Hav) by by destruct b.
  split; rewrite ?Hq, ?Ht, ?Hgauge; simpl; [done|done|..].
  - eapply newest_first_sublist; [done|]. constructor.
    + by eapply newest_first_sublist.
    + apply Forall_forall. intros e He%(λ H, elem_of_sublist _ _ _ H Hdel). simpl.
      specialize (ok_time0 e He). lia.
  - intros e [->|He]%Hin; simpl; [lia|]. specialize (ok_time0 e He). lia.
  - intros e [->|He]%Hin; simpl; auto.
  - intros e [->|He]%Hin; simpl; auto.
  - intros i (e & -> & [->|He]%Hin)%list_elem_of_fmap; [done|].
    apply ok_disjoint0, list_elem_of_fmap. eauto.
  - done.
  - destruct b; lia.
Qed.

Lemma report_node_ok T n now sys i s :
  topology_ok T n s → (T ≤ now)%Z → (0 ≤ n < U64 - 1)%Z → topology_ok now (n + 1) (report_node now sys i s).
Proof.
  intros Hok HT Hn. unfold report_node. pose proof (get_pools i (topology s)) as Hget.
  destruct (topo_get i (topology s)) as [t node]. apply (ok_set_topology _ _ _ t) in Hok; [|done].
  set (s1 := set_topology t s) in *. destruct node as [node|]; [|by apply (ok_mono T n); [..|lia]].
  unfold quarantine_report_node. case_decide as Hw.
  { apply (ok_mono T n); [|done|lia]. by destruct Hok. }
  rewrite lru_contains_spec. case_bool_decide as Hg.
  { apply (ok_mono T n); [|done|lia]. by destruct Hok. }
  cbn [id peer_info_from]. pose proof (remove_dirty (gossip_id (profile_gossip node)) (topology s1)) as Hrem.
  destruct (is_dirty _ _) eqn:Hdirty; cbn [id peer_info_from]; [apply (ok_new_report T n s1 _ _ true)|
    apply (ok_new_report T n s1 _ _ false)]; done.
Qed.

Lemma still_dirty_count t lifted :
  (∀ e, e ∈ lifted → id (peer_info e.2) = e.1) →
  length (still_dirty t ((λ e, peer_info e.2) <$> lifted)) = length (listed t lifted).
Proof.
  unfold listed. induction lifted as [|e lifted IH]; intros Hid; [done|]. rewrite fmap_cons, still_dirty_cons.
  rewrite Hid, filter_cons by set_solver. assert (is_Some (alist_get e.1 (dirty t)) ↔ e.1 ∈ (dirty t).*1)
    as Hsome by apply alist_get_is_Some.
  destruct (alist_get e.1 (dirty t)) as [p|].
  - rewrite decide_True by (apply Hsome; eauto). simpl. by rewrite IH by set_solver.
  - rewrite decide_False; [apply IH; set_solver|]. intros [? ?]%Hsome. done.
Qed.

Lemma graced_keys lifted i : i ∈ (graced lifted).*1 ↔ i ∈ lifted.*1.
Proof.
  unfold graced. rewrite <- list_fmap_compose. rewrite !list_elem_of_fmap. setoid_rewrite elem_of_reverse. done.
Qed.

Lemma lift_reports_run T n clock s :
  topology_ok T n s → (n < U64)%Z →
  ∃ s' q kept lifted, lift_post clock 0 (quarantine s) q kept lifted ∧
    let contacted := still_dirty (topology s) ((λ e, peer_info e.2) <$> lifted) in
    lift_loop (S (length (entries (quarantine s)))) clock 0 (quarantine s) [] =
      Some (q, (λ e, peer_info e.2) <$> lifted) ∧
    lift_reports clock s = Some (s', contacted) ∧ quarantine s' = q ∧ topology_ok T n s' ∧
    peer_quarantined s' = (peer_quarantined s - Z.of_nat (length contacted))%Z ∧
    (∀ e, e ∈ dirty (topology s') ↔ e ∈ dirty (topology s) ∧ e.1 ∉ lifted.*1).
Proof.
  intros [] Hn. destruct (lift_loop_spec (S (length (entries (quarantine s)))) clock 0 (quarantine s) [])
    as (q & kept & lifted & Hpost & Hrun); [lia|done..|].
  unfold lift_reports, quarantine_lift_reports. change (lru_entries _) with (entries (quarantine s)).
  rewrite Hrun. cbn [mbind option_bind app].
  destruct Hpost as (Hes & Hkept & Hdur & Hwl & Hg & Hl & Hk).
  set (nodes := (λ e, peer_info e.2) <$> lifted) in *.
  assert (id <$> nodes = lifted.*1) as Hids.
  { unfold nodes. rewrite <- list_fmap_compose. apply list_fmap_ext. intros j e He%list_elem_of_lookup_2.
    apply ok_keyed0. rewrite Hes. apply elem_of_app. right. by apply elem_of_reverse. }
  assert (NoDup (entries (quarantine s)).*1) as Hnd by apply lru_NoDup.
  assert (NoDup lifted.*1) as Hndl.
  { rewrite Hes, fmap_app, fmap_reverse in Hnd. apply NoDup_app in Hnd as (_ & _ & Hnd).
    by rewrite reverse_Permutation in Hnd. }
  assert (length (still_dirty (topology s) nodes) = length (listed (topology s) lifted)) as Hcount.
  { apply still_dirty_count. intros e He. apply ok_keyed0. rewrite Hes. apply elem_of_app.
    right. by apply elem_of_reverse. }
  assert (length (listed (topology s) (entries (quarantine s))) =
          (length (listed (topology s) kept) + length (listed (topology s) lifted))%nat) as Hsum.
  { rewrite Hes. unfold listed. rewrite filter_app, length_app. f_equal.
    apply Permutation_length. by rewrite reverse_Permutation. }
  pose proof (lift_each_spec nodes (set_quarantine q s)) as Heach. simpl in Heach.
  destruct (lift_each nodes (set_quarantine q s)) as [s' contacted].
  destruct Heach as (-> & Hq' & Hgauge & Hav & Hdirty); [by rewrite Hids|lia|].
  exists s', q, kept, lifted. fold nodes. rewrite Hids in Hdirty.
  split; [done|split; [done|split; [done|split; [done|]]]].
  assert (∀ e, e ∈ kept → e ∈ entries (quarantine s)) as Hin by (intros e ?; rewrite Hes; set_solver).
  split; [|done]. split; rewrite ?Hq', ?Hkept, ?Hwl, ?Hdur; auto.
  - eapply newest_first_sublist; [|done]. rewrite Hes. by apply sublist_inserts_r.
  - intros i Hi Hin'. rewrite Hg, fmap_take in Hin'.
    apply elem_of_take in Hin' as (j & Hj%list_elem_of_lookup_2 & _). rewrite fmap_app in Hj.
    apply elem_of_app in Hj as [Hj%graced_keys|Hj].
    + rewrite Hes, fmap_app, fmap_reverse in Hnd. apply NoDup_app in Hnd as (_ & Hnd & _).
      apply (Hnd i Hi). by apply elem_of_reverse.
    + apply (ok_disjoint0 i); [|done]. rewrite Hes, fmap_app. set_solver.
  - assert (length (listed (topology s') kept) ≤ length (listed (topology s) kept)).
    { apply listed_le; [done|]. intros i _ (e & -> & He%Hdirty)%list_elem_of_fmap.
      apply list_elem_of_fmap. naive_solver. }
    lia.
Qed.

Lemma initiate_gossips_ok T n i s :
  topology_ok T n s →
  topology_ok T n (initiate_gossips i s).1 ∧
  ∀ g, g ∈ (initiate_gossips i s).2 → gossip_address g ≠ LOCAL_ADDR.
Proof.
  intros Hok. unfold initiate_gossips. pose proof (gossips_for_pools i (topology s)) as Hp.
  destruct (topo_gossips_for i (topology s)) as [t gs]. split; [by apply ok_set_topology|].
  intros g Hg. by apply list_elem_of_filter in Hg as [? _].
Qed.

Definition process_ok (T : Instant) (n : Z) (p : Process) : Prop :=
  topology_ok T n (proc_topology p) ∧
  ∀ m g, m ∈ network_sent p → g ∈ m.2 → gossip_address g ≠ LOCAL_ADDR.

Lemma send_gossip_messages_ok T n room peers p :
  process_ok T n p → process_ok T n (send_gossip_messages room peers p).
Proof.
  revert p. induction peers as [|peer peers IH]; intros p [Hok Hsent]; [done|]. cbn [send_gossip_messages].
  destruct (initiate_gossips_ok T n (gossip_id peer) _ Hok) as [Hok' Hg].
  destruct (initiate_gossips _ _) as [t gs]. apply IH. case_match; [|done]. split; [done|].
  intros m g [Hm| ->%list_elem_of_singleton]%elem_of_app Hgm; [by eapply Hsent|by apply Hg].
Qed.

Lemma view_ok T n sel s : topology_ok T n s → topology_ok T n (p2p_view sel s).1.
Proof.
  intros Hok. unfold p2p_view. pose proof (view_pools sel (topology s)) as Hp.
  destruct (topo_view sel (topology s)). by apply ok_set_topology.
Qed.

Lemma step_ok T n env ev p :
  process_ok T n p → (T ≤ now env)%Z → (0 ≤ n < U64 - 1)%Z →
  ∃ p' reply, step env ev p = Some (p', reply) ∧ process_ok (now env) (n + 1) p'.
Proof.
  intros [Hok Hsent] HT Hn.
  assert (∀ s, topology_ok T n s → topology_ok (now env) (n + 1) s) as Hmono.
  { intros s Hs. by apply (ok_mono T n); [..|lia]. }
  destruct ev as [msg| |]; cbn [step].
  - destruct (handle_msg env msg p) as [p' reply] eqn:Hm. exists p', reply. split; [done|].
    destruct msg as [gs|i|i|sel| | |]; cbn [handle_msg] in Hm; simplify_eq; try by split; auto.
    + split; [|done]. by apply Hmono, accept_gossips_ok.
    + split; [|done]. by eapply report_node_ok.
    + split; [|done]. by apply Hmono, promote_node_ok.
    + pose proof (view_ok T n sel _ Hok) as Hv. destruct (p2p_view _ _); simplify_eq. split; [|done]. by apply Hmono.
  - eexists _, _. split; [done|]. unfold gossip_tick.
    pose proof (view_ok T n selection_any (update_gossip (proc_topology p))) as Hv.
    destruct (p2p_view _ _) as [t v]. apply send_gossip_messages_ok. split; [|done].
    apply Hmono, Hv, ok_set_topology; [done|apply update_profile_pools].
  - destruct (lift_reports_run T n (lift_clock env) _ Hok) as (s' & q & k & l & _ & _ & Hrun & _ & Hok' & _); [lia|].
    unfold quarantine_tick. rewrite Hrun. cbn [mbind option_bind]. destruct (Z.ltb _ _);
      (eexists _, _; split; [done|]; apply send_gossip_messages_ok; split; [by apply Hmono|done]).
Qed.

(** The clock does not run backwards between the events. *)
Fixpoint timed (T : Instant) (evs : list (Env * Event)) : Prop :=
  match evs with
  | [] => True
  | (env, _) :: evs => (T ≤ now env)%Z ∧ timed (now env) evs
  end.

Lemma run_ok T n evs p :
  process_ok T n p → timed T evs → (0 ≤ n)%Z → (n + Z.of_nat (length evs) < U64)%Z →
  ∃ p' T', run evs p = Some p' ∧ process_ok T' (n + Z.of_nat (length evs)) p'.
Proof.
  revert T n p. induction evs as [|[env ev] evs IH]; intros T n p Hok Ht Hn Hlen.
  { exists p, T. simpl. by rewrite Z.add_0_r. }
  cbn [length timed] in *. destruct Ht as [HT Ht].
  destruct (step_ok T n env ev p Hok HT) as (p1 & reply & Hstep & Hok1); [lia|].
  destruct (IH (now env) (n + 1)%Z p1 Hok1 Ht) as (p' & T' & Hrun & Hok'); [lia|lia|].
  exists p', T'. cbn [run]. rewrite Hstep. simpl. split; [done|].
  replace (n + Z.of_nat (S (length evs)))%Z with (n + 1 + Z.of_nat (length evs))%Z by lia. done.
Qed.

Lemma list_quarantined_count T n s :
  topology_ok T n s → length (list_quarantined s) = length (listed (topology s) (entries (quarantine s))).
Proof.
  intros []. unfold list_quarantined, reported_nodes, listed, is_dirty.
  change (lru_entries (report_records (quarantine s))) with (entries (quarantine s)).
  clear -ok_keyed0. induction (entries (quarantine s)) as [|e es IH]; [done|]. rewrite fmap_cons, !filter_cons.
  rewrite ok_keyed0 by set_solver. destruct (decide (e.1 ∈ (dirty (topology s)).*1)) as [Hin|Hin].
  - rewrite !decide_True by (done || by apply bool_decide_eq_true). simpl. by rewrite IH by set_solver.
  - rewrite decide_False; [apply IH; set_solver|]. by rewrite bool_decide_eq_true.
Qed.
End invariant.

Lemma from_config_whitelist config r :
  from_config config = Some r →
  entries r = [] ∧ graces r = [] ∧ report_duration r = quarantine_duration config ∧
  mapM Multiaddr.to_tcp_socket_addr (quarantine_whitelist config) = Some (report_whitelist r).
Proof.
  unfold from_config. destruct (mapM _ _) as [w|]; simpl; [|done]. intros [= <-].
  unfold entries, graces. simpl. by rewrite !lru_new_entries.
Qed.

Lemma p2p_new_ok config s (t0 : Instant) :
  p2p_new config = Some s →
  mapM Multiaddr.to_tcp_socket_addr (quarantine_whitelist (policy config)) = Some (report_whitelist (quarantine s)) ∧
  topology_ok (report_whitelist (quarantine s)) (quarantine_duration (policy config)) t0 0 s.
Proof.
  unfold p2p_new. destruct (from_config (policy config)) as [q|] eqn:Hq; [|done]. intros [= <-].
  apply from_config_whitelist in Hq as (Hes & Hg & Hd & Hw). split; [done|].
  set (t := topo_new_with _ _ _).
  destruct (new_pools (default LOCAL_ADDR (public_address config)) (node_key config) (layers config))
    as (Hp & Ht & Hdt).
  apply (ok_set_topology _ _ _ _ (mkTopology (topo_subscribe_topic MESSAGES t) q (node_key config) 0 0));
    [|apply subscribe_pools].
  apply (ok_set_topology _ _ _ _ (mkTopology t q (node_key config) 0 0)); [|apply subscribe_pools].
  split; simpl; rewrite ?Hes; try done; [constructor|set_solver..|].
  unfold peer_available_cnt, list_available. simpl. unfold t. by rewrite Hp, Ht.
Qed.

Lemma reachable_ok config stuck_check initial_peers (t0 : Instant) evs p0 :
  start config stuck_check initial_peers t0 = Some p0 →
  timed t0 evs → (Z.of_nat (length evs) < U64)%Z →
  ∃ p T W, run evs p0 = Some p ∧
    mapM Multiaddr.to_tcp_socket_addr (quarantine_whitelist (policy config)) = Some W ∧
    process_ok W (quarantine_duration (policy config)) T (Z.of_nat (length evs)) p.
Proof.
  unfold start. destruct (p2p_new config) as [s0|] eqn:Hs0; [|done]. intros [= <-] Ht Hlen.
  destruct (p2p_new_ok config s0 t0 Hs0) as (Hw & Hok0).
  destruct (run_ok (report_whitelist (quarantine s0)) (quarantine_duration (policy config)) t0 0 evs
    (mkProcess (accept_gossips initial_peers s0) t0 stuck_check [])) as (p & T & Hrun & Hok); [|done|lia|lia|].
  { split; [by apply accept_gossips_ok|set_solver]. }
  rewrite Z.add_0_l in Hok. eauto 10.
Qed.

(** C12: whatever messages the topology task handles and however its timers fire,
    it does not panic once it has started, and at any time: no node on the
    whitelist of the configuration is reported; no node is reported twice, or
    while it is on the grace list; reports are listed from the newest to the
    oldest; the gauge of available peers is their number; the gauge of
    quarantined peers is at least the number of peers listed as quarantined,
    so that it never runs below zero; and no gossip sent to the network holds
    the local address. *)
Theorem topology_invariant config stuck_check initial_peers (t0 : Instant) evs p0 :
  start config stuck_check initial_peers t0 = Some p0 →
  timed t0 evs → (Z.of_nat (length evs) < U64)%Z →
  ∃ p, run evs p0 = Some p ∧
    let s := proc_topology p in
    (∀ info m, info ∈ reported_nodes (quarantine s) → m ∈ quarantine_whitelist (policy config) →
       Multiaddr.to_tcp_socket_addr m ≠ Some (address info)) ∧
    NoDup (id <$> reported_nodes (quarantine s)) ∧
    (∀ info, info ∈ reported_nodes (quarantine s) →
       lru_contains (id info) (report_grace (quarantine s)) = false) ∧
    newest_first (entries (quarantine s)) ∧
    peer_available s = Z.of_nat (length (list_available s)) ∧
    (Z.of_nat (length (list_quarantined s)) ≤ peer_quarantined s ≤ Z.of_nat (length evs))%Z ∧
    (∀ peer gossip g, (peer, gossip) ∈ network_sent p → g ∈ gossip → gossip_address g ≠ LOCAL_ADDR).
Proof.
  intros Hstart Ht Hlen.
  destruct (reachable_ok _ _ _ _ _ _ Hstart Ht Hlen) as (p & T & W & Hrun & Hw & Hok & Hsent).
  exists p. cbv zeta. split; [done|]. set (s := proc_topology p) in *.
  pose proof (list_quarantined_count _ _ _ _ _ Hok) as Hcount. destruct Hok.
  assert (∀ info, info ∈ reported_nodes (quarantine s) → ∃ e, e ∈ entries (quarantine s) ∧ info = peer_info e.2)
    as Hinfo.
  { intros info (e & -> & He)%list_elem_of_fmap. eauto. }
  split; [|split; [|split; [|split; [done|split; [done|split; [lia|by eauto]]]]]].
  - intros info m (e & He & ->)%Hinfo Hm Heq. apply (ok_whitelist0 e He). rewrite ok_config0.
    apply mapM_Some_1 in Hw. apply list_elem_of_lookup in Hm as [j Hj].
    destruct (Forall2_lookup_l _ _ _ _ _ Hw Hj) as (a & Ha & Hma). rewrite Heq in Hma. simplify_eq.
    by apply list_elem_of_lookup_2 in Ha.
  - unfold reported_nodes. rewrite <- list_fmap_compose.
    rewrite (list_fmap_ext _ fst); [apply lru_NoDup|]. intros j e He%list_elem_of_lookup_2. by apply ok_keyed0.
  - intros info (e & He & ->)%Hinfo. rewrite lru_contains_spec, ok_keyed0 by done.
    apply bool_decide_false, ok_disjoint0, list_elem_of_fmap. eauto.
Qed.

Lemma lift_loop_fuel fuel k clock i r res x :
  lift_loop fuel clock i r res = Some x → lift_loop (fuel + k) clock i r res = Some x.
Proof.
  revert i r res. induction fuel as [|fuel IH]; intros i r res; [done|]. simpl.
  destruct (lru_peek_lru _) as [[? ?]|]; [|done]. case_match; [done|].
  destruct (lru_pop_lru _) as [rs [[? ?]|]]; simpl; [apply IH|done].
Qed.

(** C31: in every state the topology task can reach, the loop that lifts reports
    ends, with as many rounds as it likes beyond the number of reports.  It
    takes out a final segment of the reports, the oldest first: each one taken
    had served the configured time when it was looked at, and none of those
    left had when the loop ended.  The nodes are moved to the grace list, of
    which the oldest entries are dropped if it is full.  Those, and only
    those, that are still in the dirty pool are promoted out of it, contacted
    again and taken off the gauge: a node that was reported without being
    quarantined is not contacted. *)
Theorem lift_reports_correct config stuck_check initial_peers (t0 : Instant) evs p0 p clock :
  start config stuck_check initial_peers t0 = Some p0 →
  timed t0 evs → (Z.of_nat (length evs) < U64)%Z → run evs p0 = Some p →
  let s := proc_topology p in
  let served time e := (quarantine_duration (policy config) <= elapsed time (report_time e.2))%Z in
  ∃ s' kept lifted,
    let infos := (λ e, peer_info e.2) <$> lifted in
    let contacted := still_dirty (topology s) infos in
    lift_reports clock s = Some (s', contacted) ∧
    (∀ fuel, length (reported_nodes (quarantine s)) < fuel →
       lift_loop fuel clock 0 (quarantine s) [] = Some (quarantine s', infos)) ∧
    entries (quarantine s) = kept ++ reverse lifted ∧ entries (quarantine s') = kept ∧
    (∀ j e, lifted !! j = Some e → served (clock j) e) ∧
    (∀ e, e ∈ kept → ¬ served (clock (length lifted)) e) ∧
    graces (quarantine s') =
      take (lru_cap (report_grace (quarantine s))) (graced lifted ++ graces (quarantine s)) ∧
    (∀ e, e ∈ dirty (topology s') ↔ e ∈ dirty (topology s) ∧ e.1 ∉ lifted.*1) ∧
    peer_quarantined s' = (peer_quarantined s - Z.of_nat (length contacted))%Z.
Proof.
  intros Hstart Ht Hlen Hrun.
  destruct (reachable_ok _ _ _ _ _ _ Hstart Ht Hlen) as (p' & T & W & Hrun' & _ & Hok & _). simplify_eq.
  cbv zeta. set (s := proc_topology p) in *.
  destruct (lift_reports_run _ _ T _ clock s Hok Hlen) as (s' & q & kept & lifted & Hpost & Hloop & Hl & Hq & _ & Hg & Hd).
  pose proof (ok_duration _ _ _ _ _ Hok) as HD.
  exists s', kept, lifted. split; [done|].
  destruct Hpost as (H1 & H2 & H3 & H4 & H5 & H6 & H7). rewrite Hq. split.
  { intros fuel Hfuel. unfold reported_nodes in Hfuel. rewrite length_fmap in Hfuel.
    replace fuel with (S (length (entries (quarantine s))) + (fuel - S (length (entries (quarantine s)))))
      by (unfold entries; lia). by apply lift_loop_fuel. }
  split; [done|split; [done|split; [|split; [|done]]]].
  - intros j e He. specialize (H6 j e He). unfold running in H6. rewrite HD in H6. simpl in H6. lia.
  - intros e He. specialize (H7 e He). unfold running in H7. rewrite HD in H7. simpl in H7. lia.
Qed.
End topology.
End Topology.

(** ** A small network

    An instance of the interface of poldercast in which a promotion moves a node
    from the dirty pool to the pool and from there to the trusted ones, and a
    demotion the other way. *)
Module SampleTopology.
Import Gossip Layers Topology.

Record G := mkG { g_id : Z; g_address : SocketAddr }.
Record Topo := mkTopo { t_pool : list G; t_trusted : list G; t_dirty : list G }.

Definition keyed (gs : list G) : list (Z * G) := (λ g, (g_id g, g)) <$> gs.
Fixpoint uniq (l : list (Z * G)) : list (Z * G) :=
  match l with [] => [] | (k, g) :: l => (k, g) :: alist_del k (uniq l) end.
Definition without (i : Z) (gs : list G) : list G := filter (λ g, g_id g ≠ i) gs.
Definition find (i : Z) (gs : list G) : option G := alist_get i (keyed gs).

Definition promote (i : Z) (t : Topo) : Topo :=
  match find i (t_dirty t) with
  | Some g => mkTopo (g :: t_pool t) (t_trusted t) (without i (t_dirty t))
  | None =>
      match find i (t_pool t) with
      | Some g => mkTopo (without i (t_pool t)) (g :: t_trusted t) (t_dirty t)
      | None => t
      end
  end.
Definition demote (i : Z) (t : Topo) : Topo :=
  match find i (t_trusted t) with
  | Some g => mkTopo (g :: t_pool t) (without i (t_trusted t)) (t_dirty t)
  | None =>
      match find i (t_pool t) with
      | Some g => mkTopo (without i (t_pool t)) (t_trusted t) (g :: t_dirty t)
      | None => t
      end
  end.
Definition all (t : Topo) : list G := t_pool t ++ t_trusted t ++ t_dirty t.
Definition add (g : G) (t : Topo) : Topo * bool :=
  match find (g_id g) (all t) with
  | Some _ => (t, false)
  | None => (mkTopo (g :: t_pool t) (t_trusted t) (t_dirty t), true)
  end.

#[export] Instance sample : Poldercast Z G G Topo unit unit unit := {|
  gossip_id := g_id;
  gossip_address := g_address;
  gossip_time _ := 0%Z;
  gossip_subscriptions _ := [];
  from_gossip g := g;
  profile_gossip g := g;
  profile_id := g_id;
  selection_any := ();
  topo_new_with _ _ _ := mkTopo [] [] [];
  topo_subscribe_topic _ t := t;
  topo_view _ t := (t, t_pool t ++ t_trusted t);
  topo_gossips_for _ t := (t, t_trusted t);
  topo_update_profile_subscriptions _ t := t;
  topo_self_profile _ := mkG 0 (mkAddr (V4 8 8 8 8) 80);
  topo_add_peer := add;
  topo_promote_peer := promote;
  topo_remove_peer := demote;
  topo_get i t := (t, find i (all t));
  pool t := keyed (t_pool t);
  trusted t := keyed (t_trusted t);
  dirty t := uniq (keyed (t_dirty t));
|}.

Lemma uniq_get k l : alist_get k (uniq l) = alist_get k l.
Proof.
  induction l as [|[k' g] l IH]; [done|]. simpl. case_decide; [done|].
  rewrite alist_get_del, IH. by case_decide.
Qed.
Lemma uniq_NoDup l : NoDup (uniq l).*1.
Proof.
  induction l as [|[k g] l IH]; simpl; constructor; [|by apply alist_del_NoDup].
  rewrite alist_del_key. tauto.
Qed.
Lemma uniq_keys k l : k ∈ (uniq l).*1 ↔ k ∈ l.*1.
Proof. by rewrite <- !alist_get_is_Some, uniq_get. Qed.
Lemma uniq_elem e l : e ∈ uniq l ↔ alist_get e.1 l = Some e.2.
Proof.
  rewrite <- uniq_get. destruct e as [k g]. split; [apply alist_get_NoDup, uniq_NoDup|apply alist_get_elem].
Qed.
Lemma keyed_without i gs : keyed (without i gs) = alist_del i (keyed gs).
Proof.
  unfold keyed, without, alist_del. induction gs as [|g gs IH]; [done|].
  rewrite fmap_cons, !filter_cons. simpl. case_decide; simpl; by rewrite <- IH.
Qed.
Lemma keyed_get i gs g : alist_get i (keyed gs) = Some g → g_id g = i.
Proof. intros (g' & ? & _)%alist_get_elem%list_elem_of_fmap. congruence. Qed.

#[export] Instance sample_laws : PoldercastLaws.
Proof.
  split; try (done || (by intros; repeat split)); simpl.
  - intros t. apply uniq_NoDup.
  - intros t i p Hin%uniq_elem. by eapply keyed_get.
  - intros p t. unfold add. case_match; [by intros _; repeat split|done].
  - intros p t. unfold add. by case_match.
  - intros i t k. rewrite elem_of_cons, !uniq_keys. unfold demote, find.
    destruct (alist_get i (keyed (t_trusted t))) as [g|]; simpl; [tauto|].
    destruct (alist_get i (keyed (t_pool t))) as [g|] eqn:Hf; simpl; [|tauto].
    apply keyed_get in Hf. rewrite elem_of_cons. naive_solver.
  - intros i t e. rewrite !uniq_elem. unfold promote, find.
    destruct (alist_get i (keyed (t_dirty t))) as [g|] eqn:Hg; [|case_match]; simpl.
    + rewrite keyed_without, alist_get_del. case_decide; naive_solver.
    + split; [|tauto]. naive_solver.
    + naive_solver.
Qed.

#[local] Existing Instances ListLru.cache ListLru.cache_laws.

Definition Config : Type := @Configuration Z unit.
Definition Events : Type := list (Env * @Event Z G unit).
Definition Node : Type := @Process Z G Topo unit unit _ ListLru.cache ListLru.cache.
Definition Info : Type := @PeerInfo Z unit.

Definition D : Z := 600000.
Definition peer (n : Z) : G := mkG n (mkAddr (V4 1 2 3 n) 80).
(** Node 2 is on the whitelist. *)
Definition config : Config :=
  mkConfiguration None () (mkQuarantineConfig D None (Some 8%nat) [[Multiaddr.Ip4 1 2 3 2; Multiaddr.Tcp 80]])
    (mkLayersConfig _ (mkPreferredConfig 1 []) rings_default).
Definition env (t : Z) : Env := mkEnv (λ _, t) t t t (λ _, true).
Definition clock (_ : nat) : Instant := (1000 + D)%Z.

(** Nodes 1 and 2 are reported, node 3 after a successful handshake. *)
Definition evs : Events :=
  [(env 10, Input (DemotePeer 1%Z)); (env 20, Input (DemotePeer 2%Z)); (env 30, Input (PromotePeer 3%Z));
   (env 40, Input (DemotePeer 3%Z)); (env 50, GossipTick); (env 60, QuarantineTick)].

Definition start_node : option Node := start config 300000 [peer 1; peer 2; peer 3] 0%Z.

Lemma starts : ∃ p0, start_node = Some p0.
Proof. eexists. reflexivity. Qed.

Definition observe (p : Node) : list Info * list Info * Z * Z :=
  (reported_nodes (quarantine (proc_topology p)), list_quarantined (proc_topology p),
   peer_quarantined (proc_topology p), peer_available (proc_topology p)).

Definition history (evs : Events) : option Node := p0 ← start_node; run evs p0.

(** Node 1 is quarantined; node 3 is reported but not quarantined; node 2 is neither. *)
Example history_observed :
  (λ p, let '(r, q, n, a) := observe p in ((id <$> r, id <$> q, n, a) : list Z * list Z * Z * Z)) <$> history evs
  = Some ([3; 1], [1], 1, 2)%Z.
Proof. reflexivity. Qed.

(** Both reports are lifted in time, and only node 1 is contacted. *)
Example soft_report_not_contacted :
  (λ p, match lift_reports clock (proc_topology p) with
        | Some (s, contacted) => (length (reported_nodes (quarantine s)), g_id <$> contacted)
        | None => (0, [])
        end) <$> history evs = Some (0%nat, [1%Z]).
Proof. reflexivity. Qed.

(** A quarantined node with which a handshake succeeds leaves the quarantine, and
    is counted as quarantined for ever. *)
Example promoted_still_counted :
  (λ p, let '(r, q, n, a) := observe p in ((id <$> r, id <$> q, n, a) : list Z * list Z * Z * Z)) <$>
    history [(env 10, Input (DemotePeer 1%Z)); (env 20, Input (PromotePeer 1%Z)); (env (1000 + D), QuarantineTick)]
  = Some ([], [], 1, 3)%Z.
Proof. reflexivity. Qed.

Lemma timed_evs : timed 0%Z evs.
Proof. simpl. lia. Qed.

Lemma topology_invariant_witness :
  ∃ p0 p, start_node = Some p0 ∧ run evs p0 = Some p ∧
    peer_available (proc_topology p) = Z.of_nat (length (list_available (proc_topology p))).
Proof.
  destruct starts as [p0 Hp0]. exists p0.
  destruct (topology_invariant config 300000 [peer 1; peer 2; peer 3] 0%Z evs p0 Hp0 timed_evs)
    as (p & Hrun & _ & _ & _ & _ & Hav & _); [reflexivity|].
  exists p. done.
Defined.

Lemma lift_reports_correct_witness :
  ∃ p0 p s' contacted, start_node = Some p0 ∧ run evs p0 = Some p ∧
    lift_reports clock (proc_topology p) = Some (s', contacted) ∧
    peer_quarantined s' = (peer_quarantined (proc_topology p) - Z.of_nat (length contacted))%Z.
Proof.
  destruct starts as [p0 Hp0].
  destruct (reachable_ok _ _ _ _ evs p0 Hp0 timed_evs) as (p & T & W & Hrun & _); [reflexivity|].
  destruct (lift_reports_correct config 300000 [peer 1; peer 2; peer 3] 0%Z evs p0 p clock Hp0 timed_evs)
    as (s' & kept & lifted & Hl & _ & _ & _ & _ & _ & _ & _ & Hq); [reflexivity|exact Hrun|].
  exists p0, p, s', (still_dirty (topology (proc_topology p)) ((λ e, peer_info e.2) <$> lifted)). done.
Defined.
End SampleTopology.
