(* ===== verification/Staging.v ===== *)
(** * Building transactions with jcli

    Models [jcli/src/jcli_lib/transaction/staging.rs] (the transaction under
    construction), the commands of [jcli/src/jcli_lib/transaction/] that load it
    from a file, change it and store it again, and the signatures of
    certificates in [jcli/src/jcli_lib/certificate/sign.rs].  The transaction
    builder, the fee algorithm, keys and signatures of the chain library are
    parameters. *)

From S2P Require Import Prelude BlockDate.

(** ** Certificates and fragments

    [P] stands for the payloads, [A] for their authentication and [T] for the
    transactions of the chain library. *)
Module Cert.
Inductive Certificate {P : Type} :=
| StakeDelegation (c : P) | OwnerStakeDelegation (c : P) | PoolRegistration (c : P)
| PoolRetirement (c : P) | PoolUpdate (c : P) | VotePlan (c : P) | VoteCast (c : P)
| VoteTally (c : P) | UpdateProposal (c : P) | UpdateVote (c : P) | MintToken (c : P)
| EvmMapping (c : P).
Arguments Certificate : clear implicits.
End Cert.

Module Signed.
Inductive SignedCertificate {P A : Type} :=
| StakeDelegation (c : P) (a : A) | OwnerStakeDelegation (c : P) (a : A) | PoolRegistration (c : P) (a : A)
| PoolRetirement (c : P) (a : A) | PoolUpdate (c : P) (a : A) | VotePlan (c : P) (a : A)
| VoteTally (c : P) (a : A) | UpdateProposal (c : P) (a : A) | UpdateVote (c : P) (a : A)
| EvmMapping (c : P) (a : A).
Arguments SignedCertificate : clear implicits.

(** [strip_auth], as used by [Staging::fees]. *)
Definition strip_auth {P A} (s : SignedCertificate P A) : Cert.Certificate P :=
  match s with
  | StakeDelegation c _ => Cert.StakeDelegation c
  | OwnerStakeDelegation c _ => Cert.OwnerStakeDelegation c
  | PoolRegistration c _ => Cert.PoolRegistration c
  | PoolRetirement c _ => Cert.PoolRetirement c
  | PoolUpdate c _ => Cert.PoolUpdate c
  | VotePlan c _ => Cert.VotePlan c
  | VoteTally c _ => Cert.VoteTally c
  | UpdateProposal c _ => Cert.UpdateProposal c
  | UpdateVote c _ => Cert.UpdateVote c
  | EvmMapping c _ => Cert.EvmMapping c
  end.

Definition signed_auth {P A} (s : SignedCertificate P A) : A :=
  match s with
  | StakeDelegation _ a | OwnerStakeDelegation _ a | PoolRegistration _ a | PoolRetirement _ a
  | PoolUpdate _ a | VotePlan _ a | VoteTally _ a | UpdateProposal _ a | UpdateVote _ a | EvmMapping _ a => a
  end.
End Signed.

Module Frag.
Inductive Fragment {T : Type} :=
| Transaction (tx : T) | OwnerStakeDelegation (tx : T) | StakeDelegation (tx : T)
| PoolRegistration (tx : T) | PoolRetirement (tx : T) | PoolUpdate (tx : T) | VotePlan (tx : T)
| VoteCast (tx : T) | VoteTally (tx : T) | UpdateProposal (tx : T) | UpdateVote (tx : T)
| MintToken (tx : T) | EvmMapping (tx : T).
Arguments Fragment : clear implicits.
End Frag.

(** ** Signatures of certificates (certificate/sign.rs) *)
Module Sign.
Import Cert Signed.

Section sign.
Context {P KeyStr SecretKey PublicKey AuthData Signature : Type} `{EqDecision PublicKey}.

Inductive Error :=
| KeyParse
| KeyNotFound (index : nat)
| ExpectingOnlyOneSigningKey (got : nat)
| NoSigningKeysGiven
| OwnerStakeDelegationDoesntNeedSignature
| VoteCastDoesntNeedSignature
| MintTokenDoesntNeedSignature.

(** The authentications that are built. *)
Inductive Auth :=
| NoAuth
| PoolOwners (signatures : list (Z * Signature))
| AccountBinding (sig : Signature)
| SingleAccount (sig : Signature)
| BftLeader (sig : Signature)
| VotePlanProof (i : PublicKey) (sig : Signature)
| TallyPublic (i : PublicKey) (sig : Signature)
| TallyPrivate (i : PublicKey) (sig : Signature).

(** Keys and the fields of payloads that are looked at. *)
Class Keys := {
  parse_ed25519_secret_key : KeyStr → option SecretKey;
  to_public : SecretKey → PublicKey;
  sign_slice : SecretKey → AuthData → Signature;
  account_to_single : P → option PublicKey;
  owners : P → list PublicKey;
  tally_is_public : P → bool;
}.
Context `{!Keys}.

Definition parse_key (k : KeyStr) : result Error SecretKey :=
  match parse_ed25519_secret_key k with Some sk => Ok sk | None => Err KeyParse end.

Definition committee_vote_tally_sign (vt : P) (k : KeyStr) (d : AuthData)
    : result Error (SignedCertificate P Auth) :=
  let? private_key := parse_key k in
  let i := to_public private_key in
  let signature := sign_slice private_key d in
  Ok (VoteTally vt (if tally_is_public vt then TallyPublic i signature else TallyPrivate i signature)).

Definition committee_vote_plan_sign (vp : P) (k : KeyStr) (d : AuthData)
    : result Error (SignedCertificate P Auth) :=
  let? private_key := parse_key k in
  Ok (VotePlan vp (VotePlanProof (to_public private_key) (sign_slice private_key d))).

Definition stake_delegation_account_binding_sign (delegation : P) (k : KeyStr) (d : AuthData)
    : result Error (SignedCertificate P Auth) :=
  let? private_key := parse_key k in
  let? _ := match account_to_single delegation with
            | None => Ok tt
            | Some cert_pk => if decide (cert_pk ≠ to_public private_key) then Err (KeyNotFound 0) else Ok tt
            end in
  Ok (StakeDelegation delegation (AccountBinding (sign_slice private_key d))).

Fixpoint parse_keys (keys_str : list KeyStr) : result Error (list SecretKey) :=
  match keys_str with
  | [] => Ok []
  | k :: keys_str => let? sk := parse_key k in let? sks := parse_keys keys_str in Ok (sk :: sks)
  end.

Fixpoint position (pk : PublicKey) (l : list PublicKey) : option nat :=
  match l with
  | [] => None
  | p :: l => if decide (p = pk) then Some 0%nat else S <$> position pk l
  end.

(** [as u8] *)
Definition as_u8 (n : nat) : Z := (Z.of_nat n mod 256)%Z.

Fixpoint find_owners (reg : P) (isk : nat) (keys : list SecretKey) : result Error (list (Z * SecretKey)) :=
  match keys with
  | [] => Ok []
  | k :: keys =>
      match position (to_public k) (owners reg) with
      | None => Err (KeyNotFound isk)
      | Some ipk => let? found := find_owners reg (S isk) keys in Ok ((as_u8 ipk, k) :: found)
      end
  end.

Definition pool_owner_sign (payload : P) (mreg : option P) (keys_str : list KeyStr) (auth_data : AuthData)
    (to_signed_certificate : P → Auth → SignedCertificate P Auth) : result Error (SignedCertificate P Auth) :=
  let? keys := parse_keys keys_str in
  let? keys := match mreg with
               | None => Ok (imap (λ i k, (as_u8 i, k)) keys)
               | Some reg => find_owners reg 0 keys
               end in
  let sigs := (λ '(i, key), (i, sign_slice key auth_data)) <$> keys in
  Ok (to_signed_certificate payload (PoolOwners sigs)).

Definition update_proposal_sign (up : P) (k : KeyStr) (d : AuthData) : result Error (SignedCertificate P Auth) :=
  let? private_key := parse_key k in Ok (UpdateProposal up (BftLeader (sign_slice private_key d))).

Definition update_vote_sign (uv : P) (k : KeyStr) (d : AuthData) : result Error (SignedCertificate P Auth) :=
  let? private_key := parse_key k in Ok (UpdateVote uv (BftLeader (sign_slice private_key d))).

Definition evm_mapping_sign (em : P) (k : KeyStr) (d : AuthData) : result Error (SignedCertificate P Auth) :=
  let? private_key := parse_key k in Ok (EvmMapping em (SingleAccount (sign_slice private_key d))).

(** [keys.len().eq(&1).then(...).ok_or(ExpectingOnlyOneSigningKey)??] *)
Definition with_one_key (keys : list KeyStr) (f : KeyStr → result Error (SignedCertificate P Auth))
    : result Error (SignedCertificate P Auth) :=
  match keys with
  | [k] => f k
  | _ => Err (ExpectingOnlyOneSigningKey (length keys))
  end.

(** [Sign::exec], between the reading of the certificate and keys and the writing
    of the result; [block0_auth_data] is the authentication data of
    [Transaction::block0_payload_builder]. *)
Definition sign_certificate (block0_auth_data : Certificate P → AuthData) (cert : Certificate P)
    (keys : list KeyStr) : result Error (SignedCertificate P Auth) :=
  let d := block0_auth_data cert in
  match keys with
  | [] => Err NoSigningKeysGiven
  | _ =>
      match cert with
      | Cert.StakeDelegation s => with_one_key keys (λ k, stake_delegation_account_binding_sign s k d)
      | Cert.PoolRegistration s => pool_owner_sign s (Some s) keys d PoolRegistration
      | Cert.PoolRetirement s => pool_owner_sign s None keys d PoolRetirement
      | Cert.PoolUpdate s => pool_owner_sign s None keys d PoolUpdate
      | Cert.VoteTally vt => with_one_key keys (λ k, committee_vote_tally_sign vt k d)
      | Cert.OwnerStakeDelegation _ => Err OwnerStakeDelegationDoesntNeedSignature
      | Cert.VotePlan vp => with_one_key keys (λ k, committee_vote_plan_sign vp k d)
      | Cert.VoteCast _ => Err VoteCastDoesntNeedSignature
      | Cert.UpdateProposal up => with_one_key keys (λ k, update_proposal_sign up k d)
      | Cert.UpdateVote uv => with_one_key keys (λ k, update_vote_sign uv k d)
      | Cert.MintToken _ => Err MintTokenDoesntNeedSignature
      | Cert.EvmMapping em => with_one_key keys (λ k, evm_mapping_sign em k d)
      end
  end.
End sign.
Arguments Auth : clear implicits.
Arguments Keys : clear implicits.
End Sign.

(** ** The transaction under construction (transaction/staging.rs) *)
Module Staging.
Import Signed Cert Sign.

Inductive StagingKind := Balancing | Finalizing | Sealed | Authed.

#[export] Instance StagingKind_eq_dec : EqDecision StagingKind.
Proof. solve_decision. Defined.

Inductive TransactionInputType {Account UtxoPtr : Type} :=
| Account_ (account : Account)
| Utxo (ptr : UtxoPtr) (index : Z).
Arguments TransactionInputType : clear implicits.

Record TransactionInput {Account UtxoPtr : Type} := mkInput {
  input : TransactionInputType Account UtxoPtr;
  value : Z;
}.
Arguments TransactionInput : clear implicits.

(** [chain_addr::Kind], with what is taken from it. *)
Inductive AddressKind {Account : Type} :=
| KindSingle | KindGroup | KindAccount (key : Account) | KindMultisig (key : Account) | KindScript.
Arguments AddressKind : clear implicits.

Inductive Balance := Positive (v : Z) | Negative (v : Z) | Zero.

Section staging.
Context {P KeyStr SecretKey PublicKey AuthData Signature : Type} `{EqDecision PublicKey}.
Context `{K : !Keys P KeyStr SecretKey PublicKey AuthData Signature}.
Context {AccountId UtxoPtr Output Witness Evm Ios Builder Tx Hash FeeAlgorithm OutputPolicy ChainError : Type}.

#[local] Abbreviation Certificate := (Certificate P).
#[local] Abbreviation Auth := (Auth PublicKey Signature).
#[local] Abbreviation SignedCertificate := (SignedCertificate P Auth).
#[local] Abbreviation TransactionInput := (TransactionInput AccountId UtxoPtr).
#[local] Abbreviation Fragment := (Frag.Fragment Tx).

(** A payload is that of a certificate, or [None] for [NoExtra]. *)
Definition Payload : Type := option Certificate.

(** What is used of the chain library. *)
Class TxLib := {
  need_auth : Certificate → bool;
  output_value : Output → Z;
  (** [InputOutputBuilder] *)
  ios_new : list TransactionInput → list Output → option Ios;
  ios_build : Ios → list TransactionInput * list Output;
  seal_with_output_policy : Ios → Payload → FeeAlgorithm → OutputPolicy → result ChainError (Balance * list Output);
  (** [TxBuilder] *)
  set_payload : Payload → Builder;
  set_nopayload : Builder;
  set_expiry_date_on : BlockDate → Builder → Builder;
  set_ios : list TransactionInput → list Output → Builder → Builder;
  set_witnesses : list Witness → Builder → Builder;
  get_auth_data : Builder → AuthData;
  set_payload_auth : Auth → Builder → Tx;
  (** [get_auth_data_for_witness().hash()] *)
  witness_hash : Builder → Hash;
  calculate : FeeAlgorithm → Payload → Z → Z → Z;
  (** [chain_impl_mockchain::value]: checked operations. *)
  value_sum : list Z → option Z;
  value_add : Z → Z → option Z;
  value_sub : Z → Z → option Z;
}.
Context `{!TxLib}.

Inductive Error :=
| TxKindToAddExtraInvalid (kind : StagingKind)
| TxKindToAddInputInvalid (kind : StagingKind)
| TxKindToAddOutputInvalid (kind : StagingKind)
| TxKindToAddWitnessInvalid (kind : StagingKind)
| TxKindToSealInvalid (kind : StagingKind)
| TxKindToFinalizeInvalid (kind : StagingKind)
| TxKindToGetMessageInvalid (kind : StagingKind)
| TxKindToSignDataHashInvalid (kind : StagingKind)
| TxKindToSetValidityTimeInvalid (kind : StagingKind)
| TooManyWitnessesToAddWitness (actual max : nat)
| WitnessCountToSealInvalid (actual expected : nat)
| AccountAddressSingle
| AccountAddressGroup
| AccountAddressScript
| TxFinalizationFailed (e : ChainError)
| InfoCalculationFailed
| InfoExpectedSingleAccount
| TxDoesntNeedPayloadAuth
| TxNeedPayloadAuth
| NoSigningKeys
| CertificateError (error : Sign.Error)
| TxWithOwnerStakeDelegationMultiInputs (inputs : nat)
| TxWithOwnerStakeDelegationHasUtxoInput
| TxWithOwnerStakeDelegationHasOutputs
| CannotFinalizeWithoutValidUntil
| RestError
| CancelByUser
| UserInputError
| InvalidBlock0HeaderHash
| AccountIdError
| MakeWitnessAccountCounterMissing
| MakeWitnessAccountInvalidCounterLane (max actual : nat).

Record Staging := mkStaging {
  kind : StagingKind;
  inputs : list TransactionInput;
  outputs : list Output;
  valid_until : option BlockDate;
  witnesses : list Witness;
  extra : option Certificate;
  extra_authed : option SignedCertificate;
  evm_transaction : option Evm;
}.

Definition staging_new : Staging := mkStaging Balancing [] [] None [] None None None.

Definition set_kind (k : StagingKind) (s : Staging) : Staging :=
  mkStaging k (inputs s) (outputs s) (valid_until s) (witnesses s) (extra s) (extra_authed s) (evm_transaction s).

#[local] Abbreviation op := (prog Staging Error).

(** [if self.kind != k { return Err(..) }] *)
Definition require_kind (k : StagingKind) (e : StagingKind → Error) : op unit :=
  k' ← gets kind; if decide (k' = k) then mret tt else throw (e k').

Definition set_expiry_date (d : BlockDate) : op unit :=
  _ ← require_kind Balancing TxKindToSetValidityTimeInvalid;
  modify_state (λ s, mkStaging (kind s) (inputs s) (outputs s) (Some d) (witnesses s) (extra s) (extra_authed s)
                       (evm_transaction s)).

Definition add_input (i : TransactionInput) : op unit :=
  _ ← require_kind Balancing TxKindToAddInputInvalid;
  modify_state (λ s, mkStaging (kind s) (inputs s ++ [i]) (outputs s) (valid_until s) (witnesses s) (extra s)
                       (extra_authed s) (evm_transaction s)).

Definition add_output (o : Output) : op unit :=
  _ ← require_kind Balancing TxKindToAddOutputInvalid;
  modify_state (λ s, mkStaging (kind s) (inputs s) (outputs s ++ [o]) (valid_until s) (witnesses s) (extra s)
                       (extra_authed s) (evm_transaction s)).

Definition add_account (account : AddressKind AccountId) (v : Z) : op unit :=
  account_id ← match account with
               | KindAccount key | KindMultisig key => mret key
               | KindSingle => throw AccountAddressSingle
               | KindGroup => throw AccountAddressGroup
               | KindScript => throw AccountAddressScript
               end;
  add_input (mkInput _ _ (Account_ account_id) v).

Definition add_witness (w : Witness) : op unit :=
  _ ← require_kind Finalizing TxKindToAddWitnessInvalid;
  n ← gets (λ s, length (inputs s));
  m ← gets (λ s, length (witnesses s));
  if (n <=? m)%nat then throw (TooManyWitnessesToAddWitness m n)
  else modify_state (λ s, mkStaging (kind s) (inputs s) (outputs s) (valid_until s) (witnesses s ++ [w]) (extra s)
                            (extra_authed s) (evm_transaction s)).

Definition set_extra (c : Certificate) : op unit :=
  _ ← require_kind Balancing TxKindToAddExtraInvalid;
  modify_state (λ s, mkStaging (kind s) (inputs s) (outputs s) (valid_until s) (witnesses s) (Some c)
                       (extra_authed s) None).

Definition set_evm_transaction (e : Evm) : op unit :=
  _ ← require_kind Balancing TxKindToAddExtraInvalid;
  modify_state (λ s, mkStaging (kind s) (inputs s) (outputs s) (valid_until s) (witnesses s) None
                       (extra_authed s) (Some e)).

(** [unwrap] panics when the chain library refuses the inputs and outputs. *)
Definition get_inputs_outputs : op Ios :=
  i ← gets inputs; o ← gets outputs; expect (ios_new i o).

Fixpoint add_outputs (added : list Output) : op unit :=
  match added with
  | [] => mret tt
  | o :: added => _ ← add_output o; add_outputs added
  end.

Definition finalize_payload (payload : Payload) (fee : FeeAlgorithm) (policy : OutputPolicy) : op Balance :=
  v ← gets valid_until;
  match v with
  | None => throw CannotFinalizeWithoutValidUntil
  | Some _ =>
      ios ← get_inputs_outputs;
      '(balance, added_outputs) ←
        lift (map_err TxFinalizationFailed (seal_with_output_policy ios payload fee policy));
      _ ← add_outputs added_outputs;
      _ ← modify_state (set_kind Finalizing);
      mret balance
  end.

(** The arms of the certificates other than [OwnerStakeDelegation] are equal. *)
Definition balance_extra (e : option Certificate) (fee : FeeAlgorithm) (policy : OutputPolicy) : op Balance :=
  match e with
  | None => finalize_payload None fee policy
  | Some (OwnerStakeDelegation c) =>
      balance ← finalize_payload (Some (OwnerStakeDelegation c)) fee policy;
      ins ← gets inputs;
      _ ← match ins with
          | [i] => match input i with
                   | Account_ _ => mret tt
                   | Utxo _ _ => throw TxWithOwnerStakeDelegationHasUtxoInput
                   end
          | _ => throw (TxWithOwnerStakeDelegationMultiInputs (length ins))
          end;
      outs ← gets outputs;
      match outs with
      | [] => mret balance
      | _ => throw TxWithOwnerStakeDelegationHasOutputs
      end
  | Some c => finalize_payload (Some c) fee policy
  end.

Definition balance_inputs_outputs (fee : FeeAlgorithm) (policy : OutputPolicy) : op Balance :=
  _ ← require_kind Balancing TxKindToFinalizeInvalid;
  e ← gets extra;
  balance_extra e fee policy.

Definition seal : op unit :=
  _ ← require_kind Finalizing TxKindToSealInvalid;
  n ← gets (λ s, length (inputs s));
  m ← gets (λ s, length (witnesses s));
  if decide (n = m) then modify_state (set_kind Sealed) else throw (WitnessCountToSealInvalid m n).

Definition staging_need_auth (s : Staging) : bool :=
  match extra s with None => false | Some c => need_auth c end.

Definition builder_after_witness (builder : Builder) : op Builder :=
  n ← gets (λ s, length (inputs s));
  m ← gets (λ s, length (witnesses s));
  if decide (m = n) then
    ios ← get_inputs_outputs;
    ws ← gets witnesses;
    v ← gets valid_until;
    v ← expect v;
    let '(i, o) := ios_build ios in
    mret (set_witnesses ws (set_ios i o (set_expiry_date_on v builder)))
  else k ← gets kind; throw (TxKindToFinalizeInvalid k).

(** The common end of the arms of [set_auth]. *)
Definition sign_extra (payload : Certificate)
    (sign : AuthData → result Sign.Error SignedCertificate) : op unit :=
  builder ← builder_after_witness (set_payload (Some payload));
  sc ← lift (map_err CertificateError (sign (get_auth_data builder)));
  modify_state (λ s, mkStaging (kind s) (inputs s) (outputs s) (valid_until s) (witnesses s) (extra s) (Some sc)
                       (evm_transaction s)).

Definition set_auth (keys : list KeyStr) : op unit :=
  _ ← require_kind Sealed TxKindToSealInvalid;
  n ← gets staging_need_auth;
  if negb n then throw TxDoesntNeedPayloadAuth
  else
    e ← gets extra;
    _ ← match e with
        | None => panic
        | Some c =>
            match c with
            | StakeDelegation s =>
                sign_extra c (λ d, with_one_key keys (λ k, stake_delegation_account_binding_sign s k d))
            | PoolRegistration s =>
                sign_extra c (λ d, pool_owner_sign s (Some s) keys d Signed.PoolRegistration)
            | PoolRetirement s => sign_extra c (λ d, pool_owner_sign s None keys d Signed.PoolRetirement)
            | PoolUpdate s => sign_extra c (λ d, pool_owner_sign s None keys d Signed.PoolUpdate)
            | OwnerStakeDelegation _ => panic
            | VotePlan vp => sign_extra c (λ d, with_one_key keys (λ k, committee_vote_plan_sign vp k d))
            | VoteCast _ => panic
            | VoteTally vt => sign_extra c (λ d, with_one_key keys (λ k, committee_vote_tally_sign vt k d))
            | UpdateProposal up => sign_extra c (λ d, with_one_key keys (λ k, update_proposal_sign up k d))
            | UpdateVote uv => sign_extra c (λ d, with_one_key keys (λ k, update_vote_sign uv k d))
            | EvmMapping em => sign_extra c (λ d, with_one_key keys (λ k, evm_mapping_sign em k d))
            | MintToken _ => panic
            end
        end;
    modify_state (set_kind Authed).

(** [make_fragment], for each kind of payload. *)
Definition make_fragment (payload : Payload) (auth : Auth) (to_fragment : Tx → Fragment) : op Fragment :=
  builder ← builder_after_witness (set_payload payload);
  mret (to_fragment (set_payload_auth auth builder)).

Definition fragment : op Fragment :=
  ea ← gets extra_authed;
  match ea with
  | None =>
      _ ← require_kind Sealed TxKindToGetMessageInvalid;
      n ← gets staging_need_auth;
      if (n : bool) then throw TxNeedPayloadAuth
      else
        e ← gets extra;
        match e with
        | None => make_fragment None NoAuth Frag.Transaction
        | Some (OwnerStakeDelegation _ as c) => make_fragment (Some c) NoAuth Frag.OwnerStakeDelegation
        | Some (VoteCast _ as c) => make_fragment (Some c) NoAuth Frag.VoteCast
        | Some (MintToken _ as c) => make_fragment (Some c) NoAuth Frag.MintToken
        | Some _ => panic
        end
  | Some signed_cert =>
      _ ← require_kind Authed TxKindToGetMessageInvalid;
      match signed_cert with
      | Signed.PoolRegistration c a => make_fragment (Some (PoolRegistration c)) a Frag.PoolRegistration
      | Signed.PoolUpdate c a => make_fragment (Some (PoolUpdate c)) a Frag.PoolUpdate
      | Signed.PoolRetirement c a => make_fragment (Some (PoolRetirement c)) a Frag.PoolRetirement
      | Signed.StakeDelegation c a => make_fragment (Some (StakeDelegation c)) a Frag.StakeDelegation
      | Signed.OwnerStakeDelegation c a =>
          make_fragment (Some (OwnerStakeDelegation c)) a Frag.OwnerStakeDelegation
      | Signed.VotePlan c a => make_fragment (Some (VotePlan c)) a Frag.VotePlan
      | Signed.VoteTally c a => make_fragment (Some (VoteTally c)) a Frag.VoteTally
      | Signed.UpdateProposal c a => make_fragment (Some (UpdateProposal c)) a Frag.UpdateProposal
      | Signed.UpdateVote c a => make_fragment (Some (UpdateVote c)) a Frag.UpdateVote
      | Signed.EvmMapping c a => make_fragment (Some (EvmMapping c)) a Frag.EvmMapping
      end
  end.

Definition transaction_sign_data_hash_on (builder : Builder) : op Hash :=
  i ← gets inputs;
  o ← gets outputs;
  v ← gets valid_until;
  v ← expect v;
  mret (witness_hash (set_ios i o (set_expiry_date_on v builder))).

(** The arms of the certificates are equal. *)
Definition transaction_sign_data_hash : op Hash :=
  _ ← require_kind Finalizing TxKindToSignDataHashInvalid;
  e ← gets extra;
  match e with
  | None => transaction_sign_data_hash_on set_nopayload
  | Some c => transaction_sign_data_hash_on (set_payload (Some c))
  end.

Definition total_input (s : Staging) : option Z := value_sum (value <$> inputs s).
Definition total_output (s : Staging) : option Z := value_sum (output_value <$> outputs s).

Definition fees (fee : FeeAlgorithm) (s : Staging) : Z :=
  let cert := match strip_auth <$> extra_authed s with Some c => Some c | None => extra s end in
  calculate fee cert (as_u8 (length (inputs s))) (as_u8 (length (outputs s))).

Definition balance (fee : FeeAlgorithm) (s : Staging) : option Balance :=
  let fees := fees fee s in
  ins ← total_input s;
  outs ← total_output s;
  z ← value_add outs fees;
  match (ins ?= z)%Z with
  | Gt => Positive <$> value_sub ins z
  | Lt => Negative <$> value_sub z ins
  | Eq => Some Zero
  end.

(** [Info::exec] of transaction/info.rs, up to the formatting of its output. *)
Record Info := mkInfo {
  status : StagingKind;
  sign_data_hash : Hash;
  num_inputs : nat;
  num_outputs : nat;
  num_witnesses : nat;
  info_input : Z;
  info_output : Z;
  info_fee : Z;
  info_balance : Z;
}.

Definition of_value {A} (o : option A) : op A :=
  match o with Some a => mret a | None => throw InfoCalculationFailed end.

Definition info (is_single_account : AccountId → bool) (fee : FeeAlgorithm) : op Info :=
  ins ← gets inputs;
  _ ← (if forallb (λ i, match input i with Account_ a => is_single_account a | Utxo _ _ => true end) ins
       then mret tt else throw InfoExpectedSingleAccount);
  s ← gets id;
  b ← of_value (balance fee s);
  let b := match b with Negative v | Positive v => v | Zero => 0%Z end in
  h ← transaction_sign_data_hash;
  ti ← of_value (total_input s);
  tot ← of_value (total_output s);
  mret (mkInfo (kind s) h (length (inputs s)) (length (outputs s)) (length (witnesses s)) ti tot (fees fee s) b).

(** The summary can be displayed in one of the four stages only. *)
Lemma info_only_finalizing is_single fee s s' i :
  info is_single fee s = Some (s', Ok i) → kind s = Finalizing.
Proof.
  unfold info. rewrite gets_bind. intros Hrun. apply bind_inv in Hrun as (s1 & [] & H1 & Hrun).
  case_match; [|done]. injection H1 as <-. rewrite gets_bind in Hrun.
  apply bind_inv in Hrun as (s2 & b & H2 & Hrun). destruct (balance fee (id s)); [|done].
  injection H2 as <- <-. apply bind_inv in Hrun as (s3 & h & H3 & _).
  unfold transaction_sign_data_hash in H3. apply bind_inv in H3 as (s4 & [] & H4 & _).
  unfold require_kind in H4. rewrite gets_bind in H4. by case_decide.
Qed.

(** ** The commands (transaction/mod.rs and the files beside it) *)
Inductive Command :=
| AddInput (ptr : UtxoPtr) (index : Z) (v : Z)
| AddAccount (account : AddressKind AccountId) (v : Z)
| AddOutput (o : Output)
| AddWitness (w : Witness)
| SetExpiryDate (d : BlockDate)
| AddCertificate (c : Certificate)
| AddEvmTransaction (e : Evm)
| Finalize (fee : FeeAlgorithm) (policy : OutputPolicy)
| Seal
| AuthCommand (keys : list KeyStr).

(** [finalize] of transaction/finalize.rs. *)
Definition finalize (fee : FeeAlgorithm) (policy : OutputPolicy) : op unit :=
  _ ← balance_inputs_outputs fee policy; mret tt.

Definition run_command (c : Command) : op unit :=
  match c with
  | AddInput ptr index v => add_input (mkInput _ _ (Utxo ptr index) v)
  | AddAccount account v => add_account account v
  | AddOutput o => add_output o
  | AddWitness w => add_witness w
  | SetExpiryDate d => set_expiry_date d
  | AddCertificate c => set_extra c
  | AddEvmTransaction e => set_evm_transaction e
  | Finalize fee policy => finalize fee policy
  | Seal => seal
  | AuthCommand keys => match keys with [] => throw NoSigningKeys | _ => set_auth keys end
  end.

(** A command loads the staging file, and stores it again if it succeeds. *)
Definition exec (c : Command) (file : Staging) : Staging :=
  match run_command c file with Some (file', Ok _) => file' | _ => file end.

Definition exec_all (cs : list Command) (file : Staging) : Staging := foldl (λ f c, exec c f) file cs.

(** ** Witnesses (transaction/mk_witness.rs) *)
Inductive WitnessType := UTxO | OldUTxO | Account.

(** The constructors of [chain_impl_mockchain::transaction::Witness] and of the
    spending counters. *)
Class WitnessLib {HeaderId SpendingCounter : Type} := {
  new_utxo : HeaderId → Hash → SecretKey → Witness;
  new_old_utxo : HeaderId → Hash → SecretKey → Witness;
  new_account : HeaderId → Hash → SpendingCounter → SecretKey → Witness;
  LANES : nat;
  counter_new : nat → Z → SpendingCounter;
}.
Context {HeaderId SpendingCounter : Type} `{!@WitnessLib HeaderId SpendingCounter}.

Definition make_witness (t : WitnessType) (genesis : HeaderId) (h : Hash) (sc : option SpendingCounter)
    (sk : SecretKey) : result Error Witness :=
  match t with
  | UTxO => Ok (new_utxo genesis h sk)
  | OldUTxO => Ok (new_old_utxo genesis h sk)
  | Account =>
      match sc with
      | Some sc => Ok (new_account genesis h sc sk)
      | None => Err MakeWitnessAccountCounterMissing
      end
  end.

(** [MkWitness::exec], up to the reading of the key and the writing of the file. *)
Definition mk_witness (t : WitnessType) (genesis : HeaderId) (h : Hash) (counter : option Z) (lane : option nat)
    (sk : SecretKey) : result Error Witness :=
  let? sc := match counter with
             | None => Ok None
             | Some counter =>
                 let lane := default 0%nat lane in
                 if (LANES <? lane)%nat then Err (MakeWitnessAccountInvalidCounterLane LANES lane)
                 else Ok (Some (counter_new lane counter))
             end in
  make_witness t genesis h sc sk.

(** ** Transactions in one go (transaction/simplified.rs) *)

(** [u64::saturating_add] *)
Definition saturating_add (a b : Z) : Z := Z.min (U64 - 1) (a + b).

(** What is asked of the node and of the user: the fees of the settings and as
    they are passed on, the confirmation, the hash of block 0, the identifier of
    the sender and the spending counters of its account. *)
Record Requests := mkRequests {
  request_settings : option (FeeAlgorithm * FeeAlgorithm);
  ask_yes_or_no : option bool;
  block0_hash : option HeaderId;
  sender_id_ok : bool;
  request_counters : option (list SpendingCounter);
}.

(** Starts from a new transaction, which is returned. *)
Definition make_transaction (rq : Requests) (sender : AddressKind AccountId) (receiver : Z → Output)
    (sk : SecretKey) (v : Z) (valid : BlockDate) (change : OutputPolicy) (force : bool) : op unit :=
  '(settings_fees, fee) ← match request_settings rq with Some x => mret x | None => throw RestError end;
  let transfer_value := saturating_add v (calculate settings_fees None 1 1) in
  _ ← (if force then mret tt
       else match ask_yes_or_no rq with
            | None => throw UserInputError
            | Some true => mret tt
            | Some false => throw CancelByUser
            end);
  _ ← add_account sender transfer_value;
  _ ← add_output (receiver v);
  _ ← set_expiry_date valid;
  _ ← finalize fee change;
  block0 ← match block0_hash rq with Some h => mret h | None => throw InvalidBlock0HeaderHash end;
  h ← transaction_sign_data_hash;
  _ ← (if sender_id_ok rq then mret tt else throw AccountIdError);
  counters ← match request_counters rq with Some c => mret c | None => throw RestError end;
  counter ← expect (head counters);
  witness ← lift (make_witness Account block0 h (Some counter) sk);
  _ ← add_witness witness;
  seal.

(** ** What is relied on of the chain library *)
Class TxLaws : Prop := {
  nopayload_none : set_nopayload = set_payload None;
  ios_build_new i o ios : ios_new i o = Some ios → ios_build ios = (i, o);
  (** The outputs that are added to balance a transaction fit into it. *)
  added_outputs_fit i o ios p fee policy b added :
    ios_new i o = Some ios → seal_with_output_policy ios p fee policy = Ok (b, added) →
    is_Some (ios_new i (o ++ added));
  need_auth_spec c :
    need_auth c = match c with OwnerStakeDelegation _ | VoteCast _ | MintToken _ => false | _ => true end;
}.
Context `{!TxLaws}.

(** ** The stages *)
Record staging_ok (s : Staging) : Prop := {
  ok_balancing : kind s = Balancing → witnesses s = [];
  ok_authed : match extra_authed s with
              | Some sc => kind s = Authed ∧ extra s = Some (strip_auth sc)
              | None => kind s ≠ Authed
              end;
  ok_final : kind s ≠ Balancing → is_Some (valid_until s) ∧ is_Some (ios_new (inputs s) (outputs s));
  ok_count : length (witnesses s) ≤ length (inputs s);
  ok_sealed : kind s = Sealed ∨ kind s = Authed → length (witnesses s) = length (inputs s);
}.

(** What a witness signs is the same, and no witness is lost. *)
Definition locked (s s' : Staging) : Prop :=
  inputs s' = inputs s ∧ outputs s' = outputs s ∧ valid_until s' = valid_until s ∧ extra s' = extra s ∧
  kind s' ≠ Balancing ∧ witnesses s `prefix_of` witnesses s'.

Lemma locked_refl s : kind s ≠ Balancing → locked s s.
Proof. by repeat split. Qed.
Lemma locked_trans s1 s2 s3 : locked s1 s2 → locked s2 s3 → locked s1 s3.
Proof. intros (?&?&?&?&?&?) (?&?&?&?&?&?). repeat split; try congruence. by etrans. Qed.

Lemma require_kind_run k e s :
  require_kind k e s = Some (s, if decide (kind s = k) then Ok tt else Err (e (kind s))).
Proof. unfold require_kind, mbind, prog_bind, gets. by case_decide. Qed.

Definition with_outputs (added : list Output) (s : Staging) : Staging :=
  mkStaging (kind s) (inputs s) (outputs s ++ added) (valid_until s) (witnesses s) (extra s) (extra_authed s)
    (evm_transaction s).

Lemma add_outputs_run added s :
  kind s = Balancing → add_outputs added s = Some (with_outputs added s, Ok tt).
Proof.
  revert s. induction added as [|o added IH]; intros s Hk; cbn [add_outputs].
  { unfold with_outputs. rewrite app_nil_r. by destruct s. }
  unfold add_output, mbind, prog_bind at 1 2. rewrite require_kind_run, decide_True by done. cbn.
  rewrite IH by done. unfold with_outputs. cbn. by rewrite <- app_assoc.
Qed.

(** Finalizing fails without an effect, or panics on inputs and outputs that the
    chain library refuses, or adds the outputs that balance the transaction. *)
Lemma finalize_payload_run p fee policy s :
  kind s = Balancing →
  match finalize_payload p fee policy s with
  | None => ios_new (inputs s) (outputs s) = None
  | Some (s', Err _) => s' = s
  | Some (s', Ok _) =>
      ∃ added, s' = set_kind Finalizing (with_outputs added s) ∧ is_Some (valid_until s) ∧
               is_Some (ios_new (inputs s) (outputs s ++ added))
  end.
Proof.
  intros Hk. unfold finalize_payload, get_inputs_outputs, gets, mbind, prog_bind, expect, lift.
  destruct (valid_until s) as [v|] eqn:Hv; [|done].
  destruct (ios_new (inputs s) (outputs s)) as [ios|] eqn:Hios; [|done].
  destruct (seal_with_output_policy ios p fee policy) as [[b added]|e] eqn:Hseal; [|done].
  cbn [map_err]. rewrite add_outputs_run by done. cbn. exists added.
  split; [done|split; [by eauto|]]. by eapply added_outputs_fit.
Qed.

(** The builder after the witnesses, when the transaction is complete. *)
Definition complete_builder (v : BlockDate) (payload : Payload) (s : Staging) : Builder :=
  set_ios (inputs s) (outputs s) (set_expiry_date_on v (set_payload payload)).

Lemma builder_run payload s :
  staging_ok s → kind s = Sealed ∨ kind s = Authed →
  ∃ v, valid_until s = Some v ∧
       builder_after_witness (set_payload payload) s =
       Some (s, Ok (set_witnesses (witnesses s) (complete_builder v payload s))).
Proof.
  intros [] Hk. destruct ok_final0 as [[v Hv] [ios Hios]]; [destruct Hk; congruence|].
  exists v. split; [done|]. unfold builder_after_witness, get_inputs_outputs, gets, mbind, prog_bind, expect.
  rewrite decide_True by auto. rewrite Hios, Hv. cbn. by rewrite (ios_build_new _ _ _ Hios).
Qed.

Lemma sign_extra_run c sign s :
  staging_ok s → kind s = Sealed → (∀ d sc, sign d = Ok sc → strip_auth sc = c) →
  (∃ e, sign_extra c sign s = Some (s, Err e)) ∨
  ∃ sc, strip_auth sc = c ∧
    sign_extra c sign s =
    Some (mkStaging (kind s) (inputs s) (outputs s) (valid_until s) (witnesses s) (extra s) (Some sc)
            (evm_transaction s), Ok tt).
Proof.
  intros Hok Hk Hsign. destruct (builder_run (Some c) s Hok (or_introl Hk)) as (v & _ & Hb).
  unfold sign_extra, mbind, prog_bind. rewrite Hb. unfold lift.
  destruct (sign _) as [sc|e] eqn:Hs; cbn; [right|left]; eauto.
Qed.

Lemma with_one_key_ok (keys : list KeyStr) (f : KeyStr → result Sign.Error SignedCertificate) (c : Certificate) :
  (∀ k sc, f k = Ok sc → strip_auth sc = c) → ∀ sc, with_one_key keys f = Ok sc → strip_auth sc = c.
Proof. intros Hf sc. unfold with_one_key. destruct keys as [|k [|]]; [done|apply Hf|done]. Qed.

Lemma pool_owner_sign_ok (s : P) mreg (keys : list KeyStr) (d : AuthData)
    (to_signed : P → Auth → SignedCertificate) (c : Certificate) :
  (∀ a, strip_auth (to_signed s a) = c) →
  ∀ sc, pool_owner_sign s mreg keys d to_signed = Ok sc → strip_auth sc = c.
Proof.
  intros Hc sc. unfold pool_owner_sign. destruct (parse_keys keys) as [ks|]; [|done].
  destruct (match mreg with None => _ | Some _ => _ end); [|done]. intros [= <-]. apply Hc.
Qed.

(** Signing keeps the certificate. *)
Ltac sign_ok :=
  intros d; cbv beta; (apply pool_owner_sign_ok; intros; done) ||
  (apply with_one_key_ok; intros k sc; cbv delta [stake_delegation_account_binding_sign committee_vote_plan_sign
     committee_vote_tally_sign update_proposal_sign update_vote_sign evm_mapping_sign]; cbv beta zeta;
   intros; repeat case_match; simplify_eq; done).

(** A certificate signed outside a transaction is that certificate. *)
Lemma sign_certificate_ok block0_auth_data (c : Certificate) keys sc :
  sign_certificate block0_auth_data c keys = Ok sc → strip_auth sc = c.
Proof.
  unfold sign_certificate. generalize (block0_auth_data c) as d. intros d. destruct keys as [|key keys]; [done|].
  revert d sc. generalize (key :: keys) as ks. clear. intros ks. destruct c; try done; sign_ok.
Qed.

Lemma set_auth_run keys s :
  staging_ok s → kind s = Sealed →
  (∃ e, set_auth keys s = Some (s, Err e)) ∨
  ∃ sc, extra s = Some (strip_auth sc) ∧
    set_auth keys s =
    Some (mkStaging Authed (inputs s) (outputs s) (valid_until s) (witnesses s) (extra s) (Some sc)
            (evm_transaction s), Ok tt).
Proof.
  intros Hok Hk. unfold set_auth.
  rewrite (bind_Ok (require_kind _ _) _ s s tt) by (rewrite require_kind_run, decide_True by done; done).
  rewrite gets_bind. unfold staging_need_auth. destruct (extra s) as [c|] eqn:He; [|left; by eexists].
  rewrite need_auth_spec.
  assert (∀ sign, (∀ d sc, sign d = Ok sc → strip_auth sc = c) →
    (∃ e, (_ ← sign_extra c sign; modify_state (set_kind Authed)) s = Some (s, Err e)) ∨
    ∃ sc, Some c = Some (strip_auth sc) ∧
      (_ ← sign_extra c sign; modify_state (set_kind Authed)) s =
      Some (mkStaging Authed (inputs s) (outputs s) (valid_until s) (witnesses s) (Some c) (Some sc)
              (evm_transaction s), Ok tt)) as Hsign.
  { intros sign Hs. destruct (sign_extra_run c sign s Hok Hk Hs) as [(e & Hrun)|(sc & Hsc & Hrun)].
    - left. exists e. by rewrite (bind_Err _ _ _ _ _ Hrun).
    - right. exists sc. rewrite Hsc, (bind_Ok _ _ _ _ _ Hrun), He. done. }
  destruct c; cbn [negb]; try (left; by eexists); rewrite gets_bind, He; apply Hsign; sign_ok.
Qed.

(** ** Every command keeps the stages in order *)
Definition step_ok (fin : Prop) (s : Staging) (o : option (Staging * result Error unit)) : Prop :=
  match o with
  | None => fin ∧ ios_new (inputs s) (outputs s) = None
  | Some (s', Ok _) => staging_ok s' ∧ (kind s ≠ Balancing → locked s s')
  | Some (_, Err _) => True
  end.

Definition early (s : Staging) : Prop := kind s = Balancing ∧ witnesses s = [] ∧ extra_authed s = None.

Lemma early_ok s : early s → staging_ok s.
Proof. intros (Hk & Hw & Ha). split; rewrite ?Hk, ?Hw, ?Ha; simpl; try done; [lia|naive_solver]. Qed.
Lemma ok_early s : staging_ok s → kind s = Balancing → early s.
Proof.
  intros [] Hk. split; [done|split; [by auto|]]. destruct (extra_authed s); [|done].
  destruct ok_authed0. congruence.
Qed.

(** The commands of the first stage. *)
Lemma balancing_op e f s :
  staging_ok s → (early s → early (f s)) →
  step_ok False s ((_ ← require_kind Balancing e; modify_state f) s).
Proof.
  intros Hok Hf. destruct (decide (kind s = Balancing)) as [Hk|Hk].
  - rewrite (bind_Ok (require_kind _ _) _ s s tt) by (by rewrite require_kind_run, decide_True).
    split; [|done]. by apply early_ok, Hf, ok_early.
  - by rewrite (bind_Err (require_kind _ _) _ s s (e (kind s))) by (by rewrite require_kind_run, decide_False).
Qed.

Lemma add_witness_ok w s : staging_ok s → step_ok False s (add_witness w s).
Proof.
  intros Hok. unfold add_witness. destruct (decide (kind s = Finalizing)) as [Hk|Hk].
  2: by rewrite (bind_Err (require_kind _ _) _ s s (TxKindToAddWitnessInvalid (kind s)))
       by (by rewrite require_kind_run, decide_False).
  rewrite (bind_Ok (require_kind _ _) _ s s tt) by (by rewrite require_kind_run, decide_True).
  rewrite !gets_bind. case_match eqn:Hn; [done|]. apply Nat.leb_gt in Hn. destruct Hok.
  split; [split; simpl; rewrite ?Hk; try done|].
  - destruct (extra_authed s); [|done]. destruct ok_authed0. congruence.
  - intros _. apply ok_final0. congruence.
  - rewrite length_app. simpl. lia.
  - by intros [|].
  - intros _. repeat split; simpl; [by rewrite Hk|by eexists].
Qed.

Lemma seal_ok s : staging_ok s → step_ok False s (seal s).
Proof.
  intros Hok. unfold seal. destruct (decide (kind s = Finalizing)) as [Hk|Hk].
  2: by rewrite (bind_Err (require_kind _ _) _ s s (TxKindToSealInvalid (kind s)))
       by (by rewrite require_kind_run, decide_False).
  rewrite (bind_Ok (require_kind _ _) _ s s tt) by (by rewrite require_kind_run, decide_True).
  rewrite !gets_bind. case_decide as Hn; [|done]. destruct Hok.
  split; [split; simpl; try done|by repeat split].
  - destruct (extra_authed s); [|done]. destruct ok_authed0. congruence.
  - intros _. apply ok_final0. congruence.
Qed.

Lemma set_auth_ok keys s : staging_ok s → step_ok False s (set_auth keys s).
Proof.
  intros Hok. destruct (decide (kind s = Sealed)) as [Hk|Hk].
  2: { unfold set_auth. by rewrite (bind_Err (require_kind _ _) _ s s (TxKindToSealInvalid (kind s)))
         by (by rewrite require_kind_run, decide_False). }
  destruct (set_auth_run keys s Hok Hk) as [(e & ->)|(sc & He & ->)]; [done|]. destruct Hok.
  split; [split; simpl; try done|by repeat split].
  - intros _. apply ok_final0. congruence.
  - intros _. apply ok_sealed0. by left.
Qed.

Lemma finalized_ok added s :
  early s → is_Some (valid_until s) → is_Some (ios_new (inputs s) (outputs s ++ added)) →
  staging_ok (set_kind Finalizing (with_outputs added s)).
Proof.
  intros (Hk & Hw & Ha) Hv Hios. split; simpl; rewrite ?Hw, ?Ha; try done; [simpl; lia|naive_solver].
Qed.

Lemma finalize_ok fee policy s : staging_ok s → step_ok True s (run_command (Finalize fee policy) s).
Proof.
  intros Hok. cbn [run_command]. unfold finalize, balance_inputs_outputs.
  destruct (decide (kind s = Balancing)) as [Hk|Hk].
  2: { rewrite (bind_Err _ _ s s (TxKindToFinalizeInvalid (kind s))); [done|].
       by rewrite (bind_Err (require_kind _ _) _ s s (TxKindToFinalizeInvalid (kind s)))
         by (by rewrite require_kind_run, decide_False). }
  pose proof (ok_early s Hok Hk) as Hearly.
  assert (∀ p (post : Balance → op Balance), (∀ b s', ∃ r, post b s' = Some (s', r)) →
    step_ok True s ((_ ← (b ← finalize_payload p fee policy; post b); mret tt) s)) as Hpost.
  { intros p post Hr. unfold mbind, prog_bind. pose proof (finalize_payload_run p fee policy s Hk) as Hrun.
    destruct (finalize_payload p fee policy s) as [[s' [b|e]]|]; [|done|done].
    destruct Hrun as (added & -> & Hv & Hios). destruct (Hr b (set_kind Finalizing (with_outputs added s))) as [r ->].
    destruct r; [|done]. split; [by apply finalized_ok|done]. }
  assert (∀ p, step_ok True s ((_ ← finalize_payload p fee policy; mret tt) s)) as Hfin.
  { intros p. specialize (Hpost p (λ b, mret b) (λ b s', ex_intro _ (Ok b) eq_refl)).
    unfold mbind, prog_bind in *. by destruct (finalize_payload p fee policy s) as [[s' [b|e]]|]. }
  assert (∀ (m m' : op Balance), m s = m' s → step_ok True s ((_ ← m'; mret tt) s) → step_ok True s ((_ ← m; mret tt) s))
    as Heq by (intros m m' Hm; unfold mbind, prog_bind; by rewrite Hm).
  apply (Heq _ (balance_extra (extra s) fee policy)).
  { rewrite (bind_Ok (require_kind _ _) _ s s tt) by (by rewrite require_kind_run, decide_True). done. }
  destruct (extra s) as [[]|]; [by apply Hfin| |by apply Hfin..].
  apply Hpost. intros b s'. rewrite gets_bind.
  destruct (inputs s') as [|i [|]]; [by eexists| |by eexists].
  destruct (input i); [|by eexists]. rewrite (bind_Ok (mret tt) _ s' s' tt) by done. rewrite gets_bind.
  destruct (outputs s'); by eexists.
Qed.

(** Only finalizing can panic. *)
Definition is_finalize (c : Command) : Prop := ∃ fee policy, c = Finalize fee policy.

Lemma step_ok_weaken (fin fin' : Prop) s o : step_ok fin s o → (fin → fin') → step_ok fin' s o.
Proof. unfold step_ok. repeat case_match; tauto. Qed.

Lemma run_command_ok c s : staging_ok s → step_ok (is_finalize c) s (run_command c s).
Proof.
  intros Hok. destruct c as [ptr i v|a v|o|w|d|c|e|fee policy| |keys].
  8: { eapply step_ok_weaken; [by apply finalize_ok|]. intros _. by eexists _, _. }
  all: apply (step_ok_weaken False); [cbn [run_command]|done].
  4: by apply add_witness_ok.
  7: by apply seal_ok.
  7: by destruct keys; [|apply set_auth_ok].
  2: { destruct a; try done; change (step_ok False s (add_input (mkInput _ _ (Account_ key) v) s));
         by apply balancing_op. }
  all: by apply balancing_op.
Qed.

Lemma exec_ok c s : staging_ok s → staging_ok (exec c s) ∧ (kind s ≠ Balancing → locked s (exec c s)).
Proof.
  intros Hok. pose proof (run_command_ok c s Hok) as Hstep. unfold exec.
  destruct (run_command c s) as [[s' [u|e]]|]; [done| |]; (split; [done|apply locked_refl]).
Qed.

Lemma exec_all_ok cs s :
  staging_ok s → staging_ok (exec_all cs s) ∧ (kind s ≠ Balancing → locked s (exec_all cs s)).
Proof.
  unfold exec_all. revert s. induction cs as [|c cs IH]; intros s Hok; simpl; [split; [done|apply locked_refl]|].
  destruct (exec_ok c s Hok) as [Hok' Hl]. destruct (IH _ Hok') as [Hok'' Hl']. split; [done|].
  intros Hk. specialize (Hl Hk). eapply locked_trans; [done|]. apply Hl'. apply Hl.
Qed.

Lemma new_ok : staging_ok staging_new.
Proof. by apply early_ok. Qed.

(** ** The fragment *)

(** The kind of fragment for what the transaction carries. *)
Definition fragment_of (e : option Certificate) : Tx → Fragment :=
  match e with
  | None => Frag.Transaction
  | Some (StakeDelegation _) => Frag.StakeDelegation
  | Some (OwnerStakeDelegation _) => Frag.OwnerStakeDelegation
  | Some (PoolRegistration _) => Frag.PoolRegistration
  | Some (PoolRetirement _) => Frag.PoolRetirement
  | Some (PoolUpdate _) => Frag.PoolUpdate
  | Some (VotePlan _) => Frag.VotePlan
  | Some (VoteCast _) => Frag.VoteCast
  | Some (VoteTally _) => Frag.VoteTally
  | Some (UpdateProposal _) => Frag.UpdateProposal
  | Some (UpdateVote _) => Frag.UpdateVote
  | Some (MintToken _) => Frag.MintToken
  | Some (EvmMapping _) => Frag.EvmMapping
  end.

(** The transaction is complete: sealed, and authenticated if it has to be. *)
Definition ready (s : Staging) : Prop :=
  kind s = Sealed ∧ staging_need_auth s = false ∨ kind s = Authed.

Definition sent_tx (v : BlockDate) (auth : Auth) (s : Staging) : Tx :=
  set_payload_auth auth (set_witnesses (witnesses s) (complete_builder v (extra s) s)).

Definition staged_auth (s : Staging) : Auth :=
  match extra_authed s with Some sc => signed_auth sc | None => NoAuth end.

Lemma make_fragment_run auth s :
  staging_ok s → kind s = Sealed ∨ kind s = Authed →
  ∃ v, valid_until s = Some v ∧
    ∀ tf, make_fragment (extra s) auth tf s = Some (s, Ok (tf (sent_tx v auth s))).
Proof.
  intros Hok Hk. destruct (builder_run (extra s) s Hok Hk) as (v & Hv & Hb). exists v. split; [done|].
  intros tf. unfold make_fragment. by rewrite (bind_Ok _ _ _ _ _ Hb).
Qed.

Lemma fragment_ready s :
  staging_ok s → ready s →
  ∃ v, valid_until s = Some v ∧
       fragment s = Some (s, Ok (fragment_of (extra s) (sent_tx v (staged_auth s) s))).
Proof.
  intros Hok Hr. pose proof (ok_authed s Hok) as Ha. unfold fragment, staged_auth. rewrite gets_bind.
  assert (kind s = Sealed ∨ kind s = Authed) as Hk by (unfold ready in Hr; tauto).
  destruct (extra_authed s) as [sc|].
  - destruct Ha as [Hka He]. destruct (make_fragment_run (signed_auth sc) s Hok Hk) as (v & Hv & Hmk).
    exists v. split; [done|].
    rewrite (bind_Ok (require_kind _ _) _ s s tt) by (by rewrite require_kind_run, decide_True).
    rewrite He in *. destruct sc; apply Hmk.
  - destruct Hr as [[Hks Hn]|]; [|done]. destruct (make_fragment_run NoAuth s Hok Hk) as (v & Hv & Hmk).
    exists v. split; [done|].
    rewrite (bind_Ok (require_kind _ _) _ s s tt) by (by rewrite require_kind_run, decide_True).
    rewrite gets_bind, Hn, gets_bind. unfold staging_need_auth in Hn.
    destruct (extra s) as [c|]; [|apply Hmk]. rewrite need_auth_spec in Hn. destruct c; try done; apply Hmk.
Qed.

Lemma fragment_not_ready s : staging_ok s → ¬ ready s → ∃ e, fragment s = Some (s, Err e).
Proof.
  intros Hok Hr. pose proof (ok_authed s Hok) as Ha. unfold fragment. rewrite gets_bind.
  destruct (extra_authed s) as [sc|]; [destruct Hr; right; apply Ha|].
  destruct (decide (kind s = Sealed)) as [Hk|Hk].
  - rewrite (bind_Ok (require_kind _ _) _ s s tt) by (by rewrite require_kind_run, decide_True).
    rewrite gets_bind. destruct (staging_need_auth s) eqn:Hn; [by eexists|]. destruct Hr. by left.
  - eexists. by rewrite (bind_Err (require_kind _ _) _ s s (TxKindToGetMessageInvalid (kind s)))
      by (by rewrite require_kind_run, decide_False).
Qed.

(** A transaction built with any sequence of commands gives a fragment exactly
    when it is sealed and, if its certificate needs an authentication, has
    one; every other state gives an error.  The fragment is of the kind of the
    certificate the transaction carries, or a plain transaction, even when an
    Ethereum transaction was added.  Taking it never panics, and a command
    panics only when it finalizes a transaction whose inputs and outputs the
    chain library refuses. *)
Theorem staging_fragment cs :
  let file := exec_all cs staging_new in
  (∃ r, fragment file = Some (file, r) ∧ (is_ok r = true ↔ ready file) ∧
     ∀ f, r = Ok f → ∃ tx, f = fragment_of (extra file) tx) ∧
  (∀ c, run_command c file = None →
     ios_new (inputs file) (outputs file) = None ∧ ∃ fee policy, c = Finalize fee policy).
Proof.
  intros file. destruct (exec_all_ok cs staging_new new_ok) as [Hok _]. fold file in Hok. split.
  - assert (Decision (ready file)) as [Hr|Hr] by (unfold ready; apply _).
    + destruct (fragment_ready file Hok Hr) as (v & _ & ->). eexists. split; [done|].
      split; [by split|]. intros f [= <-]. eauto.
    + destruct (fragment_not_ready file Hok Hr) as (e & ->). eexists. split; [done|]. by split.
  - intros c Hc. pose proof (run_command_ok c file Hok) as Hstep. rewrite Hc in Hstep. by destruct Hstep.
Qed.

Lemma sign_hash_run s :
  staging_ok s → kind s = Finalizing →
  ∃ v, valid_until s = Some v ∧
       transaction_sign_data_hash s = Some (s, Ok (witness_hash (complete_builder v (extra s) s))).
Proof.
  intros Hok Hk. destruct (ok_final s Hok) as [[v Hv] _]; [congruence|]. exists v. split; [done|].
  unfold transaction_sign_data_hash.
  rewrite (bind_Ok (require_kind _ _) _ s s tt) by (by rewrite require_kind_run, decide_True).
  rewrite gets_bind. unfold complete_builder, transaction_sign_data_hash_on, gets, mbind, prog_bind, expect.
  destruct (extra s); rewrite Hv; [done|]. by rewrite nopayload_none.
Qed.

(** C11: what a witness signs is what is sent.  Once a transaction is finalized,
    the hash to be signed is that of the builder with its payload, expiry
    date, inputs and outputs; whatever commands follow, a fragment that comes
    out is made of that same builder, with one witness for every input; and no
    witness added before is lost. *)
Theorem signed_is_sent cs cs' :
  let file := exec_all cs staging_new in
  let file' := exec_all cs' file in
  kind file = Finalizing →
  ∃ v, valid_until file = Some v ∧
    let builder := complete_builder v (extra file) file in
    transaction_sign_data_hash file = Some (file, Ok (witness_hash builder)) ∧
    witnesses file `prefix_of` witnesses file' ∧
    ∀ s f, fragment file' = Some (s, Ok f) →
      length (witnesses file') = length (inputs file) ∧
      ∃ auth, f = fragment_of (extra file) (set_payload_auth auth (set_witnesses (witnesses file') builder)).
Proof.
  intros file file' Hk. destruct (exec_all_ok cs staging_new new_ok) as [Hok _]. fold file in Hok.
  destruct (exec_all_ok cs' file Hok) as [Hok' Hl]. fold file' in Hok', Hl.
  destruct Hl as (Hi & Ho & Hv & He & _ & Hw); [congruence|].
  destruct (sign_hash_run file Hok Hk) as (v & Hvu & Hhash).
  exists v. split; [done|split; [done|split; [done|]]]. intros s f Hf.
  assert (Decision (ready file')) as [Hr|Hr] by (unfold ready; apply _).
  2: { destruct (fragment_not_ready file' Hok' Hr) as (e & Hf'). congruence. }
  destruct (fragment_ready file' Hok' Hr) as (v' & Hv' & Hf'). rewrite Hf in Hf'. simplify_eq. split.
  - rewrite <- Hi. apply (ok_sealed file' Hok'). unfold ready in Hr. tauto.
  - exists (staged_auth file'). unfold sent_tx, complete_builder. rewrite Hi, Ho, He. congruence.
Qed.

(** ** Transactions in one go *)

Lemma balancing_run e f s :
  kind s = Balancing → (_ ← require_kind Balancing e; modify_state f) s = Some (f s, Ok tt).
Proof.
  intros Hk. by rewrite (bind_Ok (require_kind _ _) _ s s tt) by (by rewrite require_kind_run, decide_True).
Qed.

Lemma finalize_plain fee policy s s' :
  early s → extra s = None → finalize fee policy s = Some (s', Ok tt) →
  ∃ added, s' = set_kind Finalizing (with_outputs added s) ∧ staging_ok s'.
Proof.
  intros Hearly He Hrun. pose proof Hearly as (Hk & _).
  pose proof (finalize_payload_run None fee policy s Hk) as Hpay.
  assert (balance_inputs_outputs fee policy s = finalize_payload None fee policy s) as Hbal.
  { unfold balance_inputs_outputs.
    rewrite (bind_Ok (require_kind _ _) _ s s tt) by (by rewrite require_kind_run, decide_True).
    by rewrite gets_bind, He. }
  apply bind_inv in Hrun as (s1 & b & Hb & Hrun). rewrite Hbal in Hb. rewrite Hb in Hpay.
  destruct Hpay as (added & -> & Hv & Hios). injection Hrun as <-. exists added. split; [done|]. by apply finalized_ok.
Qed.

Lemma witness_and_seal w i s s' :
  staging_ok s → kind s = Finalizing → inputs s = [i] → witnesses s = [] →
  (_ ← add_witness w; seal) s = Some (s', Ok tt) →
  staging_ok s' ∧
  s' = mkStaging Sealed (inputs s) (outputs s) (valid_until s) [w] (extra s) (extra_authed s) (evm_transaction s).
Proof.
  intros Hok Hk Hi Hw Hrun. apply bind_inv in Hrun as (s1 & [] & Hadd & Hseal).
  pose proof (add_witness_ok w s Hok) as Hok1. rewrite Hadd in Hok1. destruct Hok1 as [Hok1 _].
  pose proof (seal_ok s1 Hok1) as Hok2. rewrite Hseal in Hok2. destruct Hok2 as [Hok2 _]. split; [done|].
  unfold add_witness in Hadd.
  rewrite (bind_Ok (require_kind _ _) _ s s tt) in Hadd by (by rewrite require_kind_run, decide_True).
  rewrite !gets_bind, Hi, Hw in Hadd. injection Hadd as <-. unfold seal in Hseal.
  rewrite (bind_Ok (require_kind _ _) _ _ _ tt) in Hseal by (by rewrite require_kind_run, decide_True).
  rewrite !gets_bind in Hseal. simpl in Hseal. rewrite Hi, Hw in Hseal. simpl in Hseal. injection Hseal as <-.
  unfold set_kind. simpl. by rewrite Hi.
Qed.

(** A transaction made in one go is complete: it has the sender's account as
    its only input, with the value and the fees of the settings (saturated at
    the width of a value), the receiver's output first, and one witness, which
    signs the hash of the very transaction whose fragment can be taken. *)
Theorem make_transaction_correct rq sender receiver sk v valid change force s :
  make_transaction rq sender receiver sk v valid change force staging_new = Some (s, Ok tt) →
  ∃ account settings_fees fee block0 counter counters added,
    (sender = KindAccount account ∨ sender = KindMultisig account) ∧
    request_settings rq = Some (settings_fees, fee) ∧
    block0_hash rq = Some block0 ∧ request_counters rq = Some (counter :: counters) ∧
    inputs s = [mkInput _ _ (Account_ account) (saturating_add v (calculate settings_fees None 1 1))] ∧
    outputs s = receiver v :: added ∧
    let builder := complete_builder valid None s in
    let w := new_account block0 (witness_hash builder) counter sk in
    witnesses s = [w] ∧
    fragment s = Some (s, Ok (Frag.Transaction (set_payload_auth NoAuth (set_witnesses [w] builder)))).
Proof.
  unfold make_transaction. intros Hrun. apply bind_inv in Hrun as (s0 & [settings_fees fee] & Hset & Hrun).
  destruct (request_settings rq) as [x|] eqn:Hrq; [|done]. injection Hset as <- ->.
  apply bind_inv in Hrun as (s1 & [] & Hconf & Hrun).
  assert (s1 = staging_new) as ->.
  { destruct force; [by injection Hconf|]. by destruct (ask_yes_or_no rq) as [[]|]; [injection Hconf|..]. }
  apply bind_inv in Hrun as (s2 & [] & Hacc & Hrun).
  set (tv := saturating_add v _) in *.
  assert (∃ account, (sender = KindAccount account ∨ sender = KindMultisig account) ∧
    s2 = mkStaging Balancing [mkInput _ _ (Account_ account) tv] [] None [] None None None)
    as (account & Hsender & ->).
  { destruct sender as [| |a|a|]; try done; exists a; (split; [by auto|]);
      change (add_input (mkInput _ _ (Account_ a) tv) staging_new = Some (s2, Ok tt)) in Hacc;
      unfold add_input in Hacc; rewrite balancing_run in Hacc by done; by injection Hacc. }
  apply bind_inv in Hrun as (s3 & [] & Ho & Hrun). unfold add_output in Ho.
  rewrite balancing_run in Ho by done. injection Ho as <-.
  apply bind_inv in Hrun as (s3 & [] & Hd & Hrun). unfold set_expiry_date in Hd.
  rewrite balancing_run in Hd by done. injection Hd as <-.
  apply bind_inv in Hrun as (s3 & [] & Hfin & Hrun).
  apply finalize_plain in Hfin as (added & -> & Hok); [|done|done]. set (s3 := set_kind _ _) in *.
  destruct (sign_hash_run s3 Hok eq_refl) as (vu & Hvu & Hhash). injection Hvu as <-.
  apply bind_inv in Hrun as (s4 & block0 & Hb & Hrun).
  destruct (block0_hash rq) as [h|] eqn:Hbh; [|done]. injection Hb as <- ->.
  rewrite (bind_Ok _ _ _ _ _ Hhash) in Hrun.
  apply bind_inv in Hrun as (s5 & [] & Hid & Hrun). destruct (sender_id_ok rq); [|done]. injection Hid as <-.
  apply bind_inv in Hrun as (s6 & counters & Hc & Hrun).
  destruct (request_counters rq) as [cs|] eqn:Hcs; [|done]. injection Hc as <- ->.
  apply bind_inv in Hrun as (s7 & counter & Hc & Hrun). destruct counters as [|c counters]; [done|].
  injection Hc as <- <-. apply bind_inv in Hrun as (s8 & w & Hw & Hrun). injection Hw as <- <-.
  destruct (witness_and_seal _ _ _ _ Hok eq_refl eq_refl eq_refl Hrun) as [Hok' ->].
  destruct (fragment_ready _ Hok') as (v' & Hv' & Hf); [by left|]. injection Hv' as <-.
  exists account, settings_fees, fee, block0, c, counters, added. by repeat split.
Qed.
End staging.
End Staging.

(** ** Fees (transaction/common.rs and simplified.rs) *)
Module Fees.

(** [LinearFee] of the chain library, by the fields the source reads and sets;
    the optional ones are non-zero. *)
Record LinearFee := mkLinearFee {
  constant : Z;
  coefficient : Z;
  certificate : Z;
  certificate_pool_registration : option Z;
  certificate_stake_delegation : option Z;
  certificate_owner_stake_delegation : option Z;
  certificate_vote_plan : option Z;
  certificate_vote_cast : option Z;
}.

(** [CommonFees] has the same fields, which may be zero. *)
Definition CommonFees : Type := LinearFee.

Definition nonzero (v : option Z) : option Z := x ← v; if decide (x = 0%Z) then None else Some x.

Definition linear_fee (c : CommonFees) : LinearFee :=
  mkLinearFee (constant c) (coefficient c) (certificate c) (nonzero (certificate_pool_registration c))
    (nonzero (certificate_stake_delegation c)) (nonzero (certificate_owner_stake_delegation c))
    (nonzero (certificate_vote_plan c)) (nonzero (certificate_vote_cast c)).

Definition common_fee_from_settings (fees : LinearFee) : CommonFees :=
  mkLinearFee (constant fees) (coefficient fees) (certificate fees) (certificate_pool_registration fees)
    (certificate_owner_stake_delegation fees) (certificate_owner_stake_delegation fees)
    (certificate_vote_plan fees) (certificate_vote_cast fees).

Definition nonzero_fees (f : LinearFee) : Prop :=
  certificate_pool_registration f ≠ Some 0%Z ∧ certificate_stake_delegation f ≠ Some 0%Z ∧
  certificate_owner_stake_delegation f ≠ Some 0%Z ∧ certificate_vote_plan f ≠ Some 0%Z ∧
  certificate_vote_cast f ≠ Some 0%Z.

Lemma nonzero_id v : v ≠ Some 0%Z → nonzero v = v.
Proof. destruct v as [x|]; simpl; [|done]. case_decide; congruence. Qed.

(** The fees of the settings are passed on as they are exactly when the fee of a
    stake delegation is that of an owner stake delegation, from which it is
    taken. *)
Theorem settings_fees_roundtrip f :
  nonzero_fees f →
  linear_fee (common_fee_from_settings f) = f ↔
  certificate_stake_delegation f = certificate_owner_stake_delegation f.
Proof.
  intros (H1 & H2 & H3 & H4 & H5). unfold linear_fee, common_fee_from_settings. simpl.
  rewrite !nonzero_id by done. destruct f; simpl. naive_solver.
Qed.
End Fees.

(** ** An instance, and a transaction *)
Module SampleStaging.
Import Cert Sign Staging.

Definition Input : Type := TransactionInput Z Z.
Definition Payload : Type := @Payload Z.
Definition Builder : Type := Payload * option BlockDate * list Input * list Z * list Z.
Definition Auth : Type := Sign.Auth Z Z.

#[export] Instance keys : Keys Z Z Z Z Z Z := {|
  parse_ed25519_secret_key k := if (k =? 0)%Z then None else Some k;
  to_public sk := (sk + 1)%Z;
  sign_slice sk d := (sk * 1000 + d)%Z;
  account_to_single p := Some p;
  owners p := [p];
  tally_is_public p := Z.even p;
|}.

(** At most 255 inputs and outputs; the change goes to an optional output. *)
Definition fits (i : list Input) (o : list Z) : bool := (length i <=? 255)%nat && (length o <=? 255)%nat.

#[export] Instance lib :
  @TxLib Z Z Z Z Z Z Z Z (list Input * list Z) Builder (Builder * Auth) Builder Z (option Z) unit := {|
  need_auth c := match c with OwnerStakeDelegation _ | VoteCast _ | MintToken _ => false | _ => true end;
  output_value o := o;
  ios_new i o := if fits i o then Some (i, o) else None;
  ios_build ios := ios;
  seal_with_output_policy ios _ _ change :=
    let added := match change with Some c => [c] | None => [] end in
    if fits ios.1 (ios.2 ++ added) then Ok (Zero, added) else Err ();
  set_payload p := (p, None, [], [], []);
  set_nopayload := (None, None, [], [], []);
  set_expiry_date_on d '(p, _, i, o, w) := (p, Some d, i, o, w);
  set_ios i o '(p, d, _, _, w) := (p, d, i, o, w);
  set_witnesses w '(p, d, i, o, _) := (p, d, i, o, w);
  get_auth_data _ := 7%Z;
  set_payload_auth a b := (b, a);
  witness_hash b := b;
  calculate fee _ i o := (fee * (i + o))%Z;
  value_sum l := let s := foldr Z.add 0%Z l in if (s <? U64)%Z then Some s else None;
  value_add a b := if (a + b <? U64)%Z then Some (a + b)%Z else None;
  value_sub a b := if (b <=? a)%Z then Some (a - b)%Z else None;
|}.

#[export] Instance lib_laws : TxLaws.
Proof.
  split; simpl; try done.
  - intros i o ios. by case_match; intros [= <-].
  - intros i o ios p fee policy b added. destruct (fits i o); [|done]. intros [= <-]. simpl.
    case_match eqn:Hf; [|done]. intros [= <- <-]. rewrite Hf. by eexists.
Qed.

#[export] Instance witness_lib : @WitnessLib Z Z Builder Z Z := {|
  new_utxo _ _ sk := sk;
  new_old_utxo _ _ sk := sk;
  new_account _ h counter sk := (counter * 100 + sk)%Z;
  LANES := 8;
  counter_new lane counter := (Z.of_nat lane * 10 + counter)%Z;
|}.

Definition Cmd : Type := @Command Z Z Z Z Z Z Z Z (option Z).
Definition File : Type := @Staging Z Z Z Z Z Z Z Z.
Definition date : BlockDate := mkBlockDate 3 14.

(** A stake delegation with an account and a UTxO input. *)
Definition prepare : list Cmd :=
  [AddAccount (KindAccount 5%Z) 100%Z; AddInput 1%Z 0%Z 50%Z; AddOutput 120%Z;
   AddCertificate (StakeDelegation 6%Z); SetExpiryDate date; Finalize 1%Z (Some 26%Z)].
Definition finish : list Cmd := [AddWitness 11%Z; AddOutput 9%Z; AddWitness 12%Z; Seal; AuthCommand [5%Z]].

#[local] Abbreviation prepared := (exec_all prepare staging_new).
#[local] Abbreviation final := (exec_all finish prepared).

(** Adding an output after finalizing has no effect. *)
Example final_state : (kind final, outputs final, witnesses final) = (Authed, [120; 26]%Z, [11; 12]%Z).
Proof. reflexivity. Qed.

(** An Ethereum transaction is dropped without a word. *)
Example evm_dropped :
  let file : File := exec_all [AddAccount (KindAccount 5%Z) 100%Z; AddEvmTransaction 77%Z; SetExpiryDate date;
                               Finalize 1%Z None; AddWitness 11%Z; Seal] staging_new in
  ∃ tx, fragment file = Some (file, Ok (Frag.Transaction tx)) ∧ evm_transaction file = Some 77%Z.
Proof. eexists. split; reflexivity. Qed.

Lemma prepared_kind : kind prepared = Finalizing.
Proof. reflexivity. Qed.
Lemma final_kind : kind final = Authed.
Proof. reflexivity. Qed.
Lemma final_fragment : ∃ f, fragment final = Some (final, Ok f).
Proof.
  assert (staging_ok final) as Hok by (apply exec_all_ok, exec_all_ok, new_ok).
  destruct (fragment_ready final Hok (or_intror final_kind)) as (v & _ & Hf). by eexists.
Qed.

Lemma signed_is_sent_witness :
  ∃ v f, fragment final = Some (final, Ok f) ∧ ∃ auth,
    f = fragment_of (extra prepared)
          (set_payload_auth auth (set_witnesses (witnesses final) (complete_builder v (extra prepared) prepared))).
Proof.
  destruct final_fragment as [f Hf].
  destruct (signed_is_sent prepare finish prepared_kind) as (v & _ & _ & _ & Hsent).
  exists v, f. split; [exact Hf|exact (proj2 (Hsent _ f Hf))].
Defined.

Lemma staging_fragment_witness : ∃ r, fragment prepared = Some (prepared, r) ∧ is_ok r = false.
Proof.
  destruct (staging_fragment prepare) as [(r & Hr & Hok & _) _]. exists r. split; [exact Hr|].
  pose proof prepared_kind as Hk. unfold ready in Hok. rewrite Hk in Hok.
  destruct r; [|reflexivity]. exfalso. destruct Hok as [Hok _]. destruct (Hok eq_refl) as [[H _]|H]; discriminate H.
Defined.

Definition requests : @Requests Z Z Z := mkRequests (Some (3, 3)%Z) (Some true) (Some 99%Z) true (Some [4]%Z).

Definition result_made : option (File * result Error unit) :=
  make_transaction requests (KindAccount 5%Z) (λ v, v) 8%Z 40%Z date None false staging_new.
Definition made : File := match result_made with Some (s, _) => s | None => staging_new end.

Lemma made_eq : result_made = Some (made, Ok tt).
Proof.
  assert (match result_made with Some (_, Ok _) => true | _ => false end = true) as Hok by reflexivity.
  unfold made. by destruct result_made as [[s [[]|]]|].
Qed.

Lemma make_transaction_correct_witness : witnesses made = [408]%Z.
Proof.
  destruct (make_transaction_correct requests (KindAccount 5%Z) (λ v, v) 8%Z 40%Z date None false made made_eq)
    as (account & sf & fee & block0 & counter & counters & added & _ & _ & Hb & Hc & _ & _ & Hw & _).
  injection Hb as <-. injection Hc as <- <-. exact Hw.
Defined.
End SampleStaging.
