(* ===== verification/Pagination.v ===== *)
(** * Pagination of the explorer's queries

    Models [explorer/src/api/graphql/connections.rs] (the interval of a page)
    and the cursors of [explorer/src/api/graphql/scalars.rs].  A page is
    specified by the algorithm of the GraphQL cursor connections: keep the
    elements after and before the cursors, then the first and the last ones. *)

From stdpp Require Import pretty.
From S2P Require Import Prelude.

#[local] Open Scope Z_scope.

(** ** Numbers in strings *)
Definition digit (c : Ascii.ascii) : option Z :=
  let n := Z.of_nat (Ascii.nat_of_ascii c) in
  if (48 <=? n) && (n <=? 57) then Some (n - 48) else None.

Fixpoint parse_digits (w acc : Z) (s : string) : option Z :=
  match s with
  | EmptyString => Some acc
  | String c s =>
      d ← digit c;
      if (acc * 10 + d <? w) then parse_digits w (acc * 10 + d) s else None
  end.

(** [str::parse] for an unsigned type of [w] values: digits, with an optional
    plus sign in front. *)
Definition parse_uint (w : Z) (s : string) : option Z :=
  match s with
  | EmptyString => None
  | String c s' =>
      if decide (c = Ascii.ascii_of_nat 43) then
        (match s' with EmptyString => None | _ => parse_digits w 0 s' end)
      else parse_digits w 0 s
  end.

(** ** Cursors (scalars.rs)

    [IndexCursor(String)]; every string is a cursor ([decode_cursor]), and the
    conversion to a number may fail. *)
Definition IndexCursor : Type := string.
Definition decode_cursor (s : string) : IndexCursor := s.
Definition encode_cursor (c : IndexCursor) : string := c.
Definition cursor_from (n : Z) : IndexCursor := pretty (Z.to_N n).
Definition cursor_try_into (w : Z) (c : IndexCursor) : option Z := parse_uint w c.

(** ** Intervals (connections.rs) *)
Record ValidatedPaginationArguments := mkArguments {
  arg_first : option Z;
  arg_last : option Z;
  arg_before : option Z;
  arg_after : option Z;
}.

Record PageMeta := mkPageMeta {
  has_next_page : bool;
  has_previous_page : bool;
  total_count : Z;
}.

Record InclusivePaginationInterval := mkInclusive { lower_bound : Z; upper_bound : Z }.

Inductive PaginationInterval :=
| EmptyInterval
| Inclusive (interval : InclusivePaginationInterval).

Definition compute_range_boundaries (total_elements : InclusivePaginationInterval)
    (args : ValidatedPaginationArguments) : InclusivePaginationInterval :=
  let upper := upper_bound total_elements in
  let lower := lower_bound total_elements in
  let from := match arg_after args with
              | Some cursor => wrap64 (cursor + 1) `max` lower
              | None => lower
              end in
  let to := match arg_before args with
            | Some cursor => wrap64 (cursor - 1) `min` upper
            | None => upper
            end in
  let to := match arg_first args with
            | Some first => default to (n ← checked_add U64 from first; checked_sub n 1) `min` to
            | None => to
            end in
  let from := match arg_last args with
              | Some last => default from (n ← checked_sub to last; checked_add U64 n 1) `max` from
              | None => from
              end in
  mkInclusive from to.

(** [bounds_try_into] *)
Definition bounds_try_into (w : Z) (i : PaginationInterval) : option PaginationInterval :=
  match i with
  | EmptyInterval => Some EmptyInterval
  | Inclusive i =>
      l ← uint_try_from w (lower_bound i);
      u ← uint_try_from w (upper_bound i);
      Some (Inclusive (mkInclusive l u))
  end.

(** [compute_interval::<I>], for a type of cursors of [w] values; [None] is a
    panic. *)
Definition compute_interval (w : Z) (bounds : PaginationInterval) (args : ValidatedPaginationArguments)
    : option (PaginationInterval * PageMeta) :=
  '(page_interval, has_next, has_previous, count) ←
    match bounds with
    | EmptyInterval => Some (EmptyInterval, false, false, 0)
    | Inclusive total_elements =>
        let page := compute_range_boundaries total_elements args in
        let has_next := upper_bound page <? upper_bound total_elements in
        let has_previous := lower_bound total_elements <? lower_bound page in
        n ← checked_add U64 (upper_bound total_elements) 1;
        count ← checked_sub n (lower_bound total_elements);
        Some (Inclusive page, has_next, has_previous, count)
    end;
  interval ← bounds_try_into w page_interval;
  Some (interval, mkPageMeta has_next has_previous count).

(** ** The specification *)

(** The elements [from..=to] *)
Definition range_incl (from to : Z) : list Z := seqZ from (to - from + 1).
Definition elements_of (i : PaginationInterval) : list Z :=
  match i with EmptyInterval => [] | Inclusive i => range_incl (lower_bound i) (upper_bound i) end.

Definition after_ok (a : option Z) (i : Z) : bool := match a with Some c => c <? i | None => true end.
Definition before_ok (b : option Z) (i : Z) : bool := match b with Some c => i <? c | None => true end.
Definition take_opt {A} (n : option Z) (l : list A) : list A :=
  match n with Some n => take (Z.to_nat n) l | None => l end.
Definition last_opt {A} (n : option Z) (l : list A) : list A :=
  match n with Some n => drop (length l - Z.to_nat n) l | None => l end.

Definition page_spec (all : list Z) (args : ValidatedPaginationArguments) : list Z :=
  last_opt (arg_last args) (take_opt (arg_first args)
    (filter (λ i, after_ok (arg_after args) i && before_ok (arg_before args) i = true) all)).

(** Arguments of the given type, on which no subtraction or addition wraps
    around: [after] is not the greatest cursor, [before] is not 0, and not 0
    elements are asked for from the beginning. *)
Definition arguments_ok (w lower : Z) (args : ValidatedPaginationArguments) : Prop :=
  (∀ a, arg_after args = Some a → 0 ≤ a ∧ a + 1 < w) ∧
  (∀ b, arg_before args = Some b → 0 < b < w) ∧
  (∀ n, arg_first args = Some n → 0 ≤ n ∧ (n = 0 → 0 < lower ∨ is_Some (arg_after args))) ∧
  (∀ n, arg_last args = Some n → 0 ≤ n).

(** ** Ranges *)
Lemma range_incl_elem i from to : i ∈ range_incl from to ↔ from ≤ i ≤ to.
Proof. unfold range_incl. rewrite elem_of_seqZ. lia. Qed.

Lemma seqZ_filter lo n a b :
  filter (λ i, a ≤ i ≤ b) (seqZ lo n) = range_incl (a `max` lo) (b `min` (lo + n - 1)).
Proof.
  unfold range_incl. destruct (decide (0 ≤ n)) as [Hn|]; cycle 1.
  { rewrite !seqZ_nil by lia. done. }
  revert lo. pattern n. apply natlike_ind; [|clear n Hn; intros n Hn IH lo|done].
  { intros lo. rewrite !seqZ_nil by lia. done. }
  rewrite seqZ_cons, filter_cons, Z.pred_succ, IH by lia.
  replace (lo + Z.succ n - 1) with (Z.succ lo + n - 1) by lia.
  case_decide.
  - rewrite (seqZ_cons (a `max` lo)) by lia. replace (a `max` lo) with lo by lia.
    f_equal. f_equal; lia.
  - destruct (decide (b < lo)); [rewrite !seqZ_nil by lia; done|]. f_equal; lia.
Qed.

Lemma take_seqZ lo n k : 0 ≤ k → take (Z.to_nat k) (seqZ lo n) = seqZ lo (k `min` n).
Proof.
  intros Hk. unfold seqZ. rewrite <- fmap_take, take_seq. do 2 f_equal. lia.
Qed.

Lemma last_seqZ lo n k :
  0 ≤ k → drop (length (seqZ lo n) - Z.to_nat k) (seqZ lo n) = seqZ (lo + (n - k) `max` 0) (k `min` n).
Proof.
  intros Hk. rewrite length_seqZ. unfold seqZ. rewrite <- fmap_drop, drop_seq.
  replace (0 + (Z.to_nat n - Z.to_nat k))%nat with (0 + Z.to_nat ((n - k) `max` 0))%nat by lia.
  rewrite Nat.add_comm, <- fmap_add_seq, <- list_fmap_compose.
  replace (Z.to_nat n - (Z.to_nat n - Z.to_nat k))%nat with (Z.to_nat (k `min` n)) by lia.
  apply list_fmap_ext. intros i x _. simpl. lia.
Qed.

(** ** The interval of a page *)
Section interval.
Context (w lower upper : Z) (args : ValidatedPaginationArguments).
Hypothesis Hw : w ≤ U64.
Hypothesis Hbounds : 0 ≤ lower ≤ upper.
Hypothesis Hupper : upper + 1 < w.
Hypothesis Hargs : arguments_ok w lower args.

Let page := compute_range_boundaries (mkInclusive lower upper) args.
(** The two ends after the cursors, and the upper end after [first]. *)
Let from0 := match arg_after args with Some c => wrap64 (c + 1) `max` lower | None => lower end.
Let to0 := match arg_before args with Some c => wrap64 (c - 1) `min` upper | None => upper end.
Let to1 := match arg_first args with
           | Some first => default to0 (n ← checked_add U64 from0 first; checked_sub n 1) `min` to0
           | None => to0
           end.

Lemma from0_spec :
  lower ≤ from0 < w ∧ ∀ i, lower ≤ i → after_ok (arg_after args) i = true ↔ from0 ≤ i.
Proof using Hw Hbounds Hupper Hargs.
  destruct Hargs as (Ha & _). unfold from0, after_ok.
  destruct (arg_after args) as [a|]; [|split; [lia|intros; intuition lia]].
  destruct (Ha a eq_refl). rewrite wrap64_small by lia. split; [lia|]. intros. rewrite Z.ltb_lt. lia.
Qed.

Lemma to0_spec :
  0 ≤ to0 ≤ upper ∧ ∀ i, i ≤ upper → before_ok (arg_before args) i = true ↔ i ≤ to0.
Proof using Hw Hbounds Hargs.
  destruct Hargs as (_ & Hb & _). unfold to0, before_ok.
  destruct (arg_before args) as [b|]; [|split; [lia|intros; intuition lia]].
  destruct (Hb b eq_refl). rewrite wrap64_small by lia. split; [lia|]. intros. rewrite Z.ltb_lt. lia.
Qed.

Lemma first_pos n : arg_first args = Some n → 0 ≤ n ∧ 0 < from0 + n.
Proof using Hw Hbounds Hargs.
  destruct Hargs as (Ha & _ & Hf & _). intros Hn. destruct (Hf n Hn) as [? Hz]. split; [done|].
  unfold from0. destruct (arg_after args) as [a|] eqn:Haa.
  - destruct (Ha a eq_refl). rewrite wrap64_small; lia.
  - destruct (decide (n = 0)) as [->|]; [|lia]. destruct (Hz eq_refl) as [|[??]]; [lia|done].
Qed.

Lemma to1_spec :
  0 ≤ to1 ≤ upper ∧ take_opt (arg_first args) (range_incl from0 to0) = range_incl from0 to1.
Proof using Hw Hbounds Hupper Hargs.
  destruct from0_spec as [Hfrom _], to0_spec as [Hto _]. pose proof first_pos as Hpos.
  unfold to1, range_incl, take_opt, checked_add, checked_sub.
  destruct (arg_first args) as [n|] eqn:Hn; [|done]. destruct (Hpos n eq_refl).
  rewrite take_seqZ by done. destruct (Z.ltb_spec (from0 + n) U64); simpl.
  - rewrite (proj2 (Z.leb_le _ _)) by lia. simpl. split; [lia|f_equal; lia].
  - rewrite Z.min_id. split; [lia|f_equal; lia].
Qed.

Lemma page_bounds : lower ≤ lower_bound page < w ∧ 0 ≤ upper_bound page ≤ upper.
Proof using Hw Hbounds Hupper Hargs.
  destruct from0_spec as [Hfrom _], to1_spec as [Hto _], Hargs as (_ & _ & _ & Hl).
  unfold page, compute_range_boundaries. simpl. fold from0 to0 to1. split; [|done].
  destruct (arg_last args) as [k|]; [|lia]. specialize (Hl k eq_refl). unfold checked_add, checked_sub.
  destruct (Z.leb_spec k to1); simpl; [|lia]. destruct (Z.ltb_spec (to1 - k + 1) U64); simpl; lia.
Qed.

Lemma page_elements :
  range_incl (lower_bound page) (upper_bound page) = page_spec (range_incl lower upper) args.
Proof using Hw Hbounds Hupper Hargs.
  destruct from0_spec as [Hfrom Ha], to0_spec as [Hto Hb], to1_spec as [Hto1 Htake].
  destruct Hargs as (_ & _ & _ & Hl).
  unfold page, page_spec, compute_range_boundaries. simpl. fold from0 to0 to1.
  rewrite (list_filter_iff_elem _ (λ i, from0 ≤ i ≤ to0)); cycle 1.
  { intros i Hi%range_incl_elem. rewrite andb_true_iff, Ha, Hb by lia. tauto. }
  unfold range_incl at 2. rewrite seqZ_filter.
  replace (from0 `max` lower) with from0 by lia.
  replace (to0 `min` (lower + (upper - lower + 1) - 1)) with to0 by lia.
  rewrite Htake. unfold range_incl, last_opt, checked_add, checked_sub.
  destruct (arg_last args) as [k|] eqn:Hk; [|done]. specialize (Hl k eq_refl).
  rewrite last_seqZ by done.
  destruct (Z.leb_spec k to1); simpl; [rewrite (proj2 (Z.ltb_lt _ _)) by lia; simpl|]; f_equal; lia.
Qed.

(** The interval of a page, and what is said about it. *)
Lemma compute_interval_ok :
  ∃ from to,
    compute_interval w (Inclusive (mkInclusive lower upper)) args =
    Some (Inclusive (mkInclusive from to),
          mkPageMeta (to <? upper) (lower <? from) (upper - lower + 1)) ∧
    lower ≤ from ∧ to ≤ upper ∧
    range_incl from to = page_spec (range_incl lower upper) args.
Proof using Hw Hbounds Hupper Hargs.
  destruct page_bounds as [Hl Hu]. pose proof page_elements as He.
  exists (lower_bound page), (upper_bound page). split_and!; [|lia|lia|done].
  unfold compute_interval. fold page. clearbody page.
  unfold checked_add, checked_sub, uint_try_from. simpl.
  rewrite (proj2 (Z.ltb_lt (upper + 1) _)) by lia. simpl.
  rewrite (proj2 (Z.leb_le lower _)) by lia. simpl. unfold uint_try_from.
  rewrite (proj2 (Z.ltb_lt (lower_bound page) w)) by lia. simpl.
  rewrite (proj2 (Z.ltb_lt (upper_bound page) w)) by lia. simpl.
  by replace (upper + 1 - lower) with (upper - lower + 1) by lia.
Qed.
End interval.

(** ** Numbers as cursors *)
Lemma digit_pretty n : (n < 10)%N → digit (pretty_N_char n) = Some (Z.of_N n).
Proof.
  intros Hn. unfold pretty_N_char.
  assert (n ∈ [0; 1; 2; 3; 4; 5; 6; 7; 8; 9]%N) as Hin.
  { rewrite list_elem_of_In. simpl. lia. }
  repeat (apply elem_of_cons in Hin as [->|Hin]; [reflexivity|]). by apply elem_of_nil in Hin.
Qed.

Lemma parse_digits_cons w acc c s :
  parse_digits w acc (String c s) =
  match digit c with
  | Some d => if acc * 10 + d <? w then parse_digits w (acc * 10 + d) s else None
  | None => None
  end.
Proof. simpl. by destruct (digit c). Qed.

Lemma parse_pretty_go w x s :
  (0 < x)%N → Z.of_N x < w → parse_digits w 0 (pretty_N_go x s) = parse_digits w (Z.of_N x) s.
Proof.
  revert s. induction (N.lt_wf_0 x) as [x _ IH]. intros s Hx Hw.
  rewrite pretty_N_go_step by done.
  assert (Hmod : (x `mod` 10 < 10)%N) by (apply N.mod_lt; lia).
  assert (Hdiv : Z.of_N x = Z.of_N (x `div` 10) * 10 + Z.of_N (x `mod` 10)).
  { rewrite (N.Div0.div_mod x 10) at 1. lia. }
  pose proof (N2Z.is_nonneg (x `div` 10)). pose proof (N2Z.is_nonneg (x `mod` 10)).
  destruct (decide (x `div` 10 = 0)%N) as [Hz|Hz].
  - rewrite Hz, pretty_N_go_0, parse_digits_cons, digit_pretty by done. rewrite Hz in Hdiv.
    rewrite (proj2 (Z.ltb_lt _ _)) by lia. f_equal. lia.
  - rewrite IH; [|apply N.div_lt; lia|lia|lia]. rewrite parse_digits_cons, digit_pretty by done.
    rewrite (proj2 (Z.ltb_lt _ _)) by lia. f_equal. lia.
Qed.

(** Whether the first character is a digit, which [pretty_N_go] always gives. *)
Definition starts_digit (s : string) : Prop :=
  match s with String c _ => is_Some (digit c) | EmptyString => False end.

Lemma pretty_go_starts x s : starts_digit s ∨ (0 < x)%N → starts_digit (pretty_N_go x s).
Proof.
  revert s. induction (N.lt_wf_0 x) as [x _ IH]. intros s Hs.
  destruct (decide (x = 0)%N) as [->|]; [rewrite pretty_N_go_0; destruct Hs; [done|lia]|].
  rewrite pretty_N_go_step by lia. apply IH; [apply N.div_lt; lia|]. left. simpl.
  rewrite digit_pretty by (apply N.mod_lt; lia). eauto.
Qed.

Lemma cursor_roundtrip w n : 0 ≤ n < w → cursor_try_into w (cursor_from n) = Some n.
Proof.
  intros Hn. unfold cursor_try_into, cursor_from. destruct (decide (n = 0)) as [->|Hz].
  { change (parse_digits w 0 (String (pretty_N_char 0) "") = Some 0).
    rewrite parse_digits_cons, digit_pretty by done.
    change (0 * 10 + Z.of_N 0) with 0. by rewrite (proj2 (Z.ltb_lt 0 w)) by lia. }
  unfold pretty, pretty_N. rewrite decide_False by lia.
  assert (starts_digit (pretty_N_go (Z.to_N n) "")) as Hd by (apply pretty_go_starts; right; lia).
  transitivity (parse_digits w 0 (pretty_N_go (Z.to_N n) "")).
  - unfold parse_uint. destruct (pretty_N_go _ _) as [|c s]; [done|].
    rewrite decide_False; [done|]. intros ->. by destruct Hd.
  - rewrite parse_pretty_go by lia. simpl. f_equal. lia.
Qed.

(** ** Arguments out of range *)

(** A cursor at the greatest value of a 32-bit type panics: its successor does not
    fit the type of the interval. *)
Lemma after_greatest_panics lower upper args :
  arg_after args = Some (U32 - 1) → 0 ≤ lower →
  compute_interval U32 (Inclusive (mkInclusive lower upper)) args = None.
Proof.
  intros Ha Hl. unfold compute_interval.
  assert (U32 ≤ lower_bound (compute_range_boundaries (mkInclusive lower upper) args)) as Hle.
  { unfold compute_range_boundaries. rewrite Ha. cbn [lower_bound]. change (wrap64 (U32 - 1 + 1)) with U32.
    destruct (arg_last args); [etrans; [|apply Z.le_max_r]|]; apply Z.le_max_l. }
  destruct (compute_range_boundaries _ _) as [l u]. simpl in *.
  destruct (checked_add _ _ _); simpl; [|done]. destruct (checked_sub _ _); simpl; [|done].
  unfold uint_try_from. by rewrite (proj2 (Z.ltb_ge l U32)) by done.
Qed.

(** A page before the first element wraps around to all of them, and so do the
    first 0 elements from the beginning. *)
Example before_zero_wraps :
  compute_interval U32 (Inclusive (mkInclusive 0 9)) (mkArguments None None (Some 0) None) =
  Some (Inclusive (mkInclusive 0 9), mkPageMeta false false 10).
Proof. reflexivity. Qed.

Example first_zero_is_all :
  compute_interval U32 (Inclusive (mkInclusive 0 9)) (mkArguments (Some 0) None None None) =
  Some (Inclusive (mkInclusive 0 9), mkPageMeta false false 10).
Proof. reflexivity. Qed.

(** ** Correctness *)

(** C35: A page is the one of the GraphQL cursor connections: the elements strictly
    between the cursors, then the first and the last ones asked for.  The count is
    that of all elements, and unless the page is empty the two flags say whether
    there are elements after and before it.  This holds for arguments on which
    nothing wraps around ([arguments_ok]). *)
Theorem compute_interval_correct w lower upper args :
  w ≤ U64 → 0 ≤ lower ≤ upper → upper + 1 < w → arguments_ok w lower args →
  ∃ page meta,
    compute_interval w (Inclusive (mkInclusive lower upper)) args = Some (page, meta) ∧
    elements_of page = page_spec (range_incl lower upper) args ∧
    total_count meta = Z.of_nat (length (range_incl lower upper)) ∧
    (elements_of page ≠ [] →
      (has_next_page meta = true ↔
         ∃ i, i ∈ range_incl lower upper ∧ ∀ j, j ∈ elements_of page → j < i) ∧
      (has_previous_page meta = true ↔
         ∃ i, i ∈ range_incl lower upper ∧ ∀ j, j ∈ elements_of page → i < j)).
Proof.
  intros Hw Hb Hu Hargs.
  destruct (compute_interval_ok w lower upper args Hw Hb Hu Hargs) as (from & to & -> & Hf & Ht & He).
  eexists _, _. split_and!; [done|done|simpl; unfold range_incl; rewrite length_seqZ; lia|].
  simpl. intros Hne. assert (from ≤ to) as Hft.
  { destruct (decide (from ≤ to)); [done|]. destruct Hne. unfold range_incl. apply seqZ_nil. lia. }
  rewrite !Z.ltb_lt. setoid_rewrite range_incl_elem. split; split.
  - intros. exists upper. split; [lia|]. intros. lia.
  - intros (i & Hi & Hj). specialize (Hj to). lia.
  - intros. exists lower. split; [lia|]. intros. lia.
  - intros (i & Hi & Hj). specialize (Hj from). lia.
Qed.

Lemma compute_interval_correct_witness :
  ∃ page meta,
    compute_interval U32 (Inclusive (mkInclusive 0 9)) (mkArguments (Some 3) (Some 2) (Some 8) (Some 1)) =
    Some (page, meta) ∧ elements_of page = [3; 4] ∧ has_next_page meta = true.
Proof.
  destruct (compute_interval_correct U32 0 9 (mkArguments (Some 3) (Some 2) (Some 8) (Some 1)))
    as (page & meta & H1 & H2 & _).
  - discriminate.
  - lia.
  - reflexivity.
  - unfold arguments_ok. simpl. split_and!; intros; simplify_eq; try done; unfold U32; lia.
  - exists page, meta. split; [exact H1|]. split; [rewrite H2; reflexivity|].
    vm_compute in H1. by injection H1 as <- <-.
Defined.
