(* ===== verification/Hamt.v ===== *)
(** * The interface of the [imhamt] crate, and sequences built on it

    [Hamt] is a persistent hash map; the explorer keeps its indexes in them.
    Its operations are parameters (class [Hamt]) with their documented
    behaviour as laws ([HamtLaws]); [GmapHamt] is an instance that computes.
    [PersistentSequence] is [explorer/src/db/persistent_sequence.rs]. *)

From S2P Require Import Prelude.

Class Hamt := {
  hamt : ∀ (K : Type) `{Countable K}, Type → Type;
  hamt_new : ∀ `{Countable K} {V}, hamt K V;
  hamt_lookup : ∀ `{Countable K} {V}, K → hamt K V → option V;
  (** [insert]: an error, [None], if there is an entry *)
  hamt_insert : ∀ `{Countable K} {V}, K → V → hamt K V → option (hamt K V);
  (** [update], with a function that does not fail: an error, [None], if there
      is no entry; the function may remove it *)
  hamt_update : ∀ `{Countable K} {V}, K → (V → option V) → hamt K V → option (hamt K V);
  (** [insert_or_update_simple], and [insert_or_update] with a function that
      does not fail *)
  hamt_insert_or_update : ∀ `{Countable K} {V}, K → V → (V → option V) → hamt K V → hamt K V;
  hamt_iter : ∀ `{Countable K} {V}, hamt K V → list (K * V);
  hamt_size : ∀ `{Countable K} {V}, hamt K V → nat;
}.

Class HamtLaws `{Hamt} : Prop := {
  hamt_lookup_new `{Countable K} {V} (k : K) : hamt_lookup k (hamt_new : hamt K V) = None;
  hamt_insert_spec `{Countable K} {V} (k : K) (v : V) (h : hamt K V) :
    match hamt_lookup k h, hamt_insert k v h with
    | None, Some h' => ∀ k', hamt_lookup k' h' = if decide (k' = k) then Some v else hamt_lookup k' h
    | Some _, None => True
    | _, _ => False
    end;
  hamt_update_spec `{Countable K} {V} (k : K) (f : V → option V) (h : hamt K V) :
    match hamt_lookup k h, hamt_update k f h with
    | Some v, Some h' => ∀ k', hamt_lookup k' h' = if decide (k' = k) then f v else hamt_lookup k' h
    | None, None => True
    | _, _ => False
    end;
  hamt_lookup_insert_or_update `{Countable K} {V} (k : K) (v : V) (f : V → option V) (h : hamt K V) k' :
    hamt_lookup k' (hamt_insert_or_update k v f h) =
    if decide (k' = k) then (match hamt_lookup k h with Some w => f w | None => Some v end)
    else hamt_lookup k' h;
  hamt_iter_spec `{Countable K} {V} (h : hamt K V) :
    NoDup (hamt_iter h).*1 ∧ ∀ k v, (k, v) ∈ hamt_iter h ↔ hamt_lookup k h = Some v;
  hamt_size_spec `{Countable K} {V} (h : hamt K V) : hamt_size h = length (hamt_iter h);
}.

Section facts.
Context `{HamtLaws} `{Countable K} {V : Type}.
Implicit Types (k : K) (v : V) (h : hamt K V).

Lemma hamt_insert_Some k v h h' :
  hamt_insert k v h = Some h' →
  hamt_lookup k h = None ∧ ∀ k', hamt_lookup k' h' = if decide (k' = k) then Some v else hamt_lookup k' h.
Proof. intros Hi. pose proof (hamt_insert_spec k v h) as Hs. rewrite Hi in Hs. by destruct (hamt_lookup k h). Qed.

Lemma hamt_insert_None k v h : hamt_insert k v h = None ↔ is_Some (hamt_lookup k h).
Proof.
  pose proof (hamt_insert_spec k v h) as Hs. rewrite <- not_eq_None_Some.
  destruct (hamt_lookup k h), (hamt_insert k v h); naive_solver.
Qed.

Lemma hamt_update_Some k f h h' :
  hamt_update k f h = Some h' →
  ∃ v, hamt_lookup k h = Some v ∧
       ∀ k', hamt_lookup k' h' = if decide (k' = k) then f v else hamt_lookup k' h.
Proof.
  intros Hu. pose proof (hamt_update_spec k f h) as Hs. rewrite Hu in Hs.
  destruct (hamt_lookup k h) as [v|]; [by exists v|done].
Qed.

Lemma hamt_update_None k f h : hamt_update k f h = None ↔ hamt_lookup k h = None.
Proof.
  pose proof (hamt_update_spec k f h) as Hs.
  destruct (hamt_lookup k h), (hamt_update k f h); naive_solver.
Qed.
End facts.

(** ** An instance: [gmap] *)
Module GmapHamt.
#[export] Instance gmap_hamt : Hamt := {|
  hamt K _ _ V := gmap K V;
  hamt_new _ _ _ _ := ∅;
  hamt_lookup _ _ _ _ k h := h !! k;
  hamt_insert _ _ _ _ k v h := match h !! k with Some _ => None | None => Some (<[k := v]> h) end;
  hamt_update _ _ _ _ k f h := match h !! k with Some v => Some (partial_alter (λ _, f v) k h) | None => None end;
  hamt_insert_or_update _ _ _ _ k v f h :=
    partial_alter (λ _, match h !! k with Some w => f w | None => Some v end) k h;
  hamt_iter _ _ _ _ h := map_to_list h;
  hamt_size _ _ _ _ h := size h;
|}.

#[export] Instance gmap_hamt_laws : HamtLaws.
Proof.
  split; simpl.
  - intros. apply lookup_empty.
  - intros K ?? V k v h. destruct (h !! k); [done|]. intros k'.
    case_decide; subst; [apply lookup_insert_eq|by apply lookup_insert_ne].
  - intros K ?? V k f h. destruct (h !! k); [|done]. intros k'.
    case_decide; subst; [apply lookup_partial_alter_eq|by apply lookup_partial_alter_ne].
  - intros K ?? V k v f h k'.
    case_decide; subst; [apply lookup_partial_alter_eq|by apply lookup_partial_alter_ne].
  - intros K ?? V h. split; [apply NoDup_fst_map_to_list|]. intros. apply elem_of_map_to_list.
  - intros K ?? V h. symmetry. apply map_size_list_to_map || apply length_map_to_list.
Qed.
End GmapHamt.

(** ** Sequences (persistent_sequence.rs)

    [None] is a panic. *)
Section sequence.
Context `{Hamt} {T : Type}.

Record PersistentSequence := mkSequence { seq_len : Z; seq_elements : hamt Z T }.

Definition seq_new : PersistentSequence := mkSequence 0 hamt_new.

Definition seq_append (s : PersistentSequence) (t : T) : option PersistentSequence :=
  let len := wrap64 (seq_len s + 1) in
  elements ← hamt_insert (wrap64 (len - 1)) t (seq_elements s);
  Some (mkSequence len elements).

Definition seq_get (s : PersistentSequence) (i : Z) : option T := hamt_lookup i (seq_elements s).

Definition seq_is_empty (s : PersistentSequence) : bool := (seq_len s =? 0)%Z.

(** A sequence stands for a list. *)
Definition seq_repr (s : PersistentSequence) (l : list T) : Prop :=
  seq_len s = Z.of_nat (length l) ∧
  ∀ i, hamt_lookup i (seq_elements s) = if (0 <=? i)%Z then l !! Z.to_nat i else None.

Context `{!HamtLaws}.

Lemma seq_new_repr : seq_repr seq_new [].
Proof. split; [done|]. intros i. simpl. rewrite hamt_lookup_new. by case_match. Qed.

Lemma seq_append_repr s l t :
  seq_repr s l → (Z.of_nat (length l) + 1 < U64)%Z →
  ∃ s', seq_append s t = Some s' ∧ seq_repr s' (l ++ [t]).
Proof.
  intros [Hlen Hel] Hmax. unfold seq_append. rewrite Hlen, (wrap64_small (_ + 1)) by lia.
  rewrite Z.add_simpl_r, wrap64_small by lia.
  pose proof (hamt_insert_spec (Z.of_nat (length l)) t (seq_elements s)) as Hs.
  rewrite Hel, (proj2 (Z.leb_le _ _)), Nat2Z.id, lookup_ge_None_2 in Hs by lia.
  destruct (hamt_insert _ _ _) as [h|]; [|done]. simpl. eexists. split; [done|].
  split; simpl; [rewrite length_app; simpl; lia|]. intros i. rewrite Hs, Hel.
  case_decide as Hi; [subst; rewrite (proj2 (Z.leb_le _ _)), Nat2Z.id, list_lookup_middle by lia; done|].
  destruct (Z.leb_spec 0 i); [|done].
  destruct (decide (i < Z.of_nat (length l))%Z); [by rewrite lookup_app_l by lia|].
  rewrite !lookup_ge_None_2; [done| |]; rewrite ?length_app; simpl; lia.
Qed.

Lemma seq_append_inv s s' l t :
  seq_repr s l → (Z.of_nat (length l) + 1 < U64)%Z → seq_append s t = Some s' → seq_repr s' (l ++ [t]).
Proof. intros Hr Hl Ha. destruct (seq_append_repr s l t Hr Hl) as (? & ? & ?). by simplify_eq. Qed.

Lemma seq_get_repr s l i :
  seq_repr s l → seq_get s i = if (0 <=? i)%Z then l !! Z.to_nat i else None.
Proof. intros [_ Hel]. apply Hel. Qed.

Lemma seq_repr_inj s l1 l2 : seq_repr s l1 → seq_repr s l2 → l1 = l2.
Proof.
  intros [_ H1] [_ H2]. apply list_eq. intros i. specialize (H1 (Z.of_nat i)). rewrite H2 in H1.
  by rewrite (proj2 (Z.leb_le _ _)), Nat2Z.id in H1 by lia.
Qed.
End sequence.
Arguments PersistentSequence {_} T.
