(* ===== verification/Indexing.v ===== *)
(** * The data of the explorer

    Models [explorer/src/db/indexing.rs]: blocks as the explorer stores them,
    with the inputs of their transactions resolved to addresses and values.
    Identifiers, keys, certificates and the sum of values of the chain library
    are parameters (class [ChainTypes]); so is the order in which a [HashMap]
    is iterated (class [HashOrder]). *)

From S2P Require Import Prelude BlockDate Hamt.

#[local] Open Scope Z_scope.

(** ** The chain library *)
Class ChainTypes := {
  HeaderHash : Type; header_hash_eq :: EqDecision HeaderHash; header_hash_countable :: Countable HeaderHash;
  FragmentId : Type; fragment_id_eq :: EqDecision FragmentId; fragment_id_countable :: Countable FragmentId;
  PoolId : Type; pool_id_eq :: EqDecision PoolId; pool_id_countable :: Countable PoolId;
  VotePlanId : Type; vote_plan_id_eq :: EqDecision VotePlanId; vote_plan_id_countable :: Countable VotePlanId;
  PublicKey : Type; public_key_eq :: EqDecision PublicKey; public_key_countable :: Countable PublicKey;
  MultisigId : Type; multisig_id_eq :: EqDecision MultisigId; multisig_id_countable :: Countable MultisigId;
  Discrimination : Type; discrimination_eq :: EqDecision Discrimination;
  discrimination_countable :: Countable Discrimination;
  (** the kinds of addresses that the explorer does not look at *)
  OtherKind : Type; other_kind_eq :: EqDecision OtherKind; other_kind_countable :: Countable OtherKind;
  OldAddress : Type; old_address_eq :: EqDecision OldAddress; old_address_countable :: Countable OldAddress;
  BftLeaderId : Type;
  ConfigParams : Type;
  (** the identifier of an account input, of either kind *)
  AccountIdentifier : Type;
  to_single_account : AccountIdentifier → option PublicKey;
  (** [to_multi_account().as_ref().try_into()] *)
  to_multi_account : AccountIdentifier → option MultisigId;
  (** payloads of certificates *)
  OwnerStakeDelegationCert : Type;
  StakeDelegationCert : Type;
  PoolRegistrationCert : Type;
  registration_to_id : PoolRegistrationCert → PoolId;
  PoolRetirementCert : Type;
  retirement_pool_id : PoolRetirementCert → PoolId;
  PoolUpdateCert : Type;
  ExternalProposalId : Type;
  Options : Type;
  (** [choice_range().end] *)
  choice_range_end : Options → Z;
  ProofOfCorrectVote : Type;
  EncryptedVote : Type;
  (** [Value::sum]: [None] is an overflow *)
  value_sum : list Z → option Z;
}.

(** [chain_addr] *)
Section addresses.
Context `{ChainTypes}.

Inductive Kind :=
| Single (key : PublicKey)
| Group (key id : PublicKey)
| Account (id : PublicKey)
| Multisig (id : MultisigId)
| KindOther (k : OtherKind).

Record Address := mkAddress { addr_discrimination : Discrimination; addr_kind : Kind }.

(** [ExplorerAddress] *)
Inductive ExplorerAddress :=
| New (a : Address)
| Old (a : OldAddress).

#[export] Instance kind_eq_dec : EqDecision Kind.
Proof. solve_decision. Defined.
#[export] Instance address_eq_dec : EqDecision Address.
Proof. solve_decision. Defined.
#[export] Instance explorer_address_eq_dec : EqDecision ExplorerAddress.
Proof. solve_decision. Defined.
#[export] Program Instance kind_countable : Countable Kind :=
  inj_countable'
    (λ k, match k with
          | Single k => inl k | Group k i => inr (inl (k, i)) | Account i => inr (inr (inl i))
          | Multisig i => inr (inr (inr (inl i))) | KindOther k => inr (inr (inr (inr k)))
          end)
    (λ x, match x with
          | inl k => Single k | inr (inl (k, i)) => Group k i | inr (inr (inl i)) => Account i
          | inr (inr (inr (inl i))) => Multisig i | inr (inr (inr (inr k))) => KindOther k
          end) _.
Next Obligation. by intros []. Qed.
#[export] Program Instance address_countable : Countable Address :=
  inj_countable' (λ a, (addr_discrimination a, addr_kind a)) (λ '(d, k), mkAddress d k) _.
Next Obligation. by intros []. Qed.
#[export] Program Instance explorer_address_countable : Countable ExplorerAddress :=
  inj_countable' (λ a, match a with New a => inl a | Old a => inr a end)
    (λ x, match x with inl a => New a | inr a => Old a end) _.
Next Obligation. by intros []. Qed.

(** [ExplorerAddress::to_single_account] *)
Definition address_to_single_account (a : ExplorerAddress) : option PublicKey :=
  match a with
  | New a => match addr_kind a with Single key => Some key | _ => None end
  | Old _ => None
  end.
End addresses.

(** ** Certificates, transactions and blocks of the chain *)
Section chain.
Context `{ChainTypes}.

Inductive PayloadType := PublicPayload | PrivatePayload.

Record Proposal := mkProposal { external_id : ExternalProposalId; prop_options : Options }.

Record VotePlanCert := mkVotePlan {
  vp_to_id : VotePlanId;
  vp_vote_start : BlockDate;
  vp_vote_end : BlockDate;
  vp_committee_end : BlockDate;
  vp_payload_type : PayloadType;
  vp_proposals : list Proposal;
}.

Inductive Payload :=
| PayloadPublic (choice : Z)
| PayloadPrivate (proof : ProofOfCorrectVote) (encrypted_vote : EncryptedVote).

Record VoteCastCert := mkVoteCast {
  vc_vote_plan : VotePlanId;
  vc_proposal_index : Z;
  vc_payload : Payload;
}.

Record VoteTallyCert := mkVoteTally {
  vt_id : VotePlanId;
  vt_tally_type : PayloadType;
  (** [tally_decrypted()], the results of each proposal *)
  vt_tally_decrypted : option (list (list Z));
}.

Inductive Certificate :=
| CertOwnerStakeDelegation (c : OwnerStakeDelegationCert)
| CertStakeDelegation (c : StakeDelegationCert)
| CertPoolRegistration (c : PoolRegistrationCert)
| CertPoolRetirement (c : PoolRetirementCert)
| CertPoolUpdate (c : PoolUpdateCert)
| CertVotePlan (c : VotePlanCert)
| CertVoteCast (c : VoteCastCert)
| CertVoteTally (c : VoteTallyCert).

Inductive InputEnum :=
| AccountInput (id : AccountIdentifier) (value : Z)
| UtxoInput (transaction_id : FragmentId) (output_index : Z).

Inductive Witness := WitnessAccount | WitnessMultisig | WitnessOther.

Record Transaction (P : Type) := mkTransaction {
  tx_inputs : list InputEnum;
  tx_outputs : list (Address * Z);
  tx_witnesses : list Witness;
  tx_payload : P;
}.

Inductive Fragment :=
| Initial (config : ConfigParams)
| FragmentTransaction (tx : Transaction unit)
| OwnerStakeDelegation (tx : Transaction OwnerStakeDelegationCert)
| StakeDelegation (tx : Transaction StakeDelegationCert)
| PoolRegistration (tx : Transaction PoolRegistrationCert)
| PoolRetirement (tx : Transaction PoolRetirementCert)
| PoolUpdate (tx : Transaction PoolUpdateCert)
| VotePlan (tx : Transaction VotePlanCert)
| VoteCast (tx : Transaction VoteCastCert)
| VoteTally (tx : Transaction VoteTallyCert)
| OldUtxoDeclaration (addrs : list (OldAddress * Z))
| OtherFragment.

(** What the header says of the producer of the block; [get_stakepool_id] and
    [get_bft_leader_id] of the header. *)
Inductive Proof_ := ProofGenesisPraos | ProofBft | ProofNone.

Record Header := mkHeader {
  header_id : HeaderHash;
  header_parent : HeaderHash;
  header_chain_length : Z;
  header_date : BlockDate;
  header_proof : Proof_;
  get_stakepool_id : option PoolId;
  get_bft_leader_id : option BftLeaderId;
}.

(** The identifier of a fragment is the hash of its contents. *)
Record Block := mkBlock { block_header : Header; block_contents : list (FragmentId * Fragment) }.
End chain.
Arguments mkTransaction {_ P} _ _ _ _.
Arguments tx_inputs {_ P} _.
Arguments tx_outputs {_ P} _.
Arguments tx_witnesses {_ P} _.
Arguments tx_payload {_ P} _.

(** ** Iteration of a hash map

    The order is not specified; theorems hold for every one. *)
Class HashOrder := { hash_order : ∀ {A : Type}, list A → list A }.
Class HashOrderLaws `{HashOrder} : Prop := {
  hash_order_perm {A} (l : list A) : hash_order l ≡ₚ l;
}.

Definition map_values `{HashOrder} `{Countable K} {V} (m : gmap K V) : list V :=
  hash_order (map_to_list m).*2.

Lemma map_values_elem `{HashOrderLaws} `{Countable K} {V} (m : gmap K V) v :
  v ∈ map_values m ↔ ∃ k, m !! k = Some v.
Proof.
  unfold map_values. rewrite hash_order_perm, list_elem_of_fmap. split.
  - intros ([k v'] & -> & Hin%elem_of_map_to_list). by exists k.
  - intros [k Hk]. exists (k, v). by rewrite elem_of_map_to_list.
Qed.

(** ** Blocks of the explorer *)
Section explorer_types.
Context `{ChainTypes} `{Hamt}.

Record ExplorerInput := mkExplorerInput { in_address : ExplorerAddress; in_value : Z }.
Record ExplorerOutput := mkExplorerOutput { out_address : ExplorerAddress; out_value : Z }.

Record ExplorerTransaction := mkExplorerTransaction {
  etx_id : FragmentId;
  etx_inputs : list ExplorerInput;
  etx_outputs : list ExplorerOutput;
  etx_certificate : option Certificate;
  offset_in_block : Z;
  etx_config_params : option ConfigParams;
}.

Inductive BlockProducer :=
| ProducerNone
| ProducerStakePool (id : PoolId)
| ProducerBftLeader (id : BftLeaderId).

Record ExplorerBlock := mkExplorerBlock {
  eb_transactions : gmap FragmentId ExplorerTransaction;
  eb_id : HeaderHash;
  eb_date : BlockDate;
  eb_chain_length : Z;
  eb_parent_hash : HeaderHash;
  eb_producer : BlockProducer;
  eb_total_input : Z;
  eb_total_output : Z;
}.

Record StakePoolData := mkStakePoolData {
  registration : PoolRegistrationCert;
  retirement : option PoolRetirementCert;
}.

Record EpochData := mkEpochData {
  first_block : HeaderHash;
  last_block : HeaderHash;
  total_blocks : Z;
}.

Inductive ExplorerVote :=
| VotePublic (choice : Z)
| VotePrivate (proof : ProofOfCorrectVote) (encrypted_vote : EncryptedVote).

Inductive ExplorerVoteTally :=
| TallyPublic (results : list Z) (options : Options)
| TallyPrivate (results : option (list Z)) (options : Options).

Record ExplorerVoteProposal := mkVoteProposal {
  evp_proposal_id : ExternalProposalId;
  evp_options : Options;
  evp_tally : option ExplorerVoteTally;
  evp_votes : hamt ExplorerAddress ExplorerVote;
}.

Record ExplorerVotePlan := mkExplorerVotePlan {
  ep_id : VotePlanId;
  ep_vote_start : BlockDate;
  ep_vote_end : BlockDate;
  ep_committee_end : BlockDate;
  ep_payload_type : PayloadType;
  ep_proposals : list ExplorerVoteProposal;
}.

Definition Transactions : Type := hamt FragmentId HeaderHash.
Definition Blocks : Type := hamt HeaderHash ExplorerBlock.
Definition ChainLengths : Type := hamt Z HeaderHash.
Definition Addresses : Type := hamt ExplorerAddress (PersistentSequence FragmentId).
Definition Epochs : Type := hamt Z EpochData.
Definition StakePoolBlocks : Type := hamt PoolId (PersistentSequence HeaderHash).
Definition StakePool : Type := hamt PoolId StakePoolData.
Definition VotePlans : Type := hamt VotePlanId ExplorerVotePlan.

Record ExplorerBlockBuildingContext := mkContext {
  ctx_discrimination : Discrimination;
  prev_transactions : Transactions;
  prev_blocks : Blocks;
}.
End explorer_types.

(** ** Resolving a block

    [None] is a panic. *)
Section resolve.
Context `{ChainTypes} `{Hamt} `{HashOrder}.
Implicit Types (ctx : ExplorerBlockBuildingContext) (current : gmap FragmentId ExplorerTransaction).

(** [outputs[index as usize]] *)
Definition nth_output (t : ExplorerTransaction) (index : Z) : option ExplorerOutput :=
  etx_outputs t !! Z.to_nat index.

Definition resolve_utxo ctx current (tx : FragmentId) (index : Z) : option ExplorerOutput :=
  found ← match hamt_lookup tx (prev_transactions ctx) with
          | None => Some None
          | Some block_id =>
              match hamt_lookup block_id (prev_blocks ctx) with
              | None => Some None
              | Some block => t ← eb_transactions block !! tx; o ← nth_output t index; Some (Some o)
              end
          end;
  found ← match found with
          | Some o => Some (Some o)
          | None => match current !! tx with
                    | None => Some None
                    | Some fragment => o ← nth_output fragment index; Some (Some o)
                    end
          end;
  found.

(** The closure of [filter_map] on an input and its witness. *)
Definition resolve_input ctx current (iw : InputEnum * Witness) : option (option ExplorerInput) :=
  match iw with
  | (AccountInput id value, WitnessAccount) =>
      key ← to_single_account id;
      Some (Some (mkExplorerInput (New (mkAddress (ctx_discrimination ctx) (Account key))) value))
  | (AccountInput id value, WitnessMultisig) =>
      mid ← to_multi_account id;
      Some (Some (mkExplorerInput (New (mkAddress (ctx_discrimination ctx) (Multisig mid))) value))
  | (UtxoInput tx index, _) =>
      output ← resolve_utxo ctx current tx index;
      Some (Some (mkExplorerInput (out_address output) (out_value output)))
  | _ => Some None
  end.

(** [ExplorerTransaction::from] *)
Definition transaction_from {P} ctx (id : FragmentId) (tx : Transaction P)
    (certificate : option Certificate) (offset : Z) current : option ExplorerTransaction :=
  new_inputs ← mapM (resolve_input ctx current) (zip (tx_inputs tx) (tx_witnesses tx));
  Some (mkExplorerTransaction id (omap (λ i, i) new_inputs)
          ((λ '(a, v), mkExplorerOutput (New a) v) <$> tx_outputs tx) certificate offset None).

(** The [match] of [resolve_from]; the inner [None] is a fragment that is not stored. *)
Definition resolve_fragment ctx current (id : FragmentId) (offset : Z) (f : Fragment)
    : option (option ExplorerTransaction) :=
  match f with
  | Initial config => Some (Some (mkExplorerTransaction id [] [] None offset (Some config)))
  | FragmentTransaction tx => Some <$> transaction_from ctx id tx None offset current
  | OwnerStakeDelegation tx =>
      Some <$> transaction_from ctx id tx (Some (CertOwnerStakeDelegation (tx_payload tx))) offset current
  | StakeDelegation tx =>
      Some <$> transaction_from ctx id tx (Some (CertStakeDelegation (tx_payload tx))) offset current
  | PoolRegistration tx =>
      Some <$> transaction_from ctx id tx (Some (CertPoolRegistration (tx_payload tx))) offset current
  | PoolRetirement tx =>
      Some <$> transaction_from ctx id tx (Some (CertPoolRetirement (tx_payload tx))) offset current
  | PoolUpdate tx =>
      Some <$> transaction_from ctx id tx (Some (CertPoolUpdate (tx_payload tx))) offset current
  | VotePlan tx => Some <$> transaction_from ctx id tx (Some (CertVotePlan (tx_payload tx))) offset current
  | VoteCast tx => Some <$> transaction_from ctx id tx (Some (CertVoteCast (tx_payload tx))) offset current
  | VoteTally tx => Some <$> transaction_from ctx id tx (Some (CertVoteTally (tx_payload tx))) offset current
  | OldUtxoDeclaration addrs =>
      Some (Some (mkExplorerTransaction id []
                    ((λ '(a, v), mkExplorerOutput (Old a) v) <$> addrs) None offset None))
  | OtherFragment => Some None
  end.

(** The [fold] of [resolve_from] from the offset [n] on. *)
Fixpoint resolve_fragments ctx (n : Z) (fs : list (FragmentId * Fragment)) current
    : option (gmap FragmentId ExplorerTransaction) :=
  match fs with
  | [] => Some current
  | (id, f) :: fs =>
      offset ← uint_try_from U32 n;
      metx ← resolve_fragment ctx current id offset f;
      resolve_fragments ctx (n + 1) fs
        (match metx with Some etx => <[id := etx]> current | None => current end)
  end.

Definition block_producer (h : Header) : option BlockProducer :=
  match header_proof h with
  | ProofGenesisPraos => id ← get_stakepool_id h; Some (ProducerStakePool id)
  | ProofBft => id ← get_bft_leader_id h; Some (ProducerBftLeader id)
  | ProofNone => Some ProducerNone
  end.

Definition resolve_from (block : Block) ctx : option ExplorerBlock :=
  let h := block_header block in
  transactions ← resolve_fragments ctx 0 (block_contents block) ∅;
  producer ← block_producer h;
  total_input ← value_sum (mjoin ((λ tx, in_value <$> etx_inputs tx) <$> map_values transactions));
  total_output ← value_sum (mjoin ((λ tx, out_value <$> etx_outputs tx) <$> map_values transactions));
  Some (mkExplorerBlock transactions (header_id h) (header_date h) (header_chain_length h)
          (header_parent h) producer total_input total_output).
End resolve.

(** ** What is resolved

    The parts of a fragment that are stored. *)
Section resolve_spec.
Context `{ChainTypes} `{Hamt} `{HashOrder}.
Implicit Types (ctx : ExplorerBlockBuildingContext) (current m : gmap FragmentId ExplorerTransaction).

Definition new_outputs {P} (tx : Transaction P) : list ExplorerOutput :=
  (λ '(a, v), mkExplorerOutput (New a) v) <$> tx_outputs tx.

(** Inputs with their witnesses, outputs and certificate of a fragment. *)
Definition fragment_parts (f : Fragment)
    : list (InputEnum * Witness) * list ExplorerOutput * option Certificate :=
  match f with
  | FragmentTransaction tx => (zip (tx_inputs tx) (tx_witnesses tx), new_outputs tx, None)
  | OwnerStakeDelegation tx =>
      (zip (tx_inputs tx) (tx_witnesses tx), new_outputs tx, Some (CertOwnerStakeDelegation (tx_payload tx)))
  | StakeDelegation tx =>
      (zip (tx_inputs tx) (tx_witnesses tx), new_outputs tx, Some (CertStakeDelegation (tx_payload tx)))
  | PoolRegistration tx =>
      (zip (tx_inputs tx) (tx_witnesses tx), new_outputs tx, Some (CertPoolRegistration (tx_payload tx)))
  | PoolRetirement tx =>
      (zip (tx_inputs tx) (tx_witnesses tx), new_outputs tx, Some (CertPoolRetirement (tx_payload tx)))
  | PoolUpdate tx =>
      (zip (tx_inputs tx) (tx_witnesses tx), new_outputs tx, Some (CertPoolUpdate (tx_payload tx)))
  | VotePlan tx =>
      (zip (tx_inputs tx) (tx_witnesses tx), new_outputs tx, Some (CertVotePlan (tx_payload tx)))
  | VoteCast tx =>
      (zip (tx_inputs tx) (tx_witnesses tx), new_outputs tx, Some (CertVoteCast (tx_payload tx)))
  | VoteTally tx =>
      (zip (tx_inputs tx) (tx_witnesses tx), new_outputs tx, Some (CertVoteTally (tx_payload tx)))
  | OldUtxoDeclaration addrs => ([], (λ '(a, v), mkExplorerOutput (Old a) v) <$> addrs, None)
  | Initial _ | OtherFragment => ([], [], None)
  end.

(** An account input that is not signed as an account is not stored. *)
Definition stored_input (iw : InputEnum * Witness) : bool :=
  match iw with (AccountInput _ _, WitnessOther) => false | _ => true end.

(** How an input is resolved, given the outputs of the transactions before it. *)
Inductive input_ok (d : Discrimination) (out : FragmentId → Z → option ExplorerOutput)
    : InputEnum * Witness → ExplorerInput → Prop :=
| input_account id value key :
    to_single_account id = Some key →
    input_ok d out (AccountInput id value, WitnessAccount)
      (mkExplorerInput (New (mkAddress d (Account key))) value)
| input_multisig id value mid :
    to_multi_account id = Some mid →
    input_ok d out (AccountInput id value, WitnessMultisig)
      (mkExplorerInput (New (mkAddress d (Multisig mid))) value)
| input_utxo tx index w o :
    out tx index = Some o →
    input_ok d out (UtxoInput tx index, w) (mkExplorerInput (out_address o) (out_value o)).

Definition transaction_ok (d : Discrimination) (out : FragmentId → Z → option ExplorerOutput)
    (id : FragmentId) (offset : Z) (f : Fragment) (etx : ExplorerTransaction) : Prop :=
  etx_id etx = id ∧ offset_in_block etx = offset ∧
  etx_outputs etx = (fragment_parts f).1.2 ∧ etx_certificate etx = (fragment_parts f).2 ∧
  Forall2 (input_ok d out) (filter (λ iw, stored_input iw = true) (fragment_parts f).1.1) (etx_inputs etx).

Lemma resolve_inputs_ok ctx current iws inputs :
  mapM (resolve_input ctx current) iws = Some inputs →
  Forall2 (input_ok (ctx_discrimination ctx) (resolve_utxo ctx current))
    (filter (λ iw, stored_input iw = true) iws) (omap (λ i, i) inputs).
Proof.
  rewrite mapM_Some. induction 1 as [|iw i iws inputs Hi Hall IH]; [constructor|].
  rewrite filter_cons. destruct iw as [[id value|tx index] w]; simpl in *.
  - destruct w; simpl in Hi.
    + destruct (to_single_account id) eqn:?; simplify_eq/=. repeat constructor; done.
    + destruct (to_multi_account id) eqn:?; simplify_eq/=. repeat constructor; done.
    + simplify_eq/=. done.
  - destruct (resolve_utxo _ _ _ _) eqn:?; simplify_eq/=. repeat constructor; done.
Qed.

Lemma resolve_fragment_ok ctx current id offset f metx :
  resolve_fragment ctx current id offset f = Some metx →
  match metx with
  | Some etx => f ≠ OtherFragment ∧
                transaction_ok (ctx_discrimination ctx) (resolve_utxo ctx current) id offset f etx
  | None => f = OtherFragment
  end.
Proof.
  assert (∀ P (tx : Transaction P) c etx,
    transaction_from ctx id tx c offset current = Some etx →
    etx_id etx = id ∧ offset_in_block etx = offset ∧ etx_outputs etx = new_outputs tx ∧ etx_certificate etx = c ∧
    Forall2 (input_ok (ctx_discrimination ctx) (resolve_utxo ctx current))
      (filter (λ iw, stored_input iw = true) (zip (tx_inputs tx) (tx_witnesses tx))) (etx_inputs etx)) as Htx.
  { intros P tx c etx. unfold transaction_from.
    destruct (mapM _ _) as [inputs|] eqn:Hm; [|done]. intros ?. simplify_eq/=.
    split_and!; try done. by apply resolve_inputs_ok. }
  destruct f as [config|tx|tx|tx|tx|tx|tx|tx|tx|tx|addrs|]; simpl; intros Hr;
    try (destruct (transaction_from _ _ _ _ _ _) as [etx|] eqn:Hf; [|done]; simplify_eq/=;
         split; [done|]; by apply Htx in Hf); simplify_eq/=; [..|done].
  - by repeat split.
  - by repeat split.
Qed.

(** The transactions of a block: those that stand for the fragment at each place,
    resolved with the transactions before it. *)
Lemma resolve_fragments_ok ctx n fs current m :
  resolve_fragments ctx n fs current = Some m → NoDup fs.*1 →
  (∀ id, id ∈ fs.*1 → current !! id = None) →
  (∀ id, id ∉ fs.*1 → m !! id = current !! id) ∧
  ∀ k id f, fs !! k = Some (id, f) →
    ∃ before, resolve_fragment ctx before id (n + Z.of_nat k) f = Some (m !! id) ∧
              ∀ tx, before !! tx = if decide (tx ∈ (take k fs).*1) then m !! tx else current !! tx.
Proof.
  revert n current. induction fs as [|[id f] fs IH]; intros n current Hr Hnd Hfresh.
  { simpl in Hr. simplify_eq. split; [done|]. intros k ? ? Hk. by rewrite lookup_nil in Hk. }
  simpl in Hr. unfold uint_try_from in Hr. destruct (n <? U32); simpl in Hr; [|done].
  destruct (resolve_fragment ctx current id n f) as [metx|] eqn:Hf; simpl in Hr; [|done].
  simpl in Hnd. apply NoDup_cons in Hnd as [Hid Hnd].
  set (current' := match metx with Some etx => <[id := etx]> current | None => current end) in *.
  assert (Hcur' : ∀ tx, current' !! tx = if decide (tx = id) then metx else current !! tx).
  { intros tx. unfold current'. specialize (Hfresh id). destruct metx; case_decide; subst;
      rewrite ?lookup_insert_eq, ?lookup_insert_ne by done; try done. apply Hfresh. set_solver. }
  destruct (IH (n + 1) current' Hr Hnd) as [Hout Hin].
  { intros id' Hin. rewrite Hcur', decide_False by (by intros ->). apply Hfresh. set_solver. }
  assert (Hm : m !! id = metx) by (rewrite Hout, Hcur', decide_True; done).
  split.
  - intros id' Hnin. rewrite Hout, Hcur', decide_False by set_solver. done.
  - intros [|k] id' f' Hk; simplify_eq/=.
    + exists current. rewrite Z.add_0_r. done.
    + destruct (Hin k id' f' Hk) as (before & Hb & Hlook). exists before.
      replace (n + Z.of_nat (S k)) with (n + 1 + Z.of_nat k) by lia. split; [done|]. intros tx.
      rewrite Hlook, Hcur'. destruct (decide (tx = id)) as [->|].
      * rewrite (decide_True (P := id ∈ id :: _)) by set_solver. by case_decide.
      * destruct (decide (tx ∈ (take k fs).*1)); [rewrite decide_True by set_solver|rewrite decide_False by set_solver];
          done.
Qed.

(** The fields that are copied, and the keys of the transactions. *)
Lemma resolve_from_fields block ctx b :
  resolve_from block ctx = Some b →
  eb_id b = header_id (block_header block) ∧ eb_parent_hash b = header_parent (block_header block) ∧
  eb_chain_length b = header_chain_length (block_header block) ∧ eb_date b = header_date (block_header block) ∧
  block_producer (block_header block) = Some (eb_producer b) ∧
  resolve_fragments ctx 0 (block_contents block) ∅ = Some (eb_transactions b).
Proof.
  unfold resolve_from. intros (m & ? & Hr)%bind_Some.
  do 3 apply bind_Some in Hr as (? & ? & Hr). by simplify_eq/=.
Qed.

Definition keyed (m : gmap FragmentId ExplorerTransaction) : Prop := ∀ id tx, m !! id = Some tx → etx_id tx = id.

Lemma resolve_fragments_keyed ctx n fs current m :
  resolve_fragments ctx n fs current = Some m → keyed current → keyed m.
Proof.
  revert n current. induction fs as [|[id f] fs IH]; intros n current Hr Hk; simpl in Hr; [by simplify_eq|].
  destruct (uint_try_from U32 n); simpl in Hr; [|done].
  destruct (resolve_fragment _ _ _ _ _) as [metx|] eqn:Hf; simpl in Hr; [|done].
  eapply IH; [done|]. apply resolve_fragment_ok in Hf. destruct metx as [etx|]; [|done].
  intros id' tx. destruct (decide (id' = id)) as [->|]; [rewrite lookup_insert_eq|rewrite lookup_insert_ne by done].
  - intros ?. simplify_eq. apply Hf.
  - apply Hk.
Qed.

Lemma resolve_from_keyed block ctx b : resolve_from block ctx = Some b → keyed (eb_transactions b).
Proof.
  intros Hr%resolve_from_fields. destruct Hr as (_ & _ & _ & _ & _ & Hr).
  eapply resolve_fragments_keyed; [done|]. by intros ??.
Qed.
End resolve_spec.
