(* ===== verification/ExplorerState.v ===== *)
(** * The indexes of the explorer

    Models the part of [explorer/src/db/mod.rs] that indexes a block ([State]
    and the functions [apply_block_to_*]), [explorer/src/db/tally.rs] and
    [explorer/src/db/error.rs].  The state of a branch is specified by the list
    of its blocks, oldest first ([state_repr]). *)

From S2P Require Import Prelude BlockDate Hamt Indexing.

#[local] Open Scope Z_scope.

(** [chain_impl_mockchain::stake::StakeControl]; [None] is a panic. *)
Class StakeControlOps `{ChainTypes} := {
  StakeControl : Type;
  sc_new : StakeControl;
  sc_add_to : StakeControl → PublicKey → Z → option StakeControl;
  sc_remove_from : StakeControl → PublicKey → Z → option StakeControl;
  sc_by : StakeControl → PublicKey → option Z;
}.

Section error.
Context `{ChainTypes}.
(** [ExplorerError]; [BootstrapError] is never made. *)
Inductive ExplorerError :=
| BlockNotFound (hash : HeaderHash)
| AncestorNotFound (id : HeaderHash)
| TransactionAlreadyExists (id : FragmentId)
| BlockAlreadyExists (id : HeaderHash)
| ChainLengthBlockAlreadyExists (n : Z)
| BootstrapError (s : string).
End error.

(** ** Tallies (tally.rs) *)
Section tally.
Context `{ChainTypes} `{Hamt} `{!StakeControlOps}.

Definition saturating_add_u64 (a b : Z) : Z := (a + b) `min` (U64 - 1).

Definition compute_private_tally (proposal : ExplorerVoteProposal) (tally_result : list Z) : ExplorerVoteTally :=
  TallyPrivate (Some tally_result) (evp_options proposal).

(** One round of the loop over the votes. *)
Definition count_vote (stake : StakeControl) (results : list Z) (av : ExplorerAddress * ExplorerVote)
    : option (list Z) :=
  match address_to_single_account av.1 with
  | None => Some results
  | Some account_id =>
      match sc_by stake account_id with
      | None => Some results
      | Some st =>
          match av.2 with
          | VotePublic choice =>
              r ← results !! Z.to_nat choice;
              Some (<[Z.to_nat choice := saturating_add_u64 r st]> results)
          | VotePrivate _ _ => None
          end
      end
  end.

Fixpoint count_votes (stake : StakeControl) (results : list Z) (votes : list (ExplorerAddress * ExplorerVote))
    : option (list Z) :=
  match votes with
  | [] => Some results
  | v :: votes => results ← count_vote stake results v; count_votes stake results votes
  end.

Definition compute_public_tally (proposal : ExplorerVoteProposal) (stake : StakeControl)
    : option ExplorerVoteTally :=
  results ← count_votes stake (replicate (Z.to_nat (choice_range_end (evp_options proposal))) 0)
              (hamt_iter (evp_votes proposal));
  Some (TallyPublic results (evp_options proposal)).
End tally.

(** ** Indexing a block *)
Section apply.
Context `{ChainTypes} `{Hamt} `{HashOrder} `{!StakeControlOps}.
Implicit Types (b : ExplorerBlock) (tx : ExplorerTransaction).

(** [block.transactions.values()] *)
Definition block_txs b : list ExplorerTransaction := map_values (eb_transactions b).

Fixpoint insert_transactions (block_id : HeaderHash) (ids : list FragmentId) (transactions : Transactions)
    : result ExplorerError Transactions :=
  match ids with
  | [] => Ok transactions
  | id :: ids =>
      match hamt_insert id block_id transactions with
      | Some transactions => insert_transactions block_id ids transactions
      | None => Err (TransactionAlreadyExists id)
      end
  end.

Definition apply_block_to_transactions (transactions : Transactions) b : result ExplorerError Transactions :=
  insert_transactions (eb_id b) (etx_id <$> block_txs b) transactions.

Definition apply_block_to_blocks (blocks : Blocks) b : result ExplorerError Blocks :=
  match hamt_insert (eb_id b) b blocks with
  | Some blocks => Ok blocks
  | None => Err (BlockAlreadyExists (eb_id b))
  end.

(** The set of addresses of a transaction. *)
Definition included_addresses tx : list ExplorerAddress :=
  hash_order (remove_dups ((out_address <$> etx_outputs tx) ++ (in_address <$> etx_inputs tx))).

Definition append_transaction (id : FragmentId) (address : ExplorerAddress) (addresses : Addresses)
    : option Addresses :=
  fresh ← seq_append seq_new id;
  match hamt_lookup address addresses with
  | None => Some (hamt_insert_or_update address fresh Some addresses)
  | Some s => new_set ← seq_append s id;
              Some (hamt_insert_or_update address fresh (λ _, Some new_set) addresses)
  end.

Fixpoint append_to_addresses (id : FragmentId) (as_ : list ExplorerAddress) (addresses : Addresses)
    : option Addresses :=
  match as_ with
  | [] => Some addresses
  | a :: as_ => addresses ← append_transaction id a addresses; append_to_addresses id as_ addresses
  end.

Fixpoint add_transactions (txs : list ExplorerTransaction) (addresses : Addresses) : option Addresses :=
  match txs with
  | [] => Some addresses
  | tx :: txs =>
      addresses ← append_to_addresses (etx_id tx) (included_addresses tx) addresses;
      add_transactions txs addresses
  end.

Definition apply_block_to_addresses (addresses : Addresses) b : option Addresses :=
  add_transactions (block_txs b) addresses.

Definition apply_block_to_epochs (epochs : Epochs) b : Epochs :=
  hamt_insert_or_update (epoch (eb_date b)) (mkEpochData (eb_id b) (eb_id b) 0)
    (λ data, Some (mkEpochData (first_block data) (eb_id b) (u32_add (total_blocks data) 1))) epochs.

Definition apply_block_to_chain_lengths (chain_lengths : ChainLengths) b : result ExplorerError ChainLengths :=
  match hamt_insert (eb_chain_length b) (eb_id b) chain_lengths with
  | Some chain_lengths => Ok chain_lengths
  | None => Err (ChainLengthBlockAlreadyExists (eb_chain_length b))
  end.

(** [update] of an entry, with a function that may panic, and [unwrap] of the result. *)
Definition hamt_update_unwrap `{Countable K} {V} (k : K) (f : V → option V) (h : hamt K V)
    : option (hamt K V) :=
  v ← hamt_lookup k h; v' ← f v; hamt_update k (λ _, Some v') h.

(** One round of the loop of [apply_block_to_stake_pools]. *)
Definition apply_pool_certificate (db : StakePool * StakePoolBlocks) (cert : Certificate)
    : option (StakePool * StakePoolBlocks) :=
  let '(data, blocks) := db in
  match cert with
  | CertPoolRegistration r =>
      blocks ← hamt_insert (registration_to_id r) seq_new blocks;
      data ← hamt_insert (registration_to_id r) (mkStakePoolData r None) data;
      Some (data, blocks)
  | CertPoolRetirement r =>
      data ← hamt_update_unwrap (retirement_pool_id r)
               (λ pool_data, Some (mkStakePoolData (registration pool_data) (Some r))) data;
      Some (data, blocks)
  | _ => Some (data, blocks)
  end.

Fixpoint apply_pool_certificates (db : StakePool * StakePoolBlocks) (certs : list Certificate)
    : option (StakePool * StakePoolBlocks) :=
  match certs with
  | [] => Some db
  | cert :: certs => db ← apply_pool_certificate db cert; apply_pool_certificates db certs
  end.

Definition apply_block_to_stake_pools (data : StakePool) (blocks : StakePoolBlocks) b
    : option (StakePool * StakePoolBlocks) :=
  blocks ← match eb_producer b with
           | ProducerStakePool id => hamt_update_unwrap id (λ array, seq_append array (eb_id b)) blocks
           | ProducerBftLeader _ | ProducerNone => Some blocks
           end;
  apply_pool_certificates (data, blocks) (omap etx_certificate (block_txs b)).

Definition explorer_vote_plan (vote_plan : VotePlanCert) : ExplorerVotePlan :=
  mkExplorerVotePlan (vp_to_id vote_plan) (vp_vote_start vote_plan) (vp_vote_end vote_plan)
    (vp_committee_end vote_plan) (vp_payload_type vote_plan)
    ((λ p, mkVoteProposal (external_id p) (prop_options p) None hamt_new) <$> vp_proposals vote_plan).

Definition set_proposals (proposals : list ExplorerVoteProposal) (p : ExplorerVotePlan) : ExplorerVotePlan :=
  mkExplorerVotePlan (ep_id p) (ep_vote_start p) (ep_vote_end p) (ep_committee_end p)
    (ep_payload_type p) proposals.

Definition payload_vote (p : Payload) : ExplorerVote :=
  match p with
  | PayloadPublic choice => VotePublic choice
  | PayloadPrivate proof encrypted_vote => VotePrivate proof encrypted_vote
  end.

(** The closure of [update] for a vote. *)
Definition cast_vote (index : nat) (voter : ExplorerAddress) (vote : ExplorerVote) (p : ExplorerVotePlan)
    : option ExplorerVotePlan :=
  proposal ← ep_proposals p !! index;
  let votes := hamt_insert_or_update voter vote (λ _, Some vote) (evp_votes proposal) in
  let proposal := mkVoteProposal (evp_proposal_id proposal) (evp_options proposal) (evp_tally proposal) votes in
  Some (set_proposals (<[index := proposal]> (ep_proposals p)) p).

Definition set_tally (proposal : ExplorerVoteProposal) (t : ExplorerVoteTally) : ExplorerVoteProposal :=
  mkVoteProposal (evp_proposal_id proposal) (evp_options proposal) (Some t) (evp_votes proposal).

(** The closure of [update] for a tally. *)
Definition tally_plan (stake : StakeControl) (t : VoteTallyCert) (p : ExplorerVotePlan) : option ExplorerVotePlan :=
  proposals ← match vt_tally_type t with
              | PublicPayload =>
                  mapM (λ proposal, set_tally proposal <$> compute_public_tally proposal stake) (ep_proposals p)
              | PrivatePayload =>
                  decrypted ← vt_tally_decrypted t;
                  Some (zip_with (λ proposal d, set_tally proposal (compute_private_tally proposal d))
                          (ep_proposals p) decrypted)
              end;
  Some (set_proposals proposals p).

Definition apply_vote_certificate (stake : StakeControl) (plans : VotePlans) tx (cert : Certificate)
    : option VotePlans :=
  match cert with
  | CertVotePlan vote_plan => hamt_insert (vp_to_id vote_plan) (explorer_vote_plan vote_plan) plans
  | CertVoteCast vote_cast =>
      voter ← head (etx_inputs tx);
      hamt_update_unwrap (vc_vote_plan vote_cast)
        (cast_vote (Z.to_nat (vc_proposal_index vote_cast)) (in_address voter)
           (payload_vote (vc_payload vote_cast))) plans
  | CertVoteTally vote_tally => hamt_update_unwrap (vt_id vote_tally) (tally_plan stake vote_tally) plans
  | _ => Some plans
  end.

Fixpoint apply_vote_certificates (stake : StakeControl) (plans : VotePlans) (txs : list ExplorerTransaction)
    : option VotePlans :=
  match txs with
  | [] => Some plans
  | tx :: txs =>
      plans ← match etx_certificate tx with
              | Some cert => apply_vote_certificate stake plans tx cert
              | None => Some plans
              end;
      apply_vote_certificates stake plans txs
  end.

Definition apply_block_to_vote_plans (plans : VotePlans) b (stake : StakeControl) : option VotePlans :=
  apply_vote_certificates stake plans (block_txs b).

(** The key that has the stake of an address. *)
Definition stake_key (a : ExplorerAddress) : option PublicKey :=
  match a with
  | Old _ => None
  | New a => match addr_kind a with Group _ id | Account id => Some id | _ => None end
  end.

Fixpoint stake_removes (sc : StakeControl) (inputs : list ExplorerInput) : option StakeControl :=
  match inputs with
  | [] => Some sc
  | i :: inputs =>
      sc ← match stake_key (in_address i) with
           | Some id => sc_remove_from sc id (in_value i)
           | None => Some sc
           end;
      stake_removes sc inputs
  end.

Fixpoint stake_adds (sc : StakeControl) (outputs : list ExplorerOutput) : option StakeControl :=
  match outputs with
  | [] => Some sc
  | o :: outputs =>
      sc ← match stake_key (out_address o) with
           | Some id => sc_add_to sc id (out_value o)
           | None => Some sc
           end;
      stake_adds sc outputs
  end.

Fixpoint stake_txs (sc : StakeControl) (txs : list ExplorerTransaction) : option StakeControl :=
  match txs with
  | [] => Some sc
  | tx :: txs => sc ← stake_removes sc (etx_inputs tx); sc ← stake_adds sc (etx_outputs tx); stake_txs sc txs
  end.

Definition apply_block_to_stake_control (sc : StakeControl) b : option StakeControl := stake_txs sc (block_txs b).
End apply.

(** ** The state of a branch *)
Section state.
Context `{ChainTypes} `{Hamt} `{HashOrder} `{!StakeControlOps}.

Record State := mkState {
  transactions : Transactions;
  blocks : Blocks;
  addresses : Addresses;
  epochs : Epochs;
  chain_lengths : ChainLengths;
  stake_pool_data : StakePool;
  stake_pool_blocks : StakePoolBlocks;
  vote_plans : VotePlans;
  stake_control : StakeControl;
}.

(** The part of [ExplorerDb::apply_block] that makes the next state; the outer
    [None] is a panic. *)
Definition apply_block_to_state (discrimination : Discrimination) (s : State) (block : Block)
    : option (result ExplorerError State) :=
  b ← resolve_from block (mkContext discrimination (transactions s) (blocks s));
  '(data, pool_blocks) ← apply_block_to_stake_pools (stake_pool_data s) (stake_pool_blocks s) b;
  sc ← apply_block_to_stake_control (stake_control s) b;
  match apply_block_to_transactions (transactions s) b with
  | Err e => Some (Err e)
  | Ok transactions =>
      match apply_block_to_blocks (blocks s) b with
      | Err e => Some (Err e)
      | Ok blocks =>
          addresses ← apply_block_to_addresses (addresses s) b;
          let epochs := apply_block_to_epochs (epochs s) b in
          match apply_block_to_chain_lengths (chain_lengths s) b with
          | Err e => Some (Err e)
          | Ok chain_lengths =>
              vote_plans ← apply_block_to_vote_plans (vote_plans s) b sc;
              Some (Ok (mkState transactions blocks addresses epochs chain_lengths data pool_blocks
                          vote_plans sc))
          end
      end
  end.

(** The initial state of [ExplorerDb::bootstrap]. *)
Definition initial_state (discrimination : Discrimination) (block0 : Block) : option (result ExplorerError State) :=
  b ← resolve_from block0 (mkContext discrimination hamt_new hamt_new);
  match apply_block_to_blocks hamt_new b with
  | Err e => Some (Err e)
  | Ok blocks =>
      let epochs := apply_block_to_epochs hamt_new b in
      match apply_block_to_chain_lengths hamt_new b with
      | Err e => Some (Err e)
      | Ok chain_lengths =>
          match apply_block_to_transactions hamt_new b with
          | Err e => Some (Err e)
          | Ok transactions =>
              addresses ← apply_block_to_addresses hamt_new b;
              '(data, pool_blocks) ← apply_block_to_stake_pools hamt_new hamt_new b;
              sc ← apply_block_to_stake_control sc_new b;
              vote_plans ← apply_block_to_vote_plans hamt_new b sc;
              Some (Ok (mkState transactions blocks addresses epochs chain_lengths data pool_blocks
                          vote_plans sc))
          end
      end
  end.

(** *** Queries of a state *)
Definition get_vote_plans (s : State) : list (VotePlanId * ExplorerVotePlan) := hamt_iter (vote_plans s).
Definition get_stake_pools (s : State) : list (PoolId * StakePoolData) := hamt_iter (stake_pool_data s).
Definition transactions_by_address (s : State) (a : ExplorerAddress) : option (PersistentSequence FragmentId) :=
  hamt_lookup a (addresses s).
(** [from..to] *)
Definition get_block_hash_range (s : State) (from to : Z) : list (HeaderHash * Z) :=
  omap (λ i, (λ h, (h, i)) <$> hamt_lookup i (chain_lengths s)) (seqZ from (to - from)).
End state.

(** ** What the indexes contain

    Each index as a function of the blocks of the branch, oldest first. *)
Section spec.
Context `{ChainTypes} `{Hamt} `{HashOrder} `{!StakeControlOps}.
Implicit Types (b : ExplorerBlock) (bs : list ExplorerBlock).

Definition chain_txs bs : list ExplorerTransaction := mjoin (block_txs <$> bs).
Definition chain_certificates bs : list Certificate := omap etx_certificate (chain_txs bs).

(** Whether an address occurs in a transaction. *)
Definition tx_has_address (a : ExplorerAddress) (tx : ExplorerTransaction) : Prop :=
  a ∈ (out_address <$> etx_outputs tx) ++ (in_address <$> etx_inputs tx).
#[export] Instance tx_has_address_dec a tx : Decision (tx_has_address a tx).
Proof. unfold tx_has_address. apply _. Defined.

Definition address_history (a : ExplorerAddress) bs : list FragmentId :=
  etx_id <$> filter (tx_has_address a) (chain_txs bs).

Definition epoch_data (l : list ExplorerBlock) : option EpochData :=
  match l with
  | [] => None
  | b :: rest => Some (mkEpochData (eb_id b) (eb_id (default b (last rest))) (wrap32 (Z.of_nat (length rest))))
  end.
Definition epoch_blocks (e : Z) bs : list ExplorerBlock := filter (λ b, epoch (eb_date b) = e) bs.

Definition produced_by (p : PoolId) b : bool :=
  match eb_producer b with ProducerStakePool id => bool_decide (id = p) | _ => false end.
Definition pool_history (p : PoolId) bs : list HeaderHash := eb_id <$> filter (λ b, produced_by p b = true) bs.

Definition registration_of (p : PoolId) (c : Certificate) : option PoolRegistrationCert :=
  match c with
  | CertPoolRegistration r => if decide (registration_to_id r = p) then Some r else None
  | _ => None
  end.
Definition retirement_of (p : PoolId) (c : Certificate) : option PoolRetirementCert :=
  match c with
  | CertPoolRetirement r => if decide (retirement_pool_id r = p) then Some r else None
  | _ => None
  end.
(** The registration of a pool, with its last retirement. *)
Definition pool_data (p : PoolId) (certs : list Certificate) : option StakePoolData :=
  (λ r, mkStakePoolData r (last (omap (retirement_of p) certs))) <$> head (omap (registration_of p) certs).

(** The numbers of blocks and transactions that fit the length of a sequence. *)
Definition fits bs : Prop := Z.of_nat (length bs + length (chain_txs bs)) + 1 < U64.

Record state_repr (s : State) bs : Prop := {
  repr_blocks h b : hamt_lookup h (blocks s) = Some b ↔ b ∈ bs ∧ eb_id b = h;
  repr_ids : NoDup (eb_id <$> bs);
  repr_keyed b : b ∈ bs → keyed (eb_transactions b);
  repr_chain_lengths n h :
    hamt_lookup n (chain_lengths s) = Some h ↔ ∃ b, b ∈ bs ∧ eb_chain_length b = n ∧ eb_id b = h;
  repr_lengths : NoDup (eb_chain_length <$> bs);
  repr_transactions f h :
    hamt_lookup f (transactions s) = Some h ↔ ∃ b tx, b ∈ bs ∧ eb_id b = h ∧ tx ∈ block_txs b ∧ etx_id tx = f;
  repr_txs : NoDup (etx_id <$> chain_txs bs);
  repr_addresses a :
    fits bs →
    match hamt_lookup a (addresses s) with
    | Some q => seq_repr q (address_history a bs) ∧ address_history a bs ≠ []
    | None => address_history a bs = []
    end;
  repr_epochs e : hamt_lookup e (epochs s) = epoch_data (epoch_blocks e bs);
  repr_pool_data p : hamt_lookup p (stake_pool_data s) = pool_data p (chain_certificates bs);
  repr_retirements p : pool_data p (chain_certificates bs) = None →
    omap (retirement_of p) (chain_certificates bs) = [];
  repr_pool_blocks p :
    fits bs →
    match hamt_lookup p (stake_pool_blocks s) with
    | Some q => seq_repr q (pool_history p bs) ∧ is_Some (pool_data p (chain_certificates bs))
    | None => pool_history p bs = [] ∧ pool_data p (chain_certificates bs) = None
    end;
}.
End spec.

(** ** The indexes after a block *)
Section proofs.
Context `{ChainTypes} `{HamtLaws} `{HashOrderLaws} `{!StakeControlOps}.
Implicit Types (b : ExplorerBlock) (bs : list ExplorerBlock).

Lemma chain_txs_snoc bs b : chain_txs (bs ++ [b]) = chain_txs bs ++ block_txs b.
Proof. unfold chain_txs. rewrite fmap_app, join_app. simpl. by rewrite app_nil_r. Qed.

Lemma chain_txs_elem bs tx : tx ∈ chain_txs bs ↔ ∃ b, b ∈ bs ∧ tx ∈ block_txs b.
Proof.
  unfold chain_txs. rewrite list_elem_of_join. setoid_rewrite list_elem_of_fmap. naive_solver.
Qed.

Lemma fits_snoc bs b : fits (bs ++ [b]) → fits bs.
Proof. unfold fits. rewrite chain_txs_snoc, !length_app. simpl. lia. Qed.

Lemma insert_transactions_ok h ids m m' :
  insert_transactions h ids m = Ok m' →
  NoDup ids ∧ (∀ id, id ∈ ids → hamt_lookup id m = None) ∧
  ∀ f, hamt_lookup f m' = if decide (f ∈ ids) then Some h else hamt_lookup f m.
Proof.
  revert m. induction ids as [|id ids IH]; simpl; intros m Hi; simplify_eq.
  { split_and!; [constructor|set_solver|]. done. }
  destruct (hamt_insert id h m) as [m1|] eqn:Hins; [|done].
  apply hamt_insert_Some in Hins as [Hn Hl]. destruct (IH m1 Hi) as (Hnd & Hfresh & Hm').
  assert (id ∉ ids) as Hid.
  { intros Hin. apply Hfresh in Hin. rewrite Hl, decide_True in Hin; done. }
  split_and!; [by constructor| |].
  - intros id' [->|Hin]%elem_of_cons; [done|]. apply Hfresh in Hin as Hnone.
    rewrite Hl, decide_False in Hnone; [done|]. by intros ->.
  - intros f. rewrite Hm', Hl. repeat case_decide; set_solver.
Qed.

Lemma insert_transactions_err h ids m e :
  insert_transactions h ids m = Err e → NoDup ids →
  ∃ id, id ∈ ids ∧ is_Some (hamt_lookup id m) ∧ e = TransactionAlreadyExists id.
Proof.
  revert m. induction ids as [|id ids IH]; simpl; intros m Hi Hnd; [done|].
  apply NoDup_cons in Hnd as [Hid Hnd].
  destruct (hamt_insert id h m) as [m1|] eqn:Hins.
  - apply hamt_insert_Some in Hins as [_ Hl]. destruct (IH m1 Hi Hnd) as (id' & Hin & Hs & ->).
    rewrite Hl, decide_False in Hs by (by intros ->). set_solver.
  - apply hamt_insert_None in Hins. simplify_eq. exists id. set_solver.
Qed.

(** *** Addresses *)
Lemma included_addresses_spec tx a : a ∈ included_addresses tx ↔ tx_has_address a tx.
Proof. unfold included_addresses, tx_has_address. by rewrite hash_order_perm, elem_of_remove_dups. Qed.

Lemma included_addresses_NoDup tx : NoDup (included_addresses tx).
Proof. unfold included_addresses. rewrite hash_order_perm. apply NoDup_remove_dups. Qed.

(** The index of addresses, given the history of each. *)
Definition addresses_repr (hist : ExplorerAddress → list FragmentId) (m : Addresses) : Prop :=
  ∀ a, match hamt_lookup a m with
       | Some q => seq_repr q (hist a) ∧ hist a ≠ []
       | None => hist a = []
       end.

Lemma append_transaction_ok id a hist m m' :
  append_transaction id a m = Some m' → addresses_repr hist m → Z.of_nat (length (hist a)) + 1 < U64 →
  addresses_repr (λ a', if decide (a' = a) then hist a' ++ [id] else hist a') m'.
Proof.
  unfold append_transaction. intros Ha Hr Hlen a'.
  destruct (seq_append seq_new id) as [fresh|] eqn:Hf; [|done]. simpl in Ha.
  apply (seq_append_inv _ _ []) in Hf; [|apply seq_new_repr|done].
  specialize (Hr a') as Hr'. specialize (Hr a).
  destruct (hamt_lookup a m) as [q|] eqn:Hl; simpl in Ha.
  - destruct (seq_append q id) as [q'|] eqn:Hq; [|done]. simplify_eq/=.
    rewrite hamt_lookup_insert_or_update, Hl. case_decide as Ha'; [subst a'|done].
    destruct Hr as [Hr _]. apply (seq_append_inv _ _ (hist a)) in Hq; [|done|done].
    split; [done|]. by destruct (hist a).
  - simplify_eq/=. rewrite hamt_lookup_insert_or_update, Hl. case_decide as Ha'; [subst a'|done].
    by rewrite Hr.
Qed.

Lemma append_to_addresses_ok id l hist m m' :
  append_to_addresses id l m = Some m' → NoDup l → addresses_repr hist m →
  (∀ a, a ∈ l → Z.of_nat (length (hist a)) + 1 < U64) →
  addresses_repr (λ a, if decide (a ∈ l) then hist a ++ [id] else hist a) m'.
Proof.
  revert m hist. induction l as [|a l IH]; simpl; intros m hist Ha Hnd Hr Hlen.
  { simplify_eq. exact Hr. }
  destruct (append_transaction id a m) as [m1|] eqn:Ht; [|done]. simpl in Ha.
  apply NoDup_cons in Hnd as [Hnin Hnd]. apply (append_transaction_ok _ _ hist) in Ht; [|done|set_solver].
  apply IH with (hist := λ a', if decide (a' = a) then hist a' ++ [id] else hist a') in Ha; [|done|done|].
  - intros a'. specialize (Ha a'). simpl in Ha.
    destruct (decide (a' = a)) as [->|]; [rewrite decide_False in Ha by done; by rewrite decide_True by set_solver|].
    destruct (decide (a' ∈ l)); [rewrite decide_True by set_solver|rewrite decide_False by set_solver]; done.
  - intros a' Hin. rewrite decide_False by (by intros ->). apply Hlen. set_solver.
Qed.

Lemma add_transactions_ok txs hist m m' :
  add_transactions txs m = Some m' → addresses_repr hist m →
  (∀ a, Z.of_nat (length (hist a) + length txs) + 1 < U64) →
  addresses_repr (λ a, hist a ++ (etx_id <$> filter (tx_has_address a) txs)) m'.
Proof.
  revert m hist. induction txs as [|tx txs IH]; simpl; intros m hist Ha Hr Hlen.
  { simplify_eq. intros a. rewrite app_nil_r. apply Hr. }
  destruct (append_to_addresses _ _ _) as [m1|] eqn:Ht; [|done]. simpl in Ha.
  apply (append_to_addresses_ok _ _ hist) in Ht; [|apply included_addresses_NoDup|done|].
  - apply IH with (hist := λ a, if decide (a ∈ included_addresses tx) then hist a ++ [etx_id tx] else hist a)
      in Ha; [|done|].
    + intros a. specialize (Ha a). simpl in Ha. rewrite filter_cons.
      destruct (decide (tx_has_address a tx)) as [Hin|Hin]; rewrite <- included_addresses_spec in Hin;
        [rewrite decide_True, <- app_assoc in Ha by done|rewrite decide_False in Ha by done]; done.
    + intros a. specialize (Hlen a). case_decide; rewrite ?length_app; simpl; lia.
  - intros a _. specialize (Hlen a). lia.
Qed.

Lemma address_history_snoc a bs b :
  address_history a (bs ++ [b]) = address_history a bs ++ (etx_id <$> filter (tx_has_address a) (block_txs b)).
Proof. unfold address_history. by rewrite chain_txs_snoc, filter_app, fmap_app. Qed.

Lemma address_history_length a bs : (length (address_history a bs) ≤ length (chain_txs bs))%nat.
Proof. unfold address_history. rewrite length_fmap. apply length_filter. Qed.

Lemma apply_addresses_ok bs b m m' :
  apply_block_to_addresses m b = Some m' → fits (bs ++ [b]) →
  addresses_repr (λ a, address_history a bs) m → addresses_repr (λ a, address_history a (bs ++ [b])) m'.
Proof.
  intros Ha Hfits Hr. apply (add_transactions_ok _ (λ a, address_history a bs)) in Ha; [|done|].
  - intros a. rewrite address_history_snoc. apply Ha.
  - intros a. pose proof (address_history_length a bs). unfold fits in Hfits.
    rewrite chain_txs_snoc, !length_app in Hfits. lia.
Qed.

(** *** Epochs *)
Lemma apply_epochs_ok bs b m :
  (∀ e, hamt_lookup e m = epoch_data (epoch_blocks e bs)) →
  ∀ e, hamt_lookup e (apply_block_to_epochs m b) = epoch_data (epoch_blocks e (bs ++ [b])).
Proof.
  intros Hr e. unfold apply_block_to_epochs. rewrite hamt_lookup_insert_or_update, !Hr.
  unfold epoch_blocks. rewrite filter_app. case_decide as He.
  - subst e. rewrite (filter_cons_True _ b), filter_nil by done. destruct (filter _ bs) as [|b0 rest]; simpl; [done|].
    do 2 f_equal.
    + by rewrite last_snoc.
    + rewrite length_app. simpl. unfold u32_add, wrap32. rewrite Zplus_mod_idemp_l. f_equal. lia.
  - rewrite (filter_cons_False _ b), filter_nil, app_nil_r by congruence. done.
Qed.

(** *** Stake pools *)
Lemma hamt_update_unwrap_Some `{Countable K} {V} (k : K) (f : V → option V) (h h' : hamt K V) :
  hamt_update_unwrap k f h = Some h' →
  ∃ v v', hamt_lookup k h = Some v ∧ f v = Some v' ∧
    ∀ k', hamt_lookup k' h' = if decide (k' = k) then Some v' else hamt_lookup k' h.
Proof.
  unfold hamt_update_unwrap. destruct (hamt_lookup k h) as [v|] eqn:Hl; [|done]. simpl.
  destruct (f v) as [v'|] eqn:Hf; [|done]. simpl. intros Hu.
  apply hamt_update_Some in Hu as (v0 & Hv0 & Hall). exists v, v'. by simplify_eq.
Qed.

(** A retirement never precedes the registration. *)
Definition pools_repr (data : StakePool) (certs : list Certificate) : Prop :=
  ∀ p, hamt_lookup p data = pool_data p certs ∧
       (pool_data p certs = None → omap (retirement_of p) certs = []).

Definition pool_blocks_repr (hist : PoolId → list HeaderHash) (certs : list Certificate)
    (m : StakePoolBlocks) : Prop :=
  ∀ p, match hamt_lookup p m with
       | Some q => seq_repr q (hist p) ∧ is_Some (pool_data p certs)
       | None => hist p = [] ∧ pool_data p certs = None
       end.

(** What one more certificate does to the data of a pool. *)
Lemma pool_data_snoc p certs c :
  pool_data p (certs ++ [c]) =
  match pool_data p certs with
  | Some d => Some (mkStakePoolData (registration d)
                      (match retirement_of p c with Some r => Some r | None => retirement d end))
  | None => (λ r, mkStakePoolData r (last (omap (retirement_of p) (certs ++ [c])))) <$> registration_of p c
  end.
Proof.
  unfold pool_data. rewrite !omap_app. simpl.
  destruct (omap (registration_of p) certs) as [|r rs] eqn:Hr; simpl.
  - by destruct (registration_of p c).
  - do 2 f_equal. destruct (retirement_of p c); [by rewrite last_snoc|by rewrite app_nil_r].
Qed.

Lemma pool_blocks_keep (hist : PoolId → list HeaderHash) certs c m p :
  registration_of p c = None →
  match hamt_lookup p m with
  | Some q => seq_repr q (hist p) ∧ is_Some (pool_data p certs)
  | None => hist p = [] ∧ pool_data p certs = None
  end →
  match hamt_lookup p m with
  | Some q => seq_repr q (hist p) ∧ is_Some (pool_data p (certs ++ [c]))
  | None => hist p = [] ∧ pool_data p (certs ++ [c]) = None
  end.
Proof.
  intros Hr. rewrite pool_data_snoc, Hr.
  destruct (hamt_lookup p m); intros [? Hp]; (split; [done|]); [|by rewrite Hp].
  destruct (pool_data p certs); [eauto|by destruct Hp].
Qed.

Lemma apply_pool_certificate_ok certs data m c data' m' :
  apply_pool_certificate (data, m) c = Some (data', m') → pools_repr data certs →
  pools_repr data' (certs ++ [c]) ∧
  ∀ hist, pool_blocks_repr hist certs m → pool_blocks_repr hist (certs ++ [c]) m'.
Proof.
  intros Ha Hd.
  assert ((∀ p, registration_of p c = None ∧ retirement_of p c = None) → data' = data → m' = m →
    pools_repr data' (certs ++ [c]) ∧
    ∀ hist, pool_blocks_repr hist certs m → pool_blocks_repr hist (certs ++ [c]) m') as Hother.
  { intros Hno -> ->. assert (∀ p, pool_data p (certs ++ [c]) = pool_data p certs) as Hsame.
    { intros p. destruct (Hno p) as [Hn1 Hn2]. rewrite pool_data_snoc, Hn1, Hn2.
      by destruct (pool_data p certs) as [[]|]. }
    split; [intros p|intros hist Hb p]; rewrite Hsame; [|apply Hb].
    destruct (Hd p) as [? Hn]. split; [done|].
    intros. rewrite omap_app, Hn by done. simpl. by rewrite (proj2 (Hno p)). }
  destruct c as [| |r|r| | | |]; simpl in Ha; try (apply Hother; [done|congruence|congruence]).
  - destruct (hamt_insert _ _ m) as [m1|] eqn:Hm; [|done]. simpl in Ha.
    destruct (hamt_insert _ _ data) as [d1|] eqn:Hdata; [|done]. simplify_eq/=.
    apply hamt_insert_Some in Hm as [Hmn Hm], Hdata as [Hdn Hdata]. split.
    + intros p. destruct (Hd p) as [Hdp Hret]. rewrite pool_data_snoc, Hdata, omap_app. simpl.
      destruct (decide (p = registration_to_id r)) as [->|Hne].
      * rewrite Hdn in Hdp. rewrite <- Hdp, decide_True, (Hret (eq_sym Hdp)) by done. done.
      * rewrite (decide_False (P := registration_to_id r = p)) by congruence. rewrite Hdp, app_nil_r.
        destruct (pool_data p certs) as [[]|]; simpl; [done|]. split; [done|]. auto.
    + intros hist Hb p. specialize (Hb p). rewrite Hm.
      destruct (decide (p = registration_to_id r)) as [->|Hne].
      * rewrite Hmn in Hb. destruct Hb as [-> Hp]. rewrite pool_data_snoc, Hp. simpl.
        rewrite decide_True by done. split; [apply seq_new_repr|simpl; eauto].
      * apply pool_blocks_keep; [|done]. simpl. by rewrite decide_False by congruence.
  - destruct (hamt_update_unwrap _ _ data) as [d1|] eqn:Hdata; [|done]. simplify_eq/=.
    apply hamt_update_unwrap_Some in Hdata as (d & d' & Hl & Hd' & Hdata). simplify_eq/=. split.
    + intros p. destruct (Hd p) as [Hdp Hret]. rewrite pool_data_snoc, Hdata, omap_app. simpl.
      destruct (decide (p = retirement_pool_id r)) as [->|Hne].
      * rewrite Hl in Hdp. rewrite <- Hdp, decide_True by done. done.
      * rewrite (decide_False (P := retirement_pool_id r = p)) by congruence. rewrite Hdp, app_nil_r.
        destruct (pool_data p certs) as [[]|]; simpl; [done|]. split; [done|]. auto.
    + intros hist Hb p. apply pool_blocks_keep; [done|]. apply Hb.
Qed.

Lemma apply_pool_certificates_ok new certs data m data' m' :
  apply_pool_certificates (data, m) new = Some (data', m') → pools_repr data certs →
  pools_repr data' (certs ++ new) ∧
  ∀ hist, pool_blocks_repr hist certs m → pool_blocks_repr hist (certs ++ new) m'.
Proof.
  revert certs data m. induction new as [|c new IH]; cbn [apply_pool_certificates]; intros certs data m Ha Hd.
  { simplify_eq. by rewrite app_nil_r. }
  destruct (apply_pool_certificate (data, m) c) as [[d1 m1]|] eqn:Hc; [|done]. simpl in Ha.
  apply (apply_pool_certificate_ok certs) in Hc as [Hd1 Hm1]; [|done].
  apply (IH (certs ++ [c])) in Ha as [Hd' Hm']; [|done]. rewrite <- app_assoc in *. naive_solver.
Qed.

Lemma pool_history_snoc p bs b :
  pool_history p (bs ++ [b]) = pool_history p bs ++ (if produced_by p b then [eb_id b] else []).
Proof.
  unfold pool_history. rewrite filter_app, fmap_app, filter_cons. by destruct (produced_by p b).
Qed.

Lemma chain_certificates_snoc bs b :
  chain_certificates (bs ++ [b]) = chain_certificates bs ++ omap etx_certificate (block_txs b).
Proof. unfold chain_certificates. by rewrite chain_txs_snoc, omap_app. Qed.

(** The update of the producer's sequence. *)
Lemma apply_producer_ok bs b certs m m' :
  match eb_producer b with
  | ProducerStakePool id => hamt_update_unwrap id (λ array, seq_append array (eb_id b)) m
  | ProducerBftLeader _ | ProducerNone => Some m
  end = Some m' →
  fits (bs ++ [b]) → pool_blocks_repr (λ p, pool_history p bs) certs m →
  pool_blocks_repr (λ p, pool_history p (bs ++ [b])) certs m'.
Proof.
  intros Hu Hfits Hr p. specialize (Hr p). rewrite pool_history_snoc. unfold produced_by.
  destruct (eb_producer b) as [|id|]; simplify_eq; rewrite ?app_nil_r; try done.
  apply hamt_update_unwrap_Some in Hu as (q & q' & Hl & Hq & Hall). rewrite Hall.
  destruct (decide (p = id)) as [->|]; [|by rewrite bool_decide_false, app_nil_r by congruence].
  rewrite bool_decide_true by done. rewrite Hl in Hr. destruct Hr as [Hs Hd]. split; [|done]. eapply seq_append_inv; [done| |done].
  unfold fits in Hfits. unfold pool_history. rewrite length_fmap, chain_txs_snoc, !length_app in *.
  pose proof (length_filter (λ b0, produced_by id b0 = true) bs). simpl in Hfits. lia.
Qed.

Lemma apply_stake_pools_ok bs b data m data' m' :
  apply_block_to_stake_pools data m b = Some (data', m') → pools_repr data (chain_certificates bs) →
  pools_repr data' (chain_certificates (bs ++ [b])) ∧
  (fits (bs ++ [b]) → pool_blocks_repr (λ p, pool_history p bs) (chain_certificates bs) m →
   pool_blocks_repr (λ p, pool_history p (bs ++ [b])) (chain_certificates (bs ++ [b])) m').
Proof.
  unfold apply_block_to_stake_pools. intros Ha Hd.
  destruct (match eb_producer b with ProducerNone => _ | _ => _ end) as [m1|] eqn:Hp; [|done]. simpl in Ha.
  apply (apply_pool_certificates_ok _ (chain_certificates bs)) in Ha as [Hd' Hm']; [|done].
  rewrite chain_certificates_snoc. split; [done|]. intros Hfits Hm. apply Hm'. by eapply apply_producer_ok.
Qed.

(** ** The state after a block *)
Lemma indexed_blocks s bs b bl :
  apply_block_to_blocks (blocks s) b = Ok bl → state_repr s bs →
  NoDup (eb_id <$> bs ++ [b]) ∧ ∀ h b', hamt_lookup h bl = Some b' ↔ b' ∈ bs ++ [b] ∧ eb_id b' = h.
Proof.
  unfold apply_block_to_blocks. intros Hbl Hr.
  destruct (hamt_insert _ _ _) as [m|] eqn:Hi; simplify_eq. apply hamt_insert_Some in Hi as [Hn Hl].
  assert (∀ b', b' ∈ bs → eb_id b' ≠ eb_id b) as Hne.
  { intros b' Hin Heq. assert (hamt_lookup (eb_id b) (blocks s) = Some b') by (by apply (repr_blocks s bs)).
    congruence. }
  split.
  - rewrite fmap_app. apply NoDup_app. split_and!; [apply (repr_ids s bs Hr)| |apply NoDup_singleton].
    intros h (b' & -> & Hin)%list_elem_of_fmap ?%list_elem_of_singleton. by apply (Hne b').
  - intros h b'. rewrite Hl, elem_of_app, list_elem_of_singleton. case_decide as Hh; subst.
    + naive_solver.
    + rewrite (repr_blocks s bs Hr). naive_solver.
Qed.

Lemma indexed_chain_lengths s bs b cl :
  apply_block_to_chain_lengths (chain_lengths s) b = Ok cl → state_repr s bs →
  NoDup (eb_chain_length <$> bs ++ [b]) ∧
  ∀ n h, hamt_lookup n cl = Some h ↔ ∃ b', b' ∈ bs ++ [b] ∧ eb_chain_length b' = n ∧ eb_id b' = h.
Proof.
  unfold apply_block_to_chain_lengths. intros Hcl Hr.
  destruct (hamt_insert _ _ _) as [m|] eqn:Hi; simplify_eq. apply hamt_insert_Some in Hi as [Hn Hl].
  assert (∀ b', b' ∈ bs → eb_chain_length b' ≠ eb_chain_length b) as Hne.
  { intros b' Hin Heq. assert (hamt_lookup (eb_chain_length b) (chain_lengths s) = Some (eb_id b')).
    { apply (repr_chain_lengths s bs Hr). eauto. } congruence. }
  split.
  - rewrite fmap_app. apply NoDup_app. split_and!; [apply (repr_lengths s bs Hr)| |apply NoDup_singleton].
    intros h (b' & -> & Hin)%list_elem_of_fmap ?%list_elem_of_singleton. by apply (Hne b').
  - intros n h. setoid_rewrite elem_of_app. setoid_rewrite list_elem_of_singleton.
    rewrite Hl. case_decide as Hh; subst.
    + naive_solver.
    + rewrite (repr_chain_lengths s bs Hr). naive_solver.
Qed.

Lemma indexed_transactions s bs b txs :
  apply_block_to_transactions (transactions s) b = Ok txs → state_repr s bs →
  NoDup (etx_id <$> chain_txs (bs ++ [b])) ∧
  ∀ f h, hamt_lookup f txs = Some h ↔
         ∃ b' tx, b' ∈ bs ++ [b] ∧ eb_id b' = h ∧ tx ∈ block_txs b' ∧ etx_id tx = f.
Proof.
  intros Htxs Hr. apply insert_transactions_ok in Htxs as (Hnd & Hfresh & Hl).
  assert (∀ f tx b', b' ∈ bs → tx ∈ block_txs b' → etx_id tx = f → f ∈ etx_id <$> block_txs b → False) as Hdisj.
  { intros f tx b' Hb' Htx Hf Hin. apply Hfresh in Hin.
    assert (hamt_lookup f (transactions s) = Some (eb_id b')).
    { apply (repr_transactions s bs Hr). by exists b', tx. } congruence. }
  split.
  - rewrite chain_txs_snoc, fmap_app. apply NoDup_app. split_and!; [apply (repr_txs s bs Hr)| |done].
    intros f (tx & -> & (b' & ? & ?)%chain_txs_elem)%list_elem_of_fmap Hin. by eapply Hdisj.
  - intros f h. rewrite Hl. setoid_rewrite elem_of_app. setoid_rewrite list_elem_of_singleton.
    case_decide as Hf.
    + split.
      * intros ?. simplify_eq. apply list_elem_of_fmap in Hf as (tx & -> & Htx). exists b, tx. auto.
      * intros (b' & tx & [Hb'| ->] & <- & Htx & <-); [|done]. exfalso. eauto.
    + rewrite (repr_transactions s bs Hr). split.
      { intros (b' & tx & Hb' & ? & ? & ?). exists b', tx. auto. }
      intros (b' & tx & [Hb'| ->] & <- & Htx & <-); [by exists b', tx|]. destruct Hf. by apply list_elem_of_fmap_2.
Qed.

Section indexed.
Context (s : State) (bs : list ExplorerBlock) (b : ExplorerBlock).
Context (txs : Transactions) (bl : Blocks) (addrs : Addresses) (cl : ChainLengths)
  (data : StakePool) (pb : StakePoolBlocks) (vp : VotePlans) (sc : StakeControl).
Hypothesis Htxs : apply_block_to_transactions (transactions s) b = Ok txs.
Hypothesis Hbl : apply_block_to_blocks (blocks s) b = Ok bl.
Hypothesis Haddrs : apply_block_to_addresses (addresses s) b = Some addrs.
Hypothesis Hcl : apply_block_to_chain_lengths (chain_lengths s) b = Ok cl.
Hypothesis Hpools : apply_block_to_stake_pools (stake_pool_data s) (stake_pool_blocks s) b = Some (data, pb).

Lemma index_repr :
  keyed (eb_transactions b) → state_repr s bs →
  state_repr (mkState txs bl addrs (apply_block_to_epochs (epochs s) b) cl data pb vp sc) (bs ++ [b]).
Proof.
  intros Hkeyed Hr. destruct (indexed_blocks s bs b bl Hbl Hr), (indexed_chain_lengths s bs b cl Hcl Hr),
    (indexed_transactions s bs b txs Htxs Hr).
  assert (pools_repr (stake_pool_data s) (chain_certificates bs)) as Hpd.
  { intros p. split; [apply (repr_pool_data s bs Hr)|apply (repr_retirements s bs Hr)]. }
  apply (apply_stake_pools_ok bs) in Hpools as [Hpd' Hpb]; [|done].
  split; simpl; try done.
  - intros b' [Hin|<-%list_elem_of_singleton]%elem_of_app; [|done]. by apply (repr_keyed s bs Hr).
  - intros a Hfits. apply (apply_addresses_ok bs b) in Haddrs; [apply Haddrs|done|].
    intros a'. apply (repr_addresses s bs Hr). by eapply fits_snoc.
  - apply apply_epochs_ok, (repr_epochs s bs Hr).
  - intros p. apply Hpd'.
  - intros p. apply Hpd'.
  - intros p Hfits. apply (Hpb Hfits).
    intros p'. apply (repr_pool_blocks s bs Hr). by eapply fits_snoc.
Qed.
End indexed.

Definition empty_state : State :=
  mkState hamt_new hamt_new hamt_new hamt_new hamt_new hamt_new hamt_new hamt_new sc_new.

Lemma empty_state_repr : state_repr empty_state [].
Proof.
  split; simpl; try constructor; intros; rewrite ?hamt_lookup_new in *; try done; try set_solver.
Qed.

(** Every state that is made has the indexes of its blocks. *)
Lemma initial_state_repr d block0 s :
  initial_state d block0 = Some (Ok s) →
  ∃ b, resolve_from block0 (mkContext d hamt_new hamt_new) = Some b ∧ state_repr s [b].
Proof.
  unfold initial_state. intros Ha.
  destruct (resolve_from _ _) as [b|] eqn:Hb; [|done]. simpl in Ha.
  destruct (apply_block_to_blocks _ _) as [bl|] eqn:Hbl; [|done].
  destruct (apply_block_to_chain_lengths _ _) as [cl|] eqn:Hcl; [|done].
  destruct (apply_block_to_transactions _ _) as [txs|] eqn:Htxs; [|done].
  destruct (apply_block_to_addresses _ _) as [addrs|] eqn:Haddrs; [|done]. simpl in Ha.
  destruct (apply_block_to_stake_pools _ _ _) as [[data pb]|] eqn:Hpools; [|done]. simpl in Ha.
  destruct (apply_block_to_stake_control _ _) as [sc|] eqn:Hsc; [|done]. simpl in Ha.
  destruct (apply_block_to_vote_plans _ _ _) as [vp|] eqn:Hvp; [|done]. simplify_eq/=.
  exists b. split; [done|]. apply resolve_from_keyed in Hb.
  by apply (index_repr empty_state []); [..|apply empty_state_repr].
Qed.

Lemma apply_block_to_state_repr d s bs block s' :
  apply_block_to_state d s block = Some (Ok s') → state_repr s bs →
  ∃ b, resolve_from block (mkContext d (transactions s) (blocks s)) = Some b ∧ state_repr s' (bs ++ [b]).
Proof.
  unfold apply_block_to_state. intros Ha Hr.
  destruct (resolve_from _ _) as [b|] eqn:Hb; [|done]. simpl in Ha.
  destruct (apply_block_to_stake_pools _ _ _) as [[data pb]|] eqn:Hpools; [|done]. simpl in Ha.
  destruct (apply_block_to_stake_control _ _) as [sc|] eqn:Hsc; [|done]. simpl in Ha.
  destruct (apply_block_to_transactions _ _) as [txs|] eqn:Htxs; [|done].
  destruct (apply_block_to_blocks _ _) as [bl|] eqn:Hbl; [|done].
  destruct (apply_block_to_addresses _ _) as [addrs|] eqn:Haddrs; [|done]. simpl in Ha.
  destruct (apply_block_to_chain_lengths _ _) as [cl|] eqn:Hcl; [|done].
  destruct (apply_block_to_vote_plans _ _ _) as [vp|] eqn:Hvp; [|done]. simplify_eq/=.
  exists b. split; [done|]. apply resolve_from_keyed in Hb. by apply index_repr.
Qed.

(** ** The inputs of a block *)

(** The transaction of a branch with an identifier. *)
Definition find_tx bs (f : FragmentId) : option ExplorerTransaction :=
  head (filter (λ tx, etx_id tx = f) (chain_txs bs)).

Lemma find_tx_spec s bs f tx :
  state_repr s bs → find_tx bs f = Some tx ↔ tx ∈ chain_txs bs ∧ etx_id tx = f.
Proof.
  intros Hr. pose proof (repr_txs s bs Hr) as Hnd. unfold find_tx. revert Hnd.
  induction (chain_txs bs) as [|t l IH]; simpl; intros Hnd; [set_solver|].
  apply NoDup_cons in Hnd as [Hn Hnd]. rewrite filter_cons. case_decide as Ht; simpl.
  - split; [set_solver|]. intros [[->|Hin]%elem_of_cons Hf]; [done|].
    destruct Hn. rewrite Ht, <- Hf. by apply list_elem_of_fmap_2.
  - rewrite IH by done. set_solver.
Qed.

Lemma find_tx_None bs f : find_tx bs f = None → ∀ tx, tx ∈ chain_txs bs → etx_id tx ≠ f.
Proof.
  unfold find_tx. intros Hh tx Hin Hf.
  assert (tx ∈ filter (λ tx, etx_id tx = f) (chain_txs bs)) as Hin' by (by apply list_elem_of_filter).
  destruct (filter _ _); [by apply elem_of_nil in Hin'|done].
Qed.

(** The output a pointer refers to: of a transaction of the branch, or else of one
    of the block itself. *)
Lemma resolve_utxo_chain d s bs current f i :
  state_repr s bs →
  resolve_utxo (mkContext d (transactions s) (blocks s)) current f i =
  t ← (match find_tx bs f with Some t => Some t | None => current !! f end); nth_output t i.
Proof.
  intros Hr. unfold resolve_utxo. simpl.
  destruct (hamt_lookup f (transactions s)) as [h|] eqn:Hf.
  - apply (repr_transactions s bs Hr) in Hf as (b & tx & Hb & Hh & Htx & Hid).
    assert (hamt_lookup h (blocks s) = Some b) as -> by (by apply (repr_blocks s bs Hr)).
    assert (eb_transactions b !! f = Some tx) as ->.
    { apply map_values_elem in Htx as [k Hk]. apply (repr_keyed s bs Hr) in Hk as Hk'; [|done].
      congruence. }
    assert (find_tx bs f = Some tx) as ->.
    { apply (find_tx_spec s bs f tx Hr). split; [|done]. apply chain_txs_elem. eauto. }
    simpl. by destruct (nth_output tx i).
  - simpl. destruct (find_tx bs f) as [tx|] eqn:Hfind.
    + apply (find_tx_spec s bs f tx Hr) in Hfind as [(b & Hb & Htx)%chain_txs_elem Hid].
      assert (hamt_lookup f (transactions s) = Some (eb_id b)); [|congruence].
      apply (repr_transactions s bs Hr). by exists b, tx.
    + destruct (current !! f) as [t|]; simpl; [by destruct (nth_output t i)|done].
Qed.

(** The outputs that are known at the fragment [n] of a block. *)
Definition output_at bs (contents : list (FragmentId * Fragment)) (b : ExplorerBlock) (n : nat)
    (f : FragmentId) (i : Z) : option ExplorerOutput :=
  t ← (match find_tx bs f with
       | Some t => Some t
       | None => if decide (f ∈ (take n contents).*1) then eb_transactions b !! f else None
       end); nth_output t i.

(** A block is stored with its transactions resolved: the fragment at each place
    is stored under its identifier with that place, its outputs and its certificate;
    an account input is the account's address, and a pointer to an output is the
    address and value of that output, of a transaction of the branch or of an earlier
    one of the block. *)
Theorem resolve_from_chain d s bs block b n id f :
  state_repr s bs → resolve_from block (mkContext d (transactions s) (blocks s)) = Some b →
  NoDup (block_contents block).*1 → block_contents block !! n = Some (id, f) →
  match eb_transactions b !! id with
  | Some etx => f ≠ OtherFragment ∧
                transaction_ok d (output_at bs (block_contents block) b n) id (Z.of_nat n) f etx
  | None => f = OtherFragment
  end.
Proof.
  intros Hr (_ & _ & _ & _ & _ & Hfs)%resolve_from_fields Hnd Hn.
  apply resolve_fragments_ok in Hfs as [_ Hall]; [|done|done].
  destruct (Hall n id f Hn) as (before & Hf & Hb). apply resolve_fragment_ok in Hf.
  destruct (eb_transactions b !! id) as [etx|]; [|done]. destruct Hf as (Hne & Ht). split; [done|].
  destruct Ht as (? & Hoff & ? & ? & Hin). split_and!; [done|simpl in Hoff; lia|done|done|].
  eapply Forall2_impl; [exact Hin|]. intros iw i Hi.
  destruct Hi as [| |tx index w o Ho]; try by constructor.
  constructor. rewrite (resolve_utxo_chain _ _ bs), Hb, lookup_empty in Ho by done. done.
Qed.
End proofs.

(** ** Tallies *)
Section tally_proofs.
Context `{ChainTypes} `{HamtLaws} `{!StakeControlOps}.
Implicit Types (votes : list (ExplorerAddress * ExplorerVote)).

(** The stake with which a vote is counted. *)
Definition vote_weight (stake : StakeControl) (a : ExplorerAddress) : option Z :=
  k ← address_to_single_account a; sc_by stake k.

(** The stake of the votes for a choice. *)
Fixpoint stake_for (stake : StakeControl) (i : nat) votes : Z :=
  match votes with
  | [] => 0
  | (a, VotePublic c) :: votes =>
      (if decide (Z.to_nat c = i) then default 0 (vote_weight stake a) else 0) + stake_for stake i votes
  | _ :: votes => stake_for stake i votes
  end.

(** Votes that can be counted: public ones, for one of [n] choices, unless they
    have no weight. *)
Definition countable_vote (stake : StakeControl) (n : nat) (av : ExplorerAddress * ExplorerVote) : Prop :=
  ∀ w, vote_weight stake av.1 = Some w →
  0 ≤ w ∧ match av.2 with VotePublic c => (Z.to_nat c < n)%nat | VotePrivate _ _ => False end.

Lemma count_vote_weight stake results a v :
  count_vote stake results (a, v) =
  match vote_weight stake a, v with
  | None, _ => Some results
  | Some w, VotePublic c =>
      r ← results !! Z.to_nat c; Some (<[Z.to_nat c := saturating_add_u64 r w]> results)
  | Some _, VotePrivate _ _ => None
  end.
Proof.
  unfold count_vote, vote_weight. simpl.
  destruct (address_to_single_account a) as [k|]; simpl; [|done]. by destruct (sc_by stake k).
Qed.

Lemma stake_for_nonneg stake n i votes : Forall (countable_vote stake n) votes → 0 ≤ stake_for stake i votes.
Proof.
  induction 1 as [|[a v] votes Ha _ IH]; simpl; [done|]. destruct v as [c|]; [|done].
  unfold countable_vote in Ha. simpl in Ha. destruct (vote_weight stake a) as [w|]; simpl.
  - destruct (Ha w eq_refl). case_decide; lia.
  - case_decide; lia.
Qed.

Lemma count_votes_ok stake votes results :
  Forall (countable_vote stake (length results)) votes → Forall (λ r, 0 ≤ r < U64) results →
  ∃ results', count_votes stake results votes = Some results' ∧ length results' = length results ∧
    ∀ i r, results !! i = Some r → results' !! i = Some ((r + stake_for stake i votes) `min` (U64 - 1)).
Proof.
  revert results. induction votes as [|[a v] votes IH]; intros results Hv Hr.
  { exists results. split_and!; [done|done|]. intros i r Hi. rewrite Hi.
    apply (Forall_lookup_1 _ _ _ _ Hr) in Hi. simpl. f_equal. lia. }
  apply Forall_cons in Hv as [Ha Hv]. cbn [count_votes]. rewrite count_vote_weight.
  unfold countable_vote in Ha. simpl in Ha. destruct (vote_weight stake a) as [w|] eqn:Hw; cycle 1.
  { simpl. rewrite Hw. destruct (IH results Hv Hr) as (res' & -> & Hlen & Hall).
    exists res'. split_and!; [done|done|]. intros i r Hi. rewrite (Hall i r Hi).
    destruct v; [|done]. simpl. case_decide; f_equal; lia. }
  destruct (Ha w eq_refl) as [Hw0 Hc]. destruct v as [c|]; [|done].
  destruct (lookup_lt_is_Some_2 results (Z.to_nat c) Hc) as [r0 Hr0]. rewrite Hr0. simpl. rewrite Hw.
  apply (Forall_lookup_1 _ _ _ _ Hr) in Hr0 as Hb0. unfold saturating_add_u64.
  destruct (IH (<[Z.to_nat c := (r0 + w) `min` (U64 - 1)]> results)) as (res' & -> & Hlen & Hall).
  { by rewrite length_insert. }
  { apply Forall_insert; [done|]. lia. }
  rewrite length_insert in Hlen. exists res'. split_and!; [done|done|]. intros i r Hi.
  pose proof (stake_for_nonneg stake _ i votes Hv). simpl. case_decide as Hne; [subst i|].
  - rewrite (Hall (Z.to_nat c) ((r0 + w) `min` (U64 - 1))) by (by apply list_lookup_insert_eq).
    simplify_eq. f_equal. lia.
  - rewrite (Hall i r) by (by rewrite list_lookup_insert_ne). f_equal; lia.
Qed.

(** The result of a public tally for a choice is the stake of the votes for it,
    at most the greatest 64-bit number.  Only the votes of single-key addresses have
    a weight: one that is cast through an account input, which is stored with an
    account address, counts for nothing. *)
Theorem public_tally_correct proposal stake :
  let n := Z.to_nat (choice_range_end (evp_options proposal)) in
  Forall (countable_vote stake n) (hamt_iter (evp_votes proposal)) →
  (∃ results,
     compute_public_tally proposal stake = Some (TallyPublic results (evp_options proposal)) ∧
     length results = n ∧
     ∀ i, (i < n)%nat →
       results !! i = Some (stake_for stake i (hamt_iter (evp_votes proposal)) `min` (U64 - 1))) ∧
  (∀ d key, vote_weight stake (New (mkAddress d (Account key))) = None).
Proof.
  intros n Hv. split; [|done].
  destruct (count_votes_ok stake (hamt_iter (evp_votes proposal)) (replicate n 0))
    as (results & Hc & Hlen & Hall).
  - by rewrite length_replicate.
  - apply Forall_replicate. done.
  - exists results. unfold compute_public_tally. fold n. rewrite Hc. rewrite length_replicate in Hlen.
    split_and!; [done|done|]. intros i Hi. rewrite (Hall i 0); [done|]. by apply lookup_replicate_2.
Qed.
End tally_proofs.
