(* ===== verification/Explorer.v ===== *)
(** * The database of the explorer

    Models the rest of [explorer/src/db/mod.rs] ([ExplorerDb]: bootstrap, the
    blocks and tips that are set, queries), [explorer/src/db/multiverse.rs] (the
    states of all branches) and [explorer/src/indexer.rs].  The multiverse of
    the chain library is a parameter. *)

From S2P Require Import Prelude BlockDate Hamt Indexing ExplorerState.

#[local] Open Scope Z_scope.

(** ** The chain library *)

(** [chain_impl_mockchain::multiverse], of states [S] *)
Class MultiverseData (S : Type) `{ChainTypes} := {
  mvd : Type;
  mvd_ref : Type;
  mvd_new : mvd;
  mvd_insert : Z → HeaderHash → S → mvd → mvd * mvd_ref;
  mvd_get_ref : HeaderHash → mvd → option mvd_ref;
  mvd_gc : Z → mvd → mvd;
  ref_state : mvd_ref → S;
}.
Arguments mvd S {_ _}.
Arguments mvd_ref S {_ _}.

(** A state is found under the hash it was inserted with, until it is collected. *)
Class MultiverseDataLaws (S : Type) `{ChainTypes} `{!MultiverseData S} : Prop := {
  mvd_get_new h : mvd_get_ref h (mvd_new : mvd S) = None;
  mvd_get_insert n h (s : S) m h' :
    mvd_get_ref h' (mvd_insert n h s m).1 =
    if decide (h' = h) then Some (mvd_insert n h s m).2 else mvd_get_ref h' m;
  (** a state that is already there may be kept *)
  mvd_insert_state n h (s : S) m :
    ref_state (mvd_insert n h s m).2 = s ∨ mvd_get_ref h m = Some (mvd_insert n h s m).2;
  mvd_get_gc d m h r : mvd_get_ref h (mvd_gc d m : mvd S) = Some r → mvd_get_ref h m = Some r;
}.

(** [ChainLength::nth_ancestor], the order of hashes, and the parameters of block 0 *)
Class ChainMisc `{ChainTypes} := {
  nth_ancestor : Z → Z → option Z;
  hash_ltb : HeaderHash → HeaderHash → bool;
  ConsensusVersion : Type;
  LinearFee : Type;
  OtherParam : Type;
}.

Inductive ConfigParam `{ChainMisc} :=
| ParamDiscrimination (d : Discrimination)
| ParamConsensusVersion (v : ConsensusVersion)
| ParamLinearFee (fee : LinearFee)
| ParamEpochStabilityDepth (d : Z)
| ParamOther (p : OtherParam).

Class ConfigOps `{ChainMisc} := { params_iter : ConfigParams → list ConfigParam }.

Class ChainMiscLaws `{ChainMisc} : Prop := {
  nth_ancestor_spec n k : nth_ancestor n k = checked_sub n k;
  hash_order_total :: StrictTotalOrder hash_ltb;
}.

(** ** Blockchain configuration *)
Section config.
Context `{ChainMisc} `{!ConfigOps}.

Record BlockchainConfig := mkConfig {
  discrimination : Discrimination;
  consensus_version : ConsensusVersion;
  fees : LinearFee;
  epoch_stability_depth : Z;
}.

Definition config_acc : Type :=
  option Discrimination * option ConsensusVersion * option LinearFee * option Z.

Definition read_param (acc : config_acc) (p : ConfigParam) : config_acc :=
  let '(d, v, f, e) := acc in
  match p with
  | ParamDiscrimination d => (Some d, v, f, e)
  | ParamConsensusVersion v => (d, Some v, f, e)
  | ParamLinearFee f => (d, v, Some f, e)
  | ParamEpochStabilityDepth e => (d, v, f, Some e)
  | ParamOther _ => acc
  end.

Definition from_config_params (params : ConfigParams) : option BlockchainConfig :=
  let '(d, v, f, e) := foldl read_param (None, None, None, None) (params_iter params) in
  d ← d; v ← v; f ← f; e ← e; Some (mkConfig d v f e).

(** [find_map] over the fragments of block 0 *)
Definition initial_params (block0 : Block) : option ConfigParams :=
  head (omap (λ idf, match idf.2 with Initial config => Some config | _ => None end) (block_contents block0)).
End config.

(** ** The database *)
Section db.
Context `{ChainTypes} `{Hamt} `{HashOrder} `{!StakeControlOps} `{!MultiverseData State}
  `{!ChainMisc} `{!ConfigOps}.

Record ExplorerDb := mkDb {
  multiverse : mvd State;
  (** [BTreeSet<(ChainLength, HeaderHash)>] *)
  tip_set : list (Z * HeaderHash);
  longest_chain_tip : HeaderHash;
  blockchain_config : BlockchainConfig;
  confirmed_block_chain_length : Z;
  (** what was sent to the subscribers *)
  tip_broadcast : list (HeaderHash * mvd_ref State);
}.

Definition set_multiverse (m : mvd State) (t : list (Z * HeaderHash)) (db : ExplorerDb) : ExplorerDb :=
  mkDb m t (longest_chain_tip db) (blockchain_config db) (confirmed_block_chain_length db) (tip_broadcast db).
Definition set_confirmed (c : Z) (db : ExplorerDb) : ExplorerDb :=
  mkDb (multiverse db) (tip_set db) (longest_chain_tip db) (blockchain_config db) c (tip_broadcast db).
Definition set_longest (h : HeaderHash) (r : mvd_ref State) (db : ExplorerDb) : ExplorerDb :=
  mkDb (multiverse db) (tip_set db) h (blockchain_config db) (confirmed_block_chain_length db)
    (tip_broadcast db ++ [(h, r)]).

#[local] Abbreviation op E := (prog ExplorerDb E).

(** *** The branches (multiverse.rs) *)
Definition tip_ltb (x y : Z * HeaderHash) : bool :=
  (x.1 <? y.1) || ((x.1 =? y.1) && hash_ltb x.2 y.2).

Definition multiverse_new (n : Z) (h : HeaderHash) (s : State) : mvd State * list (Z * HeaderHash) :=
  ((mvd_insert n h s mvd_new).1, btree_insert tip_ltb (n, h) []).

Definition multiverse_insert {E} (n : Z) (parent h : HeaderHash) (s : State) : op E (mvd_ref State) :=
  before ← expect (nth_ancestor n 1);
  db ← gets id;
  let tips := btree_insert tip_ltb (n, h) (btree_remove (before, parent) (tip_set db)) in
  let '(m, r) := mvd_insert n h s (multiverse db) in
  _ ← modify_state (set_multiverse m tips);
  mret r.

Definition get_ref {E} (h : HeaderHash) : op E (option (mvd_ref State)) := gets (λ db, mvd_get_ref h (multiverse db)).

Definition multiverse_gc {E} (depth : Z) : op E unit :=
  modify_state (λ db, set_multiverse (mvd_gc depth (multiverse db)) (tip_set db) db).

(** The tips whose state is still there, the longest first; the others are dropped. *)
Definition live_tips (db : ExplorerDb) : list (HeaderHash * mvd_ref State) :=
  omap (λ '(_, h), (λ r, (h, r)) <$> mvd_get_ref h (multiverse db)) (reverse (tip_set db)).

Definition tips {E} : op E (list (HeaderHash * mvd_ref State)) :=
  states ← gets live_tips;
  _ ← modify_state (λ db, set_multiverse (multiverse db)
        (foldl (λ acc x, btree_insert tip_ltb x acc) []
           (filter (λ nh, is_Some (mvd_get_ref nh.2 (multiverse db))) (reverse (tip_set db)))) db);
  mret states.

(** *** Changes *)
Definition bootstrap (block0 : Block) : option (result ExplorerError ExplorerDb) :=
  params ← initial_params block0;
  config ← from_config_params params;
  r ← initial_state (discrimination config) block0;
  Some (let? s := r in
        let h := header_id (block_header block0) in
        let '(m, t) := multiverse_new (header_chain_length (block_header block0)) h s in
        Ok (mkDb m t h config 0 [])).

Definition apply_block (block : Block) : op ExplorerError (mvd_ref State) :=
  let h := block_header block in
  d ← gets (λ db, discrimination (blockchain_config db));
  previous ← get_ref (header_parent h);
  previous_state ← lift (match previous with Some r => Ok r | None => Err (AncestorNotFound (header_id h)) end);
  r ← expect (apply_block_to_state d (ref_state previous_state) block);
  s ← lift r;
  multiverse_insert (header_chain_length h) (header_parent h) (header_id h) s.

(** [BlockNotFound { hash }] is the error. *)
Definition set_tip (hash : HeaderHash) : op HeaderHash unit :=
  state_ref ← get_ref hash;
  state_ref ← lift (match state_ref with Some r => Ok r | None => Err hash end);
  block ← expect (hamt_lookup hash (blocks (ref_state state_ref)));
  depth ← gets (λ db, epoch_stability_depth (blockchain_config db));
  _ ← match nth_ancestor (eb_chain_length block) depth with
      | Some n => _ ← modify_state (set_confirmed n); multiverse_gc depth
      | None => mret tt
      end;
  modify_state (set_longest hash state_ref).

(** *** Queries *)
Section queries.
Context {E : Type}.

(** The first answer of the branches. *)
Definition first_answer {A} (f : State → option A) : op E (option A) :=
  ts ← tips; mret (head (omap (λ hr, f (ref_state hr.2)) ts)).

Definition get_block (h : HeaderHash) : op E (option ExplorerBlock) := first_answer (λ s, hamt_lookup h (blocks s)).

Definition get_block_with_branches (h : HeaderHash)
    : op E (option (ExplorerBlock * list (HeaderHash * mvd_ref State))) :=
  ts ← tips;
  let found := omap (λ hr, (λ b, (b, hr)) <$> hamt_lookup h (blocks (ref_state hr.2))) ts in
  mret ((λ b, (b, found.*2)) <$> head found.*1).

Definition get_epoch (e : Z) : op E (option EpochData) :=
  ts ← tips;
  t ← expect (head ts);
  mret (hamt_lookup e (epochs (ref_state t.2))).

Definition is_block_confirmed (h : HeaderHash) : op E bool :=
  tip ← gets longest_chain_tip;
  r ← get_ref tip;
  current_branch ← expect r;
  confirmed ← gets confirmed_block_chain_length;
  mret (match hamt_lookup h (blocks (ref_state current_branch)) with
        | Some block => eb_chain_length block <=? confirmed
        | None => false
        end).

(** [sort_unstable] and [dedup] *)
Definition sort_dedup (l : list HeaderHash) : list HeaderHash := foldr (btree_insert hash_ltb) [] l.

Definition find_blocks_by_chain_length (n : Z) : op E (list HeaderHash) :=
  ts ← tips;
  mret (sort_dedup (omap (λ hr, hamt_lookup n (chain_lengths (ref_state hr.2))) ts)).

Definition find_blocks_by_transaction (f : FragmentId) : op E (list HeaderHash) :=
  ts ← tips;
  mret (sort_dedup (omap (λ hr, hamt_lookup f (transactions (ref_state hr.2))) ts)).

(** [max_by_key]: the last of the greatest *)
Definition max_by_len {T} (l : list (PersistentSequence T)) : option (PersistentSequence T) :=
  foldl (λ acc s, match acc with
                  | Some m => if seq_len s <? seq_len m then Some m else Some s
                  | None => Some s
                  end) None l.

Definition get_stake_pool_blocks (p : PoolId) : op E (option (PersistentSequence HeaderHash)) :=
  ts ← tips;
  mret (max_by_len (omap (λ hr, hamt_lookup p (stake_pool_blocks (ref_state hr.2))) ts)).

Definition get_stake_pool_data (p : PoolId) : op E (option StakePoolData) :=
  first_answer (λ s, hamt_lookup p (stake_pool_data s)).

Definition get_vote_plan_by_id (v : VotePlanId) : op E (option ExplorerVotePlan) :=
  first_answer (λ s, hamt_lookup v (vote_plans s)).

Definition get_branch (h : HeaderHash) : op E (option (mvd_ref State)) := get_ref h.

Definition get_tip : op E (HeaderHash * mvd_ref State) :=
  h ← gets longest_chain_tip; r ← get_ref h; r ← expect r; mret (h, r).

Definition get_branches : op E (list (HeaderHash * mvd_ref State)) := tips.
End queries.

(** *** The indexer (indexer.rs) *)
Record Indexer := mkIndexer { ix_db : ExplorerDb; tip_candidate : option HeaderHash }.

(** Run an operation of the database. *)
Definition on_db {E F A} (m : prog ExplorerDb E A) : prog Indexer F (result E A) := λ ix,
  match m (ix_db ix) with
  | Some (db, r) => Some (mkIndexer db (tip_candidate ix), Ok r)
  | None => None
  end.

(** [locked]: the caller holds the lock of the candidate, which is taken here if the
    block is not found; the task then waits for itself for ever, modelled as a panic. *)
Definition indexer_set_tip {E} (locked : bool) (tip : HeaderHash) : prog Indexer E unit :=
  r ← on_db (set_tip tip);
  match r with
  | Ok _ => mret tt
  | Err _ => if locked then panic else modify_state (λ ix, mkIndexer (ix_db ix) (Some tip))
  end.

Definition indexer_apply_block (block : Block) : prog Indexer ExplorerError unit :=
  r ← on_db (apply_block block);
  _ ← lift r;
  candidate ← gets tip_candidate;
  if decide (candidate = Some (header_id (block_header block))) then
    _ ← modify_state (λ ix, mkIndexer (ix_db ix) None);
    indexer_set_tip true (header_id (block_header block))
  else mret tt.
End db.

(** ** Branches

    Every state stands for the blocks from block 0, [id0], to the block it is
    found under. *)
Section branches.
Context `{ChainTypes} `{Hamt} `{HashOrder} `{!StakeControlOps} `{!MultiverseData State}
  `{!ChainMisc} `{!ConfigOps}.
Implicit Types (bs : list ExplorerBlock) (db : ExplorerDb).

Definition linked bs : Prop :=
  ∀ i a b, bs !! i = Some a → bs !! S i = Some b → eb_parent_hash b = eb_id a.

Record branch (id0 h : HeaderHash) (s : State) bs : Prop := {
  branch_repr : state_repr s bs;
  branch_linked : linked bs;
  branch_first : eb_id <$> head bs = Some id0;
  branch_last : eb_id <$> last bs = Some h;
}.

Record db_inv (id0 : HeaderHash) db : Prop := {
  inv_branches h r : mvd_get_ref h (multiverse db) = Some r → ∃ bs, branch id0 h (ref_state r) bs;
  inv_tips : btree_wf tip_ltb (tip_set db);
  inv_broadcast h r : (h, r) ∈ tip_broadcast db → ∃ bs, branch id0 h (ref_state r) bs;
}.

Lemma linked_snoc bs b a : linked bs → last bs = Some a → eb_parent_hash b = eb_id a → linked (bs ++ [b]).
Proof.
  intros Hl Ha Hp i x y Hx Hy. rewrite lookup_app in Hy.
  destruct (bs !! S i) as [y'|] eqn:Hyi; simplify_eq.
  - apply lookup_lt_Some in Hyi as Hlt. rewrite lookup_app_l in Hx by lia. by eapply Hl.
  - apply list_lookup_singleton_Some in Hy as [Hi <-].
    apply lookup_ge_None in Hyi. assert (S i = length bs) by lia.
    rewrite lookup_app_l in Hx by lia. rewrite last_lookup in Ha.
    replace (pred (length bs)) with i in Ha by lia. congruence.
Qed.

Lemma branch_last_block id0 h s bs :
  branch id0 h s bs → ∃ b, last bs = Some b ∧ eb_id b = h ∧ b ∈ bs.
Proof.
  intros Hb. pose proof (branch_last _ _ _ _ Hb) as Hl. destruct (last bs) as [b|] eqn:Hlast; simplify_eq/=.
  exists b. split_and!; [done|done|]. apply last_Some in Hlast as [l ->]. set_solver.
Qed.
End branches.

Section proofs.
Context `{ChainTypes} `{HamtLaws} `{HashOrderLaws} `{!StakeControlOps} `{!MultiverseData State}
  `{!MultiverseDataLaws State} `{!ChainMisc} `{!ChainMiscLaws} `{!ConfigOps}.
Implicit Types (bs : list ExplorerBlock) (db : ExplorerDb).

#[export] Instance tip_order : StrictTotalOrder tip_ltb.
Proof.
  unfold tip_ltb. split.
  - intros [n h]. simpl. by rewrite Z.ltb_irrefl, (ltb_irrefl (ltb := hash_ltb)), andb_false_r.
  - intros [n1 h1] [n2 h2] [n3 h3]. simpl.
    rewrite !orb_true_iff, !andb_true_iff, !Z.ltb_lt, !Z.eqb_eq.
    intros [?|[-> ?]] [?|[-> ?]]; try (left; lia). right. split; [done|]. by eapply ltb_trans.
  - intros [n1 h1] [n2 h2]. simpl. rewrite !orb_true_iff, !andb_true_iff, !Z.ltb_lt, !Z.eqb_eq.
    destruct (Z.lt_trichotomy n1 n2) as [?|[->|?]]; [by left; left| |by right; right; left].
    destruct (ltb_total h1 h2) as [?|[->|?]]; [by left; right|by right; left|by right; right; right].
Qed.

(** *** Bootstrap *)
Lemma bootstrap_inv block0 db :
  bootstrap block0 = Some (Ok db) →
  db_inv (header_id (block_header block0)) db ∧ longest_chain_tip db = header_id (block_header block0) ∧
  confirmed_block_chain_length db = 0 ∧
  is_Some (mvd_get_ref (header_id (block_header block0)) (multiverse db)).
Proof.
  unfold bootstrap. intros (params & _ & Hb)%bind_Some. apply bind_Some in Hb as (config & _ & Hb).
  apply bind_Some in Hb as (r & Hs & Hb). destruct r as [s|e]; [|done]. simpl in Hb. injection Hb as <-.
  apply initial_state_repr in Hs as (b & (Hid & _)%resolve_from_fields & Hrepr). simpl.
  split_and!; try done.
  - split; simpl.
    + intros h r Hg. rewrite mvd_get_insert, mvd_get_new in Hg. case_decide; simplify_eq.
      destruct (mvd_insert_state (header_chain_length (block_header block0)) (header_id (block_header block0))
        s mvd_new) as [Hst|Hst]; [|by rewrite mvd_get_new in Hst].
      exists [b]. rewrite Hst. split; [done| |by rewrite <- Hid|by rewrite <- Hid].
      intros [|i] ? ? ? Hi; simplify_eq/=.
    + repeat constructor.
    + intros h r Hin. by apply elem_of_nil in Hin.
  - rewrite mvd_get_insert, decide_True by done. eauto.
Qed.

(** *** Blocks *)

(** The reasons for which a block is not indexed. *)
Definition apply_error_ok bs (block : Block) (e : ExplorerError) : Prop :=
  match e with
  | TransactionAlreadyExists f => is_Some (find_tx bs f) ∧ f ∈ (block_contents block).*1
  | BlockAlreadyExists h => h = header_id (block_header block) ∧ h ∈ eb_id <$> bs
  | ChainLengthBlockAlreadyExists n =>
      n = header_chain_length (block_header block) ∧ n ∈ eb_chain_length <$> bs
  | _ => False
  end.

Lemma resolve_fragments_dom ctx n fs current m id tx :
  resolve_fragments ctx n fs current = Some m → m !! id = Some tx → id ∈ fs.*1 ∨ is_Some (current !! id).
Proof.
  revert n current. induction fs as [|[id' f] fs IH]; intros n current Hr Hm; simpl in Hr; [simplify_eq; eauto|].
  apply bind_Some in Hr as (offset & _ & Hr). apply bind_Some in Hr as (metx & _ & Hr).
  destruct (IH _ _ Hr Hm) as [?|Hc]; [left; set_solver|]. destruct metx; [|auto].
  destruct (decide (id = id')) as [->|]; [left; set_solver|]. rewrite lookup_insert_ne in Hc by done. auto.
Qed.

Lemma apply_block_to_state_err d s bs block e :
  apply_block_to_state d s block = Some (Err e) → state_repr s bs → apply_error_ok bs block e.
Proof.
  unfold apply_block_to_state. intros (b & Hb & Ha)%bind_Some Hr.
  apply bind_Some in Ha as ([data pb] & _ & Ha). apply bind_Some in Ha as (sc & _ & Ha).
  pose proof (resolve_from_keyed _ _ _ Hb) as Hkeyed.
  apply resolve_from_fields in Hb as (Hid & _ & Hlen & _ & _ & Hfs).
  destruct (apply_block_to_transactions _ _) as [txs|] eqn:Htxs; cycle 1.
  { simplify_eq. apply insert_transactions_err in Htxs as (f & Hin & [h Hh] & ->).
    - apply (repr_transactions s bs Hr) in Hh as (b' & tx & Hb' & _ & Htx & Hf). simpl. split.
      + exists tx. apply (find_tx_spec s bs f tx Hr). split; [|done]. apply chain_txs_elem. eauto.
      + apply list_elem_of_fmap in Hin as (tx' & -> & [k Hk]%map_values_elem).
        rewrite (Hkeyed _ _ Hk). eapply resolve_fragments_dom in Hfs as [|Hc]; [done| |done].
        rewrite lookup_empty in Hc. by destruct Hc.
    - assert (etx_id <$> block_txs b ≡ₚ (map_to_list (eb_transactions b)).*1) as ->.
      { unfold block_txs, map_values. rewrite hash_order_perm, <- list_fmap_compose.
        apply Permutation_refl', list_fmap_ext. intros i [k tx] Hk. simpl.
        apply Hkeyed. apply elem_of_map_to_list. by eapply list_elem_of_lookup_2. }
      apply NoDup_fst_map_to_list. }
  destruct (apply_block_to_blocks _ _) as [bl|] eqn:Hbl; cycle 1.
  { simplify_eq. unfold apply_block_to_blocks in Hbl.
    destruct (hamt_insert _ _ _) eqn:Hi; simplify_eq. apply hamt_insert_None in Hi as [b' Hb'].
    apply (repr_blocks s bs Hr) in Hb' as [Hin Heq]. simpl. split; [done|]. rewrite <- Heq.
    by apply list_elem_of_fmap_2. }
  apply bind_Some in Ha as (addrs & _ & Ha).
  destruct (apply_block_to_chain_lengths _ _) as [cl|] eqn:Hcl; cycle 1.
  { simplify_eq. unfold apply_block_to_chain_lengths in Hcl.
    destruct (hamt_insert _ _ _) eqn:Hi; simplify_eq. apply hamt_insert_None in Hi as [h Hh].
    apply (repr_chain_lengths s bs Hr) in Hh as (b' & Hin & Heq & _). simpl. split; [done|].
    rewrite <- Heq. by apply list_elem_of_fmap_2. }
  apply bind_Some in Ha as (vp & _ & Ha). done.
Qed.

(** What indexing a block does to the database. *)
Lemma apply_block_spec id0 block db :
  db_inv id0 db →
  match apply_block block db with
  | None => True
  | Some (db', Err e) =>
      db' = db ∧
      ((e = AncestorNotFound (header_id (block_header block)) ∧
        mvd_get_ref (header_parent (block_header block)) (multiverse db) = None) ∨
       ∃ r bs, mvd_get_ref (header_parent (block_header block)) (multiverse db) = Some r ∧
               branch id0 (header_parent (block_header block)) (ref_state r) bs ∧ apply_error_ok bs block e)
  | Some (db', Ok r') =>
      db_inv id0 db' ∧
      ∃ r bs b,
        mvd_get_ref (header_parent (block_header block)) (multiverse db) = Some r ∧
        branch id0 (header_parent (block_header block)) (ref_state r) bs ∧
        resolve_from block (mkContext (discrimination (blockchain_config db))
                              (transactions (ref_state r)) (blocks (ref_state r))) = Some b ∧
        (∀ h, mvd_get_ref h (multiverse db') =
              if decide (h = header_id (block_header block)) then Some r' else mvd_get_ref h (multiverse db)) ∧
        (branch id0 (header_id (block_header block)) (ref_state r') (bs ++ [b]) ∨
         mvd_get_ref (header_id (block_header block)) (multiverse db) = Some r') ∧
        longest_chain_tip db' = longest_chain_tip db ∧
        confirmed_block_chain_length db' = confirmed_block_chain_length db ∧
        blockchain_config db' = blockchain_config db
  end.
Proof.
  intros Hinv. set (h := block_header block).
  unfold apply_block, multiverse_insert, get_ref, lift, expect, gets, modify_state, mret, prog_ret, mbind, prog_bind.
  fold h. destruct (mvd_get_ref (header_parent h) (multiverse db)) as [r|] eqn:Hg; cycle 1.
  { split; [done|]. by left. }
  destruct (inv_branches _ _ Hinv _ _ Hg) as [bs Hbr].
  destruct (apply_block_to_state _ _ _) as [[s|e]|] eqn:Ha; cycle 2; [done| |].
  2: { split; [done|]. right. exists r, bs. split_and!; [done|done|].
       eapply apply_block_to_state_err; [done|]. apply Hbr. }
  apply (apply_block_to_state_repr _ _ bs) in Ha as (b & Hb & Hrepr); [|apply Hbr].
  destruct (nth_ancestor _ 1) as [before|]; [|done].
  pose proof (mvd_get_insert (header_chain_length h) (header_id h) s (multiverse db)) as Hget.
  pose proof (mvd_insert_state (header_chain_length h) (header_id h) s (multiverse db)) as Hst.
  destruct (mvd_insert _ _ _ _) as [m r'] eqn:Hins. simpl in *.
  assert (branch id0 (header_id h) (ref_state r') (bs ++ [b]) ∨
          mvd_get_ref (header_id h) (multiverse db) = Some r') as Hnew.
  { destruct Hst as [->|?]; [left|by right]. pose proof (resolve_from_fields _ _ _ Hb) as (Hid & Hp & _).
    destruct (branch_last_block _ _ _ _ Hbr) as (a & Hlast & Ha & _). split; [done| | |].
    - eapply linked_snoc; [apply Hbr|done|]. by rewrite Ha.
    - rewrite head_app, <- (branch_first _ _ _ _ Hbr). by destruct bs.
    - rewrite last_snoc. simpl. by rewrite Hid. }
  split.
  - split; simpl.
    + intros h' r0 Hr0. rewrite Hget in Hr0. case_decide; simplify_eq; [|by apply (inv_branches _ _ Hinv)].
      destruct Hnew as [?|?]; [eauto|by apply (inv_branches _ _ Hinv)].
    + apply btree_insert_wf; [apply _|]. apply btree_remove_wf, (inv_tips _ _ Hinv).
    + apply (inv_broadcast _ _ Hinv).
  - exists r, bs, b. by split_and!.
Qed.

(** *** Tips *)
Lemma gc_inv id0 depth db :
  db_inv id0 db → db_inv id0 (set_multiverse (mvd_gc depth (multiverse db)) (tip_set db) db).
Proof.
  intros Hinv. split; simpl; [|apply Hinv|apply Hinv]. intros h r Hg%mvd_get_gc. by apply (inv_branches _ _ Hinv).
Qed.

(** Setting the tip never panics; it is confirmed up to the stability depth. *)
Lemma set_tip_spec id0 h db :
  db_inv id0 db →
  match set_tip h db with
  | None => False
  | Some (db', Err h') => db' = db ∧ h' = h ∧ mvd_get_ref h (multiverse db) = None
  | Some (db', Ok _) =>
      db_inv id0 db' ∧ longest_chain_tip db' = h ∧ blockchain_config db' = blockchain_config db ∧
      ∃ r bs b,
        mvd_get_ref h (multiverse db) = Some r ∧ branch id0 h (ref_state r) bs ∧ last bs = Some b ∧
        tip_broadcast db' = tip_broadcast db ++ [(h, r)] ∧
        (∀ h' r', mvd_get_ref h' (multiverse db') = Some r' → mvd_get_ref h' (multiverse db) = Some r') ∧
        confirmed_block_chain_length db' =
        default (confirmed_block_chain_length db)
          (checked_sub (eb_chain_length b) (epoch_stability_depth (blockchain_config db)))
  end.
Proof.
  intros Hinv.
  unfold set_tip, get_ref, multiverse_gc, lift, expect, gets, modify_state, mret, prog_ret, mbind, prog_bind.
  destruct (mvd_get_ref h (multiverse db)) as [r|] eqn:Hg; [|done].
  destruct (inv_branches _ _ Hinv _ _ Hg) as [bs Hbr].
  destruct (branch_last_block _ _ _ _ Hbr) as (b & Hlast & Hid & Hin).
  assert (hamt_lookup h (blocks (ref_state r)) = Some b) as ->.
  { by apply (repr_blocks _ _ (branch_repr _ _ _ _ Hbr)). }
  rewrite nth_ancestor_spec.
  assert (∀ db1, db_inv id0 db1 → db_inv id0 (set_longest h r db1)) as Hset.
  { intros db1 [Hbrs Ht Hbc]. split; simpl; [done|done|].
    intros h' r' [?|Heq%list_elem_of_singleton]%elem_of_app; [by apply Hbc|]. simplify_eq. eauto. }
  destruct (checked_sub _ _) as [n|] eqn:Hn; simpl.
  - split_and!; [apply Hset|done|done|].
    + apply (gc_inv _ _ (set_confirmed n db)). by destruct Hinv.
    + exists r, bs, b. split_and!; try done; [|by rewrite Hn]. intros h' r'. apply mvd_get_gc.
  - split_and!; [by apply Hset|done|done|]. exists r, bs, b. split_and!; try done. by rewrite Hn.
Qed.

(** *** Queries *)
Lemma foldr_btree_insert {A} (ltb : A → A → bool) `{!StrictTotalOrder ltb} s :
  btree_wf ltb s → foldr (btree_insert ltb) [] s = s.
Proof.
  induction 1 as [|x s Hs IH Hx]; simpl; [done|]. rewrite IH.
  destruct s as [|y s]; simpl; [done|]. apply Forall_cons in Hx as [-> _]. done.
Qed.

Lemma foldl_reverse_insert {A} (ltb : A → A → bool) s :
  foldl (λ acc x, btree_insert ltb x acc) [] (reverse s) = foldr (btree_insert ltb) [] s.
Proof. induction s as [|x s IH]; [done|]. rewrite reverse_cons, foldl_app, IH. done. Qed.

Lemma tips_spec {E} db :
  btree_wf tip_ltb (tip_set db) →
  (tips : prog ExplorerDb E _) db =
  Some (set_multiverse (multiverse db)
          (filter (λ nh, is_Some (mvd_get_ref nh.2 (multiverse db))) (tip_set db)) db, Ok (live_tips db)).
Proof.
  intros Hwf. unfold tips, gets, modify_state, mret, prog_ret, mbind, prog_bind. do 3 f_equal.
  rewrite filter_reverse, foldl_reverse_insert. apply foldr_btree_insert; [apply _|]. by apply btree_filter_wf.
Qed.

Lemma live_tips_elem db t r :
  (t, r) ∈ live_tips db → mvd_get_ref t (multiverse db) = Some r.
Proof.
  unfold live_tips. rewrite list_elem_of_omap. intros ([n h] & _ & Hs).
  destruct (mvd_get_ref h (multiverse db)) eqn:?; by simplify_eq/=.
Qed.

(** The blocks that the queries see: those of the branches of the live tips. *)
Definition indexed (id0 : HeaderHash) db (b : ExplorerBlock) : Prop :=
  ∃ t r bs, (t, r) ∈ live_tips db ∧ branch id0 t (ref_state r) bs ∧ b ∈ bs.

Lemma live_answers {A} id0 db (f : State → option A) (P : ExplorerBlock → A → Prop) a :
  db_inv id0 db →
  (∀ s bs, state_repr s bs → f s = Some a ↔ ∃ b, b ∈ bs ∧ P b a) →
  a ∈ omap (λ hr : HeaderHash * mvd_ref State, f (ref_state hr.2)) (live_tips db) ↔
  ∃ b, indexed id0 db b ∧ P b a.
Proof.
  intros Hinv Hf. rewrite list_elem_of_omap. split.
  - intros ([t r] & Hin & Ha). simpl in Ha.
    destruct (inv_branches _ _ Hinv t r (live_tips_elem _ _ _ Hin)) as [bs Hbr].
    destruct (proj1 (Hf _ bs (branch_repr _ _ _ _ Hbr)) Ha) as (b & Hb & HP).
    exists b. split; [|done]. by exists t, r, bs.
  - intros (b & (t & r & bs & Hin & Hbr & Hb) & HP). exists (t, r). split; [done|].
    apply (Hf _ bs); [apply Hbr|eauto].
Qed.

Lemma sort_dedup_spec l : btree_wf hash_ltb (sort_dedup l) ∧ ∀ h, h ∈ sort_dedup l ↔ h ∈ l.
Proof.
  unfold sort_dedup. induction l as [|x l [IHw IHe]]; simpl; [split; [constructor|done]|]. split.
  - apply btree_insert_wf; [apply _|done].
  - intros h. rewrite btree_insert_elem, IHe, elem_of_cons by apply _. done.
Qed.


(** *** Confirmations *)
Lemma is_block_confirmed_spec {E} id0 db h :
  db_inv id0 db →
  match (is_block_confirmed h : prog ExplorerDb E _) db with
  | Some (db', Ok v) =>
      db' = db ∧ ∃ r bs, mvd_get_ref (longest_chain_tip db) (multiverse db) = Some r ∧
        branch id0 (longest_chain_tip db) (ref_state r) bs ∧
        (v = true ↔ ∃ b, b ∈ bs ∧ eb_id b = h ∧ eb_chain_length b ≤ confirmed_block_chain_length db)
  | Some (_, Err _) => False
  | None => mvd_get_ref (longest_chain_tip db) (multiverse db) = None
  end.
Proof.
  intros Hinv. unfold is_block_confirmed, get_ref, expect, gets, mret, prog_ret, mbind, prog_bind.
  destruct (mvd_get_ref (longest_chain_tip db) (multiverse db)) as [r|] eqn:Hg; [|done].
  split; [done|]. destruct (inv_branches _ _ Hinv _ _ Hg) as [bs Hbr]. exists r, bs. split_and!; [done|done|].
  pose proof (repr_blocks _ _ (branch_repr _ _ _ _ Hbr) h) as Hrb.
  destruct (hamt_lookup h (blocks (ref_state r))) as [b|].
  - destruct (proj1 (Hrb b) eq_refl) as [Hin Hid]. rewrite Z.leb_le. split; [eauto|].
    intros (b' & Hb' & Hid' & Hle). assert (Some b = Some b') as Heq by (by apply Hrb). by simplify_eq.
  - split; [done|]. intros (b' & Hb' & Hid' & _). assert (None = Some b') by (by apply Hrb). done.
Qed.

(** When the tip is set to a block at least as long as the stability depth, then
    while its state is there exactly the blocks of its branch that are that much
    shorter than the tip are confirmed. *)
Theorem confirmed_blocks_deep {E} id0 db h db' db'' h' v :
  db_inv id0 db → set_tip h db = Some (db', Ok tt) →
  (is_block_confirmed h' : prog ExplorerDb E _) db' = Some (db'', Ok v) →
  ∃ r bs b,
    mvd_get_ref h (multiverse db) = Some r ∧ branch id0 h (ref_state r) bs ∧ last bs = Some b ∧
    (epoch_stability_depth (blockchain_config db) ≤ eb_chain_length b →
     v = true ↔ ∃ c, c ∈ bs ∧ eb_id c = h' ∧
       eb_chain_length c + epoch_stability_depth (blockchain_config db) ≤ eb_chain_length b).
Proof.
  intros Hinv Hset Hconf. pose proof (set_tip_spec id0 h db Hinv) as Hs. rewrite Hset in Hs.
  destruct Hs as (Hinv' & Hlong & Hcfg & r & bs & b & Hg & Hbr & Hlast & _ & Hkeep & Hc).
  pose proof (is_block_confirmed_spec (E := E) id0 db' h' Hinv') as Hcf. rewrite Hconf in Hcf.
  destruct Hcf as (_ & r' & bs' & Hg' & Hbr' & Hv). rewrite Hlong in *. apply Hkeep in Hg'. simplify_eq.
  exists r, bs, b. split_and!; [done|done|done|]. intros Hle. rewrite Hv, Hc.
  unfold checked_sub. rewrite (proj2 (Z.leb_le _ _)) by done. simpl.
  assert (∀ c, c ∈ bs' ↔ c ∈ bs) as Hsame.
  { intros c. pose proof (repr_blocks _ _ (branch_repr _ _ _ _ Hbr) (eb_id c) c).
    pose proof (repr_blocks _ _ (branch_repr _ _ _ _ Hbr') (eb_id c) c). tauto. }
  setoid_rewrite Hsame. split; intros (c & ? & ? & ?); exists c; split_and!; (done || lia).
Qed.

(** *** The indexer *)
Inductive IndexerOp :=
| OpBlock (block : Block)
| OpTip (h : HeaderHash).

(** One call, whose error is only logged; [None] is a panic. *)
Definition indexer_step (o : IndexerOp) (ix : Indexer) : option Indexer :=
  fst <$> match o with
          | OpBlock block => indexer_apply_block block ix
          | OpTip h => indexer_set_tip (E := ExplorerError) false h ix
          end.

Lemma indexer_set_tip_spec {E} id0 locked h ix :
  db_inv id0 (ix_db ix) →
  match (indexer_set_tip locked h : prog Indexer E unit) ix with
  | Some (ix', r) =>
      r = Ok tt ∧ db_inv id0 (ix_db ix') ∧
      if decide (is_Some (mvd_get_ref h (multiverse (ix_db ix))))
      then longest_chain_tip (ix_db ix') = h ∧ tip_candidate ix' = tip_candidate ix
      else ix' = mkIndexer (ix_db ix) (Some h)
  | None => locked = true ∧ mvd_get_ref h (multiverse (ix_db ix)) = None
  end.
Proof.
  intros Hinv. pose proof (set_tip_spec id0 h (ix_db ix) Hinv) as Hs.
  unfold indexer_set_tip, on_db, modify_state, panic, mret, prog_ret, mbind, prog_bind.
  destruct (set_tip h (ix_db ix)) as [[db' [[]|e]]|] eqn:Hset; [| |done].
  - destruct Hs as (Hinv' & Hl & _ & r & bs & b & Hg & _). simpl. split_and!; [done|done|].
    rewrite decide_True by (rewrite Hg; eauto). done.
  - destruct Hs as (-> & -> & Hn). destruct locked; [done|]. simpl. split_and!; [done|done|].
    rewrite decide_False; [done|]. rewrite Hn. by intros [??].
Qed.

(** C33: Indexing a block is all or nothing.  On success the block extends the branch
    of its parent by one state with the indexes of that branch; if it was announced
    as the tip before it arrived, it becomes the tip now, and otherwise the tip stays.
    On an error nothing changes, and the parent is unknown, or the block, its chain
    length or one of its transactions is already in the branch.  The task never waits
    for the lock it holds. *)
Theorem indexer_apply_block_correct id0 block ix :
  let h := header_id (block_header block) in
  let parent := header_parent (block_header block) in
  db_inv id0 (ix_db ix) →
  match indexer_apply_block block ix with
  | None => apply_block block (ix_db ix) = None
  | Some (ix', Err e) =>
      ix' = ix ∧
      ((e = AncestorNotFound h ∧ mvd_get_ref parent (multiverse (ix_db ix)) = None) ∨
       ∃ r bs, mvd_get_ref parent (multiverse (ix_db ix)) = Some r ∧
               branch id0 parent (ref_state r) bs ∧ apply_error_ok bs block e)
  | Some (ix', Ok _) =>
      db_inv id0 (ix_db ix') ∧
      (if decide (tip_candidate ix = Some h)
       then longest_chain_tip (ix_db ix') = h ∧ tip_candidate ix' = None
       else longest_chain_tip (ix_db ix') = longest_chain_tip (ix_db ix) ∧
            tip_candidate ix' = tip_candidate ix) ∧
      ∃ db r r' bs b,
        apply_block block (ix_db ix) = Some (db, Ok r') ∧
        mvd_get_ref parent (multiverse (ix_db ix)) = Some r ∧ branch id0 parent (ref_state r) bs ∧
        resolve_from block (mkContext (discrimination (blockchain_config (ix_db ix)))
                              (transactions (ref_state r)) (blocks (ref_state r))) = Some b ∧
        mvd_get_ref h (multiverse db) = Some r' ∧
        (branch id0 h (ref_state r') (bs ++ [b]) ∨ mvd_get_ref h (multiverse (ix_db ix)) = Some r')
  end.
Proof.
  intros h parent Hinv. pose proof (apply_block_spec id0 block (ix_db ix) Hinv) as Ha.
  destruct ix as [db c]. unfold indexer_apply_block, on_db, lift, gets, modify_state, mbind, prog_bind. simpl in *.
  destruct (apply_block block db) as [[db' [r'|e]]|] eqn:Hab; [| |done]; cycle 1.
  { destruct Ha as [-> He]. done. }
  destruct Ha as (Hinv' & r & bs & b & Hg & Hbr & Hres & Hget & Hnew & Hlong & _).
  assert (mvd_get_ref h (multiverse db') = Some r') as Hg' by (rewrite Hget, decide_True; done).
  assert (∃ db1 r1 r1' bs1 b1, Some (db', (Ok r' : result ExplorerError _)) = Some (db1, Ok r1') ∧
    mvd_get_ref parent (multiverse db) = Some r1 ∧ branch id0 parent (ref_state r1) bs1 ∧
    resolve_from block (mkContext (discrimination (blockchain_config db))
                          (transactions (ref_state r1)) (blocks (ref_state r1))) = Some b1 ∧
    mvd_get_ref h (multiverse db1) = Some r1' ∧
    (branch id0 h (ref_state r1') (bs1 ++ [b1]) ∨ mvd_get_ref h (multiverse db) = Some r1')) as Hex.
  { by exists db', r, r', bs, b. }
  simpl. fold h. destruct (decide (c = Some h)) as [->|Hne]; [|by split_and!].
  pose proof (indexer_set_tip_spec (E := ExplorerError) id0 true h (mkIndexer db' None) Hinv') as Hs.
  simpl in *. destruct (indexer_set_tip true h (mkIndexer db' None)) as [[ix' r1]|].
  - destruct Hs as (-> & Hi & Hd). rewrite decide_True in Hd by (rewrite Hg'; eauto).
    split; [done|]. split; [done|exact Hex].
  - destruct Hs as [_ Hn]. congruence.
Qed.

Fixpoint run_indexer (ops : list IndexerOp) (ix : Indexer) : option Indexer :=
  match ops with
  | [] => Some ix
  | o :: ops => ix ← indexer_step o ix; run_indexer ops ix
  end.

Lemma indexer_step_inv id0 o ix ix' :
  db_inv id0 (ix_db ix) → indexer_step o ix = Some ix' → db_inv id0 (ix_db ix').
Proof.
  intros Hinv. unfold indexer_step. destruct o as [block|h].
  - pose proof (apply_block_spec id0 block (ix_db ix) Hinv) as Ha. destruct ix as [db c].
    unfold indexer_apply_block, on_db, lift, gets, modify_state, mbind, prog_bind. simpl in *.
    destruct (apply_block block db) as [[db' [r'|e]]|]; [| |done]; cycle 1.
    { destruct Ha as [-> _]. simpl. intros ?. by simplify_eq/=. }
    destruct Ha as [Hinv' _]. simpl. case_decide; [|simpl; intros; by simplify_eq/=].
    pose proof (indexer_set_tip_spec (E := ExplorerError) id0 true (header_id (block_header block))
      (mkIndexer db' None) Hinv') as Hs.
    destruct (indexer_set_tip _ _ _) as [[ix1 r1]|]; simpl; intros; simplify_eq/=. apply Hs.
  - pose proof (indexer_set_tip_spec (E := ExplorerError) id0 false h ix Hinv) as Hs.
    destruct (indexer_set_tip _ _ _) as [[ix1 r1]|]; simpl; intros; simplify_eq/=. apply Hs.
Qed.

(** C32: Whatever blocks and tips the explorer is given after block 0, every state of
    its multiverse, and every state it has broadcast, stands for a chain of blocks
    linked by their parents from block 0 to the block it is found under, and its
    indexes of blocks, chain lengths, transactions, addresses, epochs and stake pools
    are exactly those of that chain. *)
Theorem explorer_invariant block0 db ops ix :
  bootstrap block0 = Some (Ok db) → run_indexer ops (mkIndexer db None) = Some ix →
  db_inv (header_id (block_header block0)) (ix_db ix).
Proof.
  intros (Hinv & _)%bootstrap_inv. assert (db_inv (header_id (block_header block0)) (ix_db (mkIndexer db None)))
    as Hi by done. revert Hi. generalize (mkIndexer db None). clear Hinv db.
  induction ops as [|o ops IH]; simpl; intros ix0 Hi Hr; [by simplify_eq|].
  destruct (indexer_step o ix0) as [ix1|] eqn:Hs; simpl in Hr; [|done].
  eapply IH; [|done]. by eapply indexer_step_inv.
Qed.

(** *** Ranges of blocks *)

(** Blocks one by one from block 0 on. *)
Definition contiguous bs : Prop := ∀ i b, bs !! i = Some b → eb_chain_length b = Z.of_nat i.

Lemma lookup_chain_length s bs n :
  state_repr s bs → contiguous bs → 0 ≤ n → hamt_lookup n (chain_lengths s) = eb_id <$> bs !! Z.to_nat n.
Proof.
  intros Hr Hc Hn. destruct (bs !! Z.to_nat n) as [b|] eqn:Hb; simpl.
  - apply (repr_chain_lengths s bs Hr). exists b. split_and!; [by eapply list_elem_of_lookup_2| |done].
    rewrite (Hc _ _ Hb). lia.
  - destruct (hamt_lookup n (chain_lengths s)) as [h|] eqn:Hl; [|done].
    apply (repr_chain_lengths s bs Hr) in Hl as (b & [i Hi]%list_elem_of_lookup_1 & Hlen & _).
    rewrite (Hc _ _ Hi) in Hlen. subst n. rewrite Nat2Z.id in Hb. congruence.
Qed.

Lemma omap_seqZ_lookup {A B} (g : A → Z → B) (l : list A) from n :
  0 ≤ from →
  omap (λ i, (λ a, g a i) <$> l !! Z.to_nat i) (seqZ from n) =
  imap (λ k a, g a (from + Z.of_nat k)) (take (Z.to_nat n) (drop (Z.to_nat from) l)).
Proof.
  intros Hf. destruct (decide (0 ≤ n)) as [Hn|]; [|by rewrite seqZ_nil, Z2Nat.nonpos by lia].
  revert from Hf. pattern n. apply natlike_ind; [intros; by rewrite seqZ_nil by lia| |done].
  clear n Hn. intros n Hn IH from Hf. rewrite seqZ_cons, Z.pred_succ by lia. simpl. rewrite IH by lia.
  rewrite (Z2Nat.inj_succ n), (Z2Nat.inj_succ from) by lia. destruct (l !! Z.to_nat from) as [a|] eqn:Ha; simpl.
  - rewrite (drop_S l a (Z.to_nat from)) by done. rewrite firstn_cons, imap_cons.
    f_equal; [f_equal; lia|]. apply imap_ext. intros i x _. unfold compose. f_equal. lia.
  - apply lookup_ge_None in Ha. by rewrite !drop_ge, !take_nil by lia.
Qed.

Lemma get_block_hash_range_ok s bs from to :
  state_repr s bs → contiguous bs → 0 ≤ from →
  get_block_hash_range s from to =
  (λ b, (eb_id b, eb_chain_length b)) <$> take (Z.to_nat (to - from)) (drop (Z.to_nat from) bs).
Proof.
  intros Hr Hc Hf. unfold get_block_hash_range.
  transitivity (omap (λ i, (λ b, (eb_id b, i)) <$> bs !! Z.to_nat i) (seqZ from (to - from))).
  - apply list_omap_ext, Forall_Forall2_diag, Forall_lookup. intros k i Hi.
    apply lookup_seqZ in Hi as [-> Hk]. rewrite (lookup_chain_length s bs) by (done || lia).
    by destruct (bs !! _).
  - rewrite omap_seqZ_lookup by done. apply list_eq. intros k. rewrite list_lookup_imap, list_lookup_fmap.
    destruct (take _ _ !! k) as [b|] eqn:Hk; simpl; [|done]. do 2 f_equal.
    apply lookup_take_Some in Hk as [Hk _]. rewrite lookup_drop in Hk. rewrite (Hc _ _ Hk). lia.
Qed.
End proofs.

(** ** A small explorer *)
Module SampleExplorer.
#[local] Instance types : ChainTypes := {|
  HeaderHash := nat; FragmentId := nat; PoolId := nat; VotePlanId := nat; PublicKey := nat; MultisigId := nat;
  Discrimination := bool; OtherKind := unit; OldAddress := nat; BftLeaderId := nat;
  (** the stability depth *)
  ConfigParams := Z;
  AccountIdentifier := nat; to_single_account := Some; to_multi_account := Some;
  OwnerStakeDelegationCert := unit; StakeDelegationCert := unit;
  PoolRegistrationCert := nat; registration_to_id r := r;
  PoolRetirementCert := nat; retirement_pool_id r := r;
  PoolUpdateCert := unit; ExternalProposalId := nat;
  Options := Z; choice_range_end o := o;
  ProofOfCorrectVote := unit; EncryptedVote := unit;
  value_sum l := let n := foldr Z.add 0 l in if n <? U64 then Some n else None;
|}.
Export GmapHamt.

#[local] Instance order : HashOrder := {| hash_order _ l := l |}.
#[local] Instance order_laws : HashOrderLaws.
Proof. done. Qed.

#[local] Instance stake : StakeControlOps := {|
  StakeControl := gmap nat Z;
  sc_new := ∅;
  sc_add_to (m : gmap nat Z) k v := Some (<[k := default 0 (m !! k) + v]> m);
  sc_remove_from (m : gmap nat Z) k v :=
    n ← checked_sub (default 0 (m !! k)) v; Some (<[k := n]> m);
  sc_by (m : gmap nat Z) k := m !! k;
|}.

#[local] Instance mv : MultiverseData State := {|
  mvd := gmap nat State;
  mvd_ref := State;
  mvd_new := ∅;
  mvd_insert _ h s (m : gmap nat State) := (<[h := s]> m, s);
  mvd_get_ref h (m : gmap nat State) := m !! h;
  mvd_gc _ m := m;
  ref_state s := s;
|}.
#[local] Instance mv_laws : MultiverseDataLaws State.
Proof.
  split; simpl; [intros; apply lookup_empty| |by left|done].
  intros n h s m h'. case_decide; [subst; apply lookup_insert_eq|by apply lookup_insert_ne].
Qed.

#[local] Instance misc : ChainMisc := {|
  nth_ancestor := checked_sub; hash_ltb := Nat.ltb;
  ConsensusVersion := unit; LinearFee := unit; OtherParam := unit;
|}.
#[local] Instance misc_laws : ChainMiscLaws.
Proof.
  split; [done|]. split; simpl.
  - intros. apply Nat.ltb_irrefl.
  - intros ???. rewrite !Nat.ltb_lt. lia.
  - intros x y. rewrite !Nat.ltb_lt. lia.
Qed.
#[local] Instance config : ConfigOps := {|
  params_iter d := [ParamDiscrimination true; ParamConsensusVersion tt; ParamLinearFee tt;
                    ParamEpochStabilityDepth d];
|}.

(** Block 0 pays 10 to a key and registers pool 5, which makes the next two
    blocks; in the first of them the key pays an account. *)
Definition block0 : Block :=
  mkBlock (mkHeader 0%nat 99%nat 0 (mkBlockDate 0 0) ProofNone None None)
    [(1%nat, Initial 1);
     (2%nat, FragmentTransaction (mkTransaction [] [(mkAddress true (Single 7%nat), 10)] [] tt));
     (3%nat, PoolRegistration (mkTransaction [] [] [] (5%nat : PoolRegistrationCert)))].
Definition block1 : Block :=
  mkBlock (mkHeader 1%nat 0%nat 1 (mkBlockDate 0 1) ProofGenesisPraos (Some 5%nat) None)
    [(4%nat, FragmentTransaction
               (mkTransaction [UtxoInput (2%nat : FragmentId) 0] [(mkAddress true (Account 8%nat), 10)]
                  [WitnessOther] tt))].
Definition block2 : Block :=
  mkBlock (mkHeader 2%nat 1%nat 2 (mkBlockDate 1 0) ProofGenesisPraos (Some 5%nat) None) [].

(** The tip is announced before its blocks arrive. *)
Definition sample_ops : list IndexerOp := [OpTip 2%nat; OpBlock block1; OpBlock block2].

Definition sample_check : bool :=
  match bootstrap block0 with
  | Some (Ok db) =>
      match run_indexer sample_ops (mkIndexer db None) with
      | Some ix =>
          Nat.eqb (longest_chain_tip (ix_db ix)) 2 && (confirmed_block_chain_length (ix_db ix) =? 1) &&
          bool_decide (tip_candidate ix = None)
      | None => false
      end
  | _ => false
  end.

Lemma sample_runs : ∃ db ix,
  bootstrap block0 = Some (Ok db) ∧ run_indexer sample_ops (mkIndexer db None) = Some ix ∧
  longest_chain_tip (ix_db ix) = 2%nat ∧ confirmed_block_chain_length (ix_db ix) = 1.
Proof.
  assert (sample_check = true) as Hc by (vm_compute; reflexivity). unfold sample_check in Hc.
  destruct (bootstrap block0) as [[db|]|] eqn:Hb; try discriminate.
  destruct (run_indexer sample_ops (mkIndexer db None)) as [ix|] eqn:Hr; [|discriminate].
  rewrite !andb_true_iff, Nat.eqb_eq, Z.eqb_eq in Hc. exists db, ix. tauto.
Qed.

Lemma explorer_invariant_witness : ∃ ix, db_inv 0%nat (ix_db ix) ∧ longest_chain_tip (ix_db ix) = 2%nat.
Proof.
  destruct sample_runs as (db & ix & Hb & Hr & Ht & _). exists ix. split; [|exact Ht].
  exact (explorer_invariant block0 db sample_ops ix Hb Hr).
Defined.


Lemma indexer_apply_block_correct_witness :
  ∃ ix, db_inv 0%nat (ix_db ix) ∧
        match indexer_apply_block block1 ix with
        | None => apply_block block1 (ix_db ix) = None
        | Some (ix', Err e) => ix' = ix
        | Some (ix', Ok _) => db_inv 0%nat (ix_db ix')
        end.
Proof.
  destruct sample_runs as (db & ix & Hb & Hr & _ & _). destruct (bootstrap_inv _ _ Hb) as [Hinv _].
  exists (mkIndexer db None). split; [exact Hinv|].
  pose proof (indexer_apply_block_correct _ block1 (mkIndexer db None) Hinv) as Hc.
  destruct (indexer_apply_block block1 (mkIndexer db None)) as [[ix' [[]|e]]|].
  - exact (proj1 Hc).
  - exact (proj1 Hc).
  - exact Hc.
Defined.

Definition h0 : HeaderHash := 0%nat.
Definition h1 : HeaderHash := 1%nat.

(** The tip is set to block 1, then block 0 is asked about. *)
Definition confirmed_check : bool :=
  match bootstrap block0 with
  | Some (Ok db) =>
      match apply_block block1 db with
      | Some (db, Ok _) =>
          match set_tip h1 db with
          | Some (db, Ok tt) =>
              match (is_block_confirmed h0 : prog ExplorerDb unit _) db with
              | Some (_, Ok v) => v
              | _ => false
              end
          | _ => false
          end
      | _ => false
      end
  | _ => false
  end.

Lemma confirmed_blocks_deep_witness :
  ∃ db db' db'' r bs b,
    set_tip h1 db = Some (db', Ok tt) ∧
    (is_block_confirmed h0 : prog ExplorerDb unit _) db' = Some (db'', Ok true) ∧
    mvd_get_ref h1 (multiverse db) = Some r ∧ branch h0 h1 (ref_state r) bs ∧ last bs = Some b.
Proof.
  assert (confirmed_check = true) as Hc by (vm_compute; reflexivity). unfold confirmed_check in Hc.
  destruct (bootstrap block0) as [[db0|]|] eqn:Hb; try discriminate.
  destruct (bootstrap_inv _ _ Hb) as [Hinv0 _].
  pose proof (apply_block_spec _ block1 db0 Hinv0) as Ha.
  destruct (apply_block block1 db0) as [[db [r0|]]|] eqn:Hab; try discriminate. destruct Ha as [Hinv _].
  destruct (set_tip h1 db) as [[db' [[]|]]|] eqn:Hs; try discriminate.
  destruct ((is_block_confirmed h0 : prog ExplorerDb unit _) db') as [[db'' [v|]]|] eqn:Hi; try discriminate.
  destruct v; [|discriminate].
  destruct (confirmed_blocks_deep (E := unit) _ db _ db' db'' _ true Hinv Hs Hi)
    as (r & bs & b & H1 & H2 & H3 & _).
  exists db, db', db'', r, bs, b. split_and!; assumption.
Defined.

(** A block that registers a pool and retires it: whether indexing it panics depends
    on the order in which its transactions are iterated. *)
Definition certificate_tx (id : nat) (c : Certificate) : ExplorerTransaction :=
  mkExplorerTransaction (id : FragmentId) [] [] (Some c) 0 None.
Definition retired_at_once : ExplorerBlock :=
  mkExplorerBlock
    (<[1%nat := certificate_tx 1 (CertPoolRegistration (5%nat : PoolRegistrationCert))]>
       (<[2%nat := certificate_tx 2 (CertPoolRetirement (5%nat : PoolRetirementCert))]> ∅))
    h1 (mkBlockDate 0 1) 1 h0 ProducerNone 0 0.
Definition reversed : HashOrder := {| hash_order _ l := reverse l |}.

Definition indexes {A} (o : option A) : bool := match o with Some _ => true | None => false end.

Example retirement_order_matters :
  indexes (apply_block_to_stake_pools hamt_new hamt_new retired_at_once) =
  negb (indexes (apply_block_to_stake_pools (H1 := reversed) hamt_new hamt_new retired_at_once)).
Proof. vm_compute. reflexivity. Qed.

(** *** The state of block 0 *)
Definition disc : Discrimination := true.

Definition state0_check : bool :=
  match initial_state disc block0 with
  | Some (Ok s) =>
      match resolve_from block1 (mkContext disc (transactions s) (blocks s)) with Some _ => true | None => false end
  | _ => false
  end.

Lemma state0 : ∃ s b0 b1,
  state_repr s [b0] ∧ eb_chain_length b0 = 0 ∧
  resolve_from block1 (mkContext disc (transactions s) (blocks s)) = Some b1.
Proof.
  assert (state0_check = true) as Hc by (vm_compute; reflexivity). unfold state0_check in Hc.
  destruct (initial_state disc block0) as [[s|]|] eqn:Hs; try discriminate.
  destruct (resolve_from block1 _) as [b1|] eqn:Hb1; [|discriminate].
  apply initial_state_repr in Hs as (b0 & (_ & _ & Hl & _)%resolve_from_fields & Hr).
  exists s, b0, b1. done.
Qed.

Lemma resolve_from_chain_witness : ∃ s b0 b1 etx,
  state_repr s [b0] ∧ eb_transactions b1 !! (4%nat : FragmentId) = Some etx ∧ offset_in_block etx = 0.
Proof.
  destruct state0 as (s & b0 & b1 & Hr & _ & Hb).
  assert (NoDup (block_contents block1).*1) as Hnd by (apply NoDup_singleton).
  pose proof (resolve_from_chain disc s [b0] block1 b1 0 _ _ Hr Hb Hnd eq_refl) as Ht.
  destruct (eb_transactions b1 !! _) as [etx|] eqn:He; [|discriminate].
  exists s, b0, b1, etx. split; [exact Hr|]. split; [exact He|]. exact (proj1 (proj2 (proj2 Ht))).
Defined.

(** A proposal with the vote of a single key, which counts, and that of an account,
    which does not. *)
Definition key_voter : ExplorerAddress := New (mkAddress true (Single 7%nat)).
Definition account_voter : ExplorerAddress := New (mkAddress true (Account 8%nat)).
Definition sample_proposal : ExplorerVoteProposal :=
  mkVoteProposal (0%nat : ExternalProposalId) (2 : Options) None
    (<[key_voter := VotePublic 1]> (<[account_voter := VotePublic 0]> ∅) : hamt ExplorerAddress ExplorerVote).
Definition sample_stake : StakeControl := (<[7%nat := 30]> (<[8%nat := 50]> ∅) : gmap nat Z).

Lemma public_tally_correct_witness : ∃ results,
  compute_public_tally sample_proposal sample_stake = Some (TallyPublic results (2 : Options)) ∧
  length results = 2%nat.
Proof.
  destruct (public_tally_correct sample_proposal sample_stake) as [(results & Hc & Hl & _) _].
  - apply Forall_forall. intros [a v] Hin. apply (hamt_iter_spec (evp_votes sample_proposal)) in Hin.
    change ((<[key_voter := VotePublic 1]> (<[account_voter := VotePublic 0]> ∅) : gmap _ _) !! a = Some v) in Hin.
    apply lookup_insert_Some in Hin as [[<- <-]|[_ [[<- <-]|[_ ?]]%lookup_insert_Some]].
    + intros w Hw. vm_compute in Hw. injection Hw as <-. split; [done|]. simpl. lia.
    + intros w Hw. vm_compute in Hw. discriminate.
    + by rewrite lookup_empty in H.
  - exists results. split; [exact Hc|exact Hl].
Defined.

Example account_vote_ignored :
  match compute_public_tally sample_proposal sample_stake with
  | Some (TallyPublic results _) => results
  | _ => []
  end = [0; 30].
Proof. vm_compute. reflexivity. Qed.
End SampleExplorer.
