(* ===== verification/GraphQl.v ===== *)
(** * The queries of the explorer

    Models [explorer/src/api/graphql/mod.rs]: branches, blocks, transactions,
    stake pools, epochs and vote plans as the GraphQL interface shows them, with
    their pages.  Strings of identifiers and addresses, and the checks of
    [async_graphql::connection::query], are parameters. *)

From S2P Require Import Prelude BlockDate Hamt Indexing ExplorerState Explorer Pagination.

#[local] Open Scope Z_scope.

(** ** Errors and parameters *)
Inductive ApiError :=
| InternalError (s : string)
| NotFound (s : string)
| Unimplemented
| ArgumentError (s : string)
| InvalidCursor (s : string)
| InvalidAddress (s : string).

(** A query fails with an error of the interface, of the parser of an identifier,
    or of the checks of [query]. *)
Inductive FieldError := FieldApi (e : ApiError) | FieldParse | FieldQuery.

Class GraphQlOps `{ChainTypes} := {
  (** [query]: the numbers of elements asked for, as [usize], or an error *)
  gql_query : option Z → option Z → option (option Z * option Z);
  parse_hash : string → option HeaderHash;
  parse_fragment_id : string → option FragmentId;
  parse_pool_id : string → option PoolId;
  parse_vote_plan_id : string → option VotePlanId;
  parse_address : string → option Address;
  parse_old_address : string → option OldAddress;
  (** the orders of [sort_unstable_by_key] *)
  pool_id_leb : PoolId → PoolId → bool;
  vote_plan_id_leb : VotePlanId → VotePlanId → bool;
}.

Class GraphQlLaws `{GraphQlOps} : Prop := {
  (** numbers are not negative, and are those that were given *)
  gql_query_ok first last f l :
    gql_query first last = Some (f, l) →
    f = first ∧ l = last ∧ (∀ n, f = Some n → 0 ≤ n) ∧ (∀ n, l = Some n → 0 ≤ n);
}.

(** ** Pages *)
Record Connection (A : Type) := mkConnection {
  conn_previous : bool;
  conn_next : bool;
  conn_total : Z;
  conn_edges : list (IndexCursor * A);
}.
Arguments mkConnection {A} _ _ _ _.
Arguments conn_previous {A} _.
Arguments conn_next {A} _.
Arguments conn_total {A} _.
Arguments conn_edges {A} _.

Section pages.
Context `{GraphQlOps}.

(** [cursor.map(u32::try_from).transpose()?] *)
Definition convert_cursor (w : Z) (c : option IndexCursor) : result FieldError (option Z) :=
  match c with
  | None => Ok None
  | Some c => match cursor_try_into w c with
              | Some n => Ok (Some n)
              | None => Err (FieldApi (InvalidCursor "IndexCursor is not a valid number"))
              end
  end.

(** What the paginated fields have in common: the arguments are checked by
    [query], cursors converted (to the unsigned type of [w] values), the interval
    computed and its elements looked up by [edges].  [None] is a panic. *)
Definition paginate {A} (w : Z) (first last : option Z) (before after : option IndexCursor)
    (boundaries : option PaginationInterval) (edges : PaginationInterval → option (list (A * Z)))
    : option (result FieldError (Connection A)) :=
  match gql_query first last with
  | None => Some (Err FieldQuery)
  | Some (first, last) =>
      boundaries ← boundaries;
      match convert_cursor w before with
      | Err e => Some (Err e)
      | Ok before =>
          match convert_cursor w after with
          | Err e => Some (Err e)
          | Ok after =>
              '(range, page_meta) ← compute_interval w boundaries (mkArguments first last before after);
              edges ← edges range;
              Some (Ok (mkConnection (has_previous_page page_meta) (has_next_page page_meta)
                          (total_count page_meta) ((λ '(a, i), (cursor_from i, a)) <$> edges)))
          end
      end
  end.

(** The boundaries of a list: none if it is empty, and the number of its elements
    must fit 32 bits. *)
Definition list_boundaries {A} (l : list A) : option PaginationInterval :=
  match l with
  | [] => Some EmptyInterval
  | _ => n ← checked_sub (Z.of_nat (length l)) 1; upper ← uint_try_from U32 n;
         Some (Inclusive (mkInclusive 0 upper))
  end.

(** [(from..=to).map(|i| (l[i], i))] *)
Definition list_edges {A} (l : list A) (range : PaginationInterval) : option (list (A * Z)) :=
  match range with
  | EmptyInterval => Some []
  | Inclusive range =>
      mapM (λ i, (λ a, (a, i)) <$> l !! Z.to_nat i) (range_incl (lower_bound range) (upper_bound range))
  end.

(** The objects made from the elements. *)
Definition map_edges {A B} (f : A → B) (edges : option (list (A * Z))) : option (list (B * Z)) :=
  match edges with Some l => Some ((λ ai, (f ai.1, ai.2)) <$> l) | None => None end.

(** [(from..=to).filter_map(|i| s.get(i).map(|a| (a, i)))] *)
Definition seq_edges `{Hamt} {A} (s : PersistentSequence A) (range : PaginationInterval) : option (list (A * Z)) :=
  match range with
  | EmptyInterval => Some []
  | Inclusive range =>
      Some (omap (λ i, (λ a, (a, i)) <$> seq_get s i) (range_incl (lower_bound range) (upper_bound range)))
  end.
End pages.

(** ** Objects *)
Section objects.
Context `{ChainTypes} `{Hamt} `{HashOrder} `{!StakeControlOps} `{!MultiverseData State}
  `{!ChainMisc} `{!ConfigOps} `{!GraphQlOps}.

#[local] Abbreviation M := (prog ExplorerDb FieldError).
#[local] Abbreviation conn A := (option (result FieldError (Connection A))).

(** [ok_or_else], [?] and panics of a field that does not use the database. *)
Definition field {A} (r : option (result FieldError A)) : M A := r ← expect r; lift r.
Definition or_error {A} (e : FieldError) (o : option A) : M A :=
  lift (match o with Some a => Ok a | None => Err e end).

(** *** Blocks: [contents] is filled when it is first needed *)
Record GBlock := mkGBlock { gb_hash : HeaderHash; gb_contents : option ExplorerBlock }.
Definition from_valid_hash (h : HeaderHash) : GBlock := mkGBlock h None.
Definition from_contents (b : ExplorerBlock) : GBlock := mkGBlock (eb_id b) (Some b).

(** *** Transactions *)
Record GTransaction := mkGTransaction {
  gt_id : FragmentId;
  gt_block_hashes : list HeaderHash;
  gt_contents : option ExplorerTransaction;
}.
Definition from_valid_id (id : FragmentId) : GTransaction := mkGTransaction id [] None.
Definition transaction_from_contents (c : ExplorerTransaction) : GTransaction := mkGTransaction (etx_id c) [] (Some c).

(** *** Pools *)
Record Pool := mkPool {
  pool_id : PoolId;
  pool_data_ : option StakePoolData;
  pool_blocks : option (PersistentSequence HeaderHash);
}.
Definition pool_from_valid_id (id : PoolId) : Pool := mkPool id None None.
Definition new_with_data (id : PoolId) (d : StakePoolData) : Pool := mkPool id (Some d) None.

(** *** Vote plans *)
Record VoteProposalStatus := mkProposalStatus {
  vps_proposal_id : ExternalProposalId;
  vps_options : Options;
  vps_tally : option ExplorerVoteTally;
  vps_votes : list (ExplorerAddress * ExplorerVote);
}.

Record VotePlanStatus := mkVotePlanStatus {
  vpst_id : VotePlanId;
  vpst_vote_start : BlockDate;
  vpst_vote_end : BlockDate;
  vpst_committee_end : BlockDate;
  vpst_payload_type : PayloadType;
  vpst_proposals : list VoteProposalStatus;
}.

Definition vote_plan_from_data (p : ExplorerVotePlan) : VotePlanStatus :=
  mkVotePlanStatus (ep_id p) (ep_vote_start p) (ep_vote_end p) (ep_committee_end p) (ep_payload_type p)
    ((λ q, mkProposalStatus (evp_proposal_id q) (evp_options q) (evp_tally q) (hamt_iter (evp_votes q)))
       <$> ep_proposals p).

(** *** Addresses: a bech32 address, or else one of the legacy format *)
Definition address_from_string (s : string) : result FieldError ExplorerAddress :=
  match parse_address s with
  | Some a => Ok (New a)
  | None => match parse_old_address s with
            | Some a => Ok (Old a)
            | None => Err (FieldApi (InvalidAddress s))
            end
  end.

(** ** Branches *)
Record Branch := mkBranch { br_state : mvd_ref State; br_id : HeaderHash }.
Definition br (b : Branch) : State := ref_state (br_state b).

Definition try_from_id (h : HeaderHash) : M Branch :=
  r ← get_branch h;
  s ← or_error (FieldApi (NotFound "branch not found")) r;
  mret (mkBranch s h).

Definition branch_block (b : Branch) : option GBlock := from_contents <$> hamt_lookup (br_id b) (blocks (br b)).

Definition branch_blocks (b : Branch) (first last : option Z) (before after : option IndexCursor) : conn GBlock :=
  let chain_length := Z.of_nat (hamt_size (blocks (br b))) in
  paginate U32 first last before after
    (upper ← uint_try_from U32 chain_length; Some (Inclusive (mkInclusive 0 upper)))
    (λ range, match range with
              | EmptyInterval => Some []
              | Inclusive range =>
                  to ← checked_add U32 (upper_bound range) 1;
                  Some ((λ '(h, n), (from_valid_hash h, n)) <$>
                        get_block_hash_range (br b) (lower_bound range) to)
              end).

Definition branch_transactions_by_address (b : Branch) (address_bech32 : string)
    (first last : option Z) (before after : option IndexCursor) : conn GTransaction :=
  match address_from_string address_bech32 with
  | Err e => Some (Err e)
  | Ok address =>
      let txs := default seq_new (transactions_by_address (br b) address) in
      let len := seq_len txs in
      paginate U64 first last before after
        (Some (if 0 <? len then Inclusive (mkInclusive 0 len) else EmptyInterval))
        (λ range, map_edges from_valid_id (seq_edges txs range))
  end.

(** [sort_unstable_by_key], by a key of the elements. *)
Definition key_le {A K} (leb : K → K → bool) (key : A → K) (x y : A) : Prop := leb (key x) (key y) = true.
#[export] Instance key_le_dec {A K} (leb : K → K → bool) (key : A → K) x y : Decision (key_le leb key x y).
Proof. unfold key_le. apply _. Defined.

Definition sorted_vote_plans (s : State) : list (VotePlanId * ExplorerVotePlan) :=
  merge_sort (key_le vote_plan_id_leb fst) (get_vote_plans s).
Definition sorted_stake_pools (s : State) : list (PoolId * StakePoolData) :=
  merge_sort (key_le pool_id_leb fst) (get_stake_pools s).

Definition all_vote_plans (b : Branch) (first last : option Z) (before after : option IndexCursor)
    : conn VotePlanStatus :=
  let plans := sorted_vote_plans (br b) in
  paginate U32 first last before after (list_boundaries plans)
    (λ range, map_edges (λ p, vote_plan_from_data p.2) (list_edges plans range)).

Definition all_stake_pools (b : Branch) (first last : option Z) (before after : option IndexCursor) : conn Pool :=
  let pools := sorted_stake_pools (br b) in
  paginate U32 first last before after (list_boundaries pools)
    (λ range, map_edges (λ p, new_with_data p.1 p.2) (list_edges pools range)).

Definition blocks_by_epoch (b : Branch) (epoch : Z) (first last : option Z) (before after : option IndexCursor)
    : M (option (Connection GBlock)) :=
  data ← get_epoch epoch;
  match data with
  | None => mret None
  | Some epoch_data =>
      let bound h := eb_chain_length <$> hamt_lookup h (blocks (br b)) in
      c ← field (paginate U32 first last before after
        (lower ← bound (first_block epoch_data);
         upper ← bound (last_block epoch_data);
         n ← checked_sub upper lower;
         Some (Inclusive (mkInclusive 0 n)))
        (λ range, match range with
                  | EmptyInterval => None
                  | Inclusive range =>
                      lower ← bound (first_block epoch_data);
                      Some ((λ '(h, n), (from_valid_hash h, wrap32 (n - lower))) <$>
                            get_block_hash_range (br b) (u32_add (lower_bound range) lower)
                              (u32_add (u32_add (upper_bound range) lower) 1))
                  end));
      mret (Some c)
  end.

(** ** Blocks *)
Definition internal (s : string) : FieldError := FieldApi (InternalError s).

Definition fetch_explorer_block (b : GBlock) : M (GBlock * ExplorerBlock) :=
  match gb_contents b with
  | Some block => mret (b, block)
  | None =>
      r ← get_block (gb_hash b);
      block ← or_error (internal "Couldn't find block in the explorer") r;
      mret (mkGBlock (gb_hash b) (Some block), block)
  end.

Definition from_string_hash (s : string) : M GBlock :=
  h ← or_error FieldParse (parse_hash s);
  fst <$> fetch_explorer_block (from_valid_hash h).

Definition block_get_branches (b : GBlock) : M (GBlock * list Branch) :=
  r ← get_block_with_branches (gb_hash b);
  '(block, branches) ← or_error (internal "Couldn't find block in the explorer") r;
  mret (mkGBlock (gb_hash b) (Some (default block (gb_contents b))),
        (λ '(h, r), mkBranch r h) <$> branches).

(** A field of the contents. *)
Definition block_field {A} (f : ExplorerBlock → A) (b : GBlock) : M A := (f ∘ snd) <$> fetch_explorer_block b.
Definition block_date : GBlock → M BlockDate := block_field eb_date.
Definition block_chain_length : GBlock → M Z := block_field eb_chain_length.
Definition previous_block : GBlock → M GBlock := block_field (λ b, from_valid_hash (eb_parent_hash b)).
Definition total_input : GBlock → M Z := block_field eb_total_input.
Definition total_output : GBlock → M Z := block_field eb_total_output.

Inductive Leader := LeaderStakePool (p : Pool) | LeaderBft (id : BftLeaderId).
Definition block_leader : GBlock → M (option Leader) :=
  block_field (λ b, match eb_producer b with
                    | ProducerStakePool p => Some (LeaderStakePool (pool_from_valid_id p))
                    | ProducerBftLeader id => Some (LeaderBft id)
                    | ProducerNone => None
                    end).

Definition is_confirmed (b : GBlock) : M bool := is_block_confirmed (gb_hash b).

Definition sorted_transactions (b : ExplorerBlock) : list ExplorerTransaction :=
  merge_sort (key_le Z.leb offset_in_block) (block_txs b).

Definition block_transactions (b : GBlock) (first last : option Z) (before after : option IndexCursor)
    : M (Connection GTransaction) :=
  '(_, block) ← fetch_explorer_block b;
  let txs := sorted_transactions block in
  field (paginate U32 first last before after (list_boundaries txs)
    (λ range, map_edges transaction_from_contents (list_edges txs range))).

(** ** Transactions *)
Definition transaction_from_id (id : FragmentId) : M GTransaction :=
  hashes ← find_blocks_by_transaction id;
  match hashes with
  | [] => throw (FieldApi (NotFound "transaction not found"))
  | _ => mret (mkGTransaction id hashes None)
  end.

Fixpoint fetch_blocks (ids : list HeaderHash) : M (list ExplorerBlock) :=
  match ids with
  | [] => mret []
  | id :: ids =>
      r ← get_block id;
      block ← or_error (internal "transaction is in explorer but couldn't find its block") r;
      rest ← fetch_blocks ids;
      mret (block :: rest)
  end.

Definition get_blocks (t : GTransaction) : M (list ExplorerBlock) :=
  ids ← match gt_block_hashes t with
        | [] => find_blocks_by_transaction (gt_id t)
        | l => mret l
        end;
  match ids with
  | [] => throw (internal "Transaction is not present in any block")
  | _ => fetch_blocks ids
  end.

(** [self.block_hashes[0]] panics if there is none. *)
Definition get_contents (t : GTransaction) : M ExplorerTransaction :=
  match gt_contents t with
  | Some c => mret c
  | None =>
      h ← expect (head (gt_block_hashes t));
      r ← get_block h;
      block ← or_error (internal "failed to fetch block containing the transaction") r;
      or_error (internal "transaction was not found in respective block") (eb_transactions block !! gt_id t)
  end.

Definition transaction_blocks (t : GTransaction) : M (list GBlock) :=
  (λ bs : list ExplorerBlock, (λ b, from_valid_hash (eb_id b)) <$> bs) <$> get_blocks t.
Definition initial_configuration_params (t : GTransaction) : M (option ConfigParams) :=
  etx_config_params <$> get_contents t.
Definition transaction_inputs (t : GTransaction) : M (list ExplorerInput) := etx_inputs <$> get_contents t.
Definition transaction_outputs (t : GTransaction) : M (list ExplorerOutput) := etx_outputs <$> get_contents t.
Definition transaction_certificate (t : GTransaction) : M (option Certificate) := etx_certificate <$> get_contents t.

(** ** Pools *)
Definition pool_not_found : FieldError := FieldApi (NotFound "Stake pool not found").

Definition pool_from_string_id (s : string) : M Pool :=
  id ← or_error FieldParse (parse_pool_id s);
  r ← get_stake_pool_blocks id;
  blocks ← or_error pool_not_found r;
  r ← get_stake_pool_data id;
  data ← or_error pool_not_found r;
  mret (mkPool id (Some data) (Some blocks)).

Definition pool_boundaries (s : PersistentSequence HeaderHash) : option PaginationInterval :=
  if 0 <? seq_len s then
    n ← checked_sub (seq_len s) 1; upper ← uint_try_from U32 n; Some (Inclusive (mkInclusive 0 upper))
  else Some EmptyInterval.

Definition pool_blocks_page (p : Pool) (first last : option Z) (before after : option IndexCursor)
    : M (Connection GBlock) :=
  s ← match pool_blocks p with
      | Some b => mret b
      | None => r ← get_stake_pool_blocks (pool_id p);
                or_error (internal "Stake pool in block is not indexed") r
      end;
  field (paginate U32 first last before after (pool_boundaries s)
    (λ range, map_edges from_valid_hash (seq_edges s range))).

Definition pool_get_data (p : Pool) : M StakePoolData :=
  match pool_data_ p with
  | Some d => mret d
  | None => r ← get_stake_pool_data (pool_id p); or_error pool_not_found r
  end.
Definition pool_registration (p : Pool) : M PoolRegistrationCert := registration <$> pool_get_data p.
Definition pool_retirement (p : Pool) : M (option PoolRetirementCert) := retirement <$> pool_get_data p.

(** ** Epochs *)
Definition epoch_first_block (e : Z) : M (option GBlock) :=
  (λ d : option EpochData, (λ d, from_valid_hash (first_block d)) <$> d) <$> get_epoch e.
Definition epoch_last_block (e : Z) : M (option GBlock) :=
  (λ d : option EpochData, (λ d, from_valid_hash (last_block d)) <$> d) <$> get_epoch e.
Definition epoch_total_blocks (e : Z) : M Z := (λ d : option EpochData, default 0 (total_blocks <$> d)) <$> get_epoch e.

(** ** Vote plans by their identifier *)
Definition vote_plan_from_id (s : string) : M VotePlanStatus :=
  id ← or_error (FieldApi (InvalidAddress s)) (parse_vote_plan_id s);
  r ← get_vote_plan_by_id id;
  vote_plan_from_data <$> or_error (FieldApi (NotFound "Vote plan not found")) r.

Definition votes_page (p : VoteProposalStatus) (first last : option Z) (before after : option IndexCursor)
    : conn (ExplorerAddress * ExplorerVote) :=
  paginate U32 first last before after (list_boundaries (vps_votes p))
    (λ range, map_edges id (list_edges (vps_votes p) range)).

(** ** The root *)
Definition query_block (s : string) : M GBlock := from_string_hash s.
Definition query_blocks_by_chain_length (n : Z) : M (list GBlock) :=
  (λ l : list HeaderHash, from_valid_hash <$> l) <$> find_blocks_by_chain_length n.
Definition query_transaction (s : string) : M GTransaction :=
  id ← or_error FieldParse (parse_fragment_id s); transaction_from_id id.
Definition query_branches : M (list Branch) := (λ l : list (HeaderHash * mvd_ref State), (λ '(h, r), mkBranch r h) <$> l) <$> get_branches.
Definition query_tip : M Branch := (λ '(h, r), mkBranch r h) <$> get_tip.
Definition query_branch (s : string) : M Branch := h ← or_error FieldParse (parse_hash s); try_from_id h.
Definition query_address (s : string) : M ExplorerAddress := lift (address_from_string s).
Definition query_stake_pool (s : string) : M Pool := pool_from_string_id s.
Definition query_vote_plan (s : string) : M VotePlanStatus := vote_plan_from_id s.
End objects.

(** ** Pages *)
Section page_proofs.
Context `{GraphQlLaws}.

(** Arguments of a page that are well formed: accepted by [query], with cursors
    that are numbers, on which nothing wraps around. *)
Definition page_arguments (w : Z) (first last : option Z) (before after : option IndexCursor)
    (args : ValidatedPaginationArguments) : Prop :=
  gql_query first last = Some (arg_first args, arg_last args) ∧
  convert_cursor w before = Ok (arg_before args) ∧ convert_cursor w after = Ok (arg_after args) ∧
  arguments_ok w 0 args.

Lemma paginate_inclusive {A} w first last before after upper (edges : PaginationInterval → option (list (A * Z))) args :
  w ≤ U64 → 0 ≤ upper → upper + 1 < w → page_arguments w first last before after args →
  ∃ from to,
    0 ≤ from ∧ to ≤ upper ∧ range_incl from to = page_spec (range_incl 0 upper) args ∧
    paginate w first last before after (Some (Inclusive (mkInclusive 0 upper))) edges =
    match edges (Inclusive (mkInclusive from to)) with
    | Some es => Some (Ok (mkConnection (0 <? from) (to <? upper) (upper + 1)
                             ((λ '(a, i), (cursor_from i, a)) <$> es)))
    | None => None
    end.
Proof.
  intros Hw Hu Hu1 (Hq & Hb & Ha & Hok).
  destruct (compute_interval_ok w 0 upper args) as (from & to & Hc & Hf & Ht & He); [done|lia|done|done|].
  exists from, to. split_and!; [done|done|done|].
  destruct args as [f l bf af]. simpl in *.
  unfold paginate. rewrite Hq. simpl. rewrite Hb, Ha. simpl. rewrite Hc. simpl.
  rewrite Z.sub_0_r. by destruct (edges _).
Qed.

Lemma mapM_omap {A B} (f : A → option B) l : (∀ x, x ∈ l → is_Some (f x)) → mapM f l = Some (omap f l).
Proof.
  induction l as [|x l IH]; intros Hall; [done|]. simpl.
  destruct (Hall x) as [y Hy]; [set_solver|]. rewrite Hy. simpl. rewrite IH by set_solver. done.
Qed.

Lemma length_omap_all {A B} (f : A → option B) l : (∀ x, x ∈ l → is_Some (f x)) → length (omap f l) = length l.
Proof.
  induction l as [|x l IH]; intros Hall; [done|]. csimpl.
  destruct (Hall x) as [y Hy]; [set_solver|]. rewrite Hy. csimpl. rewrite IH by set_solver. done.
Qed.

Lemma page_spec_nil args : page_spec [] args = [].
Proof.
  unfold page_spec, last_opt, take_opt. rewrite filter_nil.
  destruct (arg_first args), (arg_last args); by rewrite ?take_nil, ?drop_nil.
Qed.

(** The elements of a list at the given places, with their cursors. *)
Definition edges_at {A B} (f : A → B) (l : list A) (places : list Z) : list (IndexCursor * B) :=
  omap (λ i, (λ a, (cursor_from i, f a)) <$> l !! Z.to_nat i) places.

Lemma edges_at_omap {A B} (f : A → B) (l : list A) places :
  (λ '(a, i), (cursor_from i, a)) <$> ((λ ai, (f ai.1, ai.2)) <$>
     omap (λ i, (λ a, (a, i)) <$> l !! Z.to_nat i) places) = edges_at f l places.
Proof.
  unfold edges_at. rewrite !list_fmap_omap. apply list_omap_ext, Forall_Forall2_diag, Forall_true.
  intros i. by destruct (l !! Z.to_nat i).
Qed.

(** A page of a list: every place is there, and all elements are counted. *)
Lemma paginate_list {A B} (f : A → B) (l : list A) first last before after args :
  Z.of_nat (length l) < U32 → page_arguments U32 first last before after args →
  let places := page_spec (range_incl 0 (Z.of_nat (length l) - 1)) args in
  ∃ c, paginate U32 first last before after (list_boundaries l) (λ range, map_edges f (list_edges l range)) =
         Some (Ok c) ∧
       conn_edges c = edges_at f l places ∧ length (conn_edges c) = length places ∧
       conn_total c = Z.of_nat (length l).
Proof.
  intros Hlen Hargs places.
  assert (l = [] ∨ l ≠ []) as [->|Hne] by (destruct l; auto).
  { destruct Hargs as (Hq & Hb & Ha & _). unfold paginate. rewrite Hq. simpl. rewrite Hb, Ha. simpl.
    assert (places = []) as -> by apply page_spec_nil. by eexists. }
  assert (0 < Z.of_nat (length l)) as Hpos by (destruct l; simpl; [done|lia]).
  assert (list_boundaries l = Some (Inclusive (mkInclusive 0 (Z.of_nat (length l) - 1)))) as ->.
  { unfold list_boundaries, checked_sub, uint_try_from. destruct l as [|a l]; [done|].
    set (n := Z.of_nat (length (a :: l))) in *. clearbody n.
    rewrite (proj2 (Z.leb_le 1 n)) by lia. simpl. by rewrite (proj2 (Z.ltb_lt (n - 1) U32)) by lia. }
  destruct (paginate_inclusive U32 first last before after (Z.of_nat (length l) - 1)
    (λ range, map_edges f (list_edges l range)) args) as (from & to & Hf & Ht & He & ->);
    [done|lia|lia|done|]. simpl.
  assert (∀ i, i ∈ range_incl from to → is_Some ((λ a, (a, i)) <$> l !! Z.to_nat i)) as Hall.
  { intros i Hi%range_incl_elem. destruct (lookup_lt_is_Some_2 l (Z.to_nat i)) as [a Hla]; [lia|].
    rewrite Hla. simpl. eauto. }
  rewrite mapM_omap by done. simpl. eexists. split_and!; [done| | |simpl; lia]; simpl.
  - rewrite edges_at_omap, He. done.
  - rewrite !length_fmap, length_omap_all by done. by rewrite He.
Qed.
End page_proofs.

Section proofs.
Context `{ChainTypes} `{HamtLaws} `{HashOrderLaws} `{!StakeControlOps} `{!MultiverseData State}
  `{!MultiverseDataLaws State} `{!ChainMisc} `{!ChainMiscLaws} `{!ConfigOps} `{!GraphQlOps} `{!GraphQlLaws}.
Implicit Types (bs : list ExplorerBlock).

Lemma blocks_size s bs : state_repr s bs → hamt_size (blocks s) = length bs.
Proof.
  intros Hr. rewrite hamt_size_spec. destruct (hamt_iter_spec (blocks s)) as [Hnd Hel].
  rewrite <- (length_fmap (λ b, (eb_id b, b)) bs). apply Permutation_length, NoDup_Permutation.
  - by eapply NoDup_fmap_1.
  - apply NoDup_fmap_2_strong with (l := bs).
    + intros x y _ _ ?. by simplify_eq.
    + eapply NoDup_fmap_1, (repr_ids s bs Hr).
  - intros [h b]. rewrite Hel, (repr_blocks s bs Hr), list_elem_of_fmap. naive_solver.
Qed.

(** A page of the blocks of a branch has the blocks at the places of the page,
    but of one place too many: the boundaries end at the number of blocks, not one
    before, so the count is one too great, and the last block asked for is none. *)
Theorem branch_blocks_page b bs first last before after args :
  state_repr (br b) bs → contiguous bs → Z.of_nat (length bs) + 1 < U32 →
  page_arguments U32 first last before after args →
  let places := page_spec (range_incl 0 (Z.of_nat (length bs))) args in
  ∃ c, branch_blocks b first last before after = Some (Ok c) ∧
       conn_edges c = edges_at (λ b, from_valid_hash (eb_id b)) bs places ∧
       conn_total c = Z.of_nat (length bs) + 1 ∧
       (args = mkArguments None (Some 1) None None → conn_edges c = []).
Proof.
  intros Hr Hc Hlen Hargs places. unfold branch_blocks. rewrite (blocks_size _ bs Hr).
  unfold uint_try_from. rewrite (proj2 (Z.ltb_lt _ _)) by lia. cbn [mbind option_bind].
  match goal with |- context [paginate U32 first last before after _ ?e] =>
    destruct (paginate_inclusive U32 first last before after (Z.of_nat (length bs)) e args)
      as (from & to & Hf & Ht & He & ->); [done|lia|done|done|] end.
  unfold checked_add. simpl. rewrite (proj2 (Z.ltb_lt (to + 1) U32)) by lia. simpl.
  eexists. split; [done|]. simpl.
  assert ((λ '(a, i), (cursor_from i, a)) <$>
    ((λ '(h, n), (from_valid_hash h, n)) <$> get_block_hash_range (br b) from (to + 1)) =
    edges_at (λ b, from_valid_hash (eb_id b)) bs places) as ->.
  { unfold places, get_block_hash_range, edges_at. rewrite <- He, !list_fmap_omap. unfold range_incl.
    replace (to + 1 - from) with (to - from + 1) by lia.
    apply list_omap_ext, Forall_Forall2_diag, Forall_lookup. intros k i Hi.
    apply lookup_seqZ in Hi as [-> Hk]. rewrite (lookup_chain_length _ bs) by (done || lia).
    by destruct (bs !! _). }
  split_and!; [done|done|]. intros ->. unfold places, page_spec. simpl.
  rewrite list_filter_all by done. unfold range_incl. rewrite Z.sub_0_r.
  rewrite (last_seqZ 0 (Z.of_nat (length bs) + 1) 1) by done.
  replace (1 `min` (Z.of_nat (length bs) + 1)) with 1 by lia.
  replace (0 + (Z.of_nat (length bs) + 1 - 1) `max` 0) with (Z.of_nat (length bs)) by lia.
  unfold edges_at. rewrite seqZ_cons by lia. simpl.
  rewrite Nat2Z.id, lookup_ge_None_2 by lia. done.
Qed.

Lemma seq_edges_repr {A} (q : PersistentSequence A) l from to :
  seq_repr q l → 0 ≤ from →
  seq_edges q (Inclusive (mkInclusive from to)) =
  Some (omap (λ i, (λ a, (a, i)) <$> l !! Z.to_nat i) (range_incl from to)).
Proof.
  intros Hq Hf. simpl. f_equal. apply list_omap_ext, Forall_Forall2_diag, Forall_lookup. intros k i Hi.
  apply lookup_seqZ in Hi as [-> Hk]. rewrite (seq_get_repr q l) by done.
  by rewrite (proj2 (Z.leb_le _ _)) by lia.
Qed.

(** The history of an address has the same error in its boundaries. *)
Lemma transactions_by_address_page b bs s a first last before after args :
  state_repr (br b) bs → fits bs → address_from_string s = Ok a → address_history a bs ≠ [] →
  page_arguments U64 first last before after args →
  let l := address_history a bs in
  ∃ c, branch_transactions_by_address b s first last before after = Some (Ok c) ∧
       conn_edges c = edges_at from_valid_id l (page_spec (range_incl 0 (Z.of_nat (length l))) args) ∧
       conn_total c = Z.of_nat (length l) + 1.
Proof.
  intros Hr Hfits Hs Hne Hargs l. unfold branch_transactions_by_address, transactions_by_address. rewrite Hs.
  pose proof (repr_addresses _ bs Hr a Hfits) as Ha. pose proof (address_history_length a bs) as Hlen.
  unfold fits in Hfits. fold l in Ha, Hlen, Hne.
  destruct (hamt_lookup a (addresses (br b))) as [q|]; [|done]. destruct Ha as [Hq _].
  change (default seq_new (Some q)) with q. rewrite (proj1 Hq).
  assert (0 < Z.of_nat (length l)) by (destruct l; [done|simpl; lia]).
  rewrite (proj2 (Z.ltb_lt 0 _)) by done.
  match goal with |- context [paginate U64 first last before after _ ?e] =>
    destruct (paginate_inclusive U64 first last before after (Z.of_nat (length l)) e args)
      as (from & to & Hf & Ht & He & ->); [done|lia|lia|done|] end.
  rewrite (seq_edges_repr q l) by done. simpl. eexists. split_and!; [done| |done]. simpl.
  by rewrite edges_at_omap, He.
Qed.

(** The pages of the stake pools and of the vote plans of a branch, sorted by
    their identifiers, and of the votes on a proposal have exactly the elements at the
    places of the page, all of them, and the count of all elements. *)
Theorem list_pages_correct b p first last before after args :
  Z.of_nat (length (sorted_stake_pools (br b))) < U32 → Z.of_nat (length (sorted_vote_plans (br b))) < U32 →
  Z.of_nat (length (vps_votes p)) < U32 → page_arguments U32 first last before after args →
  let places (n : nat) := page_spec (range_incl 0 (Z.of_nat n - 1)) args in
  (∃ c, all_stake_pools b first last before after = Some (Ok c) ∧
     let l := sorted_stake_pools (br b) in
     conn_edges c = edges_at (λ x, new_with_data x.1 x.2) l (places (length l)) ∧
     length (conn_edges c) = length (places (length l)) ∧ conn_total c = Z.of_nat (length l)) ∧
  (∃ c, all_vote_plans b first last before after = Some (Ok c) ∧
     let l := sorted_vote_plans (br b) in
     conn_edges c = edges_at (λ x, vote_plan_from_data x.2) l (places (length l)) ∧
     length (conn_edges c) = length (places (length l)) ∧ conn_total c = Z.of_nat (length l)) ∧
  (∃ c, votes_page p first last before after = Some (Ok c) ∧
     let l := vps_votes p in
     conn_edges c = edges_at id l (places (length l)) ∧
     length (conn_edges c) = length (places (length l)) ∧ conn_total c = Z.of_nat (length l)) ∧
  sorted_stake_pools (br b) ≡ₚ get_stake_pools (br b) ∧ sorted_vote_plans (br b) ≡ₚ get_vote_plans (br b).
Proof.
  intros H1' H2' H3' Hargs places. split_and!.
  - by apply paginate_list.
  - by apply paginate_list.
  - by apply paginate_list.
  - apply merge_sort_Permutation.
  - apply merge_sort_Permutation.
Qed.

(** *** Panics *)

(** The fields of a transaction of an address's history need its contents, which are
    looked for in the first of no blocks. *)
Lemma history_contents_panic id db : get_contents (from_valid_id id) db = None.
Proof. done. Qed.

(** The blocks of an epoch are those of the longest branch; of another branch that
    does not have the first of them the field panics. *)
Lemma blocks_by_epoch_panics b e first last before after db ts t r d :
  live_tips db = (t, r) :: ts → btree_wf tip_ltb (tip_set db) →
  hamt_lookup e (epochs (ref_state r)) = Some d → is_Some (gql_query first last) →
  hamt_lookup (first_block d) (blocks (br b)) = None →
  blocks_by_epoch b e first last before after db = None.
Proof.
  intros Ht Hwf Hd [[f l] Hq] Hb.
  unfold blocks_by_epoch, get_epoch, field, expect, mret, prog_ret, mbind, prog_bind.
  rewrite (tips_spec db Hwf), Ht. simpl.
  rewrite Hd. unfold paginate. rewrite Hq, Hb. done.
Qed.
End proofs.

(** ** A small interface *)
Module SampleGraphQl.
Import SampleExplorer.
#[local] Existing Instances types order order_laws stake mv mv_laws misc misc_laws config.

#[local] Instance graphql : GraphQlOps := {|
  gql_query f l :=
    match f, l with
    | Some _, Some _ => None
    | Some n, None => if 0 <=? n then Some (Some n, None) else None
    | None, Some n => if 0 <=? n then Some (None, Some n) else None
    | None, None => Some (None, None)
    end;
  parse_hash s := Some (String.length s); parse_fragment_id s := Some (String.length s);
  parse_pool_id s := Some (String.length s); parse_vote_plan_id s := Some (String.length s);
  parse_address _ := None; parse_old_address s := Some (String.length s);
  pool_id_leb := Nat.leb; vote_plan_id_leb := Nat.leb;
|}.
#[local] Instance graphql_laws : GraphQlLaws.
Proof.
  split. intros first last f l. simpl. destruct first as [n|], last as [m|]; simpl; try done.
  - destruct (Z.leb_spec 0 n); [|done]. intros [= <- <-]. split_and!; naive_solver.
  - destruct (Z.leb_spec 0 m); [|done]. intros [= <- <-]. split_and!; naive_solver.
  - intros [= <- <-]. split_and!; naive_solver.
Qed.

Definition last_one : ValidatedPaginationArguments := mkArguments None (Some 1) None None.
Lemma last_one_ok : page_arguments U32 None (Some 1) None None last_one.
Proof. split_and!; try reflexivity. unfold arguments_ok. simpl. naive_solver lia. Qed.

Definition sample_branch (s : State) : Branch := mkBranch (s : @mvd_ref State types mv) h0.

(** The last block of a branch that has one block is none. *)
Lemma branch_blocks_page_witness : ∃ b c,
  branch_blocks b None (Some 1) None None = Some (Ok c) ∧ conn_edges c = [] ∧ conn_total c = 2.
Proof.
  destruct state0 as (s & b0 & b1 & Hr & Hl & _).
  assert (contiguous [b0]) as Hc.
  { intros [|i] b Hi; simplify_eq/=. exact Hl. }
  destruct (branch_blocks_page (sample_branch s) [b0] None (Some 1) None None last_one Hr Hc)
    as (c & H1 & _ & H3 & H4); [reflexivity|apply last_one_ok|].
  exists (sample_branch s), c. split; [exact H1|]. split; [exact (H4 eq_refl)|exact H3].
Defined.

Definition two_votes : VoteProposalStatus := mkProposalStatus (0%nat : ExternalProposalId) (2 : Options) None
  [(key_voter, VotePublic 1); (account_voter, VotePublic 0)].

Lemma list_pages_correct_witness : ∃ c,
  votes_page two_votes None (Some 1) None None = Some (Ok c) ∧ length (conn_edges c) = 1%nat ∧ conn_total c = 2.
Proof.
  pose (b := sample_branch empty_state).
  destruct (list_pages_correct b two_votes None (Some 1) None None last_one) as (_ & _ & (c & H1 & H2 & H3 & H4) & _).
  - reflexivity.
  - reflexivity.
  - reflexivity.
  - apply last_one_ok.
  - exists c. split; [exact H1|]. split; [rewrite H3; reflexivity|rewrite H4; reflexivity].
Defined.
End SampleGraphQl.
