(* ===== verification/Subscription.v ===== *)
(** * Inbound subscriptions

    Models [jormungandr/src/network/subscription.rs]: the sinks that take what
    a peer sends on its three subscription streams (block announcements,
    fragments, gossip), decode it and hand it to the tasks of the node, and
    the message boxes they write to ([utils/async_msg.rs]).  A sink is polled:
    whether a message box has room, whether a message is taken, and whether
    the lock of the table of peers is free at a poll is decided by the
    environment, a function of the number of polls made so far. *)

From stdpp Require Import list.
From S2P Require Import Prelude Lru Lhm FragmentLogs Peers Gossip.

(** [std::task::Poll]. *)
Inductive Poll (A : Type) := Ready (a : A) | Pending.
Arguments Ready {A} a.
Arguments Pending {A}.

Definition poll_map {A B} (f : A → B) (p : Poll A) : Poll B :=
  match p with Ready a => Ready (f a) | Pending => Pending end.

(** The data of [chain_network] and of the chain library, with the
    conversions of network/convert.rs. *)
Class Wire := {
  NodeId : Type;
  RawHeader : Type;
  Header : Type;
  decode_header : RawHeader → option Header;
  RawFragment : Type;
  Fragment : Type;
  decode_fragment : RawFragment → option Fragment;
  RawNode : Type;
  Node : Type;
  decode_node : RawNode → option Node;
  node_address : Node → Gossip.SocketAddr;
  RawId : Type;
  HeaderId : Type;
  decode_id : RawId → option HeaderId;
}.

(** The message boxes of the tasks ([Channels]). *)
Inductive BoxId := BlockBox | TransactionBox | TopologyBox | ClientBox.

(** [chain_network::error::Code], the codes used here. *)
Inductive Code := Internal | InvalidArgument.
Inductive SendError := mkSendError.

(** What is sent to the tasks.  A handle of a stream is the number of the
    request it belongs to. *)
Section messages.
Context `{Wire}.
Inductive BlockMsg :=
| AnnouncedBlock (header : Header) (node_id : NodeId)
| NetworkBlocks (handle : nat)
| ChainHeaders (handle : nat).
Inductive TransactionMsg :=
| SendTransactions (origin : FragmentOrigin) (fragments : list Fragment) (fail_fast : bool).
Inductive TopologyMsg :=
| AcceptGossip (nodes : list Node)
| PromotePeer (id : NodeId).
Inductive ClientMsg :=
| GetBlocks (ids : list HeaderId)
| PullHeaders (from : list HeaderId) (to : HeaderId).
End messages.

(** The statistics of the table of peers, as the sinks use them. *)
Inductive Activity := OnBlock | OnFragment | OnGossip.
Class PeerTable `{Wire} (P : Type) := refresh_peer : Activity → Z → NodeId → P → P.

(** The answers of the environment at the n-th poll. *)
Class Env := {
  box_ready : BoxId → nat → Poll (result SendError unit);
  box_start : BoxId → nat → result SendError unit;
  box_flush : BoxId → nat → Poll (result SendError unit);
  box_close : BoxId → nat → Poll (result SendError unit);
  peers_lock : nat → Poll unit;
  clock : nat → Z;
}.

Module Subscription.

(** buffer_sizes::inbound::FRAGMENTS *)
Definition FRAGMENTS : nat := 128.

Inductive Direction := Server | Client.

Section subscription.
Context `{Wire} {P : Type} `{!PeerTable P} `{Env}.

(** What the sinks share with the rest of the node: the messages they sent,
    the boxes they closed, the table of peers; and the number of polls. *)
Record World := mkWorld {
  polls : nat;
  block_box : list BlockMsg;
  transaction_box : list TransactionMsg;
  topology_box : list TopologyMsg;
  client_box : list ClientMsg;
  closed : list BoxId;
  peers : P;
}.

Definition tick (w : World) : World :=
  mkWorld (S (polls w)) (block_box w) (transaction_box w) (topology_box w) (client_box w) (closed w) (peers w).
Definition push_block (m : BlockMsg) (w : World) : World :=
  mkWorld (polls w) (block_box w ++ [m]) (transaction_box w) (topology_box w) (client_box w) (closed w) (peers w).
Definition push_transaction (m : TransactionMsg) (w : World) : World :=
  mkWorld (polls w) (block_box w) (transaction_box w ++ [m]) (topology_box w) (client_box w) (closed w) (peers w).
Definition push_topology (m : TopologyMsg) (w : World) : World :=
  mkWorld (polls w) (block_box w) (transaction_box w) (topology_box w ++ [m]) (client_box w) (closed w) (peers w).
Definition push_client (m : ClientMsg) (w : World) : World :=
  mkWorld (polls w) (block_box w) (transaction_box w) (topology_box w) (client_box w ++ [m]) (closed w) (peers w).
Definition add_closed (b : BoxId) (w : World) : World :=
  mkWorld (polls w) (block_box w) (transaction_box w) (topology_box w) (client_box w) (closed w ++ [b]) (peers w).
Definition set_peers (p : P) (w : World) : World :=
  mkWorld (polls w) (block_box w) (transaction_box w) (topology_box w) (client_box w) (closed w) p.

(** ** Polling *)

(** A method of a sink with state [X].  [Poll<Result<A, Error>>] is a program
    that ends with [Poll A], or with an error. *)
Abbreviation sink X := (prog (World * X) Code).

Definition ready_then {S E A B} (m : prog S E (Poll A)) (k : A → prog S E (Poll B)) : prog S E (Poll B) :=
  p ← m; match p with Ready a => k a | Pending => mret Pending end.

(** A question to the environment. *)
Definition ask {E X A} (f : nat → A) : prog (World * X) E A :=
  λ '(w, x), Some ((tick w, x), Ok (f (polls w))).
Definition world {E X} (f : World → World) : prog (World * X) E unit :=
  λ '(w, x), Some ((f w, x), Ok tt).
Definition local {E X} (f : X → X) : prog (World * X) E unit :=
  λ '(w, x), Some ((w, f x), Ok tt).

(** *** Message boxes (async_msg.rs) *)
Definition settle {X A} (p : Poll (result SendError A)) : sink X (Poll A) :=
  match p with
  | Pending => mret Pending
  | Ready (Ok a) => mret (Ready a)
  | Ready (Err _) => throw Internal
  end.
Definition mbox_poll_ready {X} (b : BoxId) : sink X (Poll unit) := ask (box_ready b) ≫= settle.
Definition mbox_poll_flush {X} (b : BoxId) : sink X (Poll unit) := ask (box_flush b) ≫= settle.
Definition mbox_poll_close {X} (b : BoxId) : sink X (Poll unit) :=
  ready_then (ask (box_close b) ≫= settle) (λ _, world (add_closed b);; mret (Ready tt)).
Definition mbox_start_send {X} (b : BoxId) (push : World → World) : sink X unit :=
  r ← ask (box_start b);
  match r with Ok _ => world push | Err _ => throw Internal end.

(** *** PendingProcessing *)

(** The futures that are started: the refresh of the statistics, and, for
    gossip, its join with the sending of messages.  [flushing]: the message
    before [sends] was handed over and is being flushed. *)
Record Fut := mkFut { refresh : option Activity; flushing : bool; sends : list TopologyMsg }.

Definition refresh_fut (a : Activity) : Fut := mkFut (Some a) false [].

Definition PendingProcessing : Type := option Fut.

(** [state.peers.refresh_peer_on_...(&node_id).await]: waits for the lock. *)
Definition poll_refresh (node_id : NodeId) (o : option Activity) (w : World) : World * option Activity :=
  match o with
  | None => (w, None)
  | Some a =>
      match peers_lock (polls w) with
      | Pending => (tick w, Some a)
      | Ready _ => (set_peers (refresh_peer a (clock (polls w)) node_id (peers w)) (tick w), None)
      end
  end.

(** [mbox.send(m).await] for every message: it waits for room, hands over the
    message and flushes; errors are logged and the next message follows. *)
Definition after_start (m : TopologyMsg) (next : World → World * (bool * list TopologyMsg))
    (rest : list TopologyMsg) (w : World) : World * (bool * list TopologyMsg) :=
  let started := box_start TopologyBox (polls w) in
  let w := tick w in
  match started with
  | Err _ => next w
  | Ok _ =>
      let w := push_topology m w in
      match box_flush TopologyBox (polls w) with
      | Pending => (tick w, (true, rest))
      | Ready _ => next (tick w)
      end
  end.

Fixpoint poll_messages (l : list TopologyMsg) (w : World) : World * (bool * list TopologyMsg) :=
  match l with
  | [] => (w, (false, []))
  | m :: rest =>
      match box_ready TopologyBox (polls w) with
      | Pending => (tick w, (false, l))
      | Ready (Err _) => poll_messages rest (tick w)
      | Ready (Ok _) => after_start m (poll_messages rest) rest (tick w)
      end
  end.

Definition poll_sends (flushing : bool) (l : list TopologyMsg) (w : World)
    : World * (bool * list TopologyMsg) :=
  if flushing
  then match box_flush TopologyBox (polls w) with
       | Pending => (tick w, (true, l))
       | Ready _ => poll_messages l (tick w)
       end
  else poll_messages l w.

(** [future::join] polls both parts. *)
Definition poll_fut (node_id : NodeId) (f : Fut) (w : World) : World * Fut :=
  let '(w, r) := poll_refresh node_id (refresh f) w in
  let '(w, (fl, l)) := poll_sends (flushing f) (sends f) w in
  (w, mkFut r fl l).

Definition fut_done (f : Fut) : bool :=
  match f with mkFut None false [] => true | _ => false end.

Definition start (f : Fut) (p : PendingProcessing) : PendingProcessing := Some f.

Definition poll_complete (node_id : NodeId) (p : PendingProcessing) (w : World)
    : World * PendingProcessing * Poll unit :=
  match p with
  | None => (w, None, Ready tt)
  | Some f =>
      let '(w, f) := poll_fut node_id f w in
      if fut_done f then (w, None, Ready tt) else (w, Some f, Pending)
  end.

(** ** BlockAnnouncementProcessor *)
Record BlockAnnouncementProcessor := mkBlockProc {
  ba_node_id : NodeId;
  ba_pending : PendingProcessing;
}.

Definition block_new (node_id : NodeId) : BlockAnnouncementProcessor := mkBlockProc node_id None.

Definition block_poll_complete : sink BlockAnnouncementProcessor (Poll unit) := λ '(w, x),
  let '(w, p, r) := poll_complete (ba_node_id x) (ba_pending x) w in
  Some ((w, mkBlockProc (ba_node_id x) p), Ok r).

Definition block_refresh_stat (x : BlockAnnouncementProcessor) : BlockAnnouncementProcessor :=
  mkBlockProc (ba_node_id x) (start (refresh_fut OnBlock) (ba_pending x)).

(** A pending refresh does not keep the box from being flushed. *)
Definition block_or_flush (k : sink BlockAnnouncementProcessor (Poll unit))
    : sink BlockAnnouncementProcessor (Poll unit) :=
  c ← block_poll_complete;
  match c with
  | Pending => ready_then (mbox_poll_flush BlockBox) (λ _, mret Pending)
  | Ready _ => k
  end.

Definition block_poll_ready : sink BlockAnnouncementProcessor (Poll unit) :=
  block_or_flush (mbox_poll_ready BlockBox).
Definition block_start_send (raw_header : RawHeader) : sink BlockAnnouncementProcessor unit :=
  match decode_header raw_header with
  | None => throw InvalidArgument
  | Some header =>
      node_id ← gets (λ s, ba_node_id s.2);
      mbox_start_send BlockBox (push_block (AnnouncedBlock header node_id));;
      local block_refresh_stat
  end.
Definition block_poll_flush : sink BlockAnnouncementProcessor (Poll unit) :=
  block_or_flush (mbox_poll_flush BlockBox).
Definition block_poll_close : sink BlockAnnouncementProcessor (Poll unit) :=
  block_or_flush (mbox_poll_close BlockBox).

(** ** FragmentProcessor *)
Record FragmentProcessor := mkFragmentProc {
  fp_node_id : NodeId;
  buffered_fragments : list Fragment;
  fp_pending : PendingProcessing;
}.

Definition fragment_new (node_id : NodeId) : FragmentProcessor := mkFragmentProc node_id [] None.

Definition set_buffered (l : list Fragment) (x : FragmentProcessor) : FragmentProcessor :=
  mkFragmentProc (fp_node_id x) l (fp_pending x).

Definition fragment_refresh_stat (x : FragmentProcessor) : FragmentProcessor :=
  mkFragmentProc (fp_node_id x) (buffered_fragments x) (start (refresh_fut OnFragment) (fp_pending x)).

Definition poll_complete_refresh_stat : sink FragmentProcessor (Poll unit) := λ '(w, x),
  let '(w, p, r) := poll_complete (fp_node_id x) (fp_pending x) w in
  Some ((w, mkFragmentProc (fp_node_id x) (buffered_fragments x) p), Ok r).

(** [mem::replace] empties the buffer before the message is taken. *)
Definition poll_send_fragments : sink FragmentProcessor (Poll unit) :=
  ready_then (mbox_poll_ready TransactionBox) (λ _,
    fragments ← gets (λ s, buffered_fragments s.2);
    local (set_buffered []);;
    mbox_start_send TransactionBox (push_transaction (SendTransactions Network fragments false));;
    local fragment_refresh_stat;;
    mret (Ready tt)).

(** [assert!] and [debug_assert!] panic. *)
Definition assert {S E} (b : bool) : prog S E unit := if b then mret tt else panic.
Definition is_empty {A} (l : list A) : bool := match l with [] => true | _ => false end.

Definition fragment_poll_ready : sink FragmentProcessor (Poll unit) :=
  n ← gets (λ s, length (buffered_fragments s.2));
  if FRAGMENTS <=? n
  then ready_then poll_send_fragments (λ _,
         e ← gets (λ s, is_empty (buffered_fragments s.2));
         assert e;; mret (Ready tt))
  else mret (Ready tt).

Definition fragment_start_send (raw_fragment : RawFragment) : sink FragmentProcessor unit :=
  n ← gets (λ s, length (buffered_fragments s.2));
  assert (n <? FRAGMENTS);;
  match decode_fragment raw_fragment with
  | None => throw InvalidArgument
  | Some fragment => local (λ x, set_buffered (buffered_fragments x ++ [fragment]) x)
  end.

(** The loops of [poll_flush] and [poll_close]; [last] is what follows when
    the buffer is empty. *)
Fixpoint drain (fuel : nat) (last : sink FragmentProcessor (Poll unit)) : sink FragmentProcessor (Poll unit) :=
  match fuel with
  | O => panic
  | S fuel =>
      e ← gets (λ s, is_empty (buffered_fragments s.2));
      match e with true => last | false => ready_then poll_send_fragments (λ _, drain fuel last) end
  end.

Definition flush_empty : sink FragmentProcessor (Poll unit) :=
  c ← poll_complete_refresh_stat;
  match c with
  | Pending => ready_then (mbox_poll_flush TransactionBox) (λ _, mret Pending)
  | Ready _ => mbox_poll_flush TransactionBox
  end.
Definition close_empty : sink FragmentProcessor (Poll unit) :=
  ready_then poll_complete_refresh_stat (λ _, mbox_poll_close TransactionBox).
Definition fragment_poll_flush : sink FragmentProcessor (Poll unit) := drain 2 flush_empty.
Definition fragment_poll_close : sink FragmentProcessor (Poll unit) := drain 2 close_empty.

(** ** GossipProcessor *)
Record GossipProcessor := mkGossipProc {
  gp_node_id : NodeId;
  allow_private_addresses : bool;
  gp_pending : PendingProcessing;
  peer_promoted : bool;
}.

Definition gossip_new (node_id : NodeId) (allow_private : bool) (direction : Direction) : GossipProcessor :=
  mkGossipProc node_id allow_private None (match direction with Client => true | Server => false end).

Definition gossip_poll_complete : sink GossipProcessor (Poll unit) := λ '(w, x),
  let '(w, p, r) := poll_complete (gp_node_id x) (gp_pending x) w in
  Some ((w, mkGossipProc (gp_node_id x) (allow_private_addresses x) p (peer_promoted x)), Ok r).

Definition gossip_poll_ready : sink GossipProcessor (Poll unit) :=
  ready_then gossip_poll_complete (λ _, mret (Ready tt)).

Definition keep_node (allow_private : bool) (n : Node) : bool :=
  Gossip.filter_gossip_node allow_private (node_address n).

Definition gossip_start_send (nodes : list RawNode) : sink GossipProcessor unit :=
  match mapM decode_node nodes with
  | None => throw InvalidArgument
  | Some nodes =>
      local (λ x,
        let nodes := filter (λ n, keep_node (allow_private_addresses x) n = true) nodes in
        let fut := mkFut (Some OnGossip) false
          (AcceptGossip nodes :: if peer_promoted x then [] else [PromotePeer (gp_node_id x)]) in
        mkGossipProc (gp_node_id x) (allow_private_addresses x) (start fut (gp_pending x)) true)
  end.
Definition gossip_poll_flush : sink GossipProcessor (Poll unit) :=
  ready_then gossip_poll_complete (λ _, mret (Ready tt)).
Definition gossip_poll_close : sink GossipProcessor (Poll unit) :=
  ready_then gossip_poll_complete (λ _, mret (Ready tt)).

(** ** Sinks

    The interface of [futures::Sink], and the ways it may be used: an item is
    sent only after [poll_ready] has answered [Ready], and nothing is called
    after an error.  Other tasks may change the table of peers between two
    calls. *)
Class Sink (Item X : Type) := {
  sink_ready : sink X (Poll unit);
  sink_send : Item → sink X unit;
  sink_flush : sink X (Poll unit);
  sink_close : sink X (Poll unit);
}.

#[global] Instance block_sink : Sink RawHeader BlockAnnouncementProcessor := {|
  sink_ready := block_poll_ready; sink_send := block_start_send;
  sink_flush := block_poll_flush; sink_close := block_poll_close |}.
#[global] Instance fragment_sink : Sink RawFragment FragmentProcessor := {|
  sink_ready := fragment_poll_ready; sink_send := fragment_start_send;
  sink_flush := fragment_poll_flush; sink_close := fragment_poll_close |}.
#[global] Instance gossip_sink : Sink (list RawNode) GossipProcessor := {|
  sink_ready := gossip_poll_ready; sink_send := gossip_start_send;
  sink_flush := gossip_poll_flush; sink_close := gossip_poll_close |}.

Definition is_ready {A} (p : Poll A) : bool := match p with Ready _ => true | Pending => false end.

(** [used s0 s ok items]: from [s0], calls have led to [s]; [ok] says that an
    item may be sent, [items] are those sent so far. *)
Inductive used {Item X} `{!Sink Item X} (s0 : World * X) : World * X → bool → list Item → Prop :=
| used_new : used s0 s0 false []
| used_ready s ok items s' r :
    used s0 s ok items → sink_ready s = Some (s', Ok r) → used s0 s' (is_ready r) items
| used_send s items item s' :
    used s0 s true items → sink_send item s = Some (s', Ok tt) → used s0 s' false (items ++ [item])
| used_flush s ok items s' r :
    used s0 s ok items → sink_flush s = Some (s', Ok r) → used s0 s' ok items
| used_close s ok items s' r :
    used s0 s ok items → sink_close s = Some (s', Ok r) → used s0 s' ok items
| used_peers w x ok items p :
    used s0 (w, x) ok items → used s0 (set_peers p w, x) ok items.

(** *** Reasoning about polls *)

(** Of the boxes, at most [b] has changed. *)
Record only (b : BoxId) (w w' : World) : Prop := {
  only_polls : polls w ≤ polls w';
  only_block : b ≠ BlockBox → block_box w' = block_box w;
  only_transaction : b ≠ TransactionBox → transaction_box w' = transaction_box w;
  only_topology : b ≠ TopologyBox → topology_box w' = topology_box w;
  only_client : b ≠ ClientBox → client_box w' = client_box w;
}.

#[global] Instance only_preorder b : PreOrder (only b).
Proof.
  split; [by constructor|]. intros w1 w2 w3 [? H1 H2 H3 H4] [? K1 K2 K3 K4].
  constructor; [lia|intros Hb..]; [rewrite K1|rewrite K2|rewrite K3|rewrite K4]; auto.
Qed.

(** From a state in [Pre], [m] does not panic, changes only the box [b], and
    ends in [Post], or in [Ex] with an error. *)
Definition triple {X A} (b : BoxId) (Pre : World → X → Prop) (m : sink X A)
    (Post : A → World → X → Prop) (Ex : World → X → Prop) : Prop :=
  ∀ w x, Pre w x →
    match m (w, x) with
    | Some ((w', x'), Ok a) => only b w w' ∧ Post a w' x'
    | Some ((w', x'), Err _) => only b w w' ∧ Ex w' x'
    | None => False
    end.

Section triples.
Context {X : Type}.
Implicit Types (Pre Ex : World → X → Prop) (b : BoxId).

Lemma triple_bind {A B} b Pre Ex (m : sink X A) (k : A → sink X B) Mid Post :
  triple b Pre m Mid Ex → (∀ a, triple b (Mid a) (k a) Post Ex) → triple b Pre (mbind k m) Post Ex.
Proof.
  intros Hm Hk w x Hpre. specialize (Hm w x Hpre). unfold mbind, prog_bind.
  destruct (m (w, x)) as [[[w1 x1] [a|e]]|]; [|done..]. destruct Hm as [Ho HM].
  specialize (Hk a w1 x1 HM).
  destruct (k a (w1, x1)) as [[[w2 x2] [a2|e]]|]; [| |done]; destruct Hk; (split; [by etrans|done]).
Qed.
Lemma triple_ret {A} b Pre Ex (a : A) : triple b Pre (mret a) (λ a' w x, a' = a ∧ Pre w x) Ex.
Proof. by intros w x Hpre. Qed.
Lemma triple_conseq {A} b Pre Pre' Ex Ex' (m : sink X A) Post Post' :
  triple b Pre m Post Ex → (∀ w x, Pre' w x → Pre w x) →
  (∀ a w x, Post a w x → Post' a w x) → (∀ w x, Ex w x → Ex' w x) → triple b Pre' m Post' Ex'.
Proof.
  intros Hm HP HQ HE w x Hpre. specialize (Hm w x (HP _ _ Hpre)).
  destruct (m (w, x)) as [[[w1 x1] [a|e]]|]; naive_solver.
Qed.
Lemma triple_ready {A B} b Pre Ex (m : sink X (Poll A)) (k : A → sink X (Poll B)) Mid Post :
  triple b Pre m Mid Ex → (∀ w x, Mid Pending w x → Post Pending w x) →
  (∀ a, triple b (Mid (Ready a)) (k a) Post Ex) → triple b Pre (ready_then m k) Post Ex.
Proof.
  intros Hm Hp Hk. eapply triple_bind; [done|]. intros [a|]; [apply Hk|].
  intros w x HM. split; [done|by apply Hp].
Qed.
Lemma triple_gets {A} b Pre Ex (f : World * X → A) :
  triple b Pre (gets f) (λ a w x, a = f (w, x) ∧ Pre w x) Ex.
Proof. by intros w x Hpre. Qed.
Lemma triple_local b Pre Ex (f : X → X) Post :
  (∀ w x, Pre w x → Post tt w (f x)) → triple b Pre (local f) Post Ex.
Proof. intros HP w x Hpre. split; [done|by apply HP]. Qed.
Lemma triple_pure {A} b Pre Ex (φ : Prop) (m : sink X A) Post :
  (φ → triple b Pre m Post Ex) → triple b (λ w x, φ ∧ Pre w x) m Post Ex.
Proof. intros Hm w x [Hφ Hpre]. by apply Hm. Qed.

Lemma only_tick b w : only b w (tick w).
Proof. constructor; simpl; auto with lia. Qed.

(** The boxes: [Pre] does not depend on the number of polls. *)
Definition polled Pre : Prop := ∀ w x, Pre w x → Pre (tick w) x.

Lemma triple_settle b Pre Ex (f : nat → Poll (result SendError unit)) :
  polled Pre → (∀ w x, Pre w x → Ex w x) →
  triple b Pre (ask f ≫= settle : sink X (Poll unit)) (λ _, Pre) Ex.
Proof.
  intros Ht HE w x Hpre. unfold mbind, prog_bind, ask, settle. pose proof (only_tick b w).
  destruct (f (polls w)) as [[]|]; simpl; auto.
Qed.
Lemma triple_mbox_ready b b' Pre Ex :
  polled Pre → (∀ w x, Pre w x → Ex w x) → triple b Pre (mbox_poll_ready b') (λ _, Pre) Ex.
Proof. apply triple_settle. Qed.
Lemma triple_mbox_flush b b' Pre Ex :
  polled Pre → (∀ w x, Pre w x → Ex w x) → triple b Pre (mbox_poll_flush b') (λ _, Pre) Ex.
Proof. apply triple_settle. Qed.
Lemma triple_mbox_close b b' Pre Ex :
  polled Pre → (∀ w x, Pre w x → Ex w x) → (∀ w x, Pre w x → Pre (add_closed b' w) x) →
  triple b Pre (mbox_poll_close b') (λ _, Pre) Ex.
Proof.
  intros Ht HE Hc. eapply triple_ready; [by apply triple_settle|done|]. intros [] w x Hpre.
  split; [by constructor|]. by apply Hc.
Qed.
Lemma triple_mbox_send b Pre Ex (push : World → World) Post :
  polled Pre → (∀ w x, Pre w x → Ex w x) →
  (∀ w x, Pre w x → only b w (push w) ∧ Post tt (push w) x) →
  triple b Pre (mbox_start_send b push) Post Ex.
Proof.
  intros Ht HE Hp w x Hpre. unfold mbox_start_send, mbind, prog_bind, ask. simpl.
  pose proof (only_tick b w) as Ho. destruct (box_start b (polls w)); simpl; [|by auto].
  destruct (Hp (tick w) x (Ht _ _ Hpre)). split; [by etrans|done].
Qed.
End triples.

(** What a sink promises to the one who uses it: with the items [items] sent
    so far, its box and its state are related by [I]; it never panics, changes
    no other box and leaves [E] on an error; [D] holds when it has been
    flushed or closed. *)
Class SinkSpec {Item X Msg} `{!Sink Item X} (b : BoxId) (outbox : World → list Msg)
    (I : bool → list Item → list Msg → X → Prop) (E : list Item → list Msg → Prop) (D : X → Prop) : Prop := {
  spec_ready ok items :
    triple b (λ w x, I ok items (outbox w) x) sink_ready
      (λ r w x, I (is_ready r) items (outbox w) x) (λ w _, E items (outbox w));
  spec_send items item :
    triple b (λ w x, I true items (outbox w) x) (sink_send item)
      (λ _ w x, I false (items ++ [item]) (outbox w) x) (λ w _, E items (outbox w));
  spec_flush ok items :
    triple b (λ w x, I ok items (outbox w) x) sink_flush
      (λ r w x, I ok items (outbox w) x ∧ (r = Ready tt → D x)) (λ w _, E items (outbox w));
  spec_close ok items :
    triple b (λ w x, I ok items (outbox w) x) sink_close
      (λ r w x, I ok items (outbox w) x ∧ (r = Ready tt → D x)) (λ w _, E items (outbox w));
  spec_peers w p : outbox (set_peers p w) = outbox w;
}.

Lemma triple_run {X A} b Pre (m : sink X A) Post Ex s s' a :
  triple b Pre m Post Ex → Pre s.1 s.2 → m s = Some (s', Ok a) → only b s.1 s'.1 ∧ Post a s'.1 s'.2.
Proof. destruct s as [w x]. intros Hm Hp Heq. specialize (Hm w x Hp). rewrite Heq in Hm. by destruct s'. Qed.

Lemma used_spec {Item X Msg} `{!Sink Item X} b (outbox : World → list Msg) Inv Er D
    `{HS : !SinkSpec b outbox Inv Er D} s0 s ok items :
  Inv false [] (outbox s0.1) s0.2 → used s0 s ok items → only b s0.1 s.1 ∧ Inv ok items (outbox s.1) s.2.
Proof.
  intros Hinit. induction 1 as [|s ok items s' r _ [Ho IH] Hr|s items item s' _ [Ho IH] Hr
    |s ok items s' r _ [Ho IH] Hr|s ok items s' r _ [Ho IH] Hr|w x ok items p _ [Ho IH]]; [done|..].
  1: destruct (triple_run _ _ _ _ _ _ _ _ (spec_ready ok items) IH Hr); split; [by etrans|done].
  1: destruct (triple_run _ _ _ _ _ _ _ _ (spec_send items item) IH Hr); split; [by etrans|done].
  1: destruct (triple_run _ _ _ _ _ _ _ _ (spec_flush ok items) IH Hr) as (? & ? & _); split; [by etrans|done].
  1: destruct (triple_run _ _ _ _ _ _ _ _ (spec_close ok items) IH Hr) as (? & ? & _); split; [by etrans|done].
  simpl in *. rewrite spec_peers. split; [|done]. etrans; [done|by constructor].
Qed.

(** A program that ends, with or without an error. *)
Definition runs {S E A} (m : prog S E A) (s : S) : bool := match m s with Some _ => true | None => false end.

Lemma triple_runs {X A} b Pre (m : sink X A) Post Ex s :
  triple b Pre m Post Ex → Pre s.1 s.2 → runs m s = true.
Proof. destruct s as [w x]. intros Hm Hp. specialize (Hm w x Hp). unfold runs. by destruct (m (w, x)). Qed.

(** *** The refresh of the statistics *)
Definition quiet (p : PendingProcessing) : Prop :=
  match p with None => True | Some f => flushing f = false ∧ sends f = [] end.

Lemma poll_refresh_only b id o w : 
  let w' := (poll_refresh id o w).1 in
  only b w w' ∧ block_box w' = block_box w ∧ transaction_box w' = transaction_box w ∧
  topology_box w' = topology_box w ∧ client_box w' = client_box w.
Proof.
  unfold poll_refresh. destruct o; [|done]. destruct (peers_lock (polls w)); simpl; repeat split; simpl; auto with lia.
Qed.

Lemma poll_complete_quiet b id p w :
  quiet p →
  match poll_complete id p w with
  | (w', p', r) => only b w w' ∧ block_box w' = block_box w ∧ transaction_box w' = transaction_box w ∧
                   quiet p' ∧ (r = Ready tt → p' = None)
  end.
Proof.
  intros Hq. destruct p as [[o fl l]|]; [|done]. destruct Hq as [Hfl Hl]. simpl in *. subst.
  unfold poll_fut. simpl. pose proof (poll_refresh_only b id o w) as (? & ? & ? & ? & ?).
  destruct (poll_refresh id o w) as [w' o'] eqn:E. simpl in *. destruct o'; simpl; naive_solver.
Qed.

Lemma mapM_snoc {A B} (f : A → option B) l k a b :
  mapM f l = Some k → f a = Some b → mapM f (l ++ [a]) = Some (k ++ [b]).
Proof. rewrite !mapM_Some. intros Hl Ha. apply Forall2_app; [done|by constructor]. Qed.

(** *** Block announcements *)
Definition announcement (m : BlockMsg) : option (Header * NodeId) :=
  match m with AnnouncedBlock h n => Some (h, n) | _ => None end.

Definition block_inv (node_id : NodeId) (ok : bool) (items : list RawHeader) (box : list BlockMsg)
    (x : BlockAnnouncementProcessor) : Prop :=
  (∃ hs, mapM decode_header items = Some hs ∧ omap announcement box = (λ h, (h, node_id)) <$> hs) ∧
  ba_node_id x = node_id ∧ quiet (ba_pending x).
Definition block_err (node_id : NodeId) (items : list RawHeader) (box : list BlockMsg) : Prop :=
  ∃ hs, mapM decode_header items = Some hs ∧ omap announcement box = (λ h, (h, node_id)) <$> hs.
Definition block_idle (x : BlockAnnouncementProcessor) : Prop := ba_pending x = None.

Lemma block_inv_err node_id ok items box x : block_inv node_id ok items box x → block_err node_id items box.
Proof. by intros [? _]. Qed.

Lemma block_or_flush_spec node_id ok ok' items k Ex :
  (∀ w x, block_inv node_id ok items (block_box w) x → Ex w x) →
  triple BlockBox (λ w x, block_inv node_id ok items (block_box w) x ∧ block_idle x) k
    (λ r w x, block_inv node_id ok items (block_box w) x ∧ block_idle x) Ex →
  triple BlockBox (λ w x, block_inv node_id ok items (block_box w) x) (block_or_flush k)
    (λ r w x, block_inv node_id ok' items (block_box w) x ∧ (r = Ready tt → block_idle x)) Ex.
Proof.
  intros HE Hk. eapply (triple_bind _ _ _ _ _
    (λ r w x, block_inv node_id ok items (block_box w) x ∧ (r = Ready tt → block_idle x))).
  - intros w x (Hb & Hn & Hq). unfold block_poll_complete.
    pose proof (poll_complete_quiet BlockBox (ba_node_id x) (ba_pending x) w Hq) as Hc.
    destruct (poll_complete _ _ w) as [[w' p'] r]. destruct Hc as (Ho & Hbb & _ & Hq' & Hd).
    split; [done|]. split; [|done]. rewrite Hbb. by repeat split.
  - intros [[]|].
    + eapply triple_conseq; [apply Hk|naive_solver..].
    + eapply triple_ready; [apply triple_mbox_flush|..].
      * by intros w x.
      * intros w x []. by apply HE.
      * by intros w x [].
      * intros [] w x []. by split.
Qed.

#[global] Instance block_sink_spec node_id :
  SinkSpec BlockBox block_box (block_inv node_id) (block_err node_id) block_idle.
Proof.
  split; intros.
  - eapply triple_conseq.
    + apply (block_or_flush_spec node_id ok true items); [intros w x; apply block_inv_err|].
      apply triple_mbox_ready; [by intros w x|]. intros w x [? _]. by eapply block_inv_err.
    + done.
    + by intros r w x [? _].
    + done.
  - simpl. unfold block_start_send. destruct (decode_header item) as [h|] eqn:Hd.
    2: { intros w x Hb. split; [done|by eapply block_inv_err]. }
    eapply triple_bind; [apply triple_gets|]. intros n.
    eapply (triple_bind _ _ _ _ _ (λ _ w x, block_inv node_id false (items ++ [item]) (block_box w) x)).
    + apply triple_mbox_send; [by intros w x|intros w x [_ ?]; by eapply block_inv_err|].
      intros w x (-> & (hs & Hhs & Hb) & Hid & Hq). split; [by constructor|]. simpl in *. subst node_id.
      split; [|done]. exists (hs ++ [h]). split; [by apply mapM_snoc|].
      by rewrite omap_app, fmap_app, Hb.
    + intros []. apply triple_local. intros w x (Hb & Hid & Hq). by repeat split.
  - apply block_or_flush_spec; [intros w x; apply block_inv_err|].
    apply triple_mbox_flush; [by intros w x|]. intros w x [? _]. by eapply block_inv_err.
  - apply block_or_flush_spec; [intros w x; apply block_inv_err|].
    apply triple_mbox_close; [by intros w x| |by intros w x]. intros w x [? _]. by eapply block_inv_err.
  - done.
Qed.

(** *** Fragments *)
Definition batch (m : TransactionMsg) : list Fragment := match m with SendTransactions _ fs _ => fs end.
Definition good_batch (m : TransactionMsg) : Prop :=
  m = SendTransactions Network (batch m) false ∧ 1 ≤ length (batch m) ≤ FRAGMENTS.

Definition fragment_inv (ok : bool) (items : list RawFragment) (box : list TransactionMsg)
    (x : FragmentProcessor) : Prop :=
  mapM decode_fragment items = Some (concat (batch <$> box) ++ buffered_fragments x) ∧
  Forall good_batch box ∧ length (buffered_fragments x) ≤ FRAGMENTS ∧
  (ok = true → length (buffered_fragments x) < FRAGMENTS) ∧ quiet (fp_pending x).
Definition fragment_err (items : list RawFragment) (box : list TransactionMsg) : Prop :=
  ∃ fs, mapM decode_fragment items = Some fs ∧ concat (batch <$> box) `prefix_of` fs ∧ Forall good_batch box.
Definition fragment_idle (x : FragmentProcessor) : Prop := buffered_fragments x = [] ∧ fp_pending x = None.

Lemma fragment_inv_err ok items box x : fragment_inv ok items box x → fragment_err items box.
Proof. intros (Hd & Hg & _). eexists. split; [done|]. split; [by apply prefix_app_r|done]. Qed.

Lemma fragment_inv_empty ok ok' items box x :
  fragment_inv ok items box x → buffered_fragments x = [] → fragment_inv ok' items box x.
Proof. intros (Hd & Hg & Hl & Hok & Hq) He. repeat split; auto. rewrite He. simpl. unfold FRAGMENTS. lia. Qed.

Lemma poll_send_fragments_spec ok items :
  triple TransactionBox
    (λ w x, fragment_inv ok items (transaction_box w) x ∧ buffered_fragments x ≠ []) poll_send_fragments
    (λ r w x, fragment_inv ok items (transaction_box w) x ∧ (r = Ready tt → buffered_fragments x = []))
    (λ w _, fragment_err items (transaction_box w)).
Proof.
  eapply triple_ready; [apply triple_mbox_ready; [by intros w x|]|..].
  { intros w x [? _]. by eapply fragment_inv_err. }
  { by intros w x [? _]. }
  intros []. eapply triple_bind; [apply triple_gets|]. intros fs.
  set (Mid := λ w (x : FragmentProcessor),
    mapM decode_fragment items = Some (concat (batch <$> transaction_box w) ++ fs) ∧
    Forall good_batch (transaction_box w) ∧ 1 ≤ length fs ≤ FRAGMENTS ∧ quiet (fp_pending x) ∧
    buffered_fragments x = []).
  eapply (triple_bind _ _ _ _ _ (λ _, Mid)).
  { apply triple_local. intros w x (-> & (Hd & Hg & Hl & _ & Hq) & Hne). simpl in *.
    repeat split; auto. destruct (buffered_fragments x); [done|simpl; lia]. }
  intros []. eapply (triple_bind _ _ _ _ _
    (λ _ w x, fragment_inv ok items (transaction_box w) x ∧ buffered_fragments x = [])).
  { apply triple_mbox_send; [by intros w x|..].
    - intros w x (Hd & Hg & _). eexists. split; [done|]. split; [by apply prefix_app_r|done].
    - intros w x (Hd & Hg & Hl & Hq & He). split; [by constructor|]. simpl. split; [|done].
      unfold fragment_inv. simpl. rewrite fmap_app, concat_app, He. simpl. rewrite !app_nil_r.
      repeat split; auto; [|unfold FRAGMENTS; simpl; lia..].
      apply Forall_app. split; [done|]. constructor; [by split|done]. }
  intros []. eapply (triple_bind _ _ _ _ _
    (λ _ w x, fragment_inv ok items (transaction_box w) x ∧ buffered_fragments x = [])).
  { apply triple_local. intros w x [(Hd & Hg & Hl & Hok & Hq) He]. by repeat split. }
  intros [] w x [Hi He]. by split.
Qed.

Lemma fragment_drain_spec ok items fuel last :
  triple TransactionBox (λ w x, fragment_inv ok items (transaction_box w) x ∧ buffered_fragments x = []) last
    (λ r w x, fragment_inv ok items (transaction_box w) x ∧ (r = Ready tt → fragment_idle x))
    (λ w _, fragment_err items (transaction_box w)) →
  triple TransactionBox (λ w x, fragment_inv ok items (transaction_box w) x) (drain (S (S fuel)) last)
    (λ r w x, fragment_inv ok items (transaction_box w) x ∧ (r = Ready tt → fragment_idle x))
    (λ w _, fragment_err items (transaction_box w)).
Proof.
  intros Hlast. simpl. eapply triple_bind; [apply triple_gets|]. intros [].
  - eapply triple_conseq; [apply Hlast| |done..]. intros w x [He Hi]. split; [done|].
    simpl in He. by destruct (buffered_fragments x).
  - eapply (triple_ready _ _ _ _ _
      (λ r w x, fragment_inv ok items (transaction_box w) x ∧ (r = Ready tt → buffered_fragments x = []))).
    + eapply triple_conseq; [apply (poll_send_fragments_spec ok items)| |done..]. intros w x [He Hi]. split; [done|].
      simpl in He. by destruct (buffered_fragments x).
    + intros w x [Hi _]. by split.
    + intros []. eapply triple_bind; [apply triple_gets|]. intros [].
      * eapply triple_conseq; [apply Hlast| |done..]. naive_solver.
      * intros w x (He & Hi & Hb). simpl in He. rewrite Hb in He; [done..].
Qed.

Lemma complete_refresh_spec ok items Ex :
  triple TransactionBox (λ w x, fragment_inv ok items (transaction_box w) x ∧ buffered_fragments x = [])
    poll_complete_refresh_stat
    (λ r w x, fragment_inv ok items (transaction_box w) x ∧ buffered_fragments x = [] ∧
              (r = Ready tt → fragment_idle x)) Ex.
Proof.
  intros w x [(Hd & Hg & Hl & Hok & Hq) He]. unfold poll_complete_refresh_stat.
  pose proof (poll_complete_quiet TransactionBox (fp_node_id x) (fp_pending x) w Hq) as Hc.
  destruct (poll_complete _ _ w) as [[w' p'] r]. destruct Hc as (Ho & _ & Htb & Hq' & Hdone).
  split; [done|]. unfold fragment_inv, fragment_idle. rewrite Htb. simpl. auto 8.
Qed.

#[global] Instance fragment_sink_spec :
  SinkSpec TransactionBox transaction_box fragment_inv fragment_err fragment_idle.
Proof.
  split; intros.
  - simpl. unfold fragment_poll_ready. eapply triple_bind; [apply triple_gets|]. intros n.
    destruct (FRAGMENTS <=? n) eqn:Hn.
    + apply Nat.leb_le in Hn. eapply triple_ready.
      * eapply triple_conseq; [apply (poll_send_fragments_spec ok items)| |done..].
        intros w x [-> Hi]. split; [done|]. simpl in Hn. intros He. rewrite He in Hn. unfold FRAGMENTS in Hn. simpl in Hn. lia.
      * intros w x [(Hd & Hg & Hl & Hok & Hq) _]. by repeat split.
      * intros []. eapply triple_bind; [apply triple_gets|]. intros e w x (-> & Hi & Hb). simpl.
        rewrite (Hb eq_refl). split; [done|]. eapply fragment_inv_empty; [done|by apply Hb].
    + apply Nat.leb_gt in Hn. intros w x [-> (Hd & Hg & Hl & Hok & Hq)]. simpl in Hn. by repeat split.
  - simpl. unfold fragment_start_send. eapply triple_bind; [apply triple_gets|]. intros n.
    intros w x [-> Hi]. pose proof Hi as (Hd & Hg & Hl & Hok & Hq). simpl.
    rewrite (proj2 (Nat.ltb_lt _ _) (Hok eq_refl)). simpl.
    destruct (decode_fragment item) as [f|] eqn:Hf; simpl.
    + split; [done|]. unfold fragment_inv. simpl. rewrite length_app, app_assoc. simpl.
      specialize (Hok eq_refl). repeat split; [by apply mapM_snoc|done|lia|done|done].
    + split; [done|by eapply fragment_inv_err].
  - apply fragment_drain_spec. eapply triple_bind; [apply complete_refresh_spec|]. intros [[]|].
    + eapply triple_conseq.
      * apply (triple_mbox_flush _ _ (λ w x, fragment_inv ok items (transaction_box w) x ∧ fragment_idle x)
                 (λ w _, fragment_err items (transaction_box w))); [by intros w x|].
        intros w x [Hi _]. by eapply fragment_inv_err.
      * naive_solver.
      * by intros r w x [].
      * done.
    + eapply triple_ready; [apply triple_mbox_flush; [by intros w x|]|..].
      * intros w x [Hi _]. by eapply fragment_inv_err.
      * by intros w x [Hi _].
      * intros [] w x [Hi _]. by split.
  - apply fragment_drain_spec. eapply triple_ready; [apply complete_refresh_spec|by intros w x (? & _)|].
    intros []. eapply triple_conseq.
    + apply (triple_mbox_close _ _ (λ w x, fragment_inv ok items (transaction_box w) x ∧ fragment_idle x)
               (λ w _, fragment_err items (transaction_box w))); [by intros w x| |by intros w x].
      intros w x [Hi _]. by eapply fragment_inv_err.
    + naive_solver.
    + by intros r w x [].
    + done.
  - done.
Qed.

(** *** Gossip *)
Definition accept (allow_private : bool) (nodes : list Node) : TopologyMsg :=
  AcceptGossip (filter (λ n, keep_node allow_private n = true) nodes).

(** What the topology task is to get for the gossips [gs]: the peer of a
    server is promoted once, after its first gossip. *)
Definition gossip_msgs (id : NodeId) (allow_private : bool) (d : Direction) (gs : list (list Node))
    : list TopologyMsg :=
  match gs with
  | [] => []
  | g :: gs =>
      accept allow_private g ::
        match d with Server => [PromotePeer id] | Client => [] end ++ (accept allow_private <$> gs)
  end.

(** The box of the topology task does not fail. *)
Definition reliable : Prop :=
  (∀ n e, box_ready TopologyBox n ≠ Ready (Err e)) ∧ (∀ n e, box_start TopologyBox n ≠ Err e).

(** Messages go to the box in their order; one is lost only if the box
    fails. *)
Definition carried (w : World) (l : list TopologyMsg) (w' : World) (l' : list TopologyMsg) : Prop :=
  only TopologyBox w w' ∧ sublist (topology_box w' ++ l') (topology_box w ++ l) ∧
  (reliable → topology_box w' ++ l' = topology_box w ++ l).

Lemma carried_step w l w1 l1 w2 l2 :
  carried w l w1 l1 → carried w1 l1 w2 l2 → carried w l w2 l2.
Proof.
  intros (? & ? & Hr1) (? & ? & Hr2). split; [by etrans|]. split; [by etrans|].
  intros Hr. by rewrite Hr2, Hr1.
Qed.

Lemma carried_tick w l : carried w l (tick w) l.
Proof. split; [apply only_tick|done]. Qed.

Lemma carried_drop w m l : (reliable → False) → carried w (m :: l) (tick w) l.
Proof.
  intros Hr. split; [apply only_tick|]. split; [|by intros]. simpl.
  apply sublist_app; [done|]. by apply sublist_cons.
Qed.

Lemma carried_push w m l : carried w (m :: l) (push_topology m w) l.
Proof. split; [by constructor|]. simpl. by rewrite <- app_assoc. Qed.

Lemma poll_messages_carried l w :
  match poll_messages l w with (w', (_, l')) => carried w l w' l' end.
Proof.
  revert w. induction l as [|m l IH]; intros w; [done|]. simpl. unfold after_start.
  destruct (box_ready TopologyBox (polls w)) as [[|e]|] eqn:Hr; [|..|apply carried_tick].
  - simpl. destruct (box_start TopologyBox (S (polls w))) eqn:Hs.
    + set (w1 := push_topology m (tick (tick w))).
      assert (carried w (m :: l) w1 l) as Hc.
      { eapply carried_step; [apply carried_tick|]. eapply carried_step; [apply carried_tick|].
        apply carried_push. }
      destruct (box_flush TopologyBox (S (S (polls w)))).
      * specialize (IH (tick w1)). destruct (poll_messages l (tick w1)) as [w2 [? l2]].
        eapply carried_step; [done|]. eapply carried_step; [apply carried_tick|done].
      * eapply carried_step; [done|apply carried_tick].
    + specialize (IH (tick (tick w))). destruct (poll_messages l (tick (tick w))) as [w2 [? l2]].
      eapply carried_step; [apply carried_tick|]. eapply carried_step; [apply carried_drop|done].
      intros [_ Hrel]. by eapply Hrel.
  - specialize (IH (tick w)). destruct (poll_messages l (tick w)) as [w2 [? l2]].
    eapply carried_step; [apply carried_drop|done]. intros [Hrel _]. by eapply Hrel.
Qed.

Definition waiting (p : PendingProcessing) : list TopologyMsg :=
  match p with None => [] | Some f => sends f end.

Lemma poll_complete_carried id p w :
  match poll_complete id p w with
  | (w', p', r) => carried w (waiting p) w' (waiting p') ∧ (r = Ready tt → p' = None)
  end.
Proof.
  destruct p as [f|]; [|done]. simpl. unfold poll_fut.
  pose proof (poll_refresh_only TopologyBox id (refresh f) w) as (Ho & _ & _ & Ht & _).
  destruct (poll_refresh id (refresh f) w) as [w1 o]. simpl in *.
  assert (carried w (sends f) w1 (sends f)) as Hc1 by (split; [done|by rewrite Ht]).
  assert (match poll_sends (flushing f) (sends f) w1 with (w', (_, l')) => carried w1 (sends f) w' l' end) as Hc2.
  { unfold poll_sends. destruct (flushing f); [|apply poll_messages_carried].
    destruct (box_flush TopologyBox (polls w1)); [|apply carried_tick].
    pose proof (poll_messages_carried (sends f) (tick w1)) as Hc.
    destruct (poll_messages (sends f) (tick w1)) as [w2 [? l2]]. eapply carried_step; [apply carried_tick|done]. }
  destruct (poll_sends _ _ w1) as [w2 [fl l2]]. pose proof (carried_step _ _ _ _ _ _ Hc1 Hc2) as Hc.
  destruct o, fl, l2; by split.
Qed.

Definition gossip_inv (id : NodeId) (allow_private : bool) (d : Direction) (ok : bool)
    (items : list (list RawNode)) (box : list TopologyMsg) (x : GossipProcessor) : Prop :=
  (∃ gs, mapM (mapM decode_node) items = Some gs ∧
    sublist (box ++ waiting (gp_pending x)) (gossip_msgs id allow_private d gs) ∧
    (reliable → box ++ waiting (gp_pending x) = gossip_msgs id allow_private d gs)) ∧
  gp_node_id x = id ∧ allow_private_addresses x = allow_private ∧
  peer_promoted x = match d with Client => true | Server => negb (is_empty items) end ∧
  (ok = true → gp_pending x = None).
Definition gossip_err (id : NodeId) (allow_private : bool) (d : Direction)
    (items : list (list RawNode)) (box : list TopologyMsg) : Prop :=
  ∃ gs, mapM (mapM decode_node) items = Some gs ∧ sublist box (gossip_msgs id allow_private d gs).
Definition gossip_idle (x : GossipProcessor) : Prop := gp_pending x = None.

Lemma gossip_inv_err id a d ok items box x : gossip_inv id a d ok items box x → gossip_err id a d items box.
Proof.
  intros [(gs & Hd & Hs & _) _]. exists gs. split; [done|]. etrans; [|exact Hs]. by apply sublist_inserts_r.
Qed.

Lemma gossip_inv_ok id a d ok ok' items box x :
  gossip_inv id a d ok items box x → gossip_idle x → gossip_inv id a d ok' items box x.
Proof. intros (H1 & H2 & H3 & H4 & _) Hi. by repeat split. Qed.

(** A new gossip adds its messages at the end. *)
Lemma gossip_msgs_snoc id a d gs g :
  gossip_msgs id a d (gs ++ [g]) =
  gossip_msgs id a d gs ++ accept a g ::
    match d with Server => if is_empty gs then [PromotePeer id] else [] | Client => [] end.
Proof.
  destruct gs as [|g0 gs]; [by destruct d|]. simpl. rewrite fmap_app, app_assoc. by destruct d.
Qed.

Lemma gossip_complete_spec id a d ok items Ex :
  triple TopologyBox (λ w x, gossip_inv id a d ok items (topology_box w) x) gossip_poll_complete
    (λ r w x, gossip_inv id a d (ok || is_ready r) items (topology_box w) x ∧ (r = Ready tt → gossip_idle x)) Ex.
Proof.
  intros w x ((gs & Hd & Hs & Hr) & Hn & Ha & Hp & Hok). unfold gossip_poll_complete.
  pose proof (poll_complete_carried (gp_node_id x) (gp_pending x) w) as Hc.
  destruct (poll_complete _ _ w) as [[w' p'] r] eqn:Hpc. destruct Hc as [(Ho & Hs' & Hr') Hidle].
  split; [done|]. unfold gossip_inv, gossip_idle. simpl.
  assert (ok || is_ready r = true → p' = None) as Hok'.
  { destruct ok; simpl; [|by destruct r as [[]|]; auto]. intros _.
    rewrite (Hok eq_refl) in Hpc. by simplify_eq/=. }
  split; [|done]. split; [|done]. exists gs. split; [done|]. split; [by etrans|].
  intros Hrel. by rewrite Hr', Hr.
Qed.

#[global] Instance gossip_sink_spec id a d :
  SinkSpec TopologyBox topology_box (gossip_inv id a d) (gossip_err id a d) gossip_idle.
Proof.
  split; intros.
  - eapply triple_ready; [apply (gossip_complete_spec _ _ _ ok)|..].
    + intros w x [(H1 & H2 & H3 & H4 & H5) _]. by repeat split.
    + intros [] w x [Hinv Hi]. split; [done|]. by rewrite orb_true_r in Hinv.
  - simpl. unfold gossip_start_send. intros w x Hi. pose proof Hi as ((gs & Hd & Hs & Hr) & Hn & Ha & Hp & Hok).
    destruct (mapM decode_node item) as [g|] eqn:Hg; simpl.
    2: { split; [done|]. by eapply gossip_inv_err. }
    split; [done|]. rewrite (Hok eq_refl) in *. simpl in *. rewrite app_nil_r in *.
    assert (is_empty gs = is_empty items) as Hemp.
    { apply mapM_Some in Hd. by destruct Hd. }
    assert ((if peer_promoted x then [] else [PromotePeer (gp_node_id x)]) =
      match d with Server => if is_empty gs then [PromotePeer id] else [] | Client => [] end) as Hpm.
    { rewrite Hp, Hn, Hemp. destruct d; [by destruct (is_empty items)|done]. }
    unfold gossip_inv. simpl. rewrite Hpm, Ha. split; [|split; [done|split; [done|split; [|done]]]].
    + exists (gs ++ [g]). split; [by apply mapM_snoc|]. rewrite gossip_msgs_snoc. split.
      * by apply sublist_app.
      * intros Hrel. by rewrite Hr.
    + destruct d; [|done]. by destruct items.
  - eapply triple_ready; [apply (gossip_complete_spec _ _ _ ok)|..].
    + intros w x [Hinv _]. split; [|done]. by rewrite orb_false_r in Hinv.
    + intros [] w x [Hinv Hi]. split; [done|]. split; [|by auto]. eapply gossip_inv_ok; [done|by apply Hi].
  - eapply triple_ready; [apply (gossip_complete_spec _ _ _ ok)|..].
    + intros w x [Hinv _]. split; [|done]. by rewrite orb_false_r in Hinv.
    + intros [] w x [Hinv Hi]. split; [done|]. split; [|by auto]. eapply gossip_inv_ok; [done|by apply Hi].
  - done.
Qed.

(** ** The sinks, however they are used *)

Lemma used_runs {Item X Msg} `{!Sink Item X} b (outbox : World → list Msg) Inv Er D
    `{HS : !SinkSpec b outbox Inv Er D} s ok items :
  Inv ok items (outbox s.1) s.2 →
  runs sink_ready s = true ∧ runs sink_flush s = true ∧ runs sink_close s = true ∧
  (ok = true → ∀ item, runs (sink_send item) s = true).
Proof.
  intros Hi. split; [|split; [|split]]; intros.
  - eapply triple_runs; [apply (spec_ready ok items)|done].
  - eapply triple_runs; [apply (spec_flush ok items)|done].
  - eapply triple_runs; [apply (spec_close ok items)|done].
  - subst ok. eapply triple_runs; [apply (spec_send items item)|done].
Qed.

(** C15: for the fragments a peer sends: however the sink is polled, no call
    panics; the batches sent to the fragment task and the buffer are together
    the decoded fragments in the order they came, every batch is from the
    network and has 1 to 128 fragments, and once a flush or a close is ready
    nothing is left in the buffer. *)
Theorem fragment_sink_correct (w0 : World) (id : NodeId) s ok (items : list RawFragment) :
  transaction_box w0 = [] → used (w0, fragment_new id) s ok items →
  (runs sink_ready s = true ∧ runs sink_flush s = true ∧ runs sink_close s = true ∧
   (ok = true → ∀ item, runs (sink_send item) s = true)) ∧
  mapM decode_fragment items = Some (concat (batch <$> transaction_box s.1) ++ buffered_fragments s.2) ∧
  Forall good_batch (transaction_box s.1) ∧
  (∀ s', sink_flush s = Some (s', Ok (Ready tt)) ∨ sink_close s = Some (s', Ok (Ready tt)) →
         mapM decode_fragment items = Some (concat (batch <$> transaction_box s'.1))).
Proof.
  intros Hbox Hu. assert (fragment_inv false [] (transaction_box w0) (fragment_new id)) as Hinit.
  { rewrite Hbox. unfold fragment_inv, FRAGMENTS. simpl. repeat split; auto with lia. }
  apply (used_spec TransactionBox transaction_box fragment_inv fragment_err fragment_idle) in Hu as [_ Hi]; [|done].
  split; [by apply (used_runs TransactionBox transaction_box fragment_inv fragment_err fragment_idle _ _ items)|].
  pose proof Hi as (Hd & Hg & _). split; [done|]. split; [done|].
  intros s' [Hf|Hf].
  - apply (triple_run _ _ _ _ _ _ _ _ (spec_flush ok items) Hi) in Hf as (_ & (Hd' & _) & Hidle).
    destruct (Hidle eq_refl) as [He _]. by rewrite He, app_nil_r in Hd'.
  - apply (triple_run _ _ _ _ _ _ _ _ (spec_close ok items) Hi) in Hf as (_ & (Hd' & _) & Hidle).
    destruct (Hidle eq_refl) as [He _]. by rewrite He, app_nil_r in Hd'.
Qed.

(** For the gossip a peer sends: what reaches the topology task is, in
    order, one message per gossip with the nodes that pass the address filter
    and, for a server, one promotion of the peer after the first gossip;
    nothing else, and nothing is missing after a flush unless the message box
    failed.  No call panics. *)
Theorem gossip_sink_correct (w0 : World) (id : NodeId) (allow_private : bool) (d : Direction) s ok
    (items : list (list RawNode)) :
  topology_box w0 = [] → used (w0, gossip_new id allow_private d) s ok items →
  (runs sink_ready s = true ∧ runs sink_flush s = true ∧ runs sink_close s = true ∧
   (ok = true → ∀ item, runs (sink_send item) s = true)) ∧
  ∃ gs, mapM (mapM decode_node) items = Some gs ∧
    sublist (topology_box s.1) (gossip_msgs id allow_private d gs) ∧
    (reliable → ∀ s', sink_flush s = Some (s', Ok (Ready tt)) →
       topology_box s'.1 = gossip_msgs id allow_private d gs).
Proof.
  intros Hbox Hu.
  apply (used_spec TopologyBox topology_box (gossip_inv id allow_private d) (gossip_err id allow_private d) gossip_idle)
    in Hu as [_ Hi].
  2: { simpl. rewrite Hbox. split; [by exists []|]. by destruct d. }
  split; [by apply (used_runs TopologyBox topology_box (gossip_inv id allow_private d)
                      (gossip_err id allow_private d) gossip_idle _ _ items)|].
  pose proof Hi as ((gs & Hd & Hs & Hr) & _). exists gs. split; [done|]. split.
  { etrans; [|exact Hs]. by apply sublist_inserts_r. }
  intros Hrel s' Hf.
  apply (triple_run _ _ _ _ _ _ _ _ (spec_flush ok items) Hi) in Hf as (_ & ((gs' & Hd' & _ & Hr') & _) & Hidle).
  rewrite (Hidle eq_refl) in Hr'. simpl in Hr'. rewrite app_nil_r in Hr'. rewrite Hr' by done. by simplify_eq.
Qed.

(** The block announcements reach the block task one by one. *)
Lemma block_sink_correct (w0 : World) (id : NodeId) s ok (items : list RawHeader) :
  block_box w0 = [] → used (w0, block_new id) s ok items →
  ∃ hs, mapM decode_header items = Some hs ∧
        omap announcement (block_box s.1) = (λ h, (h, id)) <$> hs.
Proof.
  intros Hbox Hu.
  apply (used_spec BlockBox block_box (block_inv id) (block_err id) block_idle) in Hu as [_ [Hi _]]; [done|].
  simpl. rewrite Hbox. split; [by exists []|done].
Qed.

End subscription.
End Subscription.

(** The statistics are those of the table of peers. *)
Section peers_table.
Context `{Wire} {Address Nonce RawHdr BlockIds ChainPullRequest RawFrag RawGossip : Type}.
Context `{EqDecision Address, EqDecision NodeId}.
Context `{!LinkedHashMap NodeId (@Peers.PeerData Address RawHdr BlockIds ChainPullRequest RawFrag RawGossip)}
  `{!LinkedHashMap Address NodeId} `{!LruCache Address Nonce}.

#[global] Instance peers_table :
  PeerTable (@Peers.PeerMap Address NodeId Nonce RawHdr BlockIds ChainPullRequest RawFrag RawGossip _ _ _ _ _) :=
  λ a now id s,
    match a with
    | OnBlock => (Peers.refresh_peer_on_block now id s).1
    | OnFragment => (Peers.refresh_peer_on_fragment now id s).1
    | OnGossip => (Peers.refresh_peer_on_gossip now id s).1
    end.
End peers_table.

(** ** Instances that compute *)
Module SampleSubscription.
Import Subscription.

(** Numbers below 1000 decode, to themselves. *)
Definition small (n : nat) : option nat := if n <? 1000 then Some n else None.
Definition address (n : nat) : Gossip.SocketAddr :=
  Gossip.mkAddr (if Nat.even n then Gossip.V4 8 8 8 8 else Gossip.V4 10 0 0 1) 3000.

#[export] Instance sample_wire : Wire := {|
  NodeId := nat; RawHeader := nat; Header := nat; decode_header := small;
  RawFragment := nat; Fragment := nat; decode_fragment := small;
  RawNode := nat; Node := nat; decode_node := small; node_address := address;
  RawId := nat; HeaderId := nat; decode_id := small |}.

(** The table of peers is the list of the refreshes. *)
Definition Log : Type := list (Activity * nat).
#[export] Instance sample_table : PeerTable Log := λ a _ id l, l ++ [(a, id)].

(** Everything is ready at once. *)
#[export] Instance ready_env : Env := {|
  box_ready := λ _ _, Ready (Ok tt); box_start := λ _ _, Ok tt; box_flush := λ _ _, Ready (Ok tt);
  box_close := λ _ _, Ready (Ok tt); peers_lock := λ _, Ready tt; clock := λ n, Z.of_nat n |}.

Definition w0 : World := mkWorld 0 [] [] [] [] [] ([] : Log).

Abbreviation W := (World (P := Log)).
Definition send_all {Item X} `{!Sink (P := Log) Item X} (s : W * X) (items : list Item) : option (W * X) :=
  foldl (λ o item,
    s ← o;
    match sink_ready s with
    | Some (s, Ok (Ready _)) =>
        match sink_send item s with Some (s, Ok _) => Some s | _ => None end
    | _ => None
    end) (Some s) items.

(** A full buffer is sent before the next fragment is taken. *)
Example full_buffer_sent :
  (λ s, (batch <$> transaction_box s.1, buffered_fragments s.2, peers s.1)) <$>
    send_all (Item := RawFragment) (X := FragmentProcessor) (w0, fragment_new 7) (seq 0 130) = Some ([seq 0 128], [128; 129], []).
Proof. vm_compute. reflexivity. Qed.

(** Nodes with a private address are dropped; the peer is promoted once. *)
Example gossip_forwarded :
  (λ s, (topology_box s.1, waiting (gp_pending s.2))) <$>
    send_all (Item := list RawNode) (X := GossipProcessor) (w0, gossip_new 7 false Server) [[2; 3; 4]; [5; 6]] =
  Some ([AcceptGossip [2; 4]; PromotePeer 7], [AcceptGossip [6]]).
Proof. vm_compute. reflexivity. Qed.

Definition id7 : @NodeId sample_wire := 7.
Definition rf5 : @RawFragment sample_wire := 5.
Definition f5 : @Fragment sample_wire := 5.
Definition rn2 : @RawNode sample_wire := 2.
Definition rn3 : @RawNode sample_wire := 3.
Definition n2 : @Node sample_wire := 2.

Definition fp0 : W * FragmentProcessor := (w0, fragment_new id7).
Definition fp1 : W * FragmentProcessor := (w0, mkFragmentProc id7 [f5] None).
Definition one_fragment : list RawFragment := [rf5].

Lemma used_sample_fragments : used fp0 fp1 false one_fragment.
Proof.
  apply (used_send fp0 fp0 [] rf5); [|reflexivity].
  apply (used_ready fp0 fp0 false [] fp0 (Ready tt)); [apply used_new|reflexivity].
Qed.

Lemma fragment_sink_correct_witness :
  transaction_box w0 = [] ∧
  mapM decode_fragment one_fragment =
    Some (concat (batch <$> transaction_box fp1.1) ++ buffered_fragments fp1.2).
Proof.
  split; [reflexivity|].
  exact (proj1 (proj2 (fragment_sink_correct w0 id7 fp1 false one_fragment
    eq_refl used_sample_fragments))).
Defined.

Definition gp0 : W * GossipProcessor := (w0, gossip_new id7 false Server).
Definition one_gossip : list (list RawNode) := [[rn2; rn3]].
Definition gp1 : W * GossipProcessor :=
  (w0, mkGossipProc id7 false
         (Some (mkFut (Some OnGossip) false [AcceptGossip [n2]; PromotePeer id7])) true).

Lemma used_sample_gossip : used gp0 gp1 false one_gossip.
Proof.
  apply (used_send gp0 gp0 [] [rn2; rn3]); [|reflexivity].
  apply (used_ready gp0 gp0 false [] gp0 (Ready tt)); [apply used_new|reflexivity].
Qed.

Lemma gossip_sink_correct_witness :
  topology_box w0 = [] ∧
  ∃ gs, mapM (mapM decode_node) one_gossip = Some gs ∧
        sublist (topology_box gp1.1) (gossip_msgs id7 false Server gs).
Proof.
  split; [reflexivity|].
  destruct (gossip_sink_correct w0 id7 false Server gp1 false one_gossip
    eq_refl used_sample_gossip) as (_ & gs & Hd & Hs & _).
  exists gs. split; [exact Hd|exact Hs].
Defined.
End SampleSubscription.
