(* ===== verification/NetClient.v ===== *)
(** * The client end of a connection

    Models [jormungandr/src/network/client/mod.rs]: the future that drives an
    outbound connection.  It reads the three subscription streams of the peer
    and the two streams of requests of this node, hands what it reads to the
    sinks of [Subscription] or to the client task, and spawns the requests.
    What a stream answers at a poll is decided by the environment.  The items
    taken from the streams are kept as a history that the code does not have;
    a task that is spawned is recorded with what it is to do. *)

From stdpp Require Import list.
From S2P Require Import Prelude FragmentLogs Gossip Subscription.

Section events.
Context `{Wire}.
(** [chain_network::data::block::BlockEvent] *)
Inductive BlockEvent :=
| Announce (header : RawHeader)
| Solicit (block_ids : list RawId)
| Missing (from : list RawId) (to : RawId).
End events.

(** The streams: [None] ends a stream, [Err] is a failure of it. *)
Class Streams `{Wire} := {
  block_events : nat → Poll (option (result unit BlockEvent));
  fragment_events : nat → Poll (option (result unit RawFragment));
  gossip_events : nat → Poll (option (result unit (list RawNode)));
  block_solicitations : nat → Poll (option (list RawId));
  chain_pulls : nat → Poll (option (list RawId * RawId));
}.

Module NetClient.
Import Subscription.

Inductive ProcessingOutcome := Continue | Disconnect.

Section client.
Context `{HWire : Wire} {P : Type} `{HTable : !PeerTable P} `{HEnv : Env} `{HStreams : !Streams}.

Abbreviation W := (World (P := P)).

Abbreviation sink X := (prog (W * X) Code).

(** What the spawned tasks do. *)
Inductive Task :=
| UploadBlocks (ids : list HeaderId)
| PushHeaders (from : list HeaderId) (to : HeaderId)
| SendToBlockTask (m : BlockMsg)
| RequestBlocks (ids : list RawId) (handle : nat)
| RequestHeaders (from : list RawId) (to : RawId) (handle : nat).

Record History := mkHistory {
  events_taken : list BlockEvent;
  fragments_taken : list RawFragment;
  gossip_taken : list (list RawNode);
}.

Record Client := mkClient {
  c_block : BlockAnnouncementProcessor;
  c_fragment : FragmentProcessor;
  c_gossip : GossipProcessor;
  incoming_block_announcement : option RawHeader;
  incoming_solicitation : option ClientMsg;
  shutting_down : bool;
  spawned : list Task;
  history : History;
}.

Definition client_new (peer_id : NodeId) (allow_private : bool) : Client :=
  mkClient (block_new peer_id) (fragment_new peer_id)
    (gossip_new peer_id allow_private Subscription.Client) None None false [] (mkHistory [] [] []).

Definition set_c_block x c := mkClient x (c_fragment c) (c_gossip c) (incoming_block_announcement c)
  (incoming_solicitation c) (shutting_down c) (spawned c) (history c).
Definition set_c_fragment x c := mkClient (c_block c) x (c_gossip c) (incoming_block_announcement c)
  (incoming_solicitation c) (shutting_down c) (spawned c) (history c).
Definition set_c_gossip x c := mkClient (c_block c) (c_fragment c) x (incoming_block_announcement c)
  (incoming_solicitation c) (shutting_down c) (spawned c) (history c).
Definition set_announcement o c := mkClient (c_block c) (c_fragment c) (c_gossip c) o
  (incoming_solicitation c) (shutting_down c) (spawned c) (history c).
Definition set_solicitation o c := mkClient (c_block c) (c_fragment c) (c_gossip c)
  (incoming_block_announcement c) o (shutting_down c) (spawned c) (history c).
Definition spawn (ts : list Task) c := mkClient (c_block c) (c_fragment c) (c_gossip c)
  (incoming_block_announcement c) (incoming_solicitation c) (shutting_down c) (spawned c ++ ts) (history c).
Definition set_history f c := mkClient (c_block c) (c_fragment c) (c_gossip c)
  (incoming_block_announcement c) (incoming_solicitation c) (shutting_down c) (spawned c) (f (history c)).
Definition took_event e h := mkHistory (events_taken h ++ [e]) (fragments_taken h) (gossip_taken h).
Definition took_fragment f h := mkHistory (events_taken h) (fragments_taken h ++ [f]) (gossip_taken h).
Definition took_gossip g h := mkHistory (events_taken h) (fragments_taken h) (gossip_taken h ++ [g]).

(** A method of one of the sinks; its errors lose their reason. *)
Definition zoom {X A} (get : Client → X) (set : X → Client → Client) (m : prog (W * X) Code A)
    : prog (W * Client) unit A := λ '(w, c),
  match m (w, get c) with
  | Some ((w', x'), r) => Some ((w', set x' c), map_err (λ _, tt) r)
  | None => None
  end.
#[local] Arguments zoom : simpl never.
Abbreviation on_block := (zoom c_block set_c_block).
Abbreviation on_fragment := (zoom c_fragment set_c_fragment).
Abbreviation on_gossip := (zoom c_gossip set_c_gossip).
Abbreviation client := (prog (W * Client) unit).

(** The message box of the client task. *)
Definition box_op {A} (m : prog (W * Client) Code A) : client A := map_error (λ _, tt) m.

(** A flush that is pending is ignored. *)
Definition flushed (m : client (Poll unit)) : client unit := m;; mret tt.

(** ** process_block_event *)
(** The debug assertion, the slot and the spawned task of the two requests
    below. *)
Definition fill_solicitation (msg : ClientMsg) (task : Task) : client unit :=
  o ← gets (λ s, incoming_solicitation s.2);
  assert (match o with None => true | Some _ => false end);;
  local (λ c, spawn [task] (set_solicitation (Some msg) c)).

Definition upload_blocks (block_ids : list RawId) : client unit :=
  if is_empty block_ids then throw tt
  else match mapM decode_id block_ids with
       | None => throw tt
       | Some ids => fill_solicitation (GetBlocks ids) (UploadBlocks ids)
       end.

Definition push_missing_headers (from : list RawId) (to : RawId) : client unit :=
  match mapM decode_id from, decode_id to with
  | Some from, Some to => fill_solicitation (PullHeaders from to) (PushHeaders from to)
  | _, _ => throw tt
  end.

Definition handle_event (event : BlockEvent) : client unit :=
  match event with
  | Announce header =>
      o ← gets (λ s, incoming_block_announcement s.2);
      assert (match o with None => true | Some _ => false end);;
      local (set_announcement (Some header))
  | Solicit block_ids => upload_blocks block_ids
  | Missing from to => push_missing_headers from to
  end.

(** [take] and the send, or the flush. *)
Definition send_announcement : client unit :=
  o ← gets (λ s, incoming_block_announcement s.2);
  local (set_announcement None);;
  match o with
  | Some header => on_block (sink_send header)
  | None => flushed (on_block sink_flush)
  end.
Definition send_solicitation : client unit :=
  o ← gets (λ s, incoming_solicitation s.2);
  local (set_solicitation None);;
  match o with
  | Some msg => box_op (mbox_start_send ClientBox (push_client msg))
  | None => flushed (box_op (mbox_poll_flush ClientBox))
  end.

(** [poll_next] of a stream of the peer and what is done with an item. *)
Definition next_item {A} (stream : nat → Poll (option (result unit A))) (took : A → History → History)
    (pending : client (Poll ProcessingOutcome)) (k : A → client unit) : client (Poll ProcessingOutcome) :=
  p ← ask stream;
  match p with
  | Pending => pending
  | Ready None => mret (Ready Disconnect)
  | Ready (Some (Err _)) => throw tt
  | Ready (Some (Ok a)) => k a;; local (set_history (took a));; mret (Ready Continue)
  end.

Definition process_block_event : client (Poll ProcessingOutcome) :=
  ready_then (on_block sink_ready) (λ _,
    send_announcement;;
    ready_then (box_op (mbox_poll_ready ClientBox)) (λ _,
      send_solicitation;;
      next_item block_events took_event (mret Pending) handle_event)).

(** ** process_fragments, process_gossip *)
Definition process_fragments : client (Poll ProcessingOutcome) :=
  ready_then (on_fragment sink_ready) (λ _,
    next_item fragment_events took_fragment
      (flushed (on_fragment sink_flush);; mret Pending) (λ f, on_fragment (sink_send f))).
Definition process_gossip : client (Poll ProcessingOutcome) :=
  ready_then (on_gossip sink_ready) (λ _,
    next_item gossip_events took_gossip
      (flushed (on_gossip sink_flush);; mret Pending) (λ g, on_gossip (sink_send g))).

(** ** Requests of this node: a message to the block task with the stream of
    the answers, and the request to the peer that feeds it. *)
Definition solicit_blocks (block_ids : list RawId) (c : Client) : Client :=
  let n := length (spawned c) in spawn [SendToBlockTask (NetworkBlocks n); RequestBlocks block_ids n] c.
Definition pull_headers (req : list RawId * RawId) (c : Client) : Client :=
  let n := length (spawned c) in spawn [SendToBlockTask (ChainHeaders n); RequestHeaders req.1 req.2 n] c.

Definition next_request {A} (stream : nat → Poll (option A)) (f : A → Client → Client)
    : client (Poll ProcessingOutcome) :=
  p ← ask stream;
  match p with
  | Pending => mret Pending
  | Ready None => mret (Ready Disconnect)
  | Ready (Some a) => local (f a);; mret (Ready Continue)
  end.

(** ** Progress *)
Definition begin (m : client (Poll ProcessingOutcome)) : client (Poll ProcessingOutcome) :=
  r ← attempt m;
  mret (match r with Ok p => p | Err _ => Ready Disconnect end).

Definition and_proceed_with (progress : Poll ProcessingOutcome) (m : client (Poll ProcessingOutcome))
    : client (Poll ProcessingOutcome) :=
  match progress with
  | Ready Disconnect => mret progress
  | _ =>
      r ← attempt m;
      mret (match r with
            | Ok Pending => progress
            | Ok (Ready o) => Ready o
            | Err _ => Ready Disconnect
            end)
  end.

(** ** Future::poll *)
Definition one_round : client (Poll ProcessingOutcome) :=
  p ← begin process_block_event;
  p ← and_proceed_with p process_fragments;
  p ← and_proceed_with p process_gossip;
  p ← and_proceed_with p (next_request block_solicitations solicit_blocks);
  and_proceed_with p (next_request chain_pulls pull_headers).

Fixpoint poll_loop (fuel : nat) : client (Poll unit) :=
  match fuel with
  | O => panic
  | S fuel =>
      p ← one_round;
      match p with
      | Pending => mret Pending
      | Ready Continue => poll_loop fuel
      | Ready Disconnect => mret (Ready tt)
      end
  end.

Definition closing {A} (m : client (Poll A)) (k : client (Poll unit)) : client (Poll unit) :=
  r ← attempt m;
  match r with Ok Pending => mret Pending | _ => k end.

Definition poll_shut_down : client (Poll unit) :=
  closing (on_block sink_close)
    (closing (on_fragment sink_close)
      (closing (on_gossip sink_close)
        (closing (box_op (mbox_poll_close ClientBox)) (mret (Ready tt))))).

Definition client_poll (fuel : nat) : client (Poll unit) :=
  down ← gets (λ s, shutting_down s.2);
  match down with true => poll_shut_down | false => poll_loop fuel end.

(** ** What the peer sent, and where it went *)

Definition announced (evs : list BlockEvent) : list RawHeader :=
  omap (λ e, match e with Announce h => Some h | _ => None end) evs.
Definition is_request (e : BlockEvent) : bool := match e with Announce _ => false | _ => true end.
Definition requests (evs : list BlockEvent) : list BlockEvent := filter (λ e, is_request e = true) evs.
Definition decode_request (e : BlockEvent) : option ClientMsg :=
  match e with
  | Announce _ => None
  | Solicit ids => if is_empty ids then None else GetBlocks <$> mapM decode_id ids
  | Missing from to =>
      from ← mapM decode_id from; to ← decode_id to; Some (PullHeaders from to)
  end.

Section invariant.
Context (id : NodeId) (allow_private : bool).

(** While the client runs: everything read is in a box, in a sink or in one
    of the two slots, in order. *)
Record client_inv (s : W * Client) : Prop := {
  inv_block : ∃ items, block_inv id true items (block_box s.1) (c_block s.2) ∧
    announced (events_taken (history s.2)) = items ++ option_list (incoming_block_announcement s.2);
  inv_request : mapM decode_request (requests (events_taken (history s.2))) =
    Some (client_box s.1 ++ option_list (incoming_solicitation s.2));
  inv_fragment : ∃ ok, fragment_inv ok (fragments_taken (history s.2)) (transaction_box s.1) (c_fragment s.2);
  inv_gossip : ∃ ok, gossip_inv id allow_private Subscription.Client ok (gossip_taken (history s.2))
    (topology_box s.1) (c_gossip s.2);
  inv_running : shutting_down s.2 = false;
}.

(** Also after an error: the boxes got nothing but what was taken, in its
    order. *)
Record client_final (s : W * Client) : Prop := {
  fin_block : ∃ items, items `prefix_of` announced (events_taken (history s.2)) ∧
    block_err id items (block_box s.1);
  fin_request : ∃ ms, mapM decode_request (requests (events_taken (history s.2))) = Some ms ∧
    client_box s.1 `prefix_of` ms;
  fin_fragment : fragment_err (fragments_taken (history s.2)) (transaction_box s.1);
  fin_gossip : gossip_err id allow_private Subscription.Client (gossip_taken (history s.2)) (topology_box s.1);
}.

Lemma client_inv_final s : client_inv s → client_final s.
Proof.
  intros [(items & Hb & Ha) Hr (okf & Hf) (okg & Hg) _]. constructor.
  - exists items. split; [rewrite Ha; by apply prefix_app_r|by eapply block_inv_err].
  - eexists. split; [done|]. by apply prefix_app_r.
  - by eapply fragment_inv_err.
  - by eapply gossip_inv_err.
Qed.

Lemma client_new_inv w :
  block_box w = [] → transaction_box w = [] → topology_box w = [] → client_box w = [] →
  client_inv (w, client_new id allow_private).
Proof.
  intros Hb Ht Hg Hc. constructor; simpl; rewrite ?Hb, ?Ht, ?Hg, ?Hc.
  - exists []. split; [|done]. split; [by exists []|done].
  - done.
  - exists false. unfold fragment_inv, FRAGMENTS. simpl. repeat split; auto with lia.
  - exists false. split; [by exists []|done].
  - done.
Qed.

(** ** Rules *)
Lemma zoom_run {X A} get set b (m : sink X A) Pre Post Ex w c :
  triple b Pre m Post Ex → Pre w (get c) →
  match zoom get set m (w, c) with
  | Some (s', Ok a) => ∃ w' x', s' = (w', set x' c) ∧ only b w w' ∧ Post a w' x'
  | Some (s', Err _) => ∃ w' x', s' = (w', set x' c) ∧ only b w w' ∧ Ex w' x'
  | None => False
  end.
Proof.
  intros Hm Hp. unfold zoom. specialize (Hm w (get c) Hp).
  destruct (m (w, get c)) as [[[w' x'] [a|e]]|]; simpl; naive_solver.
Qed.

Lemma box_hoare {A} b (m : sink Client A) Pre Post Ex (Q : A → W * Client → Prop) (R : unit → W * Client → Prop) :
  triple b Pre m Post Ex → (∀ a w c, Post a w c → Q a (w, c)) → (∀ w c, Ex w c → R tt (w, c)) →
  hoare False (λ s, Pre s.1 s.2) (box_op m) Q R.
Proof.
  intros Hm Hq Hr [w c] Hs. unfold box_op, map_error. specialize (Hm w c Hs).
  destruct (m (w, c)) as [[[w' x'] [a|e]]|]; simpl; [|..|done]; destruct Hm as [Ho HP]; eauto.
Qed.

Lemma ready_hoare {A B} Pc (m : client (Poll A)) (k : A → client (Poll B)) Mid Q R :
  hoare False Pc m Mid R → (∀ s, Mid Pending s → Q Pending s) →
  (∀ a, hoare False (Mid (Ready a)) (k a) Q R) → hoare False Pc (ready_then m k) Q R.
Proof. intros Hm Hp Hk. eapply hoare_bind; [done|]. intros [a|]; [apply Hk|]. intros s. apply Hp. Qed.

Lemma local_hoare Pc (f : Client → Client) Q (R : unit → W * Client → Prop) :
  (∀ w c, Pc (w, c) → Q tt (w, f c)) → hoare False Pc (local f) Q R.
Proof. intros Hf [w c] Hs. by apply Hf. Qed.

(** Progress is counted in polls: [since n s] says that [n] polls had been
    made before. *)
Definition since (n : nat) (s : W * Client) : Prop := client_inv s ∧ n ≤ polls s.1.

Lemma since_final n s : since n s → client_final s.
Proof. intros [Hi _]. by apply client_inv_final. Qed.

(** A sink changes its own part of the invariant only. *)
Lemma since_announced n w c w' x' items o :
  since n (w, c) → only BlockBox w w' → block_inv id true items (block_box w') x' →
  announced (events_taken (history c)) = items ++ option_list o →
  since n (w', set_c_block x' (set_announcement o c)).
Proof.
  intros [[_ Hr Hf Hg Hd] Hn] [? _ H2 H3 H4] Hb Ha. simpl in *. split; [|simpl; lia].
  constructor; simpl; rewrite ?H2, ?H3, ?H4 by done; eauto.
Qed.
Lemma block_framed_err n w c w' x' items :
  since n (w, c) → only BlockBox w w' → block_err id items (block_box w') →
  items `prefix_of` announced (events_taken (history c)) → client_final (w', set_c_block x' c).
Proof.
  intros Hi%since_final [? _ H2 H3 H4] Hb Ha. destruct Hi as [_ Hr Hf Hg].
  constructor; simpl in *; rewrite ?H2, ?H3, ?H4 by done; eauto.
Qed.
Lemma fragment_framed n w c w' x' ok :
  since n (w, c) → only TransactionBox w w' →
  fragment_inv ok (fragments_taken (history c)) (transaction_box w') x' → since n (w', set_c_fragment x' c).
Proof.
  intros [[Hb Hr _ Hg Hd] Hn] [? H1 _ H3 H4] Hf. simpl in *. split; [|simpl; lia].
  constructor; simpl; rewrite ?H1, ?H3, ?H4 by done; eauto.
Qed.
Lemma fragment_framed_err n w c w' x' :
  since n (w, c) → only TransactionBox w w' →
  fragment_err (fragments_taken (history c)) (transaction_box w') → client_final (w', set_c_fragment x' c).
Proof.
  intros Hi%since_final [? H1 _ H3 H4] Hf. destruct Hi as [Hb Hr _ Hg].
  constructor; simpl in *; rewrite ?H1, ?H3, ?H4 by done; eauto.
Qed.
Lemma gossip_framed n w c w' x' ok :
  since n (w, c) → only TopologyBox w w' →
  gossip_inv id allow_private Subscription.Client ok (gossip_taken (history c)) (topology_box w') x' →
  since n (w', set_c_gossip x' c).
Proof.
  intros [[Hb Hr Hf _ Hd] Hn] [? H1 H2 _ H4] Hg. simpl in *. split; [|simpl; lia].
  constructor; simpl; rewrite ?H1, ?H2, ?H4 by done; eauto.
Qed.
Lemma gossip_framed_err n w c w' x' :
  since n (w, c) → only TopologyBox w w' →
  gossip_err id allow_private Subscription.Client (gossip_taken (history c)) (topology_box w') →
  client_final (w', set_c_gossip x' c).
Proof.
  intros Hi%since_final [? H1 H2 _ H4] Hg. destruct Hi as [Hb Hr Hf _].
  constructor; simpl in *; rewrite ?H1, ?H2, ?H4 by done; eauto.
Qed.

(** ** The methods *)
Lemma on_block_ready n :
  hoare False (since n) (on_block sink_ready) (λ _, since n) (λ _, client_final).
Proof.
  intros [w c] Hs. pose proof Hs as [[(items & Hb & Ha) _ _ _ _] _]. cbn [fst snd] in *.
  pose proof (zoom_run c_block set_c_block _ _ _ _ _ w c (spec_ready (SinkSpec := block_sink_spec id) true items) Hb) as Hz.
  destruct (on_block sink_ready (w, c)) as [[s' [p|e]]|]; [|..|done]; destruct Hz as (w' & x' & -> & Ho & Hp).
  - apply (since_announced n w c w' x' items (incoming_block_announcement c)) in Hs; [|done..]. destruct c; exact Hs.
  - apply (block_framed_err n w c w' x' items); [done..|]. rewrite Ha. by apply prefix_app_r.
Qed.

Lemma send_announcement_spec n :
  hoare False (since n) send_announcement
    (λ _ s, since n s ∧ incoming_block_announcement s.2 = None) (λ _, client_final).
Proof.
  intros [w c] Hs. pose proof Hs as [[(items & Hb & Ha) Hr Hf Hg Hd] Hn]. cbn [fst snd] in *.
  unfold send_announcement, mbind, prog_bind, gets, local. cbn [fst snd]. destruct (incoming_block_announcement c) as [h|] eqn:Hh.
  - pose proof (zoom_run c_block set_c_block _ _ _ _ _ w (set_announcement None c)
      (spec_send (SinkSpec := block_sink_spec id) items h) Hb) as Hz.
    destruct (on_block (sink_send h) _) as [[s' [p|e]]|]; [|..|done]; destruct Hz as (w' & x' & -> & Ho & Hp).
    + split; [|done]. apply (since_announced n w c w' x' (items ++ [h]) None); [done..|].
      by rewrite Ha, app_nil_r.
    + apply (block_framed_err n w c w' x' items) in Hs; [|done..|rewrite Ha; by apply prefix_app_r].
      by destruct Hs.
  - pose proof (zoom_run c_block set_c_block _ _ _ _ _ w (set_announcement None c)
      (spec_flush (SinkSpec := block_sink_spec id) true items) Hb) as Hz.
    unfold flushed, mbind, prog_bind.
    destruct (on_block sink_flush _) as [[s' [p|e]]|]; [|..|done]; destruct Hz as (w' & x' & -> & Ho & Hp).
    + split; [|done]. destruct Hp as [Hp _]. by apply (since_announced n w c w' x' items None).
    + apply (block_framed_err n w c w' x' items) in Hs; [|done..|rewrite Ha; by apply prefix_app_r].
      by destruct Hs.
Qed.

Lemma since_tick n w c : since n (w, c) → since (S n) (tick w, c).
Proof. intros [[] Hn]. split; [by constructor|simpl in *; lia]. Qed.
Lemma since_S n s : since (S n) s → since n s.
Proof. intros [Hi Hn]. split; [done|lia]. Qed.
Hint Resolve since_tick since_S since_final : core.

(** No announcement is waiting, and no request. *)
Definition no_announcement (n : nat) (s : W * Client) : Prop :=
  since n s ∧ incoming_block_announcement s.2 = None.
Definition slots_empty (n : nat) (s : W * Client) : Prop :=
  no_announcement n s ∧ incoming_solicitation s.2 = None.

Lemma client_box_ready n :
  hoare False (no_announcement n) (box_op (mbox_poll_ready ClientBox))
    (λ _, no_announcement n) (λ _, client_final).
Proof.
  apply (hoare_pre _ (λ s, no_announcement n (s.1, s.2))); [|by intros [w c]].
  eapply (box_hoare ClientBox _ (λ w c, no_announcement n (w, c)) (λ _ w c, no_announcement n (w, c))
    (λ w c, client_final (w, c))); [|done..].
  apply triple_mbox_ready; [intros w' c' [? ?]; split; [by apply since_S, since_tick|done]|].
  intros w' c' [? _]. by eapply since_final.
Qed.

Lemma send_solicitation_spec n :
  hoare False (no_announcement n) send_solicitation (λ _, slots_empty n) (λ _, client_final).
Proof.
  intros [w c] [Hs Hba]. pose proof Hs as [[Hb Hr Hf Hg Hd] Hn]. cbn [fst snd] in *.
  unfold send_solicitation, mbind, prog_bind, gets, local, box_op, map_error, flushed. cbn [fst snd].
  destruct (incoming_solicitation c) as [msg|] eqn:Hsol.
  - unfold mbox_start_send, mbind, prog_bind, ask. cbn.
    destruct (box_start ClientBox (polls w)); cbn.
    + split; [split; [|done]|done]. split; [|cbn; lia]. constructor; cbn; auto. by rewrite app_nil_r.
    + constructor; cbn; [|eauto using prefix_app_r|by apply since_final in Hs as []..].
      by apply since_final in Hs as [].
  - unfold mbox_poll_flush, mbind, prog_bind, ask, settle. cbn.
    assert (since n (tick w, set_solicitation None c)) as Hs'.
    { split; [|cbn; lia]. by constructor. }
    destruct (box_flush ClientBox (polls w)) as [[|]|]; cbn; [by (split; [split|])| |by (split; [split|])].
    by apply since_final in Hs'.
Qed.

Lemma mapM_requests evs e ms msg :
  mapM decode_request (requests evs) = Some ms → is_request e = true → decode_request e = Some msg →
  mapM decode_request (requests (evs ++ [e])) = Some (ms ++ [msg]).
Proof.
  intros Hms He Hd. unfold requests. rewrite filter_app, filter_cons_True by done. by apply mapM_snoc.
Qed.

(** A decoded request goes to the empty slot. *)
Lemma take_request n e msg task :
  is_request e = true → decode_request e = Some msg →
  hoare False (slots_empty n) (fill_solicitation msg task;; local (set_history (took_event e)))
    (λ _, since n) (λ _, client_final).
Proof.
  intros He Hd [w c] [[[[Hb Hr Hf Hg Hdn] Hn] Hba] Hsol]. cbn [fst snd] in *.
  unfold fill_solicitation, mbind, prog_bind, gets. cbn [fst snd]. rewrite Hsol in *. cbn. split; [|done].
  rewrite app_nil_r in Hr. constructor; cbn; [|by apply mapM_requests|done..].
  destruct Hb as (items & Hb & Ha). exists items. split; [done|].
  unfold announced. rewrite omap_app. destruct e; [done|by rewrite app_nil_r..].
Qed.

Lemma handle_event_spec n e :
  hoare False (slots_empty n) (handle_event e;; local (set_history (took_event e)))
    (λ _, since n) (λ _, client_final).
Proof.
  destruct e as [h|ids|from to]; simpl handle_event.
  - intros [w c] [[[[Hb Hr Hf Hg Hdn] Hn] Hba] Hsol]. cbn [fst snd] in *.
    unfold mbind, prog_bind, gets. cbn [fst snd]. rewrite Hba in *. cbn. split; [|done].
    constructor; cbn; [| |done..].
    + destruct Hb as (items & Hb & Ha). exists items. split; [done|]. unfold announced.
      rewrite omap_app. unfold announced in Ha. rewrite Ha. cbn. by rewrite app_nil_r.
    + unfold requests. by rewrite filter_app, filter_cons_False, filter_nil, app_nil_r by done.
  - unfold upload_blocks. destruct (is_empty ids) eqn:He.
    + intros s [[Hs _] _]. by eapply since_final.
    + destruct (mapM decode_id ids) as [ids'|] eqn:Hids.
      * apply take_request; [done|]. simpl. by rewrite He, Hids.
      * intros s [[Hs _] _]. by eapply since_final.
  - unfold push_missing_headers. destruct (mapM decode_id from) as [from'|] eqn:Hf; [destruct (decode_id to) as [to'|] eqn:Ht|].
    + apply take_request; [done|]. simpl. by rewrite Hf; simpl; rewrite Ht.
    + intros s [[Hs _] _]. by eapply since_final.
    + intros s [[Hs _] _]. by eapply since_final.
Qed.

(** From the poll [N] on no stream has an item. *)
Context (N : nat).
Definition silent {A} (stream : nat → Poll (option A)) (item : A → Prop) : Prop :=
  ∀ m, N ≤ m → match stream m with Ready (Some a) => item a → False | _ => True end.
Definition is_item {E A} (r : result E A) : Prop := match r with Ok _ => True | Err _ => False end.
Definition streams_silent : Prop :=
  silent block_events is_item ∧ silent fragment_events is_item ∧ silent gossip_events is_item ∧
  silent block_solicitations (λ _, True) ∧ silent chain_pulls (λ _, True).

(** [Continue] means that an item was read. *)
Definition advanced (n : nat) (p : Poll ProcessingOutcome) (s : W * Client) : Prop :=
  since n s ∧ (p = Ready Continue → n < polls s.1 ∧ n < N).

Lemma next_item_spec {A} (stream : nat → Poll (option (result unit A))) took pending k n
    (J : nat → W * Client → Prop) :
  silent stream is_item → (∀ n s, J n s → since n s) →
  (∀ n w c, J n (w, c) → J (S n) (tick w, c)) →
  hoare False (J (S n)) pending (λ p s, p = Pending ∧ since (S n) s) (λ _, client_final) →
  (∀ a, hoare False (J (S n)) (k a;; local (set_history (took a))) (λ _, since (S n)) (λ _, client_final)) →
  hoare False (J n) (next_item stream took pending k) (advanced n) (λ _, client_final).
Proof.
  intros Hq HJ Ht Hpend Hk [w c] Hs. unfold next_item. pose proof (Ht _ _ _ Hs) as Hs'.
  pose proof (HJ _ _ Hs) as [_ Hn]. simpl in Hn. unfold ask, mbind at 1, prog_bind at 1. cbn [fst snd].
  specialize (Hq (polls w)). destruct (stream (polls w)) as [[[a|e]|]|]; simpl in *.
  - specialize (Hk a _ Hs'). unfold mbind, prog_bind in *.
    destruct (k a (tick w, c)) as [[s1 [?|?]]|]; [|done..]. destruct (local _ s1) as [[s2 [?|?]]|]; [|done..].
    simpl. destruct Hk as [Hi Hp]. split; [split; [done|lia]|]. intros _. split; [lia|].
    destruct (decide (N ≤ polls w)) as [HN|]; [by destruct (Hq HN)|lia].
  - by eapply since_final, HJ.
  - split; [by apply since_S, HJ|done].
  - specialize (Hpend _ Hs'). destruct (pending (tick w, c)) as [[s1 [?|?]]|]; [|done..].
    destruct Hpend as [-> Hs1]. split; [by apply since_S|done].
Qed.

Lemma process_block_event_spec n :
  silent block_events is_item →
  hoare False (since n) process_block_event (advanced n) (λ _, client_final).
Proof.
  intros Hq. eapply ready_hoare; [apply on_block_ready|by intros s|]. intros [].
  eapply hoare_bind; [apply send_announcement_spec|]. intros [].
  eapply ready_hoare; [apply client_box_ready|by intros s []|]. intros [].
  eapply hoare_bind; [apply send_solicitation_spec|]. intros [].
  apply (next_item_spec _ _ _ _ n slots_empty); [done|..].
  - by intros m s [[? _] _].
  - intros m w c [[? ?] ?]. split; [split; [by apply since_tick|done]|done].
  - intros s [[? _] _]. by split.
  - intros e. apply handle_event_spec.
Qed.

Lemma on_fragment_ready n :
  hoare False (since n) (on_fragment sink_ready)
    (λ p s, since n s ∧ (p = Ready tt →
      fragment_inv true (fragments_taken (history s.2)) (transaction_box s.1) (c_fragment s.2)))
    (λ _, client_final).
Proof.
  intros [w c] Hs. pose proof Hs as [[_ _ [ok Hf] _ _] _]. cbn [fst snd] in *.
  pose proof (zoom_run c_fragment set_c_fragment _ _ _ _ _ w c (spec_ready (SinkSpec := fragment_sink_spec) ok _) Hf) as Hz.
  destruct (on_fragment sink_ready (w, c)) as [[s' [p|e]]|]; [|..|done]; destruct Hz as (w' & x' & -> & Ho & Hp).
  - split; [by eapply fragment_framed|]. by intros ->.
  - by eapply fragment_framed_err.
Qed.

Lemma on_fragment_flush n :
  hoare False (since n) (flushed (on_fragment sink_flush);; mret Pending)
    (λ p s, p = (Pending : Poll ProcessingOutcome) ∧ since n s) (λ _, client_final).
Proof.
  intros [w c] Hs. pose proof Hs as [[_ _ [ok Hf] _ _] _]. cbn [fst snd] in *.
  pose proof (zoom_run c_fragment set_c_fragment _ _ _ _ _ w c (spec_flush (SinkSpec := fragment_sink_spec) ok _) Hf) as Hz.
  unfold flushed, mbind, prog_bind.
  destruct (on_fragment sink_flush (w, c)) as [[s' [p|e]]|]; [|..|done]; destruct Hz as (w' & x' & -> & Ho & Hp).
  - split; [done|]. destruct Hp as [Hp _]. by eapply fragment_framed.
  - by eapply fragment_framed_err.
Qed.

Lemma process_fragments_spec n :
  silent fragment_events is_item →
  hoare False (since n) process_fragments (advanced n) (λ _, client_final).
Proof.
  intros Hq. eapply ready_hoare; [apply on_fragment_ready|by intros s []|]. intros [].
  apply hoare_pre with (λ s, since n s ∧
      fragment_inv true (fragments_taken (history s.2)) (transaction_box s.1) (c_fragment s.2)); [|naive_solver].
  apply (next_item_spec _ _ _ _ n (λ n s, since n s ∧
      fragment_inv true (fragments_taken (history s.2)) (transaction_box s.1) (c_fragment s.2))); [done|..].
  - by intros m s [? _].
  - intros m w c [? ?]. split; [by apply since_tick|done].
  - eapply hoare_pre; [apply on_fragment_flush|by intros s []].
  - intros f [w c] [Hs Hf]. cbn [fst snd] in *.
    pose proof (zoom_run c_fragment set_c_fragment _ _ _ _ _ w c (spec_send (SinkSpec := fragment_sink_spec) _ f) Hf) as Hz.
    unfold mbind, prog_bind.
    destruct (on_fragment (sink_send f) (w, c)) as [[s' [p|e]]|]; [|..|done]; destruct Hz as (w' & x' & -> & Ho & Hp).
    + destruct Hs as [[Hb Hr _ Hg Hd] Hn], Ho as [? H1 _ H3 H4]. cbn in *. split; [|cbn; lia].
      constructor; cbn; rewrite ?H1, ?H3, ?H4 by done; eauto.
    + by eapply fragment_framed_err.
Qed.

Lemma on_gossip_ready n :
  hoare False (since n) (on_gossip sink_ready)
    (λ p s, since n s ∧ (p = Ready tt →
      gossip_inv id allow_private Subscription.Client true (gossip_taken (history s.2)) (topology_box s.1) (c_gossip s.2)))
    (λ _, client_final).
Proof.
  intros [w c] Hs. pose proof Hs as [[_ _ _ [ok Hf] _] _]. cbn [fst snd] in *.
  pose proof (zoom_run c_gossip set_c_gossip _ _ _ _ _ w c (spec_ready (SinkSpec := gossip_sink_spec id allow_private Subscription.Client) ok _) Hf) as Hz.
  destruct (on_gossip sink_ready (w, c)) as [[s' [p|e]]|]; [|..|done]; destruct Hz as (w' & x' & -> & Ho & Hp).
  - split; [by eapply gossip_framed|]. by intros ->.
  - by eapply gossip_framed_err.
Qed.

Lemma on_gossip_flush n :
  hoare False (since n) (flushed (on_gossip sink_flush);; mret Pending)
    (λ p s, p = (Pending : Poll ProcessingOutcome) ∧ since n s) (λ _, client_final).
Proof.
  intros [w c] Hs. pose proof Hs as [[_ _ _ [ok Hf] _] _]. cbn [fst snd] in *.
  pose proof (zoom_run c_gossip set_c_gossip _ _ _ _ _ w c (spec_flush (SinkSpec := gossip_sink_spec id allow_private Subscription.Client) ok _) Hf) as Hz.
  unfold flushed, mbind, prog_bind.
  destruct (on_gossip sink_flush (w, c)) as [[s' [p|e]]|]; [|..|done]; destruct Hz as (w' & x' & -> & Ho & Hp).
  - split; [done|]. destruct Hp as [Hp _]. by eapply gossip_framed.
  - by eapply gossip_framed_err.
Qed.

Lemma process_gossip_spec n :
  silent gossip_events is_item →
  hoare False (since n) process_gossip (advanced n) (λ _, client_final).
Proof.
  intros Hq. eapply ready_hoare; [apply on_gossip_ready|by intros s []|]. intros [].
  apply hoare_pre with (λ s, since n s ∧
      gossip_inv id allow_private Subscription.Client true (gossip_taken (history s.2)) (topology_box s.1) (c_gossip s.2)); [|naive_solver].
  apply (next_item_spec _ _ _ _ n (λ n s, since n s ∧
      gossip_inv id allow_private Subscription.Client true (gossip_taken (history s.2)) (topology_box s.1) (c_gossip s.2))); [done|..].
  - by intros m s [? _].
  - intros m w c [? ?]. split; [by apply since_tick|done].
  - eapply hoare_pre; [apply on_gossip_flush|by intros s []].
  - intros f [w c] [Hs Hf]. cbn [fst snd] in *.
    pose proof (zoom_run c_gossip set_c_gossip _ _ _ _ _ w c (spec_send (SinkSpec := gossip_sink_spec id allow_private Subscription.Client) _ f) Hf) as Hz.
    unfold mbind, prog_bind.
    destruct (on_gossip (sink_send f) (w, c)) as [[s' [p|e]]|]; [|..|done]; destruct Hz as (w' & x' & -> & Ho & Hp).
    + destruct Hs as [[Hb Hr Hg _ Hd] Hn], Ho as [? H1 H2 _ H4]. cbn in *. split; [|cbn; lia].
      constructor; cbn; rewrite ?H1, ?H2, ?H4 by done; eauto.
    + by eapply gossip_framed_err.
Qed.

Lemma next_request_spec {A} (stream : nat → Poll (option A)) f n :
  silent stream (λ _, True) → (∀ a w c, since n (w, c) → since n (w, f a c)) →
  hoare False (since n) (next_request stream f) (advanced n) (λ _, client_final).
Proof.
  intros Hq Hf [w c] Hs. unfold next_request. pose proof (since_tick _ _ _ Hs) as [Hi Hp].
  pose proof Hs as [_ Hn]. simpl in Hn, Hp. unfold ask, mbind, prog_bind. cbn [fst snd].
  specialize (Hq (polls w)). destruct (stream (polls w)) as [[a|]|]; simpl in *.
  - split; [apply Hf; split; simpl; [done|lia]|]. intros _. simpl. split; [lia|].
    destruct (decide (N ≤ polls w)) as [HN|]; [by destruct (Hq HN)|lia].
  - by split; [split; [|simpl; lia]|].
  - by split; [split; [|simpl; lia]|].
Qed.

(** After a part of a round: still running, or disconnected. *)
Definition progressed (n : nat) (p : Poll ProcessingOutcome) (s : W * Client) : Prop :=
  match p with
  | Ready Disconnect => client_final s
  | _ => advanced n p s
  end.

Lemma begin_spec n m :
  hoare False (since n) m (advanced n) (λ _, client_final) →
  hoare False (since n) (begin m) (progressed n) (λ _ _, False).
Proof.
  intros Hm s Hs. specialize (Hm s Hs). unfold begin, attempt, mbind, prog_bind.
  destruct (m s) as [[s' [p|e]]|]; simpl; [|done..]. destruct p as [[]|]; [done| |done].
  by eapply since_final, Hm.
Qed.

Lemma and_proceed_with_spec n p m :
  (∀ n, hoare False (since n) m (advanced n) (λ _, client_final)) →
  hoare False (progressed n p) (and_proceed_with p m) (progressed n) (λ _ _, False).
Proof.
  intros Hm s Hs. destruct p as [[]|]; [|done|].
  - destruct Hs as [[Hi Hn] Hc]. destruct (Hc eq_refl) as [Hlt HN].
    specialize (Hm (S n) s (conj Hi Hlt)). unfold and_proceed_with, attempt, mbind, prog_bind.
    destruct (m s) as [[s' [q|e]]|]; simpl; [|done..]. destruct q as [[]|]; simpl.
    + destruct Hm as [[? ?] _]. split; [by split; [|lia]|]. intros _. split; [lia|done].
    + by eapply since_final, Hm.
    + destruct Hm as [[? ?] _]. split; [by split; [|lia]|]. intros _. split; [lia|done].
  - destruct Hs as [Hi _]. specialize (Hm n s Hi). unfold and_proceed_with, attempt, mbind, prog_bind.
    destruct (m s) as [[s' [q|e]]|]; simpl; [|done..]. destruct q as [[]|]; [done| |done].
    by eapply since_final, Hm.
Qed.

Lemma since_spawn n w c ts : since n (w, c) → since n (w, spawn ts c).
Proof. intros [[] Hn]. split; [by constructor|done]. Qed.

Lemma one_round_spec n :
  streams_silent → hoare False (since n) one_round (progressed n) (λ _ _, False).
Proof.
  intros (Hq1 & Hq2 & Hq3 & Hq4 & Hq5).
  eapply hoare_bind; [apply begin_spec, process_block_event_spec, Hq1|]. intros p1.
  eapply hoare_bind; [apply and_proceed_with_spec; intros m; apply process_fragments_spec, Hq2|]. intros p2.
  eapply hoare_bind; [apply and_proceed_with_spec; intros m; apply process_gossip_spec, Hq3|]. intros p3.
  eapply hoare_bind; [apply and_proceed_with_spec; intros m; apply next_request_spec; [apply Hq4|]|].
  { intros a w c. apply since_spawn. }
  intros p4. apply and_proceed_with_spec. intros m. apply next_request_spec; [apply Hq5|].
  intros a w c. apply since_spawn.
Qed.

(** A poll ends: every round but the last reads an item, and an item is read
    at a poll before [N]. *)
Lemma poll_loop_spec fuel s :
  streams_silent → client_inv s → N - polls s.1 < fuel →
  match poll_loop fuel s with
  | Some (s', Ok Pending) => client_inv s' ∧ polls s.1 ≤ polls s'.1
  | Some (s', Ok (Ready _)) => client_final s'
  | _ => False
  end.
Proof.
  intros Hq. revert s. induction fuel as [|fuel IH]; intros s Hi Hfuel.
  { lia. }
  simpl. pose proof (one_round_spec (polls s.1) Hq s (conj Hi (le_n _))) as Hr.
  unfold mbind, prog_bind. destruct (one_round s) as [[s' [[[]|]|]]|]; [|done| |done..].
  - destruct Hr as [[Hi' Hn] Hc]. destruct (Hc eq_refl) as [Hlt HN].
    specialize (IH s' Hi'). destruct (poll_loop fuel s') as [[s2 [[|]|]]|]; [| |apply IH; lia..].
    + apply IH. lia.
    + destruct IH; [lia|]. by split; [|lia].
  - by destruct Hr as [[Hi' Hn] _].
Qed.

Lemma client_poll_spec s :
  streams_silent → client_inv s →
  match client_poll (S N) s with
  | Some (s', Ok Pending) => client_inv s'
  | Some (s', Ok (Ready _)) => client_final s'
  | _ => False
  end.
Proof.
  intros Hq Hi. unfold client_poll. rewrite gets_bind, (inv_running s Hi).
  pose proof (poll_loop_spec (S N) s Hq Hi ltac:(lia)) as Hl.
  destruct (poll_loop (S N) s) as [[s' [[|]|]]|]; [done|by destruct Hl|done..].
Qed.

(** The states of a connection that was polled and is pending; other tasks
    may change the table of peers in between. *)
Inductive polled (s0 : W * Client) : W * Client → Prop :=
| polled_new : polled s0 s0
| polled_again w c p s' :
    polled s0 (w, c) → client_poll (S N) (set_peers p w, c) = Some (s', Ok Pending) → polled s0 s'.

Lemma polled_inv s0 s : streams_silent → client_inv s0 → polled s0 s → client_inv s.
Proof.
  intros Hq Hi. induction 1 as [|w c p s' Hp IH Hs']; [done|].
  assert (client_inv (set_peers p w, c)) as Hi' by (destruct IH; by constructor).
  pose proof (client_poll_spec _ Hq Hi') as H'. by rewrite Hs' in H'.
Qed.

End invariant.

(** C7: polling an outbound connection ends without a panic, within one round
    more than the streams have items.  As long as it is pending, every item
    taken from the streams of the peer is accounted for, in its order: the
    announcements sent to the block task and the one in its slot; the
    requests sent to the client task and the one in its slot; the fragments in
    the batches sent to the fragment task and in the buffer; the gossip.  When
    the connection has ended, the boxes got nothing else. *)
Theorem client_poll_correct (id : NodeId) (allow_private : bool) (N : nat) (w0 : W) s :
  streams_silent N →
  block_box w0 = [] → transaction_box w0 = [] → topology_box w0 = [] → client_box w0 = [] →
  polled N (w0, client_new id allow_private) s →
  match client_poll (S N) s with
  | Some (s', Ok Pending) => client_inv id allow_private s'
  | Some (s', Ok (Ready _)) => client_final id allow_private s'
  | _ => False
  end.
Proof.
  intros Hq Hb Ht Hg Hc Hp. apply client_poll_spec; [done|].
  apply (polled_inv id allow_private N _ _ Hq) in Hp; [done|]. by apply client_new_inv.
Qed.

End client.
End NetClient.

(** ** Instances that compute *)
Module SampleNetClient.
Import Subscription SampleSubscription NetClient.

(** A peer that sends one fragment and then ends its block subscription; all
    the boxes of the node are ready. *)
#[export] Instance ending_streams : Streams := {|
  block_events := λ n, if n <? 8 then Pending else Ready None;
  fragment_events := λ n, if n <? 8 then Ready (Some (Ok (5%nat : @RawFragment sample_wire))) else Pending;
  gossip_events := λ _, Pending;
  block_solicitations := λ _, Pending;
  chain_pulls := λ _, Pending |}.

Definition c0 : NetClient.Client := client_new id7 false.

Lemma ending_silent : streams_silent 8.
Proof.
  repeat split; intros m Hm; simpl; try done; destruct (m <? 8) eqn:E; try done.
  apply Nat.ltb_lt in E. lia.
Qed.

Definition ended : W * NetClient.Client :=
  match client_poll 9 (w0, c0) with Some (s', _) => s' | None => (w0, c0) end.
Lemma ended_ready : client_poll 9 (w0, c0) = Some (ended, Ok (Ready tt)).
Proof. vm_compute. reflexivity. Qed.

Lemma client_poll_correct_witness :
  client_poll 9 (w0, c0) = Some (ended, Ok (Ready tt)) ∧ client_final id7 false ended.
Proof.
  split; [exact ended_ready|].
  pose proof (client_poll_correct id7 false 8 w0 (w0, c0) ending_silent eq_refl eq_refl eq_refl eq_refl
    (polled_new 8 (w0, c0))) as Hc.
  rewrite ended_ready in Hc. exact Hc.
Defined.

(** The end of a connection: [shutting_down] is never set, so the sinks are
    not closed, and the fragment is dropped although its box had room. *)
Example end_drops_fragments :
  (buffered_fragments (c_fragment ended.2), transaction_box ended.1, closed ended.1, shutting_down ended.2) =
  ([f5], [], [], false).
Proof. vm_compute. reflexivity. Qed.

(** A busy peer: the announcements and the requests go out in order. *)
Module Busy.
#[export] Instance busy_streams : Streams := {|
  block_events := λ n,
    if n <? 10 then Ready (Some (Ok (Announce (1%nat : @RawHeader sample_wire))))
    else if n <? 20 then Ready (Some (Ok (Solicit [2%nat : @RawId sample_wire])))
    else if n <? 30 then Ready (Some (Ok (Missing [3%nat : @RawId sample_wire] (4%nat : @RawId sample_wire))))
    else Pending;
  fragment_events := λ n, if n <? 20 then Ready (Some (Ok (5%nat : @RawFragment sample_wire))) else Pending;
  gossip_events := λ n, if n <? 20 then Ready (Some (Ok [2%nat : @RawNode sample_wire])) else Pending;
  block_solicitations := λ n, if n <? 9 then Ready (Some [6%nat : @RawId sample_wire]) else Pending;
  chain_pulls := λ _, Pending |}.

Definition h1 : @Header sample_wire := 1.
Definition i2 : @HeaderId sample_wire := 2.
Definition i3 : @HeaderId sample_wire := 3.
Definition i4 : @HeaderId sample_wire := 4.
Definition i6 : @RawId sample_wire := 6.

Example busy_poll :
  match client_poll 100 (w0, c0) with
  | Some ((w, c), Ok Pending) =>
      (block_box w, client_box w, batch <$> transaction_box w, topology_box w, spawned c) =
      ([AnnouncedBlock h1 id7], [GetBlocks [i2]; PullHeaders [i3] i4], [[f5; f5]],
       [AcceptGossip [n2]; AcceptGossip [n2]],
       [SendToBlockTask (NetworkBlocks 0); RequestBlocks [i6] 0; UploadBlocks [i2]; PushHeaders [i3] i4])
  | _ => False
  end.
Proof. vm_compute. reflexivity. Qed.
End Busy.
End SampleNetClient.
