(* ===== verification/Network.v ===== *)
(** * The network task

    Models [jormungandr/src/network/mod.rs] (the handling of the messages of
    the other tasks, the propagation of blocks, fragments and gossip, and the
    tasks that connect to peers) and the handshake of a client,
    [jormungandr/src/network/client/connect.rs].  A task that is spawned is an
    entry of the state with its phase, and moves when the environment says so;
    the theorems quantify over all interleavings. *)

From S2P Require Import Prelude Lru Lhm Peers.

(** ** Connecting to a peer (client/connect.rs) *)
Module Connect.
Import CommHandle.
Section connect.
Context {Address NodeId Nonce BlockHash AuthenticatedNodeId Auth : Type}.
Context {Header BlockIds ChainPullRequest Fragment Gossip : Type}.
Context `{EqDecision NodeId, EqDecision BlockHash}.

(** The errors of the transport and of the peer, without their sources. *)
Inductive ConnectError :=
| Canceled
| Transport
| Handshake
| DecodeBlock0
| Block0Mismatch (expected peer_responded : BlockHash)
| InvalidNodeId
| PeerSignatureVerificationFailed
| ClientAuth
| Subscription.

Record HandshakeResponse := mkResponse {
  block0_id : option BlockHash;
  auth : AuthenticatedNodeId;
  response_nonce : Nonce;
}.

(** The gRPC client: what the peer answers. *)
Record Remote := mkRemote {
  grpc_connect : bool;
  handshake : Nonce → option HandshakeResponse;
  client_auth : Auth → bool;
  subscriptions : bool;
}.

(** The cryptography: [auth.verify(nonce)], the identity it stands for, and
    the signature of this node. *)
Record Crypto := mkCrypto {
  verify : AuthenticatedNodeId → Nonce → bool;
  node_id : AuthenticatedNodeId → option NodeId;
  sign : Nonce → Auth;
}.

Definition validate_peer_auth (crypto : Crypto) (a : AuthenticatedNodeId) (nonce : Nonce)
    : result ConnectError NodeId :=
  if verify crypto a nonce
  then match node_id crypto a with Some id => Ok id | None => Err InvalidNodeId end
  else Err PeerSignatureVerificationFailed.

Definition match_block0 (expected peer_responded : BlockHash) : result ConnectError unit :=
  if decide (expected = peer_responded) then Ok tt else Err (Block0Mismatch expected peer_responded).

(** The three subscriptions of the connection, and the two streams of
    [Client::new]. *)
Definition client_comms (addr : Address)
    : @Peers.PeerComms Address Header BlockIds ChainPullRequest Fragment Gossip :=
  let c := Peers.comms_new addr in
  Peers.mkComms (Peers.remote_addr c) (subscribe (Peers.block_announcements c))
    (subscribe (Peers.block_solicitations c)) (subscribe (Peers.chain_pulls c))
    (subscribe (Peers.fragments c)) (subscribe (Peers.gossip c)).

Definition connect (remote : Remote) (crypto : Crypto) (block0_hash : BlockHash) (addr : Address)
    (expected_server_id : NodeId) (nonce : Nonce)
    : result ConnectError (@Peers.PeerComms Address Header BlockIds ChainPullRequest Fragment Gossip) :=
  if negb (grpc_connect remote) then Err Transport
  else match handshake remote nonce with
  | None => Err Handshake
  | Some hr =>
      match block0_id hr with
      | None => Err DecodeBlock0
      | Some peer_block0 =>
          let? _ := match_block0 block0_hash peer_block0 in
          let? peer_id := validate_peer_auth crypto (auth hr) nonce in
          if decide (peer_id = expected_server_id)
          then if client_auth remote (sign crypto (response_nonce hr))
               then if subscriptions remote then Ok (client_comms addr) else Err Subscription
               else Err ClientAuth
          else Err Handshake
      end
  end.

(** [ConnectFuture::poll]: [task] is what the connection has come to, [None]
    while it is pending; the sender of the handles may be canceled before, or
    while they are sent. *)
Definition connect_future_poll {A} (canceled : bool) (task : option (result ConnectError A)) (received : bool)
    : option (result ConnectError A) :=
  if canceled then Some (Err Canceled)
  else match task with
       | None => None
       | Some (Err e) => Some (Err e)
       | Some (Ok client) => if received then Some (Ok client) else Some (Err Canceled)
       end.

Ltac refused :=
  split; [done|intros (? & ? & hr' & ? & ? & ? & ? & ? & ?); simplify_eq/=; congruence].

(** A connection to a peer is made exactly if the peer has the same block
    0, proved with its signature of the fresh nonce that it is the node that
    was expected, and accepted the signature of this node and the three
    subscriptions; any other outcome is an error, and a connection whose
    handle was dropped ends as canceled. *)
Theorem connect_correct remote crypto block0_hash addr id nonce :
  (∀ c, connect remote crypto block0_hash addr id nonce = Ok c ↔
     c = client_comms addr ∧ grpc_connect remote = true ∧
     ∃ hr, handshake remote nonce = Some hr ∧ block0_id hr = Some block0_hash ∧
           verify crypto (auth hr) nonce = true ∧ node_id crypto (auth hr) = Some id ∧
           client_auth remote (sign crypto (response_nonce hr)) = true ∧ subscriptions remote = true) ∧
  (∀ canceled task received (c : @Peers.PeerComms Address Header BlockIds ChainPullRequest Fragment Gossip),
     connect_future_poll canceled task received = Some (Ok c) ↔
     canceled = false ∧ received = true ∧ task = Some (Ok c)).
Proof.
  split.
  - intros c. unfold connect, match_block0, validate_peer_auth.
    destruct (grpc_connect remote); simpl; [|refused].
    destruct (handshake remote nonce) as [hr|]; [|refused].
    destruct (block0_id hr) as [b|] eqn:Hb; [|refused].
    destruct (decide (block0_hash = b)) as [<-|]; simpl; [|refused].
    destruct (verify crypto (auth hr) nonce) eqn:Hv; simpl; [|refused].
    destruct (node_id crypto (auth hr)) as [i|] eqn:Hn; simpl; [|refused].
    destruct (decide (i = id)) as [->|]; [|refused].
    destruct (client_auth remote _) eqn:Ha; [|refused].
    destruct (subscriptions remote) eqn:Hs; [|refused].
    split; [intros [= <-]; eauto 10|by intros (-> & _)].
  - intros canceled task received c. unfold connect_future_poll.
    destruct canceled; [naive_solver|]. destruct task as [[|]|]; [|naive_solver..].
    destruct received; naive_solver.
Qed.
End connect.
End Connect.

(** ** The task (mod.rs) *)
Module Network.
Import Peers.
Section network.
Context {Address NodeId Nonce Header BlockId Fragment Gossip Selection : Type}.
Context `{EqDecision Address, EqDecision NodeId}.

Abbreviation BlockIds := (list BlockId).
Abbreviation ChainPullRequest := (list BlockId * BlockId)%type.
Abbreviation PeerData := (@Peers.PeerData Address Header BlockIds ChainPullRequest Fragment Gossip).
Abbreviation Env := (@Peers.Env Address Header BlockIds ChainPullRequest Fragment Gossip).
Abbreviation Options := (@Peers.ConnectOptions Header Fragment Gossip).
Context `{!LinkedHashMap NodeId PeerData} `{!LinkedHashMap Address NodeId} `{!LruCache Address Nonce}.
Abbreviation PeerMap := (@Peers.PeerMap Address NodeId Nonce Header BlockIds ChainPullRequest Fragment Gossip _ _ _ _ _).
Abbreviation Op := (@Peers.Op Address NodeId Nonce Header BlockIds ChainPullRequest Fragment Gossip).
Context (blocks_topic messages_topic : Selection).

(** [topology::Peer] *)
Record Peer := mkPeer { peer_id : NodeId; peer_address : Address }.

(** What is sent to the topology task from here. *)
Inductive TopologyMsg := View (s : Selection) | PromotePeer (id : NodeId) | DemotePeer (id : NodeId).

(** The headers, fragments, gossips and identifiers are encoded. *)
Inductive PropagateMsg :=
| PropBlock (header : Header)
| PropFragment (f : Fragment)
| PropGossip (peer : Peer) (g : Gossip).

Inductive NetworkMsg :=
| Propagate (msg : PropagateMsg)
| GetBlocks (block_ids : list BlockId)
| GetNextBlock (node_id : NodeId) (block_id : BlockId)
| PullHeaders (node_id : NodeId) (from : list BlockId) (to : BlockId)
| PeerInfo.

Inductive PropagateError := InternalCommSend | InternalCommRecv.

(** The answer of the topology task to [View]. *)
Inductive ViewReply := SendFails | NoReply | Viewed (peers : list Peer).

(** The task that connects to a peer: spawned, waiting for the connection,
    driving the client, ended. *)
Inductive Phase := Spawned | Connecting | Running | Ended.
Record Conn := mkConn { conn_addr : Address; conn_id : NodeId; conn_options : Options; phase : Phase }.
Definition set_phase (p : Phase) (c : Conn) : Conn := mkConn (conn_addr c) (conn_id c) (conn_options c) p.

(** The shared state of the network, with the connection tasks, the messages
    sent to the topology task and the replies to [PeerInfo].  The handle of a
    connection is the number of its task. *)
Record GlobalState := mkState {
  peers : PeerMap;
  connected_count : Z;
  max_client_connections : Z;
  node_address : option Address;
  conns : list Conn;
  topology_box : list TopologyMsg;
  peer_infos : list (list (NodeId * PeerStats));
}.

Definition state_new (max_connections : nat) (max_clients : Z) (addr : option Address) : GlobalState :=
  mkState (peer_map_new max_connections 0) 0 max_clients addr [] [] [].

Definition set_peers (p : PeerMap) (s : GlobalState) : GlobalState :=
  mkState p (connected_count s) (max_client_connections s) (node_address s) (conns s) (topology_box s) (peer_infos s).
Definition set_count (n : Z) (s : GlobalState) : GlobalState :=
  mkState (peers s) n (max_client_connections s) (node_address s) (conns s) (topology_box s) (peer_infos s).
Definition set_conns (l : list Conn) (s : GlobalState) : GlobalState :=
  mkState (peers s) (connected_count s) (max_client_connections s) (node_address s) l (topology_box s) (peer_infos s).
(** A message that the box does not take is logged. *)
Definition send_topology (taken : bool) (m : TopologyMsg) (s : GlobalState) : GlobalState :=
  if taken then
    mkState (peers s) (connected_count s) (max_client_connections s) (node_address s) (conns s)
      (topology_box s ++ [m]) (peer_infos s)
  else s.
Definition reply_infos (l : list (NodeId * PeerStats)) (s : GlobalState) : GlobalState :=
  mkState (peers s) (connected_count s) (max_client_connections s) (node_address s) (conns s)
    (topology_box s) (peer_infos s ++ [l]).

Definition inc_client_count (s : GlobalState) : GlobalState := set_count (usize_add (connected_count s) 1) s.
Definition dec_client_count (s : GlobalState) : GlobalState := set_count (usize_sub (connected_count s) 1) s.
Definition client_count (s : GlobalState) : Z := connected_count s.

Definition saturating_add (a b : Z) : Z := Z.min (a + b) (U64 - 1).
Definition num_clients_to_bump (s : GlobalState) : Z :=
  let count := saturating_add (client_count s) 1 in
  if (max_client_connections s <? count)%Z then (count - max_client_connections s)%Z else 0%Z.

(** *** Propagation *)
Fixpoint propagate_each {E} (f : NodeId → PeerMap → PeerMap * result E unit) (l : list Peer) (p : PeerMap)
    : PeerMap * list Peer :=
  match l with
  | [] => (p, [])
  | peer :: l =>
      let '(p, r) := f (peer_id peer) p in
      let '(p, res) := propagate_each f l p in
      (p, match r with Ok _ => res | Err _ => peer :: res end)
  end.

Definition propagate_message {E} (f : NodeId → PeerMap → PeerMap * result E unit) (sel : Selection)
    (reply : ViewReply) (s : GlobalState) : GlobalState * result PropagateError (list Peer) :=
  match reply with
  | SendFails => (s, Err InternalCommSend)
  | NoReply => (send_topology true (View sel) s, Err InternalCommRecv)
  | Viewed l =>
      let s := send_topology true (View sel) s in
      let '(p, res) := propagate_each f l (peers s) in (set_peers p s, Ok res)
  end.

Definition default_options : Options := mkOptions None None None 0.
Definition options_for (msg : PropagateMsg) : Options :=
  match msg with
  | PropBlock header => mkOptions (Some header) None None 0
  | PropFragment f => mkOptions None (Some f) None 0
  | PropGossip _ g => mkOptions None None (Some g) 0
  end.

(** The spawned task is new; a connection to the node itself is ignored. *)
Definition connect_and_propagate (addr : Address) (id : NodeId) (options : Options) (s : GlobalState)
    : GlobalState :=
  let options := mkOptions (pending_block_announcement options) (pending_fragment options)
                   (pending_gossip options) (Z.to_nat (num_clients_to_bump s)) in
  if decide (node_address s = Some addr) then s
  else set_conns (conns s ++ [mkConn addr id options Spawned]) s.

Definition handle_propagation_msg (env : Env) (msg : PropagateMsg) (reply : ViewReply) (s : GlobalState)
    : GlobalState * result PropagateError unit :=
  let '(s, r) :=
    match msg with
    | PropBlock header =>
        propagate_message (λ id, propagate_block env id header) blocks_topic reply s
    | PropFragment f =>
        propagate_message (λ id, propagate_fragment env id f) messages_topic reply s
    | PropGossip peer g =>
        let '(p, r) := propagate_gossip_to env (peer_id peer) g (peers s) in
        (set_peers p s, Ok (match r with Ok _ => [] | Err _ => [peer] end))
    end in
  match r with
  | Err e => (s, Err e)
  | Ok unreached_nodes =>
      (foldl (λ s peer, connect_and_propagate (peer_address peer) (peer_id peer) (options_for msg) s)
         s unreached_nodes, Ok tt)
  end.

(** One turn of [handle_network_input]; errors are logged. *)
Definition handle_network_input (env : Env) (msg : NetworkMsg) (reply : ViewReply) (s : GlobalState)
    : GlobalState :=
  match msg with
  | Propagate msg => (handle_propagation_msg env msg reply s).1
  | GetBlocks block_ids => set_peers (solicit_blocks_any env block_ids (peers s)) s
  | GetNextBlock node_id block_id => set_peers (solicit_blocks_peer env node_id [block_id] (peers s)) s
  | PullHeaders node_id from to => set_peers (pull_headers env node_id (from, to) (peers s)) s
  | PeerInfo => reply_infos (infos (peers s)) s
  end.

(** *** The connection tasks *)

(** Whether the error of a connection is benign. *)
Definition benign {B} (e : @Connect.ConnectError B) : bool :=
  match e with Connect.Canceled => true | _ => false end.

Inductive Event {B : Type} :=
| Recv (msg : NetworkMsg) (reply : ViewReply)
| ConnStart (i : nat) (now : Z)
| ConnFail (i : nat) (e : @Connect.ConnectError B) (taken : bool)
| ConnOk (i : nat) (taken : bool)
| ConnEnd (i : nat)
(** Operations of the other connections on the table of peers. *)
| Other (op : Op).

Definition advance (i : nat) (from to : Phase) (k : Conn → GlobalState → GlobalState) (s : GlobalState)
    : option GlobalState :=
  match conns s !! i with
  | Some c =>
      match phase c, from with
      | Spawned, Spawned | Connecting, Connecting | Running, Running =>
          Some (k c (set_conns (<[i := set_phase to c]> (conns s)) s))
      | _, _ => None
      end
  | None => None
  end.

(** One step of the network; [None]: the event cannot happen. *)
Definition net_step {B} (env : Env) (ev : @Event B) (s : GlobalState) : option GlobalState :=
  match ev with
  | Recv msg reply => Some (handle_network_input env msg reply s)
  | ConnStart i now =>
      advance i Spawned Connecting (λ c s,
        set_peers (add_connecting env now (conn_id c) (conn_addr c) i (conn_options c) (peers s)) s) s
  | ConnFail i e taken =>
      advance i Connecting Ended (λ c s,
        if benign e then s
        else let s := send_topology taken (DemotePeer (conn_id c)) s in
             set_peers (remove_peer env (conn_id c) (peers s)).1 s) s
  | ConnOk i taken =>
      advance i Connecting Running (λ c s,
        let s := set_peers (update_entry env (conn_id c) (peers s)) s in
        send_topology taken (PromotePeer (conn_id c)) (inc_client_count s)) s
  | ConnEnd i => advance i Running Ended (λ _ s, dec_client_count s) s
  | Other op => Some (set_peers (run_op env op (peers s)) s)
  end.

Fixpoint net_run {B} (evs : list (Env * @Event B)) (s : GlobalState) : option GlobalState :=
  match evs with
  | [] => Some s
  | (env, ev) :: evs => s' ← net_step env ev s; net_run evs s'
  end.

(** ** The table of peers and the count of connections *)
Context `{!LinkedHashMapLaws NodeId PeerData} `{!LinkedHashMapLaws Address NodeId} `{!LruLaws Address Nonce}.

Definition is_running (c : Conn) : bool := match phase c with Running => true | _ => false end.
Definition running (l : list Conn) : nat := length (filter (λ c, is_running c = true) l).

(** The operations of the table that lead from one state of it to another. *)
Definition via (p p' : PeerMap) : Prop :=
  ∃ ops : list (Env * Op), p' = foldr (λ eo p, run_op eo.1 eo.2 p) p ops.

#[global] Instance via_preorder : PreOrder via.
Proof.
  split; [by exists []|]. intros p1 p2 p3 [ops1 ->] [ops2 ->]. exists (ops2 ++ ops1). by rewrite foldr_app.
Qed.
Lemma via_op env op p : via p (run_op env op p).
Proof. by exists [(env, op)]. Qed.
Lemma via_table cap p : via (peer_map_new cap 0) p → ∃ ops, p = table cap ops.
Proof.
  intros [ops ->]. exists ops. induction ops as [|[env op] ops IH]; simpl; [done|]. by rewrite IH.
Qed.

Lemma propagate_each_via {E} (f : NodeId → PeerMap → PeerMap * result E unit) l p :
  (∀ id p, via p (f id p).1) → via p (propagate_each f l p).1.
Proof.
  intros Hf. revert p. induction l as [|peer l IH]; intros p; simpl; [done|].
  pose proof (Hf (peer_id peer) p) as H1. destruct (f (peer_id peer) p) as [p1 r].
  specialize (IH p1). destruct (propagate_each f l p1) as [p2 res]. by etrans.
Qed.

(** What a turn of the task changes: the table through its operations, and
    new tasks that are not running. *)
Definition turn (s s' : GlobalState) : Prop :=
  via (peers s) (peers s') ∧ connected_count s' = connected_count s ∧
  ∃ new, conns s' = conns s ++ new ∧ Forall (λ c, phase c = Spawned) new.

Lemma turn_refl s : turn s s.
Proof. split; [done|]. split; [done|]. exists []. by rewrite app_nil_r. Qed.
Lemma turn_trans s1 s2 s3 : turn s1 s2 → turn s2 s3 → turn s1 s3.
Proof.
  intros (H1 & H2 & n1 & H3 & H4) (K1 & K2 & n2 & K3 & K4). split; [by etrans|]. split; [congruence|].
  exists (n1 ++ n2). rewrite K3, H3, app_assoc. split; [done|]. by apply Forall_app.
Qed.
Lemma turn_peers s p : via (peers s) p → turn s (set_peers p s).
Proof. intros Hv. split; [done|]. split; [done|]. exists []. by rewrite app_nil_r. Qed.
Lemma turn_send taken m s : turn s (send_topology taken m s).
Proof. destruct taken; [|apply turn_refl]. split; [done|]. split; [done|]. exists []. by rewrite app_nil_r. Qed.
Lemma turn_connect addr id o s : turn s (connect_and_propagate addr id o s).
Proof.
  unfold connect_and_propagate. case_decide; [apply turn_refl|]. split; [done|]. split; [done|].
  eexists. split; [done|]. by repeat constructor.
Qed.

Lemma turn_message {E} (f : NodeId → PeerMap → PeerMap * result E unit) sel reply s :
  (∀ id p, via p (f id p).1) → turn s (propagate_message f sel reply s).1.
Proof.
  intros Hf. destruct reply as [| |l]; [apply turn_refl|apply (turn_send true)|]. unfold propagate_message.
  pose proof (propagate_each_via f l (peers (send_topology true (View sel) s)) Hf) as Hv.
  destruct (propagate_each f l _) as [p res]. eapply turn_trans; [apply (turn_send true)|]. by apply turn_peers.
Qed.

Lemma turn_propagation env msg reply s : turn s (handle_propagation_msg env msg reply s).1.
Proof.
  unfold handle_propagation_msg.
  set (first := match msg with PropBlock _ => _ | PropFragment _ => _ | PropGossip _ _ => _ end).
  assert (turn s first.1) as Hfirst.
  { destruct msg as [h|f|peer g]; simpl.
    - apply turn_message. intros id p. apply (via_op env (OpBlock id h)).
    - apply turn_message. intros id p. apply (via_op env (OpFragment id f)).
    - pose proof (via_op env (OpGossip (peer_id peer) g) (peers s)) as Hv. unfold first. simpl in Hv.
      destruct (propagate_gossip_to env (peer_id peer) g (peers s)) as [p r]. by apply turn_peers. }
  destruct first as [s1 [l|e]]; simpl in *; [|done]. revert s1 Hfirst.
  induction l as [|peer l IH]; intros s1 Hs1; simpl; [done|]. apply IH.
  eapply turn_trans; [done|apply turn_connect].
Qed.

Lemma turn_input env msg reply s : turn s (handle_network_input env msg reply s).
Proof.
  destruct msg as [msg|ids|id b|id from to|]; simpl.
  - apply turn_propagation.
  - apply turn_peers, (via_op env (OpSolicitAny ids)).
  - apply turn_peers, (via_op env (OpSolicit id [b])).
  - apply turn_peers, (via_op env (OpPull id (from, to))).
  - split; [done|]. split; [done|]. exists []. by rewrite app_nil_r.
Qed.

Lemma running_app l1 l2 : running (l1 ++ l2) = running l1 + running l2.
Proof. unfold running. by rewrite filter_app, length_app. Qed.
Lemma running_insert l i c c' :
  l !! i = Some c →
  running (<[i := c']> l) + Nat.b2n (is_running c) = running l + Nat.b2n (is_running c').
Proof.
  intros Hi. pose proof (lookup_lt_Some _ _ _ Hi). rewrite insert_take_drop by done.
  rewrite <- (take_drop_middle l i c Hi) at 3. rewrite !running_app.
  assert (∀ c l, running (c :: l) = Nat.b2n (is_running c) + running l) as Hc.
  { intros d k. unfold running. rewrite filter_cons. by destruct (is_running d). }
  rewrite !Hc. lia.
Qed.
Lemma running_spawned l : Forall (λ c, phase c = Spawned) l → running l = 0.
Proof.
  intros Hl. unfold running. induction Hl as [|c l Hc _ IH]; [done|]. rewrite filter_cons.
  unfold is_running. rewrite Hc. by case_decide.
Qed.

Definition net_inv (cap : nat) (s : GlobalState) : Prop :=
  via (peer_map_new cap 0) (peers s) ∧ connected_count s = wrap64 (Z.of_nat (running (conns s))).

Lemma advance_inv i from to k s s' :
  advance i from to k s = Some s' →
  ∃ c, conns s !! i = Some c ∧ phase c = from ∧ s' = k c (set_conns (<[i := set_phase to c]> (conns s)) s).
Proof.
  unfold advance. destruct (conns s !! i) as [c|]; [|done]. exists c.
  destruct (phase c) eqn:Hp, from; simplify_eq; done.
Qed.

Lemma net_step_inv {B} cap env (ev : @Event B) s s' :
  net_step env ev s = Some s' → net_inv cap s → net_inv cap s'.
Proof.
  intros Hstep [Hv Hc]. destruct ev as [msg reply|i now|i e taken|i taken|i|op]; simpl in Hstep.
  - injection Hstep as <-. destruct (turn_input env msg reply s) as (Hv' & Hc' & new & Hn & Hf).
    split; [by etrans|]. rewrite Hc', Hc, Hn, running_app, (running_spawned new) by done. f_equal. lia.
  - apply advance_inv in Hstep as (c & Hi & Hp & ->). split.
    + etrans; [exact Hv|]. simpl. apply (via_op env (OpAddConnecting now (conn_id c) (conn_addr c) i (conn_options c))).
    + simpl. rewrite Hc. f_equal. f_equal. pose proof (running_insert _ _ _ (set_phase Connecting c) Hi) as Hr.
      unfold is_running in Hr. rewrite Hp in Hr. simpl in Hr. lia.
  - apply advance_inv in Hstep as (c & Hi & Hp & ->).
    pose proof (running_insert _ _ _ (set_phase Ended c) Hi) as Hr.
    unfold is_running in Hr. rewrite Hp in Hr. simpl in Hr.
    destruct (benign e); simpl; [|destruct taken]; split; simpl.
    1: done.
    2, 4: etrans; [exact Hv|apply (via_op env (OpRemovePeer (conn_id c)))].
    all: rewrite Hc; f_equal; lia.
  - apply advance_inv in Hstep as (c & Hi & Hp & ->).
    pose proof (running_insert _ _ _ (set_phase Running c) Hi) as Hr.
    unfold is_running in Hr. rewrite Hp in Hr. simpl in Hr.
    destruct taken; (split; simpl; [etrans; [exact Hv|apply (via_op env (OpUpdateEntry (conn_id c)))]|]);
      rewrite Hc; unfold usize_add; rewrite wrap64_add_l; f_equal; lia.
  - apply advance_inv in Hstep as (c & Hi & Hp & ->). split; [done|]. simpl.
    pose proof (running_insert _ _ _ (set_phase Ended c) Hi) as Hr.
    unfold is_running in Hr. rewrite Hp in Hr. simpl in Hr.
    rewrite Hc. unfold usize_sub. rewrite wrap64_sub_l. f_equal. lia.
  - injection Hstep as <-. split; [|done]. etrans; [exact Hv|apply via_op].
Qed.

Lemma table_bounded cap (ops : list (Env * Op)) :
  bounded (table cap ops) ∧ capacity (table cap ops) = cap.
Proof.
  induction ops as [|[env op] ops [Hb Hcap]]; simpl.
  - unfold bounded. simpl. rewrite lhm_new_entries. simpl. split; [lia|done].
  - destruct (table_step env op (table cap ops) Hb) as (? & ? & _). split; [done|congruence].
Qed.


(** ** Propagation reaches every peer *)
Import CommHandle.

(** The item a stream got last, or that waits for the connection. *)
Definition last_item {T} (h : CommHandle T) : option T :=
  match state h with
  | NotSubscribed => None
  | Pending item => Some item
  | Subscribed sender => last sender
  end.
Definition queued (msg : PropagateMsg) (d : PeerData) : Prop :=
  match msg with
  | PropBlock header => last_item (block_announcements (comms d)) = Some header
  | PropFragment f => last_item (fragments (comms d)) = Some f
  | PropGossip _ g => last_item (gossip (comms d)) = Some g
  end.
Definition reached (msg : PropagateMsg) (id : NodeId) (p : PeerMap) : Prop :=
  ∃ d, lhm_get id (map p) = Some d ∧ queued msg d.

Lemma try_send_last {T} chan (item : T) h h' u : try_send chan item h = (h', Ok u) → last_item h' = Some item.
Proof.
  unfold try_send, last_item. destruct (state h) as [|x|l]; intros Hs; [done|by simplify_eq|].
  destruct (chan (length l)); simplify_eq/=. apply last_snoc.
Qed.

Lemma propagate_with_spec {T} env (f : CommStatus → PeerComms → PeerComms * result (CommHandle.PropagateError T) unit) id p :
  let '(p', r) := propagate_with env f id p in
  (∀ id', id' ≠ id → lhm_get id' (map p') = lhm_get id' (map p)) ∧
  (is_ok r = true → ∃ d st c, lhm_get id (map p') = Some (set_comms c d) ∧ f st (comms d) = (c, Ok tt)).
Proof.
  unfold propagate_with. destruct (lhm_get id (map p)) as [d|] eqn:Hd; [|done].
  destruct (update_comm_status env d) as [d' st]. destruct (f st (comms d')) as [c [[]|e]] eqn:Hf; simpl.
  - split.
    + intros id' Hne. rewrite !lhm_get_spec, lhm_get_mut_entries, alist_get_alter. by rewrite decide_False.
    + intros _. exists d', st, c. split; [|done].
      rewrite lhm_get_spec, lhm_get_mut_entries, alist_get_alter, decide_True by done.
      rewrite lhm_get_spec in Hd. by rewrite Hd.
  - split; [|done]. intros id' Hne. rewrite !lhm_get_spec, lhm_remove_entries, alist_get_del. by rewrite decide_False.
Qed.

(** What the propagation to one peer does. *)
Definition propagates {E} (msg : PropagateMsg) (f : NodeId → PeerMap → PeerMap * result E unit) : Prop :=
  ∀ id p, let '(p', r) := f id p in
    (∀ id', id' ≠ id → lhm_get id' (map p') = lhm_get id' (map p)) ∧
    (is_ok r = true → reached msg id p').

Lemma propagate_block_propagates env h : propagates (PropBlock h) (λ id, propagate_block env id h).
Proof.
  intros id p. unfold propagate_block, or_peer.
  pose proof (propagate_with_spec env (send_or_pend (try_send_block_announcement env h)
    (set_pending_block_announcement h)) id p) as Hs.
  destruct (propagate_with _ _ _ _) as [p' r]. destruct Hs as [Hf Ho]. simpl. split; [done|].
  intros Hr. destruct Ho as (d & st & c & Hd & Hc); [by destruct r|]. exists (set_comms c d). split; [done|].
  simpl. destruct st; simpl in Hc; [by simplify_eq|]. unfold try_send_block_announcement in Hc.
  destruct (try_send _ _ _) as [h' r'] eqn:Ht. simplify_eq/=. by eapply try_send_last.
Qed.
Lemma propagate_fragment_propagates env f : propagates (PropFragment f) (λ id, propagate_fragment env id f).
Proof.
  intros id p. unfold propagate_fragment, or_peer.
  pose proof (propagate_with_spec env (send_or_pend (try_send_fragment env f) (set_pending_fragment f)) id p) as Hs.
  destruct (propagate_with _ _ _ _) as [p' r]. destruct Hs as [Hf Ho]. simpl. split; [done|].
  intros Hr. destruct Ho as (d & st & c & Hd & Hc); [by destruct r|]. exists (set_comms c d). split; [done|].
  simpl. destruct st; simpl in Hc; [by simplify_eq|]. unfold try_send_fragment in Hc.
  destruct (try_send _ _ _) as [h' r'] eqn:Ht. simplify_eq/=. by eapply try_send_last.
Qed.
Lemma propagate_gossip_propagates env peer g :
  propagates (PropGossip peer g) (λ id, propagate_gossip_to env id g).
Proof.
  intros id p. unfold propagate_gossip_to.
  pose proof (propagate_with_spec env (send_or_pend (try_send_gossip env g) (set_pending_gossip g)) id p) as Hs.
  destruct (propagate_with _ _ _ _) as [p' r]. destruct Hs as [Hf Ho]. simpl. split; [done|].
  intros Hr. destruct Ho as (d & st & c & Hd & Hc); [by destruct r|]. exists (set_comms c d). split; [done|].
  simpl. destruct st; simpl in Hc; [by simplify_eq|]. unfold try_send_gossip in Hc.
  destruct (try_send _ _ _) as [h' r'] eqn:Ht. simplify_eq/=. by eapply try_send_last.
Qed.

Lemma propagate_each_spec {E} msg (f : NodeId → PeerMap → PeerMap * result E unit) l p :
  propagates msg f → NoDup (peer_id <$> l) →
  let '(p', res) := propagate_each f l p in
  (∀ id, id ∉ peer_id <$> l → lhm_get id (map p') = lhm_get id (map p)) ∧
  sublist res l ∧ (∀ peer, peer ∈ l → reached msg (peer_id peer) p' ∨ peer ∈ res).
Proof.
  intros Hf. revert p. induction l as [|peer l IH]; intros p; simpl; [by intros; split_and!; [..|set_solver]|].
  intros [Hni Hnd]%NoDup_cons. specialize (Hf (peer_id peer) p).
  destruct (f (peer_id peer) p) as [p1 r]. destruct Hf as [Hframe Hok]. specialize (IH p1 Hnd).
  destruct (propagate_each f l p1) as [p2 res]. destruct IH as (IH1 & IH2 & IH3). split_and!.
  - intros id [Hne Hid]%not_elem_of_cons. rewrite IH1 by done. by apply Hframe.
  - destruct r; [by apply sublist_cons|by apply sublist_skip].
  - intros q [->|Hq]%elem_of_cons.
    + destruct r; [left|right; left]. destruct (Hok eq_refl) as (d & Hd & Hq'). exists d.
      by rewrite IH1.
    + destruct (IH3 q Hq) as [?|?]; [by left|right]. destruct r; [done|by right].
Qed.

(** The connection task for a peer that was not reached. *)
Definition task_for (msg : PropagateMsg) (s : GlobalState) (peer : Peer) : Conn :=
  mkConn (peer_address peer) (peer_id peer)
    (mkOptions (pending_block_announcement (options_for msg)) (pending_fragment (options_for msg))
       (pending_gossip (options_for msg)) (Z.to_nat (num_clients_to_bump s))) Spawned.

Lemma connect_each msg l s :
  let s' := foldl (λ s peer, connect_and_propagate (peer_address peer) (peer_id peer) (options_for msg) s) s l in
  peers s' = peers s ∧
  conns s' = conns s ++ (task_for msg s <$> filter (λ peer, node_address s ≠ Some (peer_address peer)) l).
Proof.
  simpl. revert s. induction l as [|peer l IH]; intros s; simpl; [by rewrite app_nil_r|].
  destruct (IH (connect_and_propagate (peer_address peer) (peer_id peer) (options_for msg) s)) as [-> ->].
  unfold connect_and_propagate. rewrite filter_cons. destruct (decide (node_address s = Some (peer_address peer))).
  - rewrite decide_False by tauto. done.
  - rewrite decide_True by done. split; [done|]. simpl. by rewrite <- app_assoc.
Qed.

Lemma propagation_done env msg reply s s1 unreached targets :
  (match msg with
   | PropBlock header => propagate_message (λ id, propagate_block env id header) blocks_topic reply s
   | PropFragment f => propagate_message (λ id, propagate_fragment env id f) messages_topic reply s
   | PropGossip peer g =>
       let '(p, r) := propagate_gossip_to env (peer_id peer) g (peers s) in
       (set_peers p s, Ok (match r with Ok _ => [] | Err _ => [peer] end))
   end) = (s1, Ok unreached) →
  match msg with PropGossip peer _ => targets = [peer] | _ => reply = Viewed targets end →
  NoDup (peer_id <$> targets) →
  sublist unreached targets ∧
  (∀ peer, peer ∈ targets → reached msg (peer_id peer) (peers s1) ∨ peer ∈ unreached) ∧
  conns s1 = conns s ∧ node_address s1 = node_address s ∧ num_clients_to_bump s1 = num_clients_to_bump s.
Proof.
  intros Hs1 Ht Hnd. destruct msg as [h|f|peer g].
  - subst reply. simpl in Hs1.
    pose proof (propagate_each_spec _ _ targets (peers s) (propagate_block_propagates env h) Hnd) as Hp.
    destruct (propagate_each _ _ _) as [p res]. simplify_eq/=. destruct Hp as (_ & ? & ?). done.
  - subst reply. simpl in Hs1.
    pose proof (propagate_each_spec _ _ targets (peers s) (propagate_fragment_propagates env f) Hnd) as Hp.
    destruct (propagate_each _ _ _) as [p res]. simplify_eq/=. destruct Hp as (_ & ? & ?). done.
  - subst targets.
    pose proof (propagate_gossip_propagates env peer g (peer_id peer) (peers s)) as Hp. cbn beta in Hp.
    destruct (propagate_gossip_to _ _ _ _) as [p r]. simplify_eq/=. destruct Hp as [_ Hok].
    split_and!; try done.
    + destruct r; [apply sublist_nil_l|done].
    + intros q ->%list_elem_of_singleton. destruct r; [left; by apply Hok|right; by left].
Qed.


(** The item is handed to the table when the task starts. *)
Lemma conn_start_carries {B} env i now s s' msg s0 peer :
  conns s !! i = Some (task_for msg s0 peer) →
  net_step (B := B) env (ConnStart i now) s = Some s' → reached msg (peer_id peer) (peers s').
Proof.
  intros Hi Hstep. apply advance_inv in Hstep as (c & Hi' & _ & ->). simplify_eq. simpl.
  unfold add_connecting. cbn [opt_evict_clients task_for conn_options].
  set (p := add_connecting_map _ _ _ _ _ _).
  assert (is_Some (lhm_get (peer_id peer) (map p))) as [d Hd].
  { unfold p, add_connecting_map, ensure_peer. simpl.
    rewrite lhm_get_spec, lhm_get_mut_entries, alist_get_alter, decide_True by done.
    rewrite lhm_or_insert_entries. apply fmap_is_Some.
    destruct (alist_get (peer_id peer) (lhm_entries _)) eqn:Hg; [by rewrite Hg|].
    rewrite alist_get_app, Hg. simpl. rewrite decide_True by done. done. }
  clearbody p. eexists. split.
  - simpl. rewrite lhm_get_spec, lhm_get_mut_entries, alist_get_alter, decide_True by done.
    rewrite lhm_get_spec in Hd. rewrite Hd. done.
  - by destruct msg.
Qed.

End network.
End Network.

(** ** Instances that compute *)
Module SampleNetwork.
Import ListLru ListLhm Peers Network.

Definition env0 : Peers.Env (Address := nat) (Header := nat) (BlockIds := list nat)
    (ChainPullRequest := list nat * nat) (Fragment := nat) (Gossip := nat) :=
  mkEnv (λ _ _, ChanReady) (λ _, NotConnected).

Abbreviation State := (GlobalState (Address := nat) (NodeId := nat) (Nonce := nat) (Header := nat)
  (BlockId := nat) (Fragment := nat) (Gossip := nat) (Selection := bool)).
Definition s0 : State := state_new 4 1 (Some 99).

(** A block is propagated to the peers 1 and 2, and to the node itself; the
    first connection succeeds, the second fails. *)
Abbreviation Ev := (Event (Address := nat) (NodeId := nat) (Nonce := nat) (Header := nat)
  (BlockId := nat) (Fragment := nat) (Gossip := nat) (B := nat)).
Definition events : list (_ * Ev) :=
  [(env0, Recv (Propagate (PropBlock 5)) (Viewed [mkPeer 1 11; mkPeer 2 12; mkPeer 3 99]));
   (env0, ConnStart 0 100); (env0, ConnStart 1 101); (env0, ConnOk 0 true);
   (env0, ConnFail 1 Connect.Transport true)].

Definition s1 : State :=
  match net_run true false events s0 with Some s => s | None => s0 end.
Lemma s1_run : net_run true false events s0 = Some s1.
Proof. vm_compute. reflexivity. Qed.

Example events_end :
  (client_count s1, (lhm_entries (map (peers s1))).*1, topology_box s1, phase <$> conns s1) =
  (1%Z, [1], [View true; PromotePeer 1; DemotePeer 2], [Running; Ended]).
Proof. vm_compute. reflexivity. Qed.


Definition view : list (Peer (Address := nat) (NodeId := nat)) := [mkPeer 1 11; mkPeer 2 12].
End SampleNetwork.
