(* ===== verification/Service.v ===== *)
(** * The services for other nodes

    Models [jormungandr/src/network/service.rs], which a node offers to its
    peers over gRPC: the handshake and the authentication of clients, the
    requests for blocks and headers, the streams that peers push, and the
    subscriptions; with the conversions of [jormungandr/src/network/convert.rs].
    The table of peers is the model of [Peers], the other end of a handshake
    that of [Network] (module [Connect]), and the task that answers the
    requests that of [Client]. *)

From S2P Require Import Prelude BlockDate Lru Lhm Deque Fragment FragmentLogs Storage Chain ChainInv Client Peers Network.

Module Service.
Section errors.
Context `{BlockStore} `{!LedgerTypes} `{!MultiverseOps}.
(** [chain_network::error::Error]: its code, or the error of a task. *)
Inductive Error :=
| InvalidArgument
| FailedPrecondition
| Internal
| Unavailable
| Aborted
| VerifyFailed
| Unimplemented
| FromTask (e : Client.Error).
End errors.

(** ** Conversions (convert.rs)

    The bytes of a type [A] on the wire; [decode] reads them. *)
Class Wire (A : Type) := {
  Raw : Type;
  encode : A → Raw;
  decode : Raw → option A;
}.
Arguments Raw A {_}.
Class WireLaws (A : Type) `{!Wire A} : Prop := decode_encode (x : A) : decode (encode x) = Some x.

Section service.
Context `{BlockStore} `{!LedgerTypes} `{!MultiverseOps}.
Context `{!Wire HeaderHash, !Wire Header, !Wire Block}.

(** [Decode::decode] *)
Definition read {A} `{!Wire A} (r : Raw A) : result Error A :=
  match decode r with Some x => Ok x | None => Err InvalidArgument end.

(** [Decode for Box<[N]>]: the first failure is the result. *)
Fixpoint read_all {A} `{!Wire A} (l : list (Raw A)) : result Error (list A) :=
  match l with
  | [] => Ok []
  | r :: l => let? x := read r in let? xs := read_all l in Ok (x :: xs)
  end.

Definition response_stream {A} `{!Wire A} (items : list (result Client.Error A)) : list (result Error (Raw A)) :=
  (λ r, match r with Ok x => Ok (encode x) | Err e => Err (FromTask e) end) <$> items.

(** ** Requests to the client task

    [taken]: the message box takes the request; [task]: its answer, [None] if
    it drops the request. *)
Section requests.
Context (taken : bool) (task : Client.ClientMsg → option Client.Reply).

Definition send_message (m : Client.ClientMsg) : result Error Client.Reply :=
  if negb taken then Err Internal
  else match task m with Some r => Ok r | None => Err Unavailable end.

(** A reply of another kind cannot be sent into the handle of the request. *)
Definition blocks_reply (r : Client.Reply) : result Error (list (result Error (Raw Block))) :=
  match r with
  | Client.BlocksReply (Client.Stream items, _) => Ok (response_stream items)
  | Client.BlocksReply (Client.ReplyError e, _) => Err (FromTask e)
  | _ => Err Unavailable
  end.
Definition headers_reply (r : Client.Reply) : result Error (list (result Error (Raw Header))) :=
  match r with
  | Client.HeadersReply (Client.Stream items, _) => Ok (response_stream items)
  | Client.HeadersReply (Client.ReplyError e, _) => Err (FromTask e)
  | _ => Err Unavailable
  end.

Definition tip : result Error (Raw Header) :=
  let? r := send_message Client.GetBlockTip in
  match r with Client.TipReply h => Ok (encode h) | _ => Err Unavailable end.

Definition pull_blocks (from : list (Raw HeaderHash)) (to : Raw HeaderHash) :=
  let? from := read_all from in
  let? to := read to in
  let? r := send_message (Client.PullBlocks from to) in
  blocks_reply r.

Definition pull_blocks_to_tip (from : list (Raw HeaderHash)) :=
  let? from := read_all from in
  let? r := send_message (Client.PullBlocksToTip from) in
  blocks_reply r.

Definition get_blocks (ids : list (Raw HeaderHash)) :=
  let? ids := read_all ids in
  let? r := send_message (Client.GetBlocks ids) in
  blocks_reply r.

Definition get_headers (ids : list (Raw HeaderHash)) :=
  let? ids := read_all ids in
  let? r := send_message (Client.GetHeaders ids) in
  headers_reply r.

Definition pull_headers (from : list (Raw HeaderHash)) (to : Raw HeaderHash) :=
  let? from := read_all from in
  let? to := read to in
  let? r := send_message (Client.PullHeaders from to) in
  headers_reply r.
End requests.

Definition get_fragments {A} (_ids : list A) : result Error (list A) := Err Unimplemented.

(** ** Streams that a peer pushes

    [join_streams] forwards what it decodes to the block task and waits for
    its reply.  [room n]: the task takes the n-th item; the reply is there
    after [replied] items were forwarded.  The first error ends both. *)
Section push.
Context {A : Type} `{!Wire A}.

Fixpoint forward (room : nat → bool) (n : nat) (stream : list (result Error (Raw A)))
    : list A * result Error unit :=
  match stream with
  | [] => ([], Ok tt)
  | item :: stream =>
      match (let? r := item in read r) with
      | Err e => ([], Err e)
      | Ok x =>
          if room n then let '(sent, r) := forward room (S n) stream in (x :: sent, r)
          else ([], Err Aborted)
      end
  end.

Definition join_streams (room : nat → bool) (stream : list (result Error (Raw A)))
    (reply : result Error unit) (replied : nat) : list A * result Error unit :=
  let '(sent, r) := forward room 0 stream in
  match reply with
  | Err e =>
      if decide (replied < length sent) then (take replied sent, Err e)
      else match r with Err e' => (sent, Err e') | Ok _ => (sent, Err e) end
  | Ok _ => (sent, r)
  end.

(** [push_headers], [upload_blocks]: the message that announces the stream to
    the block task comes first. *)
Definition push (taken : bool) (room : nat → bool) (stream : list (result Error (Raw A)))
    (reply : result Error unit) (replied : nat) : list A * result Error unit :=
  if taken then join_streams room stream reply replied else ([], Err Internal).
End push.

Definition push_headers := push (A := Header).
Definition upload_blocks := push (A := Block).

(** ** The list of peers *)
Definition peers {Node Gossip} (taken : bool) (gossip : Node → Gossip) (view : option (Node * list Node))
    (limit : Z) : result Error (list Gossip) :=
  if negb taken then Err Internal
  else match view with
       | None => Err Unavailable
       | Some (self_node, peers) => Ok (gossip <$> take (Z.to_nat limit) (self_node :: peers))
       end.

(** ** What a peer gets *)
Context `{!WireLaws HeaderHash, !WireLaws Header, !WireLaws Block, !ChainTypesLaws}.

Lemma read_encode {A} `{!Wire A, !WireLaws A} (x : A) : read (encode x) = Ok x.
Proof. unfold read. by rewrite decode_encode. Qed.
Lemma read_all_encode {A} `{!Wire A, !WireLaws A} (l : list A) : read_all (encode <$> l) = Ok l.
Proof. induction l as [|x l IH]; [done|]. rewrite fmap_cons. cbn [read_all]. rewrite read_encode, IH. done. Qed.

(** What the other node decodes. *)
Definition received {A} `{!Wire A} (r : result Error (list (result Error (Raw A)))) : option (list A) :=
  match r with
  | Ok items => mapM (λ i, match i with Ok raw => decode raw | Err _ => None end) items
  | Err _ => None
  end.

Lemma received_stream {A} `{!Wire A, !WireLaws A} (l : list A) : received (Ok (response_stream (Ok <$> l))) = Some l.
Proof.
  unfold received, response_stream. induction l as [|x l IH]; [done|]. rewrite !fmap_cons. cbn [mapM].
  rewrite decode_encode, IH. done.
Qed.


(** A stream that is decoded and taken reaches the block task as it is, and an
    item that cannot be decoded ends it after the items before. *)
Lemma push_correct {A} `{!Wire A, !WireLaws A} (l : list A) reply replied :
  push true (λ _, true) (Ok ∘ encode <$> l) (Ok tt) replied = (l, Ok tt) ∧
  ∀ bad rest, decode bad = None →
    push true (λ _, true) ((Ok ∘ encode <$> l) ++ Ok bad :: rest) reply (length l) =
      (l, Err InvalidArgument).
Proof.
  unfold push, join_streams.
  assert (∀ n, forward (λ _, true) n (Ok ∘ encode <$> l) = (l, Ok tt)) as Hl.
  { induction l as [|x l IH]; intros n; [done|]. rewrite fmap_cons. cbn. by rewrite read_encode, IH. }
  rewrite Hl. split; [done|]. intros bad rest Hbad.
  assert (∀ n, forward (λ _, true) n ((Ok ∘ encode <$> l) ++ Ok bad :: rest) = (l, Err InvalidArgument)) as ->.
  { clear Hl. induction l as [|x l IH]; intros n; [cbn; unfold read; by rewrite Hbad|].
    rewrite fmap_cons. cbn. by rewrite read_encode, IH. }
  destruct reply; [done|]. rewrite decide_False by lia. done.
Qed.

End service.
End Service.

(** ** Handshakes and subscriptions *)
Module Handshake.
Import CommHandle Peers.
Section handshake.
Context {Address NodeId Nonce BlockHash Auth SecretKey : Type}.
Context {Header BlockIds ChainPullRequest Fragment Gossip : Type}.
Context `{EqDecision Address, EqDecision NodeId, EqDecision BlockHash}.
Abbreviation PeerData := (@Peers.PeerData Address Header BlockIds ChainPullRequest Fragment Gossip).
Abbreviation Env := (@Peers.Env Address Header BlockIds ChainPullRequest Fragment Gossip).
Context `{!LinkedHashMap NodeId PeerData} `{!LinkedHashMap Address NodeId} `{!LruCache Address Nonce}.
Abbreviation PeerMap := (@Peers.PeerMap Address NodeId Nonce Header BlockIds ChainPullRequest Fragment Gossip _ _ _ _ _).

(** The signatures of nodes: [auth.id()], decoded, and [auth.verify(nonce)]. *)
Context (sign : SecretKey → Nonce → Auth) (auth_id : Auth → option NodeId) (verify : Auth → Nonce → bool).

(** The codes of [chain_network::error]; [Unauthenticated] is the error of the
    verification of a signature. *)
Inductive Error := InvalidArgument | FailedPrecondition | Unauthenticated.

(** What a subscription spawns: a task that forwards what the peer sends. *)
Inductive Task := ProcessBlockAnnouncements (id : NodeId) | ProcessFragments (id : NodeId) | ProcessGossip (id : NodeId).

Record NodeService := mkService {
  block0_hash : BlockHash;
  keypair : SecretKey;
  peers : PeerMap;
  spawned : list Task;
}.
Definition set_peers (p : PeerMap) (s : NodeService) : NodeService :=
  mkService (block0_hash s) (keypair s) p (spawned s).
Definition spawn (t : Task) (s : NodeService) : NodeService :=
  mkService (block0_hash s) (keypair s) (peers s) (spawned s ++ [t]).

Definition peer_id (addr : Address) (s : NodeService) : result Error NodeId :=
  match client_id addr (peers s) with Some id => Ok id | None => Err FailedPrecondition end.

(** [fresh]: the random nonce for the client. *)
Definition handshake (addr : Address) (nonce fresh : Nonce) (s : NodeService)
    : NodeService * Connect.HandshakeResponse (Nonce := Nonce) (BlockHash := BlockHash) (AuthenticatedNodeId := Auth) :=
  (set_peers (generate_auth_nonce fresh addr (peers s)) s,
   Connect.mkResponse (Some (block0_hash s)) (sign (keypair s) nonce) fresh).

Definition client_auth (env : Env) (now : Z) (addr : Address) (auth : Auth) (s : NodeService)
    : NodeService * result Error unit :=
  match auth_id auth with
  | None => (s, Err InvalidArgument)
  | Some id =>
      let '(p, r) := complete_handshake env now addr id (verify auth) (peers s) in
      (set_peers p s,
       map_err (λ e, match e with NonceMissing => FailedPrecondition | VerifyFailed => Unauthenticated end) r)
  end.

(** The task is spawned before the subscription, which may still fail. *)
Definition subscription (task : NodeId → Task) (subscribe : NodeId → PeerMap → PeerMap * bool)
    (addr : Address) (s : NodeService) : NodeService * result Error unit :=
  match peer_id addr s with
  | Err e => (s, Err e)
  | Ok id =>
      let s := spawn (task id) s in
      let '(p, outbound) := subscribe id (peers s) in
      (set_peers p s, if outbound then Ok tt else Err FailedPrecondition)
  end.
Definition block_subscription := subscription ProcessBlockAnnouncements subscribe_to_block_events.
Definition fragment_subscription := subscription ProcessFragments subscribe_to_fragments.
Definition gossip_subscription := subscription ProcessGossip subscribe_to_gossip.

(** ** The two ends together

    A client with the key [key] connects from [addr]: its handshake, its
    signature of the nonce it gets, and its three subscriptions. *)
Section session.
Context (env : Env) (now : Z) (addr : Address) (fresh : Nonce) (key : SecretKey).

Definition challenged (s : NodeService) : NodeService := (handshake addr fresh fresh s).1.
Definition authenticated (s : NodeService) : NodeService * result Error unit :=
  client_auth env now addr (sign key fresh) (challenged s).
Definition subscribed (s : NodeService) : NodeService * bool :=
  let '(s, r1) := block_subscription addr (authenticated s).1 in
  let '(s, r2) := fragment_subscription addr s in
  let '(s, r3) := gossip_subscription addr s in
  (s, is_ok r1 && is_ok r2 && is_ok r3).

(** The node as the client sees it. *)
Definition remote (s : NodeService)
    : Connect.Remote (Nonce := Nonce) (BlockHash := BlockHash) (AuthenticatedNodeId := Auth) (Auth := Auth) :=
  Connect.mkRemote true (λ nonce, Some (handshake addr nonce fresh s).2)
    (λ auth, is_ok (client_auth env now addr auth (challenged s)).2) (subscribed s).2.
Definition crypto : Connect.Crypto (NodeId := NodeId) (Nonce := Nonce) (AuthenticatedNodeId := Auth) (Auth := Auth) :=
  Connect.mkCrypto verify auth_id (sign key).
End session.

Context `{!LinkedHashMapLaws NodeId PeerData} `{!LinkedHashMapLaws Address NodeId} `{!LruLaws Address Nonce}.
(** The signature of a node verifies, and names the node. *)
Context (node_of : SecretKey → NodeId).
Hypothesis sign_ok : ∀ k n, verify (sign k n) n = true ∧ auth_id (sign k n) = Some (node_of k).

(** The address of the peer that is dropped to make room for [id]. *)
Definition evicted (id : NodeId) (p : PeerMap) : option Address :=
  match lhm_get id (map p) with
  | Some _ => None
  | None => if (capacity p <=? length (lhm_entries (map p)))%nat
            then (λ e, remote_addr (comms e.2)) <$> head (lhm_entries (map p)) else None
  end.

Lemma client_id_remove a a' p : client_id a (auth_remove a' p) = if decide (a = a') then None else client_id a p.
Proof.
  unfold client_id, auth_remove. simpl. rewrite !lhm_get_spec, lhm_remove_entries, alist_get_del. by case_decide.
Qed.

Lemma client_id_ensure now id addr p a :
  client_id a (ensure_peer now id addr p) = if decide (evicted id p = Some a) then None else client_id a p.
Proof.
  unfold ensure_peer, evicted. destruct (lhm_get id (map p)); [done|]. unfold evict_if_full.
  destruct (capacity p <=? length _)%nat; [|done].
  destruct (lhm_pop_front_spec (map p)) as [Hh _]. destruct (lhm_pop_front (map p)) as [m o]. simpl in Hh. subst o.
  destruct (head (lhm_entries (map p))) as [[id' d]|]; [|done]. simpl.
  change (client_id a (auth_remove (remote_addr (comms d)) p) =
    if decide (Some (remote_addr (comms d)) = Some a) then None else client_id a p).
  rewrite client_id_remove. repeat case_decide; simplify_eq; done.
Qed.

Lemma ensure_peer_present now id addr p : is_Some (lhm_get id (map (ensure_peer now id addr p))).
Proof.
  unfold ensure_peer. simpl. rewrite lhm_get_spec, lhm_or_insert_entries.
  set (l := lhm_entries _). destruct (alist_get id l) as [d|] eqn:Hg; [by rewrite Hg|].
  rewrite alist_get_app, Hg. simpl. by rewrite decide_True.
Qed.

Lemma alter_peer_present f id p d :
  lhm_get id (map p) = Some d → lhm_get id (map (alter_peer f id p)) = Some (f d).
Proof.
  intros Hg. unfold alter_peer. simpl. rewrite lhm_get_spec in *.
  by rewrite lhm_get_mut_entries, alist_get_alter, decide_True, Hg.
Qed.

(** The client is authenticated, then added to the table. *)
Lemma authenticated_state env now addr fresh key s :
  0 < lru_cap (in_progress (peers s)) →
  ∃ pr, lru_cap pr = lru_cap (in_progress (peers s)) ∧
    authenticated env now addr fresh key s =
      (set_peers (add_client env now (node_of key) addr
         (mkPeerMap (map (peers s)) pr
            (lhm_insert addr (node_of key) (lhm_remove addr (established (peers s))))
            (capacity (peers s)) (peer_connected_cnt (peers s)))) s, Ok tt).
Proof.
  intros Hcap. unfold authenticated, client_auth. destruct (sign_ok key fresh) as [Hv ->].
  unfold complete_handshake, auth_complete_handshake. simpl.
  destruct (lru_pop_spec addr (lru_put addr fresh (in_progress (peers s)))) as (Hn & _ & Hc).
  destruct (lru_pop _ _) as [pr o]. simpl in Hn, Hc. rewrite lru_put_cap in Hc. rewrite lru_put_entries in Hn.
  exists pr. split; [done|]. subst o. destruct (lru_cap (in_progress (peers s))) as [|cap]; [lia|]. simpl.
  rewrite decide_True by done. by rewrite Hv.
Qed.

Lemma authenticated_run env now addr fresh key s :
  0 < lru_cap (in_progress (peers s)) →
  let id := node_of key in
  let '(s', r) := authenticated env now addr fresh key s in
  r = Ok tt ∧ (∃ d, lhm_get id (map (peers s')) = Some d) ∧
  client_id addr (peers s') = (if decide (evicted id (peers s) = Some addr) then None else Some id) ∧
  spawned s' = spawned s.
Proof.
  intros Hcap id. destruct (authenticated_state env now addr fresh key s Hcap) as (pr & _ & ->). fold id.
  set (p1 := mkPeerMap _ _ _ _ _). split; [done|]. split; [|split; [|done]].
  - destruct (ensure_peer_present now id addr p1) as [d Hd]. eexists.
    exact (alter_peer_present (λ d, (update_comm_status env d).1) id (ensure_peer now id addr p1) d Hd).
  - change (client_id addr (ensure_peer now id addr p1) =
      if decide (evicted id p1 = Some addr) then None else Some id).
    rewrite client_id_ensure. case_decide; [done|]. unfold client_id, p1. simpl.
    rewrite lhm_get_spec, lhm_insert_entries, alist_get_app, alist_get_del, decide_True by done.
    simpl. by rewrite decide_True.
Qed.

Lemma subscription_ok task f addr s id d :
  client_id addr (peers s) = Some id → lhm_get id (map (peers s)) = Some d →
  ∃ s', subscription task (subscribe_with f) addr s = (s', Ok tt) ∧ client_id addr (peers s') = Some id ∧
    lhm_get id (map (peers s')) = Some (set_comms (f (comms (server_comms_data d))) (server_comms_data d)) ∧
    spawned s' = spawned s ++ [task id].
Proof.
  intros Hid Hd. unfold subscription, peer_id. rewrite Hid. unfold subscribe_with. simpl. rewrite Hd. simpl.
  eexists. split; [done|]. split; [done|]. split; [|done]. simpl.
  by apply (alter_peer_present (λ d, set_comms (f (comms (server_comms_data d))) (server_comms_data d))).
Qed.

Lemma subscription_refused task f addr s :
  client_id addr (peers s) = None → subscription task f addr s = (s, Err FailedPrecondition).
Proof. intros Hid. unfold subscription, peer_id. by rewrite Hid. Qed.

Lemma is_subscribed_subscribe {T} (h : CommHandle T) : is_subscribed (subscribe h) = true.
Proof. by destruct h as [[]]. Qed.
Lemma is_subscribed_clear {T} (h : CommHandle T) : is_subscribed h = true → is_subscribed (clear_pending h) = true.
Proof. by destruct h as [[]]. Qed.

Lemma subscribed_run env now addr fresh key s :
  0 < lru_cap (in_progress (peers s)) →
  let id := node_of key in
  let '(s', ok) := subscribed env now addr fresh key s in
  if decide (evicted id (peers s) = Some addr) then ok = false ∧ client_id addr (peers s') = None
  else ok = true ∧ client_id addr (peers s') = Some id ∧
    (∃ d, lhm_get id (map (peers s')) = Some d ∧ is_subscribed (block_announcements (comms d)) = true ∧
          is_subscribed (block_solicitations (comms d)) = true ∧ is_subscribed (chain_pulls (comms d)) = true ∧
          is_subscribed (fragments (comms d)) = true ∧ is_subscribed (gossip (comms d)) = true) ∧
    spawned s' = spawned s ++ [ProcessBlockAnnouncements id; ProcessFragments id; ProcessGossip id].
Proof.
  intros Hcap id. pose proof (authenticated_run env now addr fresh key s Hcap) as Ha. unfold subscribed.
  destruct (authenticated env now addr fresh key s) as [s1 r]. destruct Ha as (_ & (d & Hd) & Hc & Hsp). fold id in Hd, Hc.
  cbn [fst]. case_decide.
  - unfold block_subscription, fragment_subscription, gossip_subscription. by rewrite !subscription_refused.
  - destruct (subscription_ok ProcessBlockAnnouncements subscribe_to_block_events_comms addr s1 id d Hc Hd)
      as (s2 & Hr2 & Hc2 & Hd2 & Hsp2).
    destruct (subscription_ok ProcessFragments subscribe_to_fragments_comms addr s2 id _ Hc2 Hd2)
      as (s3 & Hr3 & Hc3 & Hd3 & Hsp3).
    destruct (subscription_ok ProcessGossip subscribe_to_gossip_comms addr s3 id _ Hc3 Hd3)
      as (s4 & Hr4 & Hc4 & Hd4 & Hsp4).
    change (block_subscription addr s1) with (subscription ProcessBlockAnnouncements
      (subscribe_with subscribe_to_block_events_comms) addr s1). rewrite Hr2.
    change (fragment_subscription addr s2) with (subscription ProcessFragments
      (subscribe_with subscribe_to_fragments_comms) addr s2). rewrite Hr3.
    change (gossip_subscription addr s3) with (subscription ProcessGossip
      (subscribe_with subscribe_to_gossip_comms) addr s3). rewrite Hr4.
    split; [done|]. split; [done|]. split; [|by rewrite Hsp4, Hsp3, Hsp2, Hsp, <- !app_assoc].
    eexists. split; [exact Hd4|].
    cbn -[is_subscribed subscribe clear_pending].
    split_and!; repeat apply is_subscribed_clear; apply is_subscribed_subscribe.
Qed.

(** C16: two nodes that follow the protocol authenticate each other.  The
    client connects exactly if it expects the node that it reached and has the
    same block 0; then the node holds the client at this address for the
    identity of its key, serves the three subscriptions to it, and forwards
    what it sends under this identity.  There is one exception: the table is
    full, and the peer that is dropped for the client was at the same address;
    the node then drops the authentication that it just completed, and refuses
    the subscriptions. *)
Theorem handshake_mutual env now addr fresh key s block0 (server_addr : Address) expected nonce :
  0 < lru_cap (in_progress (peers s)) →
  (∀ c : @Peers.PeerComms Address Header BlockIds ChainPullRequest Fragment Gossip,
     Connect.connect (remote env now addr fresh key s) (crypto key) block0 server_addr expected nonce = Ok c ↔
     c = Connect.client_comms server_addr ∧
     block0 = block0_hash s ∧ expected = node_of (keypair s) ∧
     evicted (node_of key) (peers s) ≠ Some addr) ∧
  (evicted (node_of key) (peers s) ≠ Some addr →
   let s' := (subscribed env now addr fresh key s).1 in
   let id := node_of key in
   client_id addr (peers s') = Some id ∧
   (∃ d, lhm_get id (map (peers s')) = Some d ∧ is_subscribed (block_announcements (comms d)) = true ∧
         is_subscribed (block_solicitations (comms d)) = true ∧ is_subscribed (chain_pulls (comms d)) = true ∧
         is_subscribed (fragments (comms d)) = true ∧ is_subscribed (gossip (comms d)) = true) ∧
   spawned s' = spawned s ++ [ProcessBlockAnnouncements id; ProcessFragments id; ProcessGossip id]).
Proof.
  intros Hcap. pose proof (subscribed_run env now addr fresh key s Hcap) as Hs.
  pose proof (authenticated_run env now addr fresh key s Hcap) as Ha. split.
  - intros c. rewrite (proj1 (Connect.connect_correct _ _ _ _ _ _)). unfold remote, handshake. simpl.
    destruct (sign_ok (keypair s) nonce) as [Hv Hi].
    destruct (authenticated env now addr fresh key s) as [s1 r] eqn:Hauth. destruct Ha as (-> & _).
    unfold authenticated in Hauth.
    destruct (subscribed env now addr fresh key s) as [s2 ok]. cbn [snd].
    split.
    + intros (-> & _ & hr & [= <-] & Hb & _ & He & _ & ->). simpl in *. simplify_eq.
      case_decide; [by destruct Hs|]. by split_and!.
    + intros (-> & -> & -> & Hne). rewrite decide_False in Hs by done. destruct Hs as [-> _].
      split; [done|]. split; [done|]. eexists. split; [done|]. simpl. rewrite Hauth. by split_and!.
  - intros Hne. destruct (subscribed env now addr fresh key s) as [s2 ok]. cbn [fst].
    rewrite decide_False in Hs by done. by destruct Hs.
Qed.

(** ** Sessions of one node

    A node that connects again and again, each time from another address. *)
Definition sessions (env : Env) (now : Z) (key : SecretKey) (s : NodeService) (l : list (Address * Nonce)) : NodeService :=
  foldl (λ s x, (authenticated env now x.1 x.2 key s).1) s l.

Definition sessions_inv (id : NodeId) (l : list (Address * Nonce)) (p : PeerMap) : Prop :=
  0 < capacity p ∧ 0 < lru_cap (in_progress p) ∧
  lhm_entries (established p) = (λ x, (x.1, id)) <$> l ∧
  match l with
  | [] => lhm_entries (map p) = []
  | x :: _ => ∃ d, lhm_entries (map p) = [(id, d)] ∧ connecting d = None ∧ remote_addr (comms d) = x.1
  end.

Lemma alter_single {V} (id : NodeId) (f : V → V) d : alist_alter id f [(id, d)] = [(id, f d)].
Proof. unfold alist_alter. simpl. rewrite decide_True by done. simpl. by rewrite decide_True. Qed.

Lemma sessions_step env now key id l x s :
  id = node_of key → x.1 ∉ l.*1 → sessions_inv id l (peers s) →
  sessions_inv id (l ++ [x]) (peers (authenticated env now x.1 x.2 key s).1).
Proof.
  intros -> Hx (Hcap & Hlru & He & Hm). set (id := node_of key) in *.
  destruct (authenticated_state env now x.1 x.2 key s Hlru) as (pr & Hpr & ->). fold id. cbn [fst peers set_peers].
  set (p1 := mkPeerMap _ _ _ _ _).
  assert (lhm_entries (established p1) = (λ x, (x.1, id)) <$> l ++ [x]) as He1.
  { unfold p1. simpl. rewrite lhm_insert_entries, lhm_remove_entries, He.
    assert (x.1 ∉ ((λ x, (x.1, id)) <$> l).*1) as Hx' by (by rewrite <- list_fmap_compose).
    by rewrite !alist_del_absent, fmap_app by (by rewrite ?alist_del_absent). }
  unfold add_client, ensure_peer, evict_if_full. rewrite lhm_get_spec. cbn [map p1].
  destruct l as [|x0 l].
  - rewrite Hm. simpl. destruct (capacity (peers s)) as [|c] eqn:Hc; [lia|]. simpl.
    split_and!; simpl; [lia|by rewrite Hpr|done|].
    exists (data_new now x.1). split; [|done]. rewrite lhm_get_mut_entries, lhm_or_insert_entries, Hm.
    simpl. by rewrite alter_single.
  - destruct Hm as (d & Hm & Hd & Ha). rewrite Hm. simpl. rewrite decide_True by done. simpl.
    split_and!; simpl; [done|by rewrite Hpr|done|]. exists d. split; [|done].
    rewrite lhm_get_mut_entries, lhm_or_insert_entries, Hm. simpl. rewrite decide_True by done.
    rewrite alter_single. unfold update_comm_status. by rewrite Hd.
Qed.

(** Nothing bounds the table of authenticated addresses.  A node that connects
    from [n] addresses is one peer, and has [n] entries in it; when the peer is
    dropped, the entry of its first address goes, and the others stay. *)
Theorem established_unbounded env now key s l :
  0 < capacity (peers s) → 0 < lru_cap (in_progress (peers s)) →
  lhm_entries (map (peers s)) = [] → lhm_entries (established (peers s)) = [] → NoDup l.*1 →
  let p := peers (sessions env now key s l) in
  let id := node_of key in
  length (lhm_entries (map p)) ≤ 1 ∧
  lhm_entries (established p) = (λ x, (x.1, id)) <$> l ∧
  lhm_entries (established (remove_peer env id p).1) = (λ x, (x.1, id)) <$> tail l.
Proof.
  intros Hcap Hlru Hm He Hnd p id.
  assert (sessions_inv id l p) as (_ & _ & He' & Hm').
  { unfold p, sessions. clear p. induction l as [|x l IH] using rev_ind; [by split_and!|].
    rewrite fmap_app in Hnd. apply NoDup_app in Hnd as (Hnd & Hx & _). rewrite foldl_app. cbn [foldl].
    apply sessions_step; [done| |by apply IH]. intros Hin. apply (Hx _ Hin). left. }
  destruct l as [|x l].
  - rewrite Hm', He'. split; [simpl; lia|]. split; [done|]. unfold remove_peer. rewrite lhm_get_spec, Hm'. done.
  - destruct Hm' as (d & Hm' & Hd & Ha). rewrite Hm', He'. split; [done|]. split; [done|].
    unfold remove_peer. rewrite lhm_get_spec, Hm'. simpl. rewrite decide_True by done.
    unfold update_comm_status. rewrite Hd. simpl. rewrite lhm_remove_entries, He', Ha, fmap_cons.
    apply (alist_del_mid x.1 id []). simpl. by rewrite <- list_fmap_compose.
Qed.

End handshake.
End Handshake.

(** ** Examples *)
Module SampleService.
Import ListLru ListLhm CommHandle Peers Handshake.

Definition sign (k n : nat) : nat * nat := (k, n).
Definition verify (a : nat * nat) (n : nat) : bool := (a.2 =? n)%nat.
Lemma sign_ok k n : verify (sign k n) n = true ∧ Some (sign k n).1 = Some (id k).
Proof. split; [apply Nat.eqb_refl|done]. Qed.

Definition service (cap : nat) : NodeService (Address := nat) (NodeId := nat) (Nonce := nat) (BlockHash := nat)
    (SecretKey := nat) (Header := nat) (BlockIds := nat) (ChainPullRequest := nat) (Fragment := nat) (Gossip := nat) :=
  mkService 100 1 (peer_map_new cap 0) [].

(** Node 7 connects from address 3 to node 1. *)
Definition seen : result Connect.ConnectError (@Peers.PeerComms nat nat nat nat nat nat) :=
  Connect.connect (remote sign (λ a, Some a.1) verify SamplePeers.env0 5%Z 3 42 7 (service 4))
    (crypto sign (λ a, Some a.1) verify 7) 100 9 1 11.

Lemma handshake_mutual_witness :
  seen = Ok (Connect.client_comms 9) ∧
  client_id 3 (peers (subscribed sign (λ a, Some a.1) verify SamplePeers.env0 5%Z 3 42 7 (service 4)).1) = Some 7.
Proof.
  destruct (handshake_mutual sign (λ a, Some a.1) verify id sign_ok SamplePeers.env0 5%Z 3 42 7 (service 4) 100 9 1 11)
    as [Hc Hs]; [vm_compute; lia|].
  split; [apply Hc; split_and!; [reflexivity..|discriminate]|]. apply Hs. discriminate.
Defined.

(** The table has room for one peer, node 8 at address 3; node 7 comes from the
    same address. *)
Example evicts_itself :
  let s := (subscribed sign (λ a, Some a.1) verify SamplePeers.env0 5%Z 3 41 8 (service 1)).1 in
  (authenticated sign (λ a, Some a.1) verify SamplePeers.env0 6%Z 3 42 7 s).2 = Ok tt ∧
  (subscribed sign (λ a, Some a.1) verify SamplePeers.env0 6%Z 3 42 7 s).2 = false.
Proof. by vm_compute. Qed.
End SampleService.

(** Blocks over a network that carries values as they are. *)
Module SamplePull.
Import SampleFragments SampleStore SampleChain SampleClient Service.

Definition plain {A} : Wire A := {| Raw := A; encode := id; decode := Some |}.
#[local] Existing Instance plain.
#[local] Instance plain_laws {A} : WireLaws A (Wire0 := plain).
Proof. done. Qed.

End SamplePull.
