(* ===== verification/NetBootstrap.v ===== *)
(** * Bootstrapping from the network

    Models [jormungandr/src/network/bootstrap.rs] (pulling the blocks of one
    peer), the functions [netboot_peers], [bootstrap] and [fetch_block] of
    [jormungandr/src/network/mod.rs], [fetch_block] of
    [jormungandr/src/network/grpc/client.rs] and the loop over the attempts in
    [bootstrap_internal] of [jormungandr/src/lib.rs].  The answers of a peer
    to the n-th request, the order in which sets are iterated and lists are
    shuffled, and where a cancellation strikes are parameters. *)

From S2P Require Import Prelude BlockDate Lru Deque Fragment FragmentLogs Storage Chain ChainInv Checkpoints Tip BlockProcess.

Module NetBootstrap.
Import Reference Blockchain Tip.
Section bootstrap.
Context `{BlockStore} `{!FragmentOps} `{!LedgerTypes} `{!MultiverseOps}
  `{!LruCache HeaderHash Ref}.
Context {Peer Address : Type} `{EqDecision Peer, EqDecision Address} (address : Peer → Address).
Variable boxes : Boxes.

(** The sources of the errors are left out, but for the chain's, and so are
    the variants that no code makes. *)
Inductive Error :=
| Connect
| PeersNotAvailable
| PullRequestFailed
| TipFailed
| PeerDecodingFailed
| BlockchainErr (e : Bootstrap.Error)
| GcFailed (e : Blockchain.Error)
| EmptyTrustedPeers
| Interrupted.

Definition N := prog TipUpdater Error.

(** ** One peer (network/bootstrap.rs) *)

(** [with_cancellation_token]: [None] if the cancellation comes first. *)
Definition with_cancellation_token {A} (outcome : option A) : N A :=
  match outcome with Some a => mret a | None => throw Interrupted end.

(** What a peer answers to the i-th request for its tip and for its blocks;
    [pull] is the stream of blocks, whether the cancellation ends it, and the
    times at which it is handled. *)
Record Remote := mkRemote {
  connects : option bool;
  remote_tip : nat → option (result unit Header);
  pull : nat → list HeaderHash → HeaderHash →
         option (result unit (list (result Bootstrap.Error Block) * bool * Clock * Z));
}.

(** The loop; [false] if it is still running when the fuel ends. *)
Fixpoint pull_loop (fuel i : nat) (peer : Remote) : N bool :=
  match fuel with
  | O => mret false
  | S fuel =>
      header ← with_cancellation_token (remote_tip peer i);
      match header with
      | Err _ => throw TipFailed
      | Ok header =>
          tip ← gets tip;
          if decide (header_hash header = ref_hash tip) then mret true
          else
            checkpoints ← expect (Checkpoints.new_from tip);
            stream ← with_cancellation_token (pull peer i checkpoints (header_hash header));
            match stream with
            | Err _ => throw PullRequestFailed
            | Ok (stream, interrupted, now, later) =>
                map_error BlockchainErr (Bootstrap.bootstrap_from_stream boxes now later stream interrupted);;
                pull_loop fuel (S i) peer
            end
      end
  end.

Definition bootstrap_from_peer (fuel : nat) (peer : Remote) : N bool :=
  connected ← with_cancellation_token (connects peer);
  match connected with
  | true => pull_loop fuel 0 peer
  | false => throw Connect
  end.

(** [peers_from_trusted_peer]: the gossip of a trusted peer; [None] where it
    cannot be decoded. *)
Definition peers_from_trusted_peer {Raw} (decode : Raw → option Peer) (connects : bool)
    (gossip : option (list Raw)) : result Error (list Peer) :=
  if negb connects then Err Connect
  else match gossip with
       | None => Err PeersNotAvailable
       | Some nodes => match mapM decode nodes with Some ps => Ok ps | None => Err PeerDecodingFailed end
       end.

(** ** All peers (network/mod.rs) *)
Inductive Protocol := Grpc | Ntt.
Record Config := mkConfig {
  protocol : Protocol;
  skip_bootstrap : bool;
  trusted_peers : list Address;
  bootstrap_from_trusted_peers : bool;
  max_bootstrap_attempts : option Z;
}.

Record BootstrapPeers := mkBootstrapPeers {
  bootstrap_peers : list Peer;
  topology_peers : list Peer;
}.

(** [ask]: what a trusted peer answers; [set_order]: the order of the hash
    set that collects the answers. *)
Definition netboot_peers (config : Config) (ask : Address → result Error (list Peer))
    (set_order : list Peer → list Peer) : BootstrapPeers :=
  let received := concat ((λ a, match ask a with Ok l => l | Err _ => [] end) <$> trusted_peers config) in
  let peers := set_order (remove_dups received) in
  if bootstrap_from_trusted_peers config
  then mkBootstrapPeers (filter (λ p, address p ∈ trusted_peers config) peers)
         (filter (λ p, address p ∉ trusted_peers config) peers)
  else mkBootstrapPeers peers [].

(** The loop over the peers: [Some true] after the first success, [Some false]
    if none is left, [None] if the fuel ends with one of them. *)
Fixpoint try_peers (fuel : nat) (remote : Peer → Remote) (peers : list Peer) : N (option bool) :=
  match peers with
  | [] => mret (Some false)
  | peer :: peers =>
      res ← attempt (bootstrap_from_peer fuel (remote peer));
      match res with
      | Ok true => mret (Some true)
      | Ok false => mret None
      | Err Interrupted => throw Interrupted
      | Err _ => try_peers fuel remote peers
      end
  end.

Record NetworkBootstrapResult := mkResult {
  initial_peers : list Peer;
  bootstrapped : bool;
}.

(** The environment of one attempt. *)
Record Env := mkEnv {
  netboot_canceled : bool;
  ask : Address → result Error (list Peer);
  set_order : list Peer → list Peer;
  shuffle : list Peer → list Peer;
  remote : Peer → Remote;
}.

Definition bootstrap (fuel : nat) (config : Config) (env : Env) : N (option NetworkBootstrapResult) :=
  if match protocol config with Grpc => false | Ntt => true end then panic
  else if skip_bootstrap config then mret (Some (mkResult [] true))
  else match trusted_peers config with
  | [] => throw EmptyTrustedPeers
  | _ =>
      netboot ← with_cancellation_token
        (if netboot_canceled env then None else Some (netboot_peers config (ask env) (set_order env)));
      let peers := shuffle env (bootstrap_peers netboot) in
      done ← try_peers fuel (remote env) peers;
      match done with
      | None => mret None
      | Some bootstrapped =>
          tip ← gets tip;
          map_error GcFailed (on_chain (gc tip));;
          mret (Some (mkResult (peers ++ topology_peers netboot) bootstrapped))
      end
  end.

(** ** The attempts (lib.rs, [bootstrap_internal])

    [env n]: the environment of the n-th attempt and whether the cancellation
    comes in the pause after it.  [Some None]: the attempts are used up. *)
Fixpoint attempts (rounds fuel : nat) (config : Config) (env : nat → Env * bool) (bootstrap_attempt : nat)
    : N (option (option NetworkBootstrapResult)) :=
  match rounds with
  | O => mret None
  | S rounds =>
      let bootstrap_attempt := S bootstrap_attempt in
      if match max_bootstrap_attempts config with
         | Some max => (max <? Z.of_nat bootstrap_attempt)%Z
         | None => false
         end
      then mret (Some None)
      else
        res ← bootstrap fuel config (env bootstrap_attempt).1;
        match res with
        | None => mret None
        | Some res =>
            if bootstrapped res then mret (Some (Some res))
            else if (env bootstrap_attempt).2 then throw Interrupted
            else attempts rounds fuel config env bootstrap_attempt
        end
  end.

(** ** Fetching block 0 *)
Inductive FetchError :=
| FetchConnect
| GetBlocksFailed
| GetBlocksStream
| NoBlocks
| UnexpectedBlock (requested received : HeaderHash).
Inductive FetchBlockError := NoTrustedPeers | CouldNotDownloadBlock (block : HeaderHash).

(** grpc/client.rs: the first item of the stream; [Ok None] is a block that
    cannot be decoded. *)
Definition fetch_from (connects : bool) (get_blocks : option (list (result unit (option Block))))
    (hash : HeaderHash) : result FetchError Block :=
  if negb connects then Err FetchConnect
  else match get_blocks with
       | None => Err GetBlocksFailed
       | Some stream =>
           match head stream with
           | None => Err NoBlocks
           | Some (Err _) | Some (Ok None) => Err GetBlocksStream
           | Some (Ok (Some block)) =>
               if decide (header_hash (block_header block) = hash) then Ok block
               else Err (UnexpectedBlock hash (header_hash (block_header block)))
           end
       end.

Fixpoint first_block (fetch : Address → result FetchError Block) (peers : list Address) : option Block :=
  match peers with
  | [] => None
  | a :: peers => match fetch a with Ok b => Some b | Err _ => first_block fetch peers end
  end.

Definition fetch_block (config : Config) (shuffled : list Address → list Address)
    (fetch : Address → result FetchError Block) (hash : HeaderHash) : option (result FetchBlockError Block) :=
  match protocol config with
  | Ntt => None
  | Grpc =>
      Some match trusted_peers config with
           | [] => Err NoTrustedPeers
           | l => match first_block fetch (shuffled l) with
                  | Some block => Ok block
                  | None => Err (CouldNotDownloadBlock hash)
                  end
           end
  end.

(** ** The peers that are tried *)

(** Every distinct peer received is used once: it is tried, or left to the
    topology; with [bootstrap_from_trusted_peers], only trusted ones are
    tried. *)
Lemma netboot_peers_correct config ask set_order :
  (∀ l, set_order l ≡ₚ l) →
  let received := concat ((λ a, match ask a with Ok l => l | Err _ => [] end) <$> trusted_peers config) in
  let r := netboot_peers config ask set_order in
  bootstrap_peers r ++ topology_peers r ≡ₚ remove_dups received ∧
  (bootstrap_from_trusted_peers config = true →
   Forall (λ p, address p ∈ trusted_peers config) (bootstrap_peers r) ∧
   Forall (λ p, address p ∉ trusted_peers config) (topology_peers r)).
Proof.
  intros Ho received r. unfold r, netboot_peers. fold received.
  destruct (bootstrap_from_trusted_peers config); simpl.
  - split; [|split; apply Forall_forall; intros p Hp; by apply list_elem_of_filter in Hp as [? _]].
    etrans; [apply filter_app_complement|apply Ho].
  - rewrite app_nil_r. split; [apply Ho|done].
Qed.

(** ** Block 0 *)
Lemma first_block_spec fetch peers :
  match first_block fetch peers with
  | Some b => ∃ a, a ∈ peers ∧ fetch a = Ok b
  | None => ∀ a, a ∈ peers → ∃ e, fetch a = Err e
  end.
Proof.
  induction peers as [|a peers IH]; simpl; [set_solver|]. destruct (fetch a) as [b|e] eqn:Hf.
  - exists a. split; [set_solver|done].
  - destruct (first_block fetch peers) as [b|].
    + destruct IH as (a' & ? & ?). exists a'. split; [set_solver|done].
    + intros a' [->|Ha]%elem_of_cons; eauto.
Qed.

(** The genesis block that is fetched has the hash asked for, and comes from a
    trusted peer; none is fetched only if every trusted peer failed. *)
Lemma fetch_block_correct config shuffled (serve : Address → bool * option (list (result unit (option Block)))) hash :
  (∀ l, shuffled l ≡ₚ l) → protocol config = Grpc →
  let fetch a := fetch_from (serve a).1 (serve a).2 hash in
  match fetch_block config shuffled fetch hash with
  | Some (Ok b) => header_hash (block_header b) = hash ∧ ∃ a, a ∈ trusted_peers config ∧ fetch a = Ok b
  | Some (Err NoTrustedPeers) => trusted_peers config = []
  | Some (Err (CouldNotDownloadBlock h)) =>
      h = hash ∧ trusted_peers config ≠ [] ∧ ∀ a, a ∈ trusted_peers config → ∃ e, fetch a = Err e
  | None => False
  end.
Proof.
  intros Hs Hp fetch. unfold fetch_block. rewrite Hp. destruct (trusted_peers config) as [|a0 l0] eqn:Ht; [done|].
  rewrite <- Ht in *. pose proof (first_block_spec fetch (shuffled (trusted_peers config))) as Hf.
  destruct (first_block fetch _) as [b|].
  - destruct Hf as (a & Ha & Hb). rewrite Hs in Ha. split; [|by exists a].
    unfold fetch, fetch_from in Hb. destruct (serve a) as [c g]; simpl in Hb.
    destruct c; [|done]. destruct g as [[|[[b'|]|] l]|]; simpl in Hb; try done. case_decide; by simplify_eq.
  - split; [done|]. split; [by rewrite Ht|]. intros a Ha. apply Hf. by rewrite Hs.
Qed.

(** ** The node after a bootstrap *)
Context `{!ChainTypesLaws, !BlockStoreLaws, !LruLaws HeaderHash Ref, !MultiverseLaws}.

Section valid.
Variables (B0 : Block) (report_all : bool) (trusted : Header → Prop) (L : Z).
#[local] Abbreviation node_ok := (Bootstrap.node_ok B0 report_all trusted L).

(** The peer named the tip of this node as its own. *)
Definition synced (peer : Remote) (t : TipUpdater) : Prop :=
  ∃ i header, remote_tip peer i = Some (Ok header) ∧ header_hash header = ref_hash (tip t).

Definition ends {A} (m : N A) (Q : A → TipUpdater → Prop) : Prop :=
  hoare True node_ok m (λ a t, node_ok t ∧ Q a t) (λ _, node_ok).

Lemma ends_bind {A B} (m : N A) (k : A → N B) Q :
  ends m (λ _ _, True) → (∀ a, ends (k a) Q) → ends (mbind k m) Q.
Proof.
  intros Hm Hk. eapply hoare_bind; [exact Hm|]. intros a t [Ht _]. by apply Hk.
Qed.
Lemma ends_ret {A} (a : A) (Q : A → TipUpdater → Prop) : (∀ t, Q a t) → ends (mret a) Q.
Proof. intros HQ t Ht. by split. Qed.
Lemma ends_throw {A} e (Q : A → TipUpdater → Prop) : ends (throw e) Q.
Proof. by intros t Ht. Qed.
Lemma ends_cancel {A} (o : option A) : ends (with_cancellation_token o) (λ _ _, True).
Proof. by intros t Ht; destruct o. Qed.
Lemma ends_expect {A} (o : option A) : ends (expect o) (λ _ _, True).
Proof. by intros t Ht; destruct o. Qed.
Lemma ends_stream now later stream interrupted :
  ends (map_error BlockchainErr (Bootstrap.bootstrap_from_stream boxes now later stream interrupted)) (λ _ _, True).
Proof.
  intros t Ht. pose proof (Bootstrap.boot_map_error B0 report_all trusted L BlockchainErr _ _
    (Bootstrap.keeps_bootstrap boxes B0 report_all trusted L now later stream interrupted) t Ht) as Hk.
  by destruct (map_error _ _ t) as [[t' [a|e]]|]; [destruct Hk|..].
Qed.

Lemma ends_pull_loop fuel i peer : ends (pull_loop fuel i peer) (λ b t, b = true → synced peer t).
Proof.
  revert i. induction fuel as [|fuel IH]; intros i; simpl; [by apply ends_ret|].
  destruct (remote_tip peer i) as [[header|e]|] eqn:Htip; simpl.
  - intros t Ht. unfold mbind at 1, prog_bind at 1. simpl. unfold mbind at 1, prog_bind at 1, gets. simpl.
    case_decide as Hh.
    + split; [done|]. intros _. by exists i, header.
    + apply (ends_bind (expect (Checkpoints.new_from (tip t)))); [apply ends_expect| |done]. intros cps.
      apply ends_bind; [apply ends_cancel|]. intros [[[[stream interrupted] now] later]|e]; [|apply ends_throw].
      apply ends_bind; [apply ends_stream|]. intros _. apply IH.
  - by intros t Ht.
  - by intros t Ht.
Qed.

Lemma ends_from_peer fuel peer : ends (bootstrap_from_peer fuel peer) (λ b t, b = true → synced peer t).
Proof. apply ends_bind; [apply ends_cancel|]. intros []; [apply ends_pull_loop|apply ends_throw]. Qed.

Lemma ends_try_peers fuel remote peers :
  ends (try_peers fuel remote peers) (λ o t, o = Some true → ∃ p, p ∈ peers ∧ synced (remote p) t).
Proof.
  induction peers as [|p peers IH]; simpl; [by apply ends_ret|].
  intros t Ht. pose proof (ends_from_peer fuel (remote p) t Ht) as Hp. unfold mbind, prog_bind, attempt.
  destruct (bootstrap_from_peer fuel (remote p) t) as [[t' [[]|e]]|]; [..|done].
  - destruct Hp as [Ht' Hs]. split; [done|]. intros _. exists p. split; [left|by apply Hs].
  - destruct Hp as [Ht' _]. by split.
  - specialize (IH t' Hp). destruct e; try (destruct (try_peers fuel remote peers t') as [[t2 [o|e2]]|]; [|done..];
      destruct IH as [? Ho]; split; [done|]; intros Heq; destruct (Ho Heq) as (q & ? & ?);
      exists q; split; [by right|done]). done.
Qed.

(** The garbage collection changes the ledgers and the storage only. *)
Lemma gc_keeps t :
  node_ok t →
  match map_error GcFailed (on_chain (gc (tip t))) t with
  | Some (t', _) => node_ok t' ∧ tip t' = tip t
  | None => True
  end.
Proof.
  intros (Hc & Hv & HL). unfold map_error, on_chain, gc, storage_gc, mbind, prog_bind, modify_state. simpl.
  destruct (Storage.gc _ _ _) as [st r]. simpl. split; [|done]. by split.
Qed.

Lemma ends_bootstrap fuel config env :
  ends (bootstrap fuel config env) (λ o t, ∀ res, o = Some res → bootstrapped res = true →
    skip_bootstrap config = true ∨
    ∃ p, p ∈ shuffle env (bootstrap_peers (netboot_peers config (ask env) (set_order env))) ∧ synced (remote env p) t).
Proof.
  unfold bootstrap. destruct (protocol config); [|by intros t Ht].
  destruct (skip_bootstrap config); [apply ends_ret; by left|].
  destruct (trusted_peers config) as [|a l] eqn:Htr; [apply ends_throw|].
  destruct (netboot_canceled env); [by intros t Ht|].
  set (netboot := netboot_peers config (ask env) (set_order env)). simpl.
  intros t Ht. unfold mbind at 1, prog_bind at 1. simpl.
  pose proof (ends_try_peers fuel (remote env) (shuffle env (bootstrap_peers netboot)) t Ht) as Hp.
  unfold mbind, prog_bind. destruct (try_peers _ _ _ t) as [[t1 [[b|]|e]]|]; [..|done|done]; destruct Hp as [Ht1 Hs].
  - unfold gets. pose proof (gc_keeps t1 Ht1) as Hgc. cbn [fst snd].
    destruct (map_error GcFailed _ t1) as [[t2 [u|e]]|]; [..|done]; destruct Hgc as [Ht2 Htip].
    + split; [done|]. intros res [= <-] Hb. simpl in Hb. subst b. right.
      destruct (Hs eq_refl) as (p & ? & i & h & ? & ?). exists p. split; [done|]. exists i, h. by rewrite Htip.
    + done.
  - by split.
Qed.

Lemma ends_attempts rounds fuel config env n :
  ends (attempts rounds fuel config env n) (λ o t, ∀ res, o = Some (Some res) →
    skip_bootstrap config = true ∨ ∃ k p, synced (remote (env k).1 p) t).
Proof.
  revert n. induction rounds as [|rounds IH]; intros n; simpl; [by apply ends_ret|].
  destruct (match max_bootstrap_attempts config with Some _ => _ | None => _ end); [by apply ends_ret|].
  intros t Ht. pose proof (ends_bootstrap fuel config (env (S n)).1 t Ht) as Hb. unfold mbind, prog_bind.
  destruct (bootstrap fuel config _ t) as [[t1 [[res|]|e]]|]; [..|done|done]; destruct Hb as [Ht1 Hs].
  - destruct (bootstrapped res) eqn:Hres.
    + split; [done|]. intros res' [= <-]. destruct (Hs res eq_refl Hres) as [?|(p & _ & ?)]; [by left|right].
      by exists (S n), p.
    + destruct (env (S n)).2; [done|]. by apply IH.
  - by split.
Qed.
End valid.

(** The node goes on without a bootstrap only if the attempts are limited. *)
Lemma attempts_used_up rounds fuel config env n t t' :
  attempts rounds fuel config env n t = Some (t', Ok (Some None)) → is_Some (max_bootstrap_attempts config).
Proof.
  revert n t. induction rounds as [|rounds IH]; intros n t; simpl; [done|].
  destruct (max_bootstrap_attempts config) as [m|]; [by eauto|]. unfold mbind, prog_bind.
  destruct (bootstrap fuel config _ t) as [[t1 [[res|]|e]]|]; try done.
  destruct (bootstrapped res); [done|]. destruct (env (S n)).2; [done|]. apply IH.
Qed.

(** Bootstrapping is safe, whatever the trusted peers and the peers they
    name answer, in which order they are tried, how often, and wherever the
    node is interrupted: every cached reference and the tip stand for verified
    chains, and the tip is at least as long as before; and when the node
    starts with a successful bootstrap, its tip is the tip one of the peers
    named. *)
Theorem network_bootstrap_safe B0 report_all trusted rounds fuel config env t t' r :
  ChainInv.cache_ok B0 report_all trusted (blockchain t) →
  ChainInv.valid_ref B0 report_all trusted (tip t) →
  attempts rounds fuel config env 0 t = Some (t', r) →
  ChainInv.cache_ok B0 report_all trusted (blockchain t') ∧
  ChainInv.valid_ref B0 report_all trusted (tip t') ∧
  (ref_length (tip t) ≤ ref_length (tip t'))%Z ∧
  (∀ res, r = Ok (Some (Some res)) → skip_bootstrap config = false →
     ∃ k p i header, remote_tip (remote (env k).1 p) i = Some (Ok header) ∧
                     header_hash header = ref_hash (tip t')).
Proof.
  intros Hc Hv Hrun.
  pose proof (ends_attempts B0 report_all trusted (ref_length (tip t)) rounds fuel config env 0 t
    ltac:(by split_and!)) as He.
  rewrite Hrun in He. destruct r as [o|e].
  - destruct He as [(? & ? & ?) Hs]. split_and!; [done..|]. intros res [= ->] Hskip.
    destruct (Hs res eq_refl) as [?|(k & p & i & h & ? & ?)]; [congruence|]. by exists k, p, i, h.
  - destruct He as (? & ? & ?). by split_and!.
Qed.

(** The loop over the streams of a peer has no other way out than
    reaching the tip of the peer.  With a peer that has nothing new, because it
    is behind this node (its tip is an ancestor of the tip of this node), the
    node asks again and again, however long it runs. *)
Theorem bootstrap_never_ends (peer : Remote) header t now later :
  (∀ i, remote_tip peer i = Some (Ok header)) → header_hash header ≠ ref_hash (tip t) →
  (∀ i from to, pull peer i from to = Some (Ok ([], false, now, later))) →
  ∀ fuel, pull_loop fuel 0 peer t = Some (t, Ok false).
Proof.
  intros Htip Hne Hpull fuel. generalize 0. induction fuel as [|fuel IH]; intros i; [done|]. simpl.
  rewrite Htip. unfold mbind, prog_bind. simpl. rewrite decide_False by done.
  destruct (Checkpoints.new_from_Some (tip t)) as [cps Hcps]. unfold expect. rewrite Hcps. simpl.
  rewrite Hpull. simpl. apply IH.
Qed.

End bootstrap.
End NetBootstrap.

(** ** Examples *)
Module SampleNetBootstrap.
Import ListLru SampleFragments SampleStore SampleChain Reference Blockchain ChainInv ChainWitness
  ProcessWitness NetBootstrap.

(** Peer 1 cannot be reached; peer 2 has block 13, and sends it. *)
Definition unreachable : Remote := mkRemote (Some false) (λ _, None) (λ _ _ _, None).
Definition ahead : Remote :=
  mkRemote (Some true) (λ _, Some (Ok (block_header b13)))
    (λ _ _ _, Some (Ok ([Ok b13], false, time9000, 9000000000000%Z))).
Definition config : Config (Address := nat) := mkConfig Grpc false [7] false (Some 3%Z).
Definition env : Env (Peer := nat) (Address := nat) :=
  mkEnv false (λ _, Ok [1; 2; 1]) id id (λ p, match p with 1 => unreachable | _ => ahead end).

Abbreviation start := (attempts id peer_boxes 5 5 config (λ _, (env, false)) 0 updater2).
Definition started : Tip.TipUpdater := match start with Some (t, _) => t | None => updater2 end.
Definition start_result := match start with Some (_, r) => r | None => Err Connect end.

Lemma start_eq : start = Some (started, start_result).
Proof.
  unfold started, start_result.
  assert (match start with Some _ => true | None => false end = true) as Hok by reflexivity.
  by destruct start as [[]|].
Qed.

Example start_ok :
  match start_result with
  | Ok (Some (Some res)) => (initial_peers res, bootstrapped res)
  | _ => ([], false)
  end = ([2; 1], true) ∧ ref_hash (Tip.tip started) = hash 13.
Proof. split; reflexivity. Qed.

Lemma network_bootstrap_safe_witness : valid_ref genesis false no_header (Tip.tip started).
Proof.
  apply (network_bootstrap_safe id peer_boxes genesis false no_header 5 5 config (λ _, (env, false))
    updater2 started start_result).
  - apply s2_ok.
  - exists [r11; r10]. apply chain12.
  - exact start_eq.
Defined.

(** A peer one block behind: its tip is block 11, the tip of the node is block
    12. *)
Definition behind : Remote :=
  mkRemote (Some true) (λ _, Some (Ok (block_header b11)))
    (λ _ _ _, Some (Ok ([], false, time9000, 9000000000000%Z))).

Lemma bootstrap_never_ends_witness :
  header_hash (block_header b11) = ref_parent_hash (Tip.tip updater2) ∧
  pull_loop peer_boxes 1000 0 behind updater2 = Some (updater2, Ok false).
Proof.
  split; [reflexivity|].
  apply (bootstrap_never_ends peer_boxes behind (block_header b11) updater2 time9000 9000000000000%Z).
  - intros i. reflexivity.
  - intros Heq. discriminate Heq.
  - intros i from to. reflexivity.
Defined.
End SampleNetBootstrap.
