(* ===== verification/Watch.v ===== *)
(** * The watch service

    Models [jormungandr/src/watch_client.rs]: the task that broadcasts new
    blocks and new tips to subscribers such as the explorer, and the
    synchronisation of a subscriber, [handle_sync_multiverse], which sends the
    blocks that it does not have.  The storage is the model of [Storage]; a
    hash set is the list of its elements; whether a subscriber takes one more
    block is a parameter.  Tasks that are spawned run in any order. *)

From S2P Require Import Prelude BlockDate Deque Fragment Storage.

Module Watch.

(** [intercom::Error], by its code. *)
Inductive Error := InvalidArgument | Failed | FailedPrecondition | Aborted.

Section watch.
Context `{BlockStore}.

(** ** handle_sync_multiverse *)

(** [Vec::swap_remove]; [None] is its panic. *)
Definition swap_remove {A} (i : nat) (l : list A) : option (A * list A) :=
  x ← l !! i; y ← last l;
  Some (x, if decide (S i = length l) then take i l else <[i := y]> (take (pred (length l)) l)).

(** The first loop: the known checkpoints with their lengths, and the place
    of the first one of minimal length. *)
Fixpoint filter_checkpoints (s : store) (checkpoints : list Bytes) (filtered : list (Z * HeaderHash))
    (min_length : Z) (min_index : option nat)
    : result Error (list (Z * HeaderHash) * option nat) :=
  match checkpoints with
  | [] => Ok (filtered, min_index)
  | id_raw :: checkpoints =>
      match hash_deserialize id_raw with
      | Err _ => Err InvalidArgument
      | Ok id =>
          match Storage.get_chain_length id s with
          | Some chain_length =>
              let filtered := filtered ++ [(chain_length, id)] in
              if (chain_length <? min_length)%Z
              then filter_checkpoints s checkpoints filtered chain_length (Some (length filtered - 1))
              else filter_checkpoints s checkpoints filtered min_length min_index
          | None => filter_checkpoints s checkpoints filtered min_length min_index
          end
      end
  end.

(** The checkpoints but the last stable block, and that one. *)
Definition split_checkpoints (block0 : HeaderHash) (filtered : list (Z * HeaderHash)) (min_index : option nat)
    : option (list (Z * HeaderHash) * (Z * HeaderHash)) :=
  match min_index with
  | Some idx => '(lsb, rest) ← swap_remove idx filtered; Some (rest, lsb)
  | None => Some (filtered, (0%Z, block0))
  end.

(** The blocks from a checkpoint down to the last stable block; [None] is the
    underflow of [current_length], or too little fuel. *)
Fixpoint walk (fuel : nat) (s : store) (lsb_length : Z) (lsb_id : HeaderHash) (known : list HeaderHash)
    (current : HeaderHash) (current_length : Z) : option (result Error (list HeaderHash)) :=
  if decide (current = lsb_id) then Some (Ok known)
  else if (current_length <? lsb_length)%Z then Some (Err InvalidArgument)
  else if decide (current ∈ known) then Some (Ok known)
  else
    match fuel with
    | O => None
    | S fuel =>
        match Storage.get_parent current s with
        | Err _ => Some (Err FailedPrecondition)
        | Ok None => Some (Err Aborted)
        | Ok (Some parent) =>
            if (current_length =? 0)%Z then None
            else walk fuel s lsb_length lsb_id (current :: known) parent (current_length - 1)
        end
    end.

Fixpoint known_blocks (s : store) (lsb_length : Z) (lsb_id : HeaderHash)
    (checkpoints : list (Z * HeaderHash)) (known : list HeaderHash) : option (result Error (list HeaderHash)) :=
  match checkpoints with
  | [] => Some (Ok known)
  | (checkpoint_length, checkpoint) :: checkpoints =>
      match walk (S (Z.to_nat checkpoint_length)) s lsb_length lsb_id known checkpoint checkpoint_length with
      | Some (Ok known) => known_blocks s lsb_length lsb_id checkpoints known
      | r => r
      end
  end.

(** The sink: the blocks sent; [taken n]: the receiver takes the n-th one. *)
Variable taken : nat → bool.
Definition W := prog (list Block) Error.
Definition send (b : Block) : W unit := λ sent,
  if taken (length sent) then Some (sent ++ [b], Ok tt) else Some (sent, Err Failed).

Fixpoint send_blocks (known : list HeaderHash) (blocks : list Block) : W unit :=
  match blocks with
  | [] => mret tt
  | b :: blocks =>
      if decide (header_hash (block_header b) ∈ known) then send_blocks known blocks
      else send b;; send_blocks known blocks
  end.

(** The last loop: level by level, up to the first empty one. *)
Fixpoint send_levels (fuel : nat) (s : store) (known : list HeaderHash) (current_length : Z) : W unit :=
  match fuel with
  | O => panic
  | S fuel =>
      match Storage.get_blocks_by_chain_length current_length s with
      | Err _ => throw Aborted
      | Ok [] => mret tt
      | Ok blocks => send_blocks known blocks;; send_levels fuel s known (current_length + 1)
      end
  end.

Definition send_block0 (s : store) (block0 : HeaderHash) (checkpoints : list (Z * HeaderHash)) : W unit :=
  match checkpoints with
  | [] =>
      match Storage.get block0 s with
      | Ok (Some block) => send block
      | _ => throw Failed
      end
  | _ => mret tt
  end.

Definition handle_sync_multiverse (fuel : nat) (s : store) (block0 : HeaderHash) (checkpoints : list Bytes)
    : W unit :=
  '(filtered, min_index) ← lift (filter_checkpoints s checkpoints [] (U32 - 1) None);
  '(checkpoints, (lsb_length, lsb_id)) ← expect (split_checkpoints block0 filtered min_index);
  send_block0 s block0 checkpoints;;
  r ← expect (known_blocks s lsb_length lsb_id checkpoints []);
  known ← lift r;
  send_levels fuel s known (lsb_length + 1).

(** The answer to a [RequestMsg::SyncMultiverse]: the items of the stream.
    The error comes last, if the receiver still takes it. *)
Definition serve_sync (fuel : nat) (s : store) (block0 : HeaderHash) (from : list Bytes)
    : option (list (result Error Block)) :=
  '(sent, r) ← handle_sync_multiverse fuel s block0 from [];
  Some ((Ok <$> sent) ++
    match r with
    | Ok _ => []
    | Err e => if taken (length sent) then [Err e] else []
    end).

(** ** The message processor

    Every message is handled by a task of its own, and spawned tasks run in
    any order. *)
Inductive Message := NewBlock (b : Block) | NewTip (h : Header).

Record MessageProcessor := mkProcessor {
  queue : list Message;
  spawned : list Message;
  (** what was sent to the subscribers of blocks *)
  block_sender : list Block;
  (** the value of the watch channel *)
  tip_sender : Header;
}.

Definition processor_new (current_tip : Header) (queue : list Message) : MessageProcessor :=
  mkProcessor queue [] [] current_tip.

(** The body of the spawned tasks. *)
Definition notify (m : Message) (p : MessageProcessor) : MessageProcessor :=
  match m with
  | NewBlock b => mkProcessor (queue p) (spawned p) (block_sender p ++ [b]) (tip_sender p)
  | NewTip h => mkProcessor (queue p) (spawned p) (block_sender p) h
  end.

Inductive step : relation MessageProcessor :=
| step_next m q sp bs t : step (mkProcessor (m :: q) sp bs t) (mkProcessor q (sp ++ [m]) bs t)
| step_notify q sp1 m sp2 bs t :
    step (mkProcessor q (sp1 ++ m :: sp2) bs t) (notify m (mkProcessor q (sp1 ++ sp2) bs t)).

Definition blocks_of (l : list Message) : list Block :=
  omap (λ m, match m with NewBlock b => Some b | NewTip _ => None end) l.
Definition tips_of (l : list Message) : list Header :=
  omap (λ m, match m with NewTip h => Some h | NewBlock _ => None end) l.

Lemma blocks_of_app l l' : blocks_of (l ++ l') = blocks_of l ++ blocks_of l'.
Proof. apply omap_app. Qed.
Lemma tips_of_app l l' : tips_of (l ++ l') = tips_of l ++ tips_of l'.
Proof. apply omap_app. Qed.

(** Every block is broadcast once or still waits, and the tip is one that was
    announced. *)
Definition processor_inv (msgs : list Message) (t0 : Header) (p : MessageProcessor) : Prop :=
  block_sender p ++ blocks_of (spawned p ++ queue p) ≡ₚ blocks_of msgs ∧
  tips_of (spawned p ++ queue p) ⊆+ tips_of msgs ∧
  (tip_sender p ∈ tips_of msgs ∨ tip_sender p = t0 ∧ tips_of (spawned p ++ queue p) ≡ₚ tips_of msgs).

Lemma processor_invariant msgs t0 p :
  rtc step (processor_new t0 msgs) p → processor_inv msgs t0 p.
Proof.
  revert p. apply rtc_ind_r.
  { unfold processor_inv. simpl. auto. }
  intros p p' _ Hstep (Hb & Hs & Ht).
  destruct Hstep as [m q sp bs t|q sp1 m sp2 bs t]; unfold processor_inv in *; simpl in *.
  - rewrite <- app_assoc. exact (conj Hb (conj Hs Ht)).
  - rewrite <- app_assoc in Hb, Hs, Ht. rewrite blocks_of_app in Hb. rewrite tips_of_app in Hs, Ht.
    destruct m as [b|h]; simpl in *; rewrite <- (app_assoc sp1), blocks_of_app, tips_of_app.
    + split; [|exact (conj Hs Ht)]. rewrite <- Hb. simpl. rewrite <- app_assoc. simpl.
      apply Permutation_app_head, Permutation_middle.
    + assert (h ∈ tips_of msgs) as Hin.
      { eapply elem_of_submseteq; [|exact Hs]. apply elem_of_app. right. left. }
      split; [exact Hb|]. split; [|by left]. etrans; [|exact Hs].
      apply submseteq_skips_l, submseteq_cons; reflexivity.
Qed.

(** ** The blocks of the store *)
Abbreviation hash b := (header_hash (block_header b)).
Abbreviation parent b := (block_parent_hash (block_header b)).
Abbreviation len b := (chain_length (block_header b)).

(** The storage has the blocks [B]: a tree with the root [block0]. *)
Record view (s : store) (block0 : HeaderHash) (B : list Block) : Prop := {
  view_NoDup : NoDup ((λ b, hash b) <$> B);
  view_length b : b ∈ B → Storage.get_chain_length (hash b) s = Some (len b);
  view_known h n : Storage.get_chain_length h s = Some n → ∃ b, b ∈ B ∧ hash b = h ∧ len b = n;
  view_parent b : b ∈ B → Storage.get_parent (hash b) s = Ok (Some (parent b));
  view_get b : b ∈ B → Storage.get (hash b) s = Ok (Some b);
  view_level n : ∃ l, Storage.get_blocks_by_chain_length n s = Ok l ∧ l ≡ₚ filter (λ b, len b = n) B;
  view_linked b : b ∈ B → len b ≠ 0%Z → ∃ p, p ∈ B ∧ hash p = parent b ∧ (len p + 1 = len b)%Z;
  view_block0 : ∃ b, b ∈ B ∧ hash b = block0 ∧ len b = 0%Z;
  view_root b : b ∈ B → len b = 0%Z → hash b = block0;
  view_u32 b : b ∈ B → (0 ≤ len b < U32 - 1)%Z;
}.

Section sync.
Context (s : store) (block0 : HeaderHash) (B : list Block) (HB : view s block0 B).

Lemma view_inj b b' : b ∈ B → b' ∈ B → hash b = hash b' → b = b'.
Proof.
  intros Hb Hb' Heq. pose proof (view_get s block0 B HB b Hb) as Hg1.
  pose proof (view_get s block0 B HB b' Hb') as Hg2. rewrite Heq in Hg1. congruence.
Qed.

(** [b] is [a] or a descendant of it. *)
Inductive descends : Block → Block → Prop :=
| descends_refl b : b ∈ B → descends b b
| descends_step b p a : b ∈ B → len b ≠ 0%Z → p ∈ B → hash p = parent b → descends p a → descends b a.

Lemma descends_length b a : descends b a → (len a ≤ len b)%Z ∧ (len a = len b → a = b).
Proof.
  induction 1 as [b Hb|b p a Hb Hl Hp Hh _ [IH _]]; [done|].
  destruct (view_linked s block0 B HB b Hb Hl) as (p' & Hp' & Hh' & Hlen).
  assert (p' = p) as -> by (apply view_inj; congruence). split; [lia|]. intros. lia.
Qed.

(** Every length up to that of a block occurs. *)
Lemma level_inhabited b m : b ∈ B → (0 ≤ m ≤ len b)%Z → ∃ p, p ∈ B ∧ len p = m.
Proof.
  intros Hb Hm. remember (Z.to_nat (len b - m)) as k eqn:Hk. revert b Hb Hm Hk.
  induction k as [|k IH]; intros b Hb Hm Hk; [exists b; split; [done|lia]|].
  destruct (view_linked s block0 B HB b Hb ltac:(lia)) as (p & Hp & _ & Hlen).
  apply (IH p Hp); lia.
Qed.

(** *** The last loop *)
Lemma send_blocks_run known blocks sent :
  (∀ n, taken n = true) →
  send_blocks known blocks sent = Some (sent ++ filter (λ b, hash b ∉ known) blocks, Ok tt).
Proof.
  intros Htaken. revert sent. induction blocks as [|b blocks IH]; intros sent; simpl; [by rewrite app_nil_r|].
  rewrite filter_cons. case_decide as Hk.
  - rewrite IH, decide_False by tauto. done.
  - unfold mbind, prog_bind, send. rewrite Htaken, IH, decide_True by done. by rewrite <- app_assoc.
Qed.

Definition by_length : relation Block := λ b b', (len b ≤ len b')%Z.

Lemma level_sorted n l : (∀ b, b ∈ l → len b = n) → StronglySorted by_length l.
Proof.
  induction l as [|b l IH]; intros Hl; constructor; [apply IH; set_solver|].
  apply Forall_forall. intros b' Hb'. unfold by_length. rewrite (Hl b), (Hl b') by set_solver. lia.
Qed.

Lemma send_levels_run known fuel n sent :
  (∀ n, taken n = true) → (0 ≤ n)%Z → (∀ b, b ∈ B → (len b < n + Z.of_nat fuel)%Z) →
  ∃ l, send_levels (S fuel) s known n sent = Some (sent ++ l, Ok tt) ∧
    (∀ b, b ∈ l ↔ b ∈ B ∧ (n ≤ len b)%Z ∧ hash b ∉ known) ∧ StronglySorted by_length l.
Proof.
  intros Htaken. revert n sent. induction fuel as [|fuel IH]; intros n sent Hn Hlen.
  - destruct (view_level s block0 B HB n) as (l & Hl & Hp). simpl. rewrite Hl.
    assert (∀ b, b ∈ B → (len b < n)%Z) as Hb by (intros b Hb; specialize (Hlen b Hb); lia).
    assert (l = []) as ->.
    { destruct l as [|b l]; [done|]. assert (b ∈ filter (λ b, len b = n) B) as Hin by (rewrite <- Hp; left).
      apply list_elem_of_filter in Hin as [? Hin]. specialize (Hb b Hin). lia. }
    exists []. rewrite app_nil_r. split_and!; [done| |constructor].
    intros b. split; [set_solver|]. intros (Hin & ? & _). specialize (Hb b Hin). lia.
  - destruct (view_level s block0 B HB n) as (l & Hl & Hp).
    change (send_levels (S (S fuel)) s known n sent) with
      ((match Storage.get_blocks_by_chain_length n s with
        | Err _ => throw Aborted
        | Ok [] => mret tt
        | Ok blocks => send_blocks known blocks;; send_levels (S fuel) s known (n + 1)
        end : W unit) sent).
    rewrite Hl. destruct l as [|b0 l0] eqn:Hl0; rewrite <- ?Hl0 in *.
    + exists []. rewrite app_nil_r. split_and!; [done| |constructor].
      intros b. split; [set_solver|]. intros (Hin & ? & _).
      destruct (level_inhabited b n Hin ltac:(lia)) as (p & Hpin & Hplen). subst l.
      assert (p ∈ ([] : list Block)) by (rewrite Hp; by apply list_elem_of_filter). set_solver.
    + set (now := filter (λ b, hash b ∉ known) l).
      destruct (IH (n + 1)%Z (sent ++ now)) as (l' & Hrun & Hmem & Hsort); [lia| |].
      { intros b Hb. specialize (Hlen b Hb). lia. }
      assert (∀ b, b ∈ now ↔ b ∈ B ∧ len b = n ∧ hash b ∉ known) as Hnow.
      { intros b. unfold now. rewrite list_elem_of_filter, Hp, list_elem_of_filter. tauto. }
      exists (now ++ l'). split_and!.
      * unfold mbind, prog_bind. rewrite send_blocks_run by done. fold now. by rewrite Hrun, app_assoc.
      * intros b. rewrite elem_of_app, Hnow, Hmem. split; [intros [(? & ? & ?)|(? & ? & ?)]; split_and!; done || lia|].
        intros (? & ? & ?). destruct (decide (len b = n)); [by left|right]. split_and!; [done|lia|done].
      * apply StronglySorted_app; split_and!; [| |done].
        -- intros b b' Hb Hb'. apply Hnow in Hb as (_ & ? & _). apply Hmem in Hb' as (_ & ? & _). unfold by_length. lia.
        -- apply (level_sorted n). intros b Hb. by apply Hnow in Hb as (_ & ? & _).
Qed.

(** *** The checkpoints *)
Context `{!ChainTypesLaws}.

(** The checkpoints that the storage knows, with their lengths. *)
Definition found (ids : list HeaderHash) : list (Z * HeaderHash) :=
  omap (λ id, n ← Storage.get_chain_length id s; Some (n, id)) ids.

Definition min_ok (l : list (Z * HeaderHash)) (m : Z) (mi : option nat) : Prop :=
  match mi with
  | None => l = [] ∧ m = (U32 - 1)%Z
  | Some i => ∃ id, l !! i = Some (m, id) ∧ Forall (λ e, (m ≤ e.1)%Z) l
  end.

Lemma filter_checkpoints_run ids l m mi :
  min_ok l m mi →
  ∃ m' mi', filter_checkpoints s (hash_bytes <$> ids) l m mi = Ok (l ++ found ids, mi') ∧
            min_ok (l ++ found ids) m' mi'.
Proof.
  revert l m mi. induction ids as [|id ids IH]; intros l m mi Hm; simpl.
  { exists m, mi. by rewrite app_nil_r. }
  rewrite hash_roundtrip. destruct (Storage.get_chain_length id s) as [n|] eqn:Hn; simpl; [|by apply IH].
  assert (n < U32 - 1)%Z as Hu.
  { destruct (view_known s block0 B HB id n Hn) as (b & Hb & _ & <-). by apply (view_u32 s block0 B HB). }
  assert (l ++ (n, id) :: found ids = (l ++ [(n, id)]) ++ found ids) as -> by (by rewrite <- app_assoc).
  destruct (Z.ltb_spec n m) as [Hlt|Hge].
  - apply IH. exists id. rewrite length_app. simpl. replace (length l + 1 - 1) with (length l) by lia.
    split; [by rewrite lookup_app_r, Nat.sub_diag by lia|]. apply Forall_app. split; [|by repeat constructor].
    destruct mi as [i|]; [|by destruct Hm as [-> _]]. destruct Hm as (_ & _ & Hall).
    eapply Forall_impl; [exact Hall|]. simpl. intros. lia.
  - apply IH. destruct mi as [i|]; [|destruct Hm as [_ ->]; lia]. destruct Hm as (id' & Hi & Hall).
    exists id'. split; [by apply lookup_app_l_Some|]. apply Forall_app. split; [done|by repeat constructor].
Qed.

Lemma swap_remove_run {A} i (l : list A) x :
  l !! i = Some x → ∃ rest, swap_remove i l = Some (x, rest) ∧ l ≡ₚ x :: rest.
Proof.
  intros Hi. unfold swap_remove. rewrite Hi. simpl. pose proof (lookup_lt_Some _ _ _ Hi) as Hlt.
  destruct (exists_last (l := l)) as (l' & y & ->); [by intros ->|].
  rewrite last_snoc. simpl. eexists. split; [done|]. rewrite length_app in *. simpl in *. case_decide as Hd.
  - assert (i = length l') as -> by lia. rewrite lookup_app_r, Nat.sub_diag in Hi by lia. simplify_eq/=.
    rewrite take_app_length. symmetry. apply Permutation_cons_append.
  - replace (pred (length l' + 1)) with (length l') by lia. rewrite take_app_length.
    rewrite lookup_app_l in Hi by lia. rewrite <- (take_drop_middle l' i x Hi) at 1.
    rewrite insert_take_drop by lia. rewrite <- app_assoc. simpl.
    rewrite <- Permutation_middle. apply perm_skip. apply Permutation_app_head.
    symmetry. apply Permutation_cons_append.
Qed.

(** The last stable block is a checkpoint of minimal length, or block 0. *)
Lemma split_checkpoints_run ids mi m :
  min_ok (found ids) m mi →
  ∃ rest lsb, split_checkpoints block0 (found ids) mi = Some (rest, (len lsb, hash lsb)) ∧ lsb ∈ B ∧
    (if decide (found ids = []) then rest = [] ∧ hash lsb = block0
     else found ids ≡ₚ (len lsb, hash lsb) :: rest) ∧
    Forall (λ e, (len lsb ≤ e.1)%Z ∧ ∃ b, b ∈ B ∧ e = (len b, hash b)) rest.
Proof.
  intros Hm.
  assert (∀ e, e ∈ found ids → ∃ b, b ∈ B ∧ e = (len b, hash b)) as Hfound.
  { intros e (id & _ & He)%list_elem_of_omap. apply bind_Some in He as (n & Hn & [= <-]).
    destruct (view_known s block0 B HB id n Hn) as (b & Hb & <- & <-). by exists b. }
  destruct mi as [i|]; simpl in *.
  - destruct Hm as (id & Hi & Hall). destruct (Hfound (m, id)) as (lsb & Hlsb & [= -> ->]);
      [by eapply list_elem_of_lookup_2|].
    destruct (swap_remove_run i (found ids) _ Hi) as (rest & Hr & Hp). rewrite Hr. simpl.
    exists rest, lsb. split; [done|]. split; [done|]. split.
    + rewrite decide_False; [done|]. intros Hnil. by rewrite Hnil in Hi.
    + apply Forall_forall. intros e He. assert (e ∈ found ids) as Hin by (rewrite Hp; by right).
      split; [|by apply Hfound]. by apply (proj1 (Forall_forall _ _) Hall).
  - destruct Hm as [Hnil ->]. destruct (view_block0 s block0 B HB) as (b & Hb & Hh & Hl).
    exists [], b. rewrite Hnil, Hl, Hh. split; [done|]. split; [done|]. split; [by rewrite decide_True|constructor].
Qed.

(** *** The blocks the subscriber knows *)
Section known.
Context (lsb : Block) (Hlsb : lsb ∈ B).

(** With a block of [K] its parent is there too, or it is the last stable
    block, or [extra]. *)
Definition closed_but (K : list HeaderHash) (extra : option Block) : Prop :=
  ∀ b, b ∈ B → hash b ∈ K → len b ≠ 0%Z ∧
    ∃ p, p ∈ B ∧ hash p = parent b ∧ (hash p ∈ K ∨ p = lsb ∨ extra = Some p).

Lemma closed_weaken K o : closed_but K None → closed_but K o.
Proof.
  intros Hcl b Hb Hk. destruct (Hcl b Hb Hk) as (? & p & ? & ? & [?|[?|?]]); [| |done]; eauto 10.
Qed.

Lemma descends_parent b p a :
  b ∈ B → p ∈ B → hash p = parent b → descends b a → b = a ∨ descends p a.
Proof.
  intros Hb Hp Hh Hd. destruct Hd as [|b p' a _ _ Hp' Hh' Hd]; [by left|right].
  assert (p' = p) as -> by (apply view_inj; congruence). done.
Qed.

Lemma walk_run fuel K cur :
  cur ∈ B → (len cur < Z.of_nat fuel)%Z → closed_but K (Some cur) →
  match walk fuel s (len lsb) (hash lsb) K (hash cur) (len cur) with
  | Some (Ok K') =>
      (∀ h, h ∈ K → h ∈ K') ∧ (∀ b, b ∈ B → hash b ∈ K' → hash b ∈ K ∨ descends cur b) ∧
      closed_but K' None ∧ (hash cur ∈ K' ∨ cur = lsb)
  | Some (Err e) => e = InvalidArgument ∧ ¬ descends cur lsb
  | None => False
  end.
Proof.
  revert K cur. induction fuel as [|fuel IH]; intros K cur Hcur Hfuel Hcl;
    [pose proof (view_u32 s block0 B HB cur Hcur); lia|].
  simpl. case_decide as Heq.
  { assert (cur = lsb) as -> by (by apply view_inj). split_and!; auto.
    intros b Hb Hk. destruct (Hcl b Hb Hk) as (? & p & ? & ? & Hor). split; [done|].
    exists p. naive_solver. }
  destruct (Z.ltb_spec (len cur) (len lsb)) as [Hlt|Hge].
  { split; [done|]. intros Hd%descends_length. lia. }
  case_decide as Hin.
  { split_and!; auto. intros b Hb Hk. destruct (Hcl b Hb Hk) as (? & p & ? & ? & Hor). split; [done|].
    exists p. split_and!; [done..|]. destruct Hor as [?|[?|[= <-]]]; auto. }
  rewrite (view_parent s block0 B HB cur Hcur).
  assert (len cur ≠ 0%Z) as Hne.
  { intros Hz. apply Heq. pose proof (view_u32 s block0 B HB lsb Hlsb).
    rewrite (view_root s block0 B HB cur), (view_root s block0 B HB lsb); [done|done|lia|done|done]. }
  destruct (Z.eqb_spec (len cur) 0); [done|].
  destruct (view_linked s block0 B HB cur Hcur Hne) as (p & Hp & Hh & Hlen). rewrite <- Hh.
  replace (len cur - 1)%Z with (len p) by lia.
  assert (closed_but (hash cur :: K) (Some p)) as Hcl'.
  { intros b Hb [Hb'|Hk]%elem_of_cons.
    - assert (b = cur) as -> by (by apply view_inj). split; [done|]. exists p. auto.
    - destruct (Hcl b Hb Hk) as (? & q & ? & ? & Hor). split; [done|]. exists q. split_and!; [done..|].
      destruct Hor as [?|[?|[= <-]]]; [left; by right|auto|left; by left]. }
  specialize (IH (hash cur :: K) p Hp ltac:(lia) Hcl').
  destruct (walk fuel s _ _ _ (hash p) (len p)) as [[K'|e]|]; [| |done].
  - destruct IH as (Hsub & Hback & Hcl2 & _). split_and!; [|..|done|].
    + intros h Hh'. apply Hsub. by right.
    + intros b Hb Hk. destruct (Hback b Hb Hk) as [[Hbc|?]%elem_of_cons|Hd]; [right|by left|right].
      * assert (b = cur) as -> by (by apply view_inj). by constructor.
      * by apply (descends_step cur p b).
    + left. apply Hsub. left.
  - destruct IH as [-> Hnd]. split; [done|]. intros Hd. apply Hnd.
    destruct (descends_parent cur p lsb Hcur Hp Hh Hd) as [->|?]; [by destruct Heq|done].
Qed.

Lemma known_blocks_run rest K :
  Forall (λ e, (len lsb ≤ e.1)%Z ∧ ∃ b, b ∈ B ∧ e = (len b, hash b)) rest → closed_but K None →
  match known_blocks s (len lsb) (hash lsb) rest K with
  | Some (Ok K') =>
      (∀ h, h ∈ K → h ∈ K') ∧ closed_but K' None ∧
      (∀ b, b ∈ B → hash b ∈ K' → hash b ∈ K ∨ ∃ c, c ∈ B ∧ (len c, hash c) ∈ rest ∧ descends c b) ∧
      (∀ c, c ∈ B → (len c, hash c) ∈ rest → hash c ∈ K' ∨ c = lsb)
  | Some (Err e) =>
      e = InvalidArgument ∧ ∃ c, c ∈ B ∧ (len c, hash c) ∈ rest ∧ ¬ descends c lsb
  | None => False
  end.
Proof.
  intros Hrest. revert K. induction Hrest as [|e rest (Hle & c & Hc & ->) _ IH]; intros K Hcl; cbn [known_blocks].
  { split_and!; auto. set_solver. }
  pose proof (walk_run (S (Z.to_nat (len c))) K c Hc) as Hw.
  destruct (walk _ s _ _ K (hash c) (len c)) as [[K1|e]|].
  - destruct Hw as (Hsub & Hback & Hcl1 & Hc1).
    { pose proof (view_u32 s block0 B HB c Hc). lia. }
    { by apply closed_weaken. }
    specialize (IH K1 Hcl1). destruct (known_blocks s _ _ rest K1) as [[K2|e]|]; [| |done].
    + destruct IH as (Hsub2 & Hcl2 & Hback2 & Hall). split; [by auto|]. split; [done|]. split.
      * intros b Hb Hk. destruct (Hback2 b Hb Hk) as [Hk1|(c' & ? & ? & ?)].
        -- destruct (Hback b Hb Hk1) as [?|?]; [by left|right]. exists c. split_and!; [done|left|done].
        -- right. exists c'. split_and!; [done|by right|done].
      * intros c' Hc' [[= ? Hh]|Hin]%elem_of_cons; [|by apply Hall].
        assert (c' = c) as -> by (by apply view_inj). destruct Hc1 as [?|?]; [left; by apply Hsub2|by right].
    + destruct IH as [-> (c' & ? & ? & ?)]. split; [done|]. exists c'. split_and!; [done|by right|done].
  - destruct Hw as [-> Hnd].
    { pose proof (view_u32 s block0 B HB c Hc). lia. }
    { by apply closed_weaken. }
    split; [done|]. exists c. split_and!; [done|left|done].
  - apply Hw.
    + pose proof (view_u32 s block0 B HB c Hc). lia.
    + by apply closed_weaken.
Qed.
Lemma closed_descends K b : closed_but K None → b ∈ B → hash b ∈ K → descends b lsb.
Proof.
  intros Hcl. remember (Z.to_nat (len b)) as n eqn:Hn. revert b Hn.
  induction n as [n IH] using lt_wf_ind. intros b Hn Hb Hk.
  destruct (Hcl b Hb Hk) as (Hne & p & Hp & Hh & Hor).
  destruct (view_linked s block0 B HB b Hb Hne) as (p' & Hp' & Hh' & Hlen).
  assert (p' = p) as -> by (apply view_inj; congruence).
  pose proof (view_u32 s block0 B HB p Hp). apply (descends_step b p); [done..|].
  destruct Hor as [Hk'|[->|?]]; [|by constructor|done]. by apply (IH (Z.to_nat (len p))); [lia|..].
Qed.

Lemma closed_contains K c b :
  closed_but K None → hash c ∈ K → descends c b → (len lsb < len b)%Z → hash b ∈ K.
Proof.
  intros Hcl Hk Hd Hlt. induction Hd as [|c p b Hc Hne Hp Hh Hd IH]; [done|].
  apply IH; [|done]. destruct (Hcl c Hc Hk) as (_ & p' & Hp' & Hh' & Hor).
  assert (p' = p) as -> by (apply view_inj; congruence).
  destruct Hor as [?|[->|?]]; [done| |done]. apply descends_length in Hd. lia.
Qed.
End known.

Lemma found_elem ids c : c ∈ B → (len c, hash c) ∈ found ids ↔ hash c ∈ ids.
Proof.
  intros Hc. unfold found. rewrite list_elem_of_omap. split.
  - intros (id & Hid & He). apply bind_Some in He as (n & _ & [= _ <-]). done.
  - intros Hid. exists (hash c). split; [done|]. by rewrite (view_length s block0 B HB c Hc).
Qed.

End sync.

Lemma send_block0_run s block0 B rest :
  view s block0 B → (∀ n, taken n = true) →
  ∃ first, send_block0 s block0 rest [] = Some (first, Ok tt) ∧
    ((λ b, hash b) <$> first) = match rest with [] => [block0] | _ => [] end.
Proof.
  intros HB Ht. destruct rest as [|e rest]; [|by exists []].
  destruct (view_block0 s block0 B HB) as (b & Hb & Hh & _). exists [b]. simpl.
  rewrite <- Hh, (view_get s block0 B HB b Hb). unfold send. simpl. by rewrite Ht.
Qed.

(** A checkpoint of the subscriber that the storage has. *)
Definition checkpoint (B : list Block) (ids : list HeaderHash) (c : Block) : Prop := c ∈ B ∧ hash c ∈ ids.
(** C17: a subscriber is synchronised.  With checkpoints that descend from the
    lowest of them (block 0, if the node knows none), the subscriber gets, the
    parents before their children, exactly the blocks above the lowest
    checkpoint that are not a checkpoint or an ancestor of one; before them
    comes block 0 if at most one checkpoint is known.  Otherwise the request
    is refused.  The loops end. *)
Theorem sync_multiverse_correct `{!ChainTypesLaws} s block0 B (ids : list HeaderHash) fuel :
  view s block0 B → (∀ n, taken n = true) → (∀ b, b ∈ B → (len b < Z.of_nat fuel)%Z) →
  ∃ lsb, lsb ∈ B ∧
    (if decide (found s ids = []) then hash lsb = block0
     else checkpoint B ids lsb ∧ ∀ c, checkpoint B ids c → (len lsb ≤ len c)%Z) ∧
    match handle_sync_multiverse (S fuel) s block0 (hash_bytes <$> ids) [] with
    | Some (sent, Ok _) =>
        (∀ c, checkpoint B ids c → descends B c lsb) ∧
        ∃ first l, sent = first ++ l ∧ StronglySorted by_length l ∧
          (∀ b, b ∈ l ↔ b ∈ B ∧ (len lsb < len b)%Z ∧ ¬ ∃ c, checkpoint B ids c ∧ descends B c b) ∧
          ((λ b, hash b) <$> first) = if decide (length (found s ids) ≤ 1) then [block0] else []
    | Some (_, Err e) => e = InvalidArgument ∧ ∃ c, checkpoint B ids c ∧ ¬ descends B c lsb
    | None => False
    end.
Proof.
  intros HB Ht Hfuel.
  destruct (filter_checkpoints_run s block0 B HB ids [] (U32 - 1) None) as (m & mi & Hf & Hm); [done|].
  destruct (split_checkpoints_run s block0 B HB ids mi m Hm) as (rest & lsb & Hsp & Hlsb & Hcase & Hrest).
  assert (∀ c, checkpoint B ids c → c = lsb ∨ (len c, hash c) ∈ rest) as Hchk.
  { intros c [Hc Hid]. apply (found_elem s block0 B HB ids c Hc) in Hid.
    case_decide as Hn; [rewrite Hn in Hid; set_solver|].
    rewrite Hcase in Hid. apply elem_of_cons in Hid as [[= _ Hh]|?]; [left|by right].
    by apply (view_inj s block0 B HB). }
  assert (∀ c, c ∈ B → (len c, hash c) ∈ rest → checkpoint B ids c) as Hrc.
  { intros c Hc Hin. split; [done|]. apply (found_elem s block0 B HB ids c Hc).
    case_decide as Hn; [destruct Hcase as [-> _]; set_solver|]. rewrite Hcase. by right. }
  exists lsb. split; [done|]. split.
  { case_decide as Hn; [by destruct Hcase|]. split.
    - split; [done|]. apply (found_elem s block0 B HB ids lsb Hlsb). rewrite Hcase. left.
    - intros c Hc. destruct (Hchk c Hc) as [->|Hin]; [done|].
      by apply (proj1 (Forall_forall _ _) Hrest) in Hin as [? _]. }
  destruct (send_block0_run s block0 B rest HB Ht) as (first & Hfirst & Hh0).
  unfold handle_sync_multiverse, mbind, prog_bind, lift, expect. rewrite Hf. simpl. rewrite Hsp. simpl.
  rewrite Hfirst. simpl.
  pose proof (known_blocks_run s block0 B HB lsb Hlsb rest [] Hrest ltac:(by intros b _ ?%elem_of_nil)) as Hk.
  destruct (known_blocks s (len lsb) (hash lsb) rest []) as [[K|e]|]; [| |done].
  - destruct Hk as (_ & Hcl & Hback & Hall).
    destruct (send_levels_run s block0 B HB K fuel (len lsb + 1) first Ht) as (l & Hrun & Hmem & Hsort).
    { pose proof (view_u32 s block0 B HB lsb Hlsb). lia. }
    { intros b Hb. specialize (Hfuel b Hb). pose proof (view_u32 s block0 B HB lsb Hlsb). lia. }
    cbn [send_levels] in Hrun |- *. rewrite Hrun. split.
    + intros c Hc. destruct (Hchk c Hc) as [->|Hin]; [by constructor|]. destruct Hc as [Hc _].
      destruct (Hall c Hc Hin) as [Hin'| ->]; [|by constructor]. by eapply closed_descends.
    + exists first, l. split_and!; [done..| |].
      * intros b. rewrite Hmem. split.
        -- intros (Hb & Hle & Hnk). split_and!; [done|lia|]. intros (c & Hc & Hd). apply Hnk.
           destruct (Hchk c Hc) as [->|Hin]; [apply (descends_length s block0 B HB) in Hd; lia|].
           destruct (Hall c (proj1 Hc) Hin) as [?| ->]; [|apply (descends_length s block0 B HB) in Hd; lia].
           eapply closed_contains; [done..|lia].
        -- intros (Hb & Hlt & Hnd). split_and!; [done|lia|]. intros Hk'. apply Hnd.
           destruct (Hback b Hb Hk') as [?%elem_of_nil|(c & Hc & Hin & Hd)]; [done|]. exists c. auto.
      * rewrite Hh0. clear -Hcase. destruct (decide (found s ids = [])) as [Hn|Hn].
        -- destruct Hcase as [-> _]. by rewrite Hn.
        -- apply Permutation_length in Hcase. simpl in Hcase. destruct rest; simpl in Hcase; case_decide; done || lia.
  - destruct Hk as [-> (c & Hc & Hin & Hnd)]. split; [done|]. exists c. auto.
Qed.

End watch.
End Watch.

Module SampleWatch.
Import SampleFragments SampleStore Watch.

(** A chain of four blocks and a fork of one, as in [store0]. *)
Definition chain : list Block :=
  [block_at 10 9 0; block_at 11 10 1; block_at 12 11 2; block_at 13 12 3; block_at 21 10 1].

Lemma chain_cases (P : Block → Prop) :
  P (block_at 10 9 0) → P (block_at 11 10 1) → P (block_at 12 11 2) → P (block_at 13 12 3) →
  P (block_at 21 10 1) → ∀ b, b ∈ chain → P b.
Proof.
  intros ????? b Hb. unfold chain in Hb. repeat (apply elem_of_cons in Hb as [->|Hb]; [done|]). set_solver.
Qed.

(** The levels above 0 to 3 are empty. *)
Lemma chain_level n :
  ∃ l, Storage.get_blocks_by_chain_length n store0 = Ok l ∧
       l ≡ₚ filter (λ b, chain_length (block_header b) = n) chain.
Proof.
  destruct (decide (n ∈ [0; 1; 2; 3]%Z)) as [Hn|Hn].
  - repeat (apply elem_of_cons in Hn as [->|Hn];
      [by eexists; split; [reflexivity|]; first [reflexivity|apply perm_swap]|]).
    by apply elem_of_nil in Hn.
  - exists []. unfold Storage.get_blocks_by_chain_length, store0, chain. simpl.
    repeat (rewrite filter_cons_False; [|intros Heq; apply Hn; rewrite <- Heq; by apply (bool_decide_unpack _)]).
    done.
Qed.

Lemma chain_view : view store0 (hash 10) chain.
Proof.
  split.
  - by apply (bool_decide_unpack _).
  - by refine (chain_cases _ _ _ _ _ _).
  - intros h n. unfold Storage.get_chain_length, store0. simpl. unfold mem_info, mem_find. simpl.
    repeat (case_decide;
      [match goal with |- context [inr ?b] => intros [= <-]; subst h; exists b; by repeat constructor end|]).
    done.
  - by refine (chain_cases _ _ _ _ _ _).
  - by refine (chain_cases _ _ _ _ _ _).
  - apply chain_level.
  - refine (chain_cases _ _ _ _ _ _); [done| | | |]; intros _.
    + by exists (block_at 10 9 0); split; [by repeat constructor|].
    + by exists (block_at 11 10 1); split; [by repeat constructor|].
    + by exists (block_at 12 11 2); split; [by repeat constructor|].
    + by exists (block_at 10 9 0); split; [by repeat constructor|].
  - exists (block_at 10 9 0). split; [left|done].
  - by refine (chain_cases _ _ _ _ _ _).
  - by refine (chain_cases _ _ _ _ _ _).
Qed.

(** A subscriber that has the fork and the first block gets the rest of the
    chain; one that has the second block only gets block 0 again. *)
Example sync_runs :
  serve_sync (λ _, true) 10 store0 (hash 10) [inl (hash 10); inl (hash 11); inl (hash 21)] =
    Some [Ok (block_at 12 11 2); Ok (block_at 13 12 3)] ∧
  serve_sync (λ _, true) 10 store0 (hash 10) [inl (hash 12)] =
    Some [Ok (block_at 10 9 0); Ok (block_at 13 12 3)] ∧
  serve_sync (λ _, true) 10 store0 (hash 10) [inl (hash 12); inl (hash 21)] = Some [Err InvalidArgument].
Proof. by vm_compute. Qed.

Lemma sync_multiverse_correct_witness :
  ∃ first l,
    handle_sync_multiverse (λ _, true) 5 store0 (hash 10) (inl <$> [hash 10; hash 11; hash 21]) [] =
      Some (first ++ l, Ok tt) ∧ StronglySorted by_length l ∧ first = [].
Proof.
  destruct (sync_multiverse_correct (λ _, true) store0 (hash 10) chain [hash 10; hash 11; hash 21] 4
    chain_view (λ _, eq_refl) (chain_cases _ eq_refl eq_refl eq_refl eq_refl eq_refl))
    as (lsb & _ & _ & Hrun).
  destruct (handle_sync_multiverse _ _ _ _ _ _) as [[sent [[]|e]]|] eqn:Heq; [| |done].
  - destruct Hrun as (_ & first & l & -> & Hl & _ & Hf). exists first, l. split; [done|].
    split; [exact Hl|]. vm_compute in Hf. by apply fmap_nil_inv in Hf.
  - exfalso. vm_compute in Heq. discriminate Heq.
Defined.

(** Two tips whose tasks run in the other order: the subscribers are left with
    the first one. *)
Example tip_is_stale :
  let h1 := block_header (block_at 11 10 1) in
  let h2 := block_header (block_at 12 11 2) in
  rtc step (processor_new (block_header (block_at 10 9 0)) [NewTip h1; NewTip h2]) (mkProcessor [] [] [] h1).
Proof.
  intros h1 h2. eapply rtc_l; [apply step_next|]. eapply rtc_l; [apply step_next|].
  eapply rtc_l; [apply (step_notify [] [NewTip h1] (NewTip h2) [])|].
  eapply rtc_l; [apply (step_notify [] [] (NewTip h1) [])|]. apply rtc_refl.
Qed.
End SampleWatch.
