(* ===== verification/StartUp.v ===== *)
(** * Starting the node

    Models [jormungandr/src/start_up/mod.rs] and [error.rs] (block 0 and the
    loading of the blockchain), and the way from the settings to a node that is
    ready to run in [jormungandr/src/lib.rs] ([initialize_node],
    [bootstrap_internal]) with the [Context] of [jormungandr/src/context/mod.rs]
    that the REST interface reads.  Files, HTTP services, the peers and the
    moments of cancellation are parameters. *)

From S2P Require Import Prelude BlockDate Lru Deque Fragment FragmentLogs Storage Chain ChainInv Checkpoints Tip BlockProcess NetBootstrap.

Module StartUp.
Import Reference Blockchain Tip.
Section start_up.
Context `{BlockStore} `{!FragmentOps} `{!LedgerTypes} `{!MultiverseOps}
  `{!LruCache HeaderHash Ref}.
Context {Peer Address : Type} `{EqDecision Peer, EqDecision Address} (address : Peer → Address).
Variable boxes : Boxes.

(** ** Errors (error.rs) *)
Inductive ErrorKind := KindBlockStorage | KindBlock0.
Inductive Error :=
| LoggingInitializationError
| ConfigurationError
| Io (reason : ErrorKind)
| ParseError (reason : ErrorKind)
| Block0Mismatch (expected got : HeaderHash)
| StorageError (e : Storage.Error)
| BlockchainError (e : Blockchain.Error)
| Block0 (e : Block0.Block0Error)
| FetchBlock0 (e : NetBootstrap.FetchBlockError)
| NetworkBootstrapError (e : NetBootstrap.Error)
| NodeSecrets
| Block0InFuture
| ServiceTerminatedWithError
| DiagnosticError
| Interrupted.

Definition from_bootstrap_error (e : NetBootstrap.Error) : Error :=
  match e with NetBootstrap.Interrupted => Interrupted | e => NetworkBootstrapError e end.

(** The exit status of the process. *)
Definition code (e : Error) : Z :=
  match e with
  | Interrupted => 0
  | LoggingInitializationError => 1
  | ConfigurationError => 2
  | Io _ => 3
  | ParseError _ => 4
  | StorageError _ => 5
  | BlockchainError _ => 6
  | Block0 _ | Block0Mismatch _ _ | Block0InFuture => 7
  | NodeSecrets => 8
  | FetchBlock0 _ => 9
  | NetworkBootstrapError _ => 10
  | ServiceTerminatedWithError => 12
  | DiagnosticError => 13
  end.

(** ** The context of the REST interface (context/mod.rs)

    What the start-up writes to it.  [published]: the blockchain and its tip
    are set.  A cancellation token is the one of the process, which signals
    cancel, or the one made for the preparation of block 0. *)
Inductive NodeState :=
  StartingRestServer | PreparingStorage | PreparingBlock0 | Bootstrapping | StartingWorkers | Running.
Inductive Token := ProcessToken | Block0Token.

Record Context := mkContext {
  node_state : NodeState;
  published : bool;
  bootstrap_stopper : option Token;
}.
Definition context_new : Context := mkContext StartingRestServer false None.
Definition set_node_state (n : NodeState) (c : Context) : Context :=
  mkContext n (published c) (bootstrap_stopper c).
Definition set_blockchain (c : Context) : Context :=
  mkContext (node_state c) true (bootstrap_stopper c).
Definition set_bootstrap_stopper (t : Token) (c : Context) : Context :=
  mkContext (node_state c) (published c) (Some t).
Definition remove_bootstrap_stopper (c : Context) : Context :=
  mkContext (node_state c) (published c) None.
(** the token that is canceled *)
Definition stop_bootstrap (c : Context) : Context * option Token :=
  (remove_bootstrap_stopper c, bootstrap_stopper c).

(** A step of the start-up; there is a context if REST or JSON-RPC is on. *)
Definition S := prog (option Context) Error.
Definition with_context (f : Context → Context) : S unit := modify_state (fmap f).

(** ** Block 0 *)
Inductive Block0Info :=
| Path (path : string) (expected : option HeaderHash)
| Hash (h : HeaderHash).

Record Settings := mkSettings {
  block_0 : Block0Info;
  http_fetch_block0_service : list string;
  network : NetBootstrap.Config (Address := Address);
  rewards_report_all : bool;
  rest : bool;
  jrpc : bool;
}.

(** What is outside of the node. *)
Record World := mkWorld {
  (** a file that can be opened *)
  file : string → option Bytes;
  display_hash : HeaderHash → string;
  (** the status and the body *)
  http_get : string → option (Z * option Bytes);
  shuffled : list Address → list Address;
  (** what a peer answers to a request for block 0 *)
  get_blocks : Address → bool * option (list (result unit (option Block)));
  (** the environment of the n-th attempt of the bootstrap *)
  attempt_env : nat → NetBootstrap.Env (Peer := Peer) (Address := Address) * bool;
  clock : Clock;
  (** a stop request of the REST interface comes during the preparation of
      block 0, before its end *)
  stop_requested : bool;
}.

Definition fetch_one (w : World) (block0_id : HeaderHash) (url : string) : option Block :=
  '(status, body) ← http_get w url;
  if negb (status =? 200)%Z then None
  else
    bytes ← body;
    match block_deserialize bytes with
    | Err _ => None
    | Ok block => if decide (header_hash (block_header block) = block0_id) then Some block else None
    end.

Fixpoint fetch_block0_http (w : World) (base_services : list string) (block0_id : HeaderHash)
    : option Block :=
  match base_services with
  | [] => None
  | base_url :: base_services =>
      match fetch_one w block0_id (base_url +:+ "/" +:+ display_hash w block0_id +:+ ".block0") with
      | Some block => Some block
      | None => fetch_block0_http w base_services block0_id
      end
  end.

(** [None] is the panic of [unwrap] on an error of the storage, or a protocol
    that is not implemented. *)
Definition prepare_block_0 (w : World) (settings : Settings) (s : store) : option (result Error Block) :=
  match block_0 settings with
  | Path path opt_block0_id =>
      Some match file w path with
           | None => Err (Io KindBlock0)
           | Some f =>
               match block_deserialize f with
               | Err _ => Err (ParseError KindBlock0)
               | Ok block =>
                   let got := header_hash (block_header block) in
                   match opt_block0_id with
                   | None => Ok block
                   | Some expected =>
                       if decide (got = expected) then Ok block else Err (Block0Mismatch expected got)
                   end
               end
           end
  | Hash block0_id =>
      match Storage.get block0_id s with
      | Err _ => None
      | Ok stored =>
          let storage_or_http_block0 :=
            match stored with
            | Some block0 => Some block0
            | None => fetch_block0_http w (http_fetch_block0_service settings) block0_id
            end in
          match storage_or_http_block0 with
          | Some block0 => Some (Ok block0)
          | None =>
              r ← NetBootstrap.fetch_block (network settings) (shuffled w)
                (λ a, NetBootstrap.fetch_from (get_blocks w a).1 (get_blocks w a).2 block0_id) block0_id;
              Some (map_err FetchBlock0 r)
          end
      end
  end.

(** ** The blockchain *)
Definition load_blockchain (now : Clock) (block0 : Block) (s : store) (cache_capacity : nat)
    (report_all : bool) : option (Blockchain * result Error Branch) :=
  let load : M Branch :=
    res ← attempt (load_from_block0 block0);
    match res with
    | Err Block0AlreadyInStorage => load_from_storage now block0
    | r => lift r
    end in
  '(chain, r) ← load (blockchain_new (header_hash (block_header block0)) s cache_capacity report_all);
  Some (chain, map_err BlockchainError r).

(** ** The node (lib.rs) *)

(** From the settings and the storage to block 0.  The error of
    [prepare_block_0] leaves after the stopper is removed; a stop request
    only reaches the preparation through the context. *)
Definition initialize_node (w : World) (settings : Settings) (s : store) : S Block :=
  match NetBootstrap.trusted_peers (network settings), NetBootstrap.skip_bootstrap (network settings) with
  | [], false => throw (from_bootstrap_error NetBootstrap.EmptyTrustedPeers)
  | _, _ =>
      modify_state (λ _, if rest settings || jrpc settings
                         then Some (set_node_state PreparingStorage context_new) else None);;
      with_context (set_node_state PreparingBlock0);;
      with_context (set_bootstrap_stopper Block0Token);;
      stopper ← gets (λ c, c ≫= bootstrap_stopper);
      match stopper, stop_requested w with
      | Some _, true => throw Interrupted
      | _, _ =>
          result ← expect (prepare_block_0 w settings s);
          with_context remove_bootstrap_stopper;;
          lift result
      end
  end.

Record BootstrapData := mkBootstrapData {
  updater : TipUpdater;
  block0_hash : HeaderHash;
  initial_peers : list Peer;
}.

(** [bootstrap_internal]; [None] as a result if the fuel ends first. *)
Definition bootstrap_internal (rounds fuel : nat) (w : World) (settings : Settings) (block0 : Block) (s : store)
    : S (option BootstrapData) :=
  with_context (set_node_state Bootstrapping);;
  let cache_capacity := Z.to_nat 102400 in
  '(chain, tip) ← expect (load_blockchain (clock w) block0 s cache_capacity (rewards_report_all settings));
  tip ← lift tip;
  with_context set_blockchain;;
  with_context (set_bootstrap_stopper ProcessToken);;
  '(node, network_res) ← expect (NetBootstrap.attempts address boxes rounds fuel (network settings) (attempt_env w) 0
    (mkTipUpdater (branch_ref tip) chain None None None));
  network_res ← lift (map_err from_bootstrap_error network_res);
  match network_res with
  | None => mret None
  | Some network_res =>
      with_context remove_bootstrap_stopper;;
      mret (Some (mkBootstrapData node (header_hash (block_header block0))
        (match network_res with Some res => NetBootstrap.initial_peers res | None => [] end)))
  end.

(** [start], up to the services. *)
Definition start (rounds fuel : nat) (w : World) (settings : Settings) (s : store)
    : S (option BootstrapData) :=
  block0 ← initialize_node w settings s;
  bootstrap_internal rounds fuel w settings block0 s.

(** ** What start-up guarantees *)
Context `{!ChainTypesLaws, !BlockStoreLaws, !LruLaws HeaderHash Ref, !MultiverseLaws}.

(** The hash of block 0 in the settings. *)
Definition configured (settings : Settings) : option HeaderHash :=
  match block_0 settings with Path _ expected => expected | Hash h => Some h end.

(** A block is stored under its hash. *)
Definition store_keyed (s : store) : Prop :=
  ∀ h b, Storage.get h s = Ok (Some b) → header_hash (block_header b) = h.

(** The header of a stored block, on the way from block 0: such blocks are not
    verified again. *)
Definition stored_header (B0 : Block) (s : store) (h : Header) : Prop :=
  ∃ head items b, Storage.stream_from_to (header_hash (block_header B0)) head s = Ok items ∧
                  Ok b ∈ items ∧ block_header b = h.

Lemma fetch_block0_http_hash w services h b :
  fetch_block0_http w services h = Some b → header_hash (block_header b) = h.
Proof.
  induction services as [|base services IH]; simpl; [done|].
  destruct (fetch_one w h _) as [b'|] eqn:Hf; [|done]. intros [= ->]. unfold fetch_one in Hf.
  destruct (http_get w _) as [[status [bytes|]]|]; simpl in Hf; [|by destruct (negb _)|done].
  destruct (negb _); [done|]. destruct (block_deserialize bytes); [|done]. case_decide; congruence.
Qed.

Lemma fetch_first_hash w h l b :
  NetBootstrap.first_block (λ a, NetBootstrap.fetch_from (get_blocks w a).1 (get_blocks w a).2 h) l = Some b →
  header_hash (block_header b) = h.
Proof.
  intros Hf. pose proof (NetBootstrap.first_block_spec
    (λ a, NetBootstrap.fetch_from (get_blocks w a).1 (get_blocks w a).2 h) l) as Hs.
  rewrite Hf in Hs. destruct Hs as (a & _ & Ha). unfold NetBootstrap.fetch_from in Ha.
  destruct (negb _); [done|]. destruct (get_blocks w a).2 as [[|[[b'|]|] ?]|]; simpl in Ha; try done.
  case_decide; congruence.
Qed.

(** The errors that [initialize_node] and [bootstrap_internal] end with. *)
Definition start_error (settings : Settings) (e : Error) : Prop :=
  match e with
  | Block0Mismatch expected got => configured settings = Some expected ∧ got ≠ expected
  | NetworkBootstrapError e => e ≠ NetBootstrap.Interrupted
  | _ => True
  end.

Lemma prepare_block_0_spec w settings s :
  store_keyed s →
  match prepare_block_0 w settings s with
  | Some (Ok b) => ∀ h, configured settings = Some h → header_hash (block_header b) = h
  | Some (Err e) => start_error settings e
  | None => True
  end.
Proof.
  intros Hk. unfold prepare_block_0, start_error, configured. destruct (block_0 settings) as [path expected|h].
  - destruct (file w path) as [f|]; [|done]. destruct (block_deserialize f) as [b|]; [|done].
    destruct expected as [h|]; [|done]. case_decide; [|by split]. intros h' [= <-]. done.
  - destruct (Storage.get h s) as [[b|]|] eqn:Hg; [|..|done].
    { intros h' [= <-]. by apply Hk. }
    destruct (fetch_block0_http w _ h) as [b|] eqn:Hf.
    { intros h' [= <-]. by eapply fetch_block0_http_hash. }
    unfold NetBootstrap.fetch_block. destruct (NetBootstrap.protocol _); simpl; [|done].
    destruct (NetBootstrap.trusted_peers _) as [|a l]; simpl; [done|].
    destruct (NetBootstrap.first_block _ _) as [b|] eqn:Hfb; simpl; [|done].
    intros h' [= <-]. by eapply fetch_first_hash.
Qed.

(** The first check of [load_from_block0] is the only one with this error. *)
Lemma load_from_block0_present b s s' :
  load_from_block0 b s = Some (s', Err Block0AlreadyInStorage) → s' = s.
Proof.
  unfold load_from_block0, query, mbind, prog_bind.
  destruct (Storage.block_exists _ _) as [[]|] eqn:Hex; simpl; [by intros [= <-]| |done].
  unfold apply_block0, create_and_store_reference, multiverse_insert, mbind, prog_bind, lift, map_error, map_err.
  destruct (block0_time_frame b); simpl; [|done].
  destruct (ledger_new _ _); simpl; [|done].
  destruct (mv_insert _ _ _ _). simpl. unfold update. simpl.
  destruct (Storage.put_block _ _); simpl; [|done]. by destruct (Storage.put_tag _ _ _).
Qed.

Lemma load_blockchain_safe now B0 s capacity report_all chain r :
  load_blockchain now B0 s capacity report_all = Some (chain, r) →
  ChainInv.cache_ok B0 report_all (stored_header B0 s) chain ∧
  match r with
  | Ok br => ChainInv.valid_ref B0 report_all (stored_header B0 s) (branch_ref br)
  | Err e => ∃ e', e = BlockchainError e'
  end.
Proof.
  unfold load_blockchain. set (new := blockchain_new _ s capacity report_all).
  assert (ChainInv.cache_ok B0 report_all (stored_header B0 s) new) as Hnew.
  { split; [done|]. simpl. rewrite lru_new_entries. set_solver. }
  unfold mbind at 2, prog_bind, attempt.
  pose proof (ChainInv.safe_load_from_block0 B0 report_all (stored_header B0 s) new Hnew) as H0s.
  destruct (load_from_block0 B0 new) as [[c1 [br|e]]|] eqn:Hl0; simpl; [| |done].
  - intros [= <- <-]. destruct H0s. by split.
  - assert (e = Block0AlreadyInStorage ∨ e ≠ Block0AlreadyInStorage) as [->|Hne] by (destruct e; auto).
    + apply load_from_block0_present in Hl0 as ->.
      pose proof (ChainInv.safe_load_from_storage B0 report_all (stored_header B0 s) now new Hnew) as Hst.
      specialize (Hst ltac:(intros head items Hi b Hb; by exists head, items, b) new eq_refl).
      destruct (load_from_storage now B0 new) as [[c2 [br|e]]|]; simpl; [..|done]; intros [= <- <-].
      * destruct Hst. by split.
      * split; [done|]. by eexists.
    + intros Heq. assert (chain = c1 ∧ r = Err (BlockchainError e)) as [-> ->] by (by destruct e; simplify_eq/=).
      split; [done|]. by eexists.
Qed.

(** What a node that is started knows. *)
Definition node_started (w : World) (settings : Settings) (s : store) (d : BootstrapData) : Prop :=
  ∃ B0, block0_hash d = header_hash (block_header B0) ∧
    (∀ h, configured settings = Some h → block0_hash d = h) ∧
    ChainInv.cache_ok B0 (rewards_report_all settings) (stored_header B0 s) (blockchain (updater d)) ∧
    ChainInv.valid_ref B0 (rewards_report_all settings) (stored_header B0 s) (tip (updater d)) ∧
    (NetBootstrap.skip_bootstrap (network settings) = true ∨
     is_Some (NetBootstrap.max_bootstrap_attempts (network settings)) ∨
     ∃ k p i header, NetBootstrap.remote_tip (NetBootstrap.remote (attempt_env w k).1 p) i = Some (Ok header) ∧
                     header_hash header = ref_hash (tip (updater d))).

Lemma initialize_node_spec w settings s :
  store_keyed s →
  match initialize_node w settings s None with
  | Some (c, Ok b) =>
      c = (if rest settings || jrpc settings then Some (mkContext PreparingBlock0 false None) else None) ∧
      ∀ h, configured settings = Some h → header_hash (block_header b) = h
  | Some (c, Err e) => start_error settings e
  | None => True
  end.
Proof.
  intros Hk. pose proof (prepare_block_0_spec w settings s Hk) as Hp. unfold initialize_node.
  destruct (NetBootstrap.trusted_peers _) as [|a l], (NetBootstrap.skip_bootstrap (network settings)); simpl; [|done|..];
    unfold mbind, prog_bind, expect, with_context, modify_state, gets, lift; simpl;
    destruct (rest settings || jrpc settings), (stop_requested w); simpl; try done;
    by destruct (prepare_block_0 w settings s) as [[b|e]|].
Qed.

Lemma bootstrap_internal_spec rounds fuel w settings B0 s c0 :
  match bootstrap_internal rounds fuel w settings B0 s c0 with
  | Some (c, Ok (Some d)) =>
      c = (λ _, mkContext Bootstrapping true None) <$> c0 ∧
      ((∀ h, configured settings = Some h → header_hash (block_header B0) = h) → node_started w settings s d)
  | Some (c, Err e) => start_error settings e
  | _ => True
  end.
Proof.
  unfold bootstrap_internal, mbind, prog_bind, with_context, modify_state, expect. cbn [fst snd].
  destruct (load_blockchain _ _ _ _ _) as [[chain [br|e]]|] eqn:Hl; [| |done];
    apply load_blockchain_safe in Hl as [Hc Hr]; unfold lift; cbn [fst snd];
    [|by destruct Hr as [e' ->]].
  destruct (NetBootstrap.attempts _ _ _ _ _ _ _ _) as [[node res]|] eqn:Ha; [|done]. cbn [fst snd].
  destruct (NetBootstrap.network_bootstrap_safe address boxes B0 (rewards_report_all settings) (stored_header B0 s)
    rounds fuel (network settings) (attempt_env w) (mkTipUpdater (branch_ref br) chain None None None)
    node res Hc Hr Ha) as (Hc' & Hv & _ & Hs).
  destruct res as [[res|]|e]; cbn; [|done|by destruct e].
  split; [by destruct c0|]. intros Hh. exists B0. split_and!; [done..|]. simpl.
  destruct res as [res|]; [|right; left; by eapply NetBootstrap.attempts_used_up].
  destruct (NetBootstrap.skip_bootstrap (network settings)) eqn:Hskip; [by left|right; right]. by apply (Hs res).
Qed.


(** A node that stops between the two writes of [load_from_block0], the block
    and its tag, cannot be started again. *)
Theorem untagged_block0_is_stuck now B0 s s1 capacity report_all :
  Storage.put_block B0 s = Ok s1 → Storage.get_tag MAIN_BRANCH_TAG s1 = Ok None →
  ∃ chain, load_blockchain now B0 s1 capacity report_all =
             Some (chain, Err (BlockchainError (NoTag MAIN_BRANCH_TAG))) ∧ storage chain = s1.
Proof.
  intros Hput Htag.
  assert (Storage.block_exists (header_hash (block_header B0)) s1 = Ok true) as Hex.
  { unfold Storage.put_block in Hput. unfold Storage.block_exists.
    destruct (bs_put_block _ _ _) as [s1'|] eqn:Hp; simplify_eq/=.
    apply bs_put_get in Hp as [_ Hp]. simpl in Hp. by rewrite Hp. }
  unfold load_blockchain. set (new := blockchain_new _ s1 capacity report_all).
  change s1 with (storage new) in Hex, Htag.
  assert (load_from_block0 B0 new = Some (new, Err Block0AlreadyInStorage)) as Hl0.
  { unfold load_from_block0, query, mbind, prog_bind. by rewrite Hex. }
  assert (load_from_storage now B0 new = Some (new, Err (NoTag MAIN_BRANCH_TAG))) as Hls.
  { unfold load_from_storage, query, mbind, prog_bind. rewrite Hex. cbn [map_err negb]. by rewrite Htag. }
  exists new. unfold attempt, mbind at 2, prog_bind. rewrite Hl0. simpl. by rewrite Hls.
Qed.

End start_up.
End StartUp.

(** ** Examples *)
Module SampleStartUp.
Import ListLru SampleFragments SampleStore SampleChain Reference Blockchain ChainInv ChainWitness
  ProcessWitness NetBootstrap SampleNetBootstrap StartUp.

(** Block 0 comes from the second HTTP service, and the chain from a peer. *)
Definition full : Remote :=
  mkRemote (Some true) (λ _, Some (Ok (block_header b13)))
    (λ _ _ _, Some (Ok ([Ok b11; Ok b12; Ok b13], false, time9000, 9000000000000%Z))).
Definition world : World (Peer := nat) (Address := nat) :=
  mkWorld (λ _, None) (λ _, "10"%string)
    (λ url, if decide (url = "b/10.block0"%string) then Some (200%Z, Some (block_serialize genesis)) else None)
    id (λ _, (false, None)) (λ _, (mkEnv false (λ _, Ok [1]) id id (λ _, full), false)) time9000 false.
Definition settings : Settings (Address := nat) :=
  mkSettings (Hash (hash 10)) ["a"%string; "b"%string] config false true false.

Lemma empty_keyed : store_keyed (store_of []).
Proof. intros h b Hg. discriminate Hg. Qed.

Abbreviation run := (StartUp.start id peer_boxes 3 3 world settings (store_of []) None).

Definition outcome : option (option Context * option HeaderHash * list nat) :=
  match run with
  | Some (c, Ok (Some d)) => Some (c, Some (ref_hash (Tip.tip (updater d))), StartUp.initial_peers d)
  | _ => None
  end.
Example start_up_outcome : outcome = Some (Some (mkContext Bootstrapping true None), Some (hash 13), [1]).
Proof. vm_compute. reflexivity. Qed.

Lemma start_up_ok : ∃ c d, run = Some (c, Ok (Some d)).
Proof.
  assert (match run with Some (_, Ok (Some _)) => true | _ => false end = true) as Ho by (vm_compute; reflexivity).
  destruct run as [[c [[d|]|e]]|]; try discriminate Ho. by exists c, d.
Qed.


(** A node that stopped before it wrote the tag of block 0. *)
Example untagged_stuck :
  match load_blockchain time9000 genesis (store_of [genesis]) 8 false with
  | Some (_, Err (BlockchainError (NoTag tag))) => tag = MAIN_BRANCH_TAG
  | _ => False
  end.
Proof. reflexivity. Qed.

(** A file with another block 0 is refused. *)
Example wrong_block0 :
  prepare_block_0 (Peer := nat) (mkWorld (λ _, Some (block_serialize b11)) (λ _, ""%string) (λ _, None) id (λ _, (false, None))
      (λ _, (mkEnv false (λ _, Ok []) id id (λ _, full), false)) time9000 false)
    (mkSettings (Path "block0.bin" (Some (hash 10))) [] config false true false) (store_of []) =
  Some (Err (Block0Mismatch (hash 10) (hash 11))).
Proof. reflexivity. Qed.
End SampleStartUp.
