(* ===== verification/Block0Config.v ===== *)
(** * The configuration of block 0

    Models [initial_config.rs] of
    [jormungandr-lib/src/interfaces/block0_configuration] with the types of its
    values: the configuration of a blockchain, the ranges its values are read
    with, and the conversions to and from the parameters of the chain library.
    Types that are only carried around (leaders, committees, keys) are
    parameters.  The initial fragments and block 0 as a whole are in [Block0]. *)

From S2P Require Import Prelude.

Module Block0Config.

(** ** Values with a range *)

(** default_values.rs *)
Definition DEFAULT_ACTIVE_SLOT_COEFFICIENT : Z := 100.
Definition MINIMUM_ACTIVE_SLOT_COEFFICIENT : Z := 1.
Definition MAXIMUM_ACTIVE_SLOT_COEFFICIENT : Z := 1000.
Definition DEFAULT_KES_SPEED_UPDATE : Z := 12 * 3600.
Definition MINIMUM_KES_SPEED_UPDATE_IN_SECONDS : Z := 60.
Definition MAXIMUM_KES_SPEED_UPDATE_IN_SECONDS : Z := 365 * 24 * 3600.
Definition DEFAULT_NUMBER_OF_SLOTS_PER_EPOCH : Z := 720.
Definition MINIMUM_NUMBER_OF_SLOTS_PER_EPOCH : Z := 1.
Definition MAXIMUM_NUMBER_OF_SLOTS_PER_EPOCH : Z := 1000000.
Definition DEFAULT_EPOCH_STABILITY_DEPTH : Z := 102400.
Definition DEFAULT_BLOCK_CONTENT_MAX_SIZE : Z := 102400.
Definition DEFAULT_SLOT_DURATION : Z := 5.
Definition MINIMUM_SLOT_DURATION : Z := 1.
Definition MAXIMUM_SLOT_DURATION : Z := 255.
Definition DEFAULT_PROPOSAL_EXPIRATION : Z := 100.

(** The value of each of these types is the number it wraps. *)
Definition checked (min max v : Z) : option Z := if (min <=? v)%Z && (v <=? max)%Z then Some v else None.
Definition active_slot_coefficient_new (milli : Z) : option Z :=
  if (milli <? MINIMUM_ACTIVE_SLOT_COEFFICIENT)%Z || (MAXIMUM_ACTIVE_SLOT_COEFFICIENT <? milli)%Z
  then None else Some milli.
Definition kes_update_speed_new : Z → option Z :=
  checked MINIMUM_KES_SPEED_UPDATE_IN_SECONDS MAXIMUM_KES_SPEED_UPDATE_IN_SECONDS.
Definition slots_per_epoch_new : Z → option Z :=
  checked MINIMUM_NUMBER_OF_SLOTS_PER_EPOCH MAXIMUM_NUMBER_OF_SLOTS_PER_EPOCH.
Definition slot_duration_new : Z → option Z := checked MINIMUM_SLOT_DURATION MAXIMUM_SLOT_DURATION.

(** The visitors of the values in a file.  A number is read as [u64] and cast
    to the width of the type; a duration is the seconds and nanoseconds of a
    readable text; a coefficient is its text in thousandths, and as a whole
    number it can only be one. *)
Definition slots_per_epoch_visit_u64 (v : Z) : option Z :=
  if (v <? MINIMUM_NUMBER_OF_SLOTS_PER_EPOCH)%Z then None
  else if (MAXIMUM_NUMBER_OF_SLOTS_PER_EPOCH <? v)%Z then None else Some (wrap32 v).
Definition slot_duration_visit_u64 (v : Z) : option Z :=
  if (v <? MINIMUM_SLOT_DURATION)%Z then None
  else if (MAXIMUM_SLOT_DURATION <? v)%Z then None else Some (v mod 256)%Z.
Definition slot_duration_visit_str (duration : option (Z * Z)) : option Z :=
  '(secs, nanos) ← duration;
  if negb (nanos =? 0)%Z then None else slot_duration_visit_u64 secs.
Definition kes_update_speed_visit_u64 (v : Z) : option Z :=
  if (v <? MINIMUM_KES_SPEED_UPDATE_IN_SECONDS)%Z then None
  else if (MAXIMUM_KES_SPEED_UPDATE_IN_SECONDS <? v)%Z then None else Some (wrap32 v).
Definition kes_update_speed_visit_str (duration : option (Z * Z)) : option Z :=
  '(secs, nanos) ← duration;
  if negb (nanos =? 0)%Z then None else kes_update_speed_visit_u64 secs.
Definition active_slot_coefficient_visit_u64 (v : Z) : option Z := if (v =? 1)%Z then Some 1000%Z else None.
Definition active_slot_coefficient_visit_str (milli : option Z) : option Z :=
  milli ← milli;
  if (milli <? MINIMUM_ACTIVE_SLOT_COEFFICIENT)%Z then None
  else if (MAXIMUM_ACTIVE_SLOT_COEFFICIENT <? milli)%Z then None else Some milli.

(** A value that is read from a file is one that [new] accepts: the casts do
    not change it. *)
Lemma slots_per_epoch_visit v : slots_per_epoch_visit_u64 v = slots_per_epoch_new v.
Proof.
  unfold slots_per_epoch_visit_u64, slots_per_epoch_new, checked, MINIMUM_NUMBER_OF_SLOTS_PER_EPOCH,
    MAXIMUM_NUMBER_OF_SLOTS_PER_EPOCH, wrap32, U32.
  repeat case_match; try done; try lia. f_equal. apply Z.mod_small. lia.
Qed.
Lemma slot_duration_visit v : slot_duration_visit_u64 v = slot_duration_new v.
Proof.
  unfold slot_duration_visit_u64, slot_duration_new, checked, MINIMUM_SLOT_DURATION, MAXIMUM_SLOT_DURATION.
  repeat case_match; try done; try lia. f_equal. apply Z.mod_small. lia.
Qed.
Lemma kes_update_speed_visit v : kes_update_speed_visit_u64 v = kes_update_speed_new v.
Proof.
  unfold kes_update_speed_visit_u64, kes_update_speed_new, checked, MINIMUM_KES_SPEED_UPDATE_IN_SECONDS,
    MAXIMUM_KES_SPEED_UPDATE_IN_SECONDS, wrap32, U32.
  repeat case_match; try done; try lia. f_equal. apply Z.mod_small. lia.
Qed.
Lemma active_slot_coefficient_visit m :
  active_slot_coefficient_visit_str (Some m) = active_slot_coefficient_new m ∧
  (∀ v w, active_slot_coefficient_visit_u64 v = Some w → active_slot_coefficient_new w = Some w).
Proof.
  split; [|by unfold active_slot_coefficient_visit_u64; intros v w; case_match; [intros [= <-]|]].
  cbn. unfold active_slot_coefficient_new. by destruct (_ <? _)%Z, (_ <? _)%Z.
Qed.

Inductive FeesGoTo := Rewards | Treasury.
#[export] Instance fees_go_to_eq : EqDecision FeesGoTo.
Proof. solve_decision. Defined.
Definition fees_go_to_display (f : FeesGoTo) : string :=
  match f with Rewards => "rewards" | Treasury => "treasury" end.
Definition fees_go_to_from_str (s : string) : option FeesGoTo :=
  if decide (s = "rewards"%string) then Some Rewards
  else if decide (s = "treasury"%string) then Some Treasury else None.

Definition fees_go_to_from_param (to_treasury : bool) : FeesGoTo := if to_treasury then Treasury else Rewards.
Definition fees_go_to_to_param (f : FeesGoTo) : bool := match f with Treasury => true | Rewards => false end.

(** ** The types of the chain library, and those of the interface *)
Inductive Discrimination := Test | Production.
Inductive ConsensusVersion := Bft | GenesisPraos.
Record Ratio := mkRatio { numerator : Z; denominator : Z }.
Record PerCertificateFee := mkPerCertificateFee {
  certificate_pool_registration : option Z;
  certificate_stake_delegation : option Z;
  certificate_owner_stake_delegation : option Z;
}.
Record PerVoteCertificateFee := mkPerVoteCertificateFee {
  certificate_vote_plan : option Z;
  certificate_vote_cast : option Z;
}.
Record LinearFee := mkLinearFee {
  constant : Z;
  coefficient : Z;
  certificate : Z;
  per_certificate_fees : PerCertificateFee;
  per_vote_certificate_fees : PerVoteCertificateFee;
}.

(** [rewards::TaxType] and [config::RewardParams] *)
Record TaxTypeStd := mkTaxTypeStd { std_fixed : Z; std_ratio : Ratio; std_max_limit : option Z }.
Inductive RewardParamsStd :=
| StdLinear (constant : Z) (ratio : Ratio) (epoch_start epoch_rate : Z)
| StdHalving (constant : Z) (ratio : Ratio) (epoch_start epoch_rate : Z).
Inductive EvmConfigStd := StdFrontier | StdIstanbul | StdBerlin | StdLondon.
Record EvmEnvSettingsStd := mkEvmEnvStd { std_gas_price : Z; std_block_gas_limit : Z }.

Record TaxType := mkTaxType { fixed : Z; ratio : Ratio; max_limit : option Z }.
Inductive RewardParams :=
| Linear (constant : Z) (ratio : Ratio) (epoch_start epoch_rate : Z)
| Halving (constant : Z) (ratio : Ratio) (epoch_start epoch_rate : Z).
Inductive EvmConfig := Frontier | Istanbul | Berlin | London.
Record EvmEnvSettings := mkEvmEnv { gas_price : Z; block_gas_limit : Z }.
Record PoolParticipationCapping := mkCapping { capping_min : Z; capping_max : Z }.
Record RewardConstraints := mkConstraints {
  reward_drawing_limit_max : option Ratio;
  pool_participation_capping : option PoolParticipationCapping;
}.

Definition tax_to_std (t : TaxType) : TaxTypeStd := mkTaxTypeStd (fixed t) (ratio t) (max_limit t).
Definition tax_from_std (t : TaxTypeStd) : TaxType := mkTaxType (std_fixed t) (std_ratio t) (std_max_limit t).
Definition reward_params_to_std (r : RewardParams) : RewardParamsStd :=
  match r with Linear c q s e => StdLinear c q s e | Halving c q s e => StdHalving c q s e end.
Definition reward_params_from_std (r : RewardParamsStd) : RewardParams :=
  match r with StdLinear c q s e => Linear c q s e | StdHalving c q s e => Halving c q s e end.
Definition evm_config_to_std (e : EvmConfig) : EvmConfigStd :=
  match e with Frontier => StdFrontier | Istanbul => StdIstanbul | Berlin => StdBerlin | London => StdLondon end.
Definition evm_config_from_std (e : EvmConfigStd) : EvmConfig :=
  match e with StdFrontier => Frontier | StdIstanbul => Istanbul | StdBerlin => Berlin | StdLondon => London end.
Definition evm_env_to_std (e : EvmEnvSettings) : EvmEnvSettingsStd := mkEvmEnvStd (gas_price e) (block_gas_limit e).
Definition evm_env_from_std (e : EvmEnvSettingsStd) : EvmEnvSettings := mkEvmEnv (std_gas_price e) (std_block_gas_limit e).

(** linear_fee.rs *)
Definition per_certificate_fee_is_zero (f : PerCertificateFee) : bool :=
  match certificate_stake_delegation f, certificate_owner_stake_delegation f, certificate_pool_registration f with
  | None, None, None => true
  | _, _, _ => false
  end.
Definition per_vote_certificate_fee_is_zero (f : PerVoteCertificateFee) : bool :=
  match certificate_vote_plan f, certificate_vote_cast f with None, None => true | _, _ => false end.

Section config.
Context {LeaderId CommitteeId : Type}.

(** [chain_impl_mockchain::config::ConfigParam] *)
Inductive ConfigParam :=
| Block0Date (d : Z)
| ConsensusVersionP (v : ConsensusVersion)
| DiscriminationP (d : Discrimination)
| SlotsPerEpoch (n : Z)
| SlotDuration (n : Z)
| AddBftLeader (l : LeaderId)
| RemoveBftLeader (l : LeaderId)
| ConsensusGenesisPraosActiveSlotsCoeff (m : Z)
| LinearFeeP (f : LinearFee)
| KesUpdateSpeed (n : Z)
| FeesInTreasury (b : bool)
| ProposalExpiration (n : Z)
| BlockContentMaxSize (n : Z)
| EpochStabilityDepth (n : Z)
| TreasuryAdd (v : Z)
| TreasuryParams (t : TaxTypeStd)
| RewardPot (v : Z)
| RewardParamsP (r : RewardParamsStd)
| RewardLimitNone
| RewardLimitByAbsoluteStake (r : Ratio)
| PoolRewardParticipationCapping (min max : Z)
| PerCertificateFees (f : PerCertificateFee)
| PerVoteCertificateFees (f : PerVoteCertificateFee)
| AddCommitteeId (c : CommitteeId)
| RemoveCommitteeId (c : CommitteeId)
| TransactionMaxExpiryEpochs (n : Z)
| EvmConfiguration (e : EvmConfigStd)
| EvmEnvironment (e : EvmEnvSettingsStd).

Record BlockchainConfiguration := mkConfiguration {
  block0_date : Z;
  discrimination : Discrimination;
  block0_consensus : ConsensusVersion;
  consensus_leader_ids : list LeaderId;
  linear_fees : LinearFee;
  proposal_expiration : Z;
  slots_per_epoch : Z;
  slot_duration : Z;
  kes_update_speed : Z;
  consensus_genesis_praos_active_slot_coeff : Z;
  block_content_max_size : Z;
  epoch_stability_depth : Z;
  tx_max_expiry_epochs : option Z;
  fees_go_to : option FeesGoTo;
  treasury : option Z;
  treasury_parameters : option TaxType;
  total_reward_supply : option Z;
  reward_parameters : option RewardParams;
  reward_constraints : RewardConstraints;
  committees : list CommitteeId;
  evm_configs : option EvmConfig;
  evm_env_settings : option EvmEnvSettings;
}.

(** [BlockchainConfiguration::new]; the date is the time of the call. *)
Definition configuration_new (now : Z) (d : Discrimination) (consensus : ConsensusVersion) (fees : LinearFee)
    : BlockchainConfiguration :=
  mkConfiguration now d consensus [] fees DEFAULT_PROPOSAL_EXPIRATION DEFAULT_NUMBER_OF_SLOTS_PER_EPOCH
    DEFAULT_SLOT_DURATION DEFAULT_KES_SPEED_UPDATE DEFAULT_ACTIVE_SLOT_COEFFICIENT DEFAULT_BLOCK_CONTENT_MAX_SIZE
    DEFAULT_EPOCH_STABILITY_DEPTH None None None None None None (mkConstraints None None) [] None None.

Inductive FromConfigParamsError :=
| InitConfigParamMissing (name : string)
| InitConfigParamDuplicate (name : string)
| NumberOfSlotsPerEpochErr (slots : Z)
| SlotDurationErr (duration : Z)
| ActiveSlotCoefficientErr (coefficient : Z)
| KesUpdateSpeedErr (speed : Z).

(** The local variables of [from_config_params]. *)
Record Acc := mkAcc {
  a_block0_date : option Z;
  a_discrimination : option Discrimination;
  a_block0_consensus : option ConsensusVersion;
  a_slots_per_epoch : option Z;
  a_slot_duration : option Z;
  a_epoch_stability_depth : option Z;
  a_consensus_leader_ids : list LeaderId;
  a_active_slot_coeff : option Z;
  a_block_content_max_size : option Z;
  a_linear_fees : option LinearFee;
  a_proposal_expiration : option Z;
  a_kes_update_speed : option Z;
  a_treasury : option Z;
  a_treasury_parameters : option TaxType;
  a_total_reward_supply : option Z;
  a_reward_parameters : option RewardParams;
  a_per_certificate_fees : option PerCertificateFee;
  a_per_vote_certificate_fees : option PerVoteCertificateFee;
  a_fees_go_to : option FeesGoTo;
  a_reward_drawing_limit_max : option Ratio;
  a_pool_participation_capping : option PoolParticipationCapping;
  a_committees : list CommitteeId;
  a_tx_max_expiry_epochs : option Z;
  a_evm_configs : option EvmConfig;
  a_evm_env_settings : option EvmEnvSettings;
}.
Definition acc_init : Acc :=
  mkAcc None None None None None None [] None None None None None None None None None None None None None None [] None None None.

Definition set_block0_date (x : option Z) (a : Acc) : Acc :=
  match a with mkAcc _ v1 v2 v3 v4 v5 v6 v7 v8 v9 v10 v11 v12 v13 v14 v15 v16 v17 v18 v19 v20 v21 v22 v23 v24 =>
    mkAcc x v1 v2 v3 v4 v5 v6 v7 v8 v9 v10 v11 v12 v13 v14 v15 v16 v17 v18 v19 v20 v21 v22 v23 v24 end.
Definition set_discrimination (x : option Discrimination) (a : Acc) : Acc :=
  match a with mkAcc v0 _ v2 v3 v4 v5 v6 v7 v8 v9 v10 v11 v12 v13 v14 v15 v16 v17 v18 v19 v20 v21 v22 v23 v24 =>
    mkAcc v0 x v2 v3 v4 v5 v6 v7 v8 v9 v10 v11 v12 v13 v14 v15 v16 v17 v18 v19 v20 v21 v22 v23 v24 end.
Definition set_block0_consensus (x : option ConsensusVersion) (a : Acc) : Acc :=
  match a with mkAcc v0 v1 _ v3 v4 v5 v6 v7 v8 v9 v10 v11 v12 v13 v14 v15 v16 v17 v18 v19 v20 v21 v22 v23 v24 =>
    mkAcc v0 v1 x v3 v4 v5 v6 v7 v8 v9 v10 v11 v12 v13 v14 v15 v16 v17 v18 v19 v20 v21 v22 v23 v24 end.
Definition set_slots_per_epoch (x : option Z) (a : Acc) : Acc :=
  match a with mkAcc v0 v1 v2 _ v4 v5 v6 v7 v8 v9 v10 v11 v12 v13 v14 v15 v16 v17 v18 v19 v20 v21 v22 v23 v24 =>
    mkAcc v0 v1 v2 x v4 v5 v6 v7 v8 v9 v10 v11 v12 v13 v14 v15 v16 v17 v18 v19 v20 v21 v22 v23 v24 end.
Definition set_slot_duration (x : option Z) (a : Acc) : Acc :=
  match a with mkAcc v0 v1 v2 v3 _ v5 v6 v7 v8 v9 v10 v11 v12 v13 v14 v15 v16 v17 v18 v19 v20 v21 v22 v23 v24 =>
    mkAcc v0 v1 v2 v3 x v5 v6 v7 v8 v9 v10 v11 v12 v13 v14 v15 v16 v17 v18 v19 v20 v21 v22 v23 v24 end.
Definition set_epoch_stability_depth (x : option Z) (a : Acc) : Acc :=
  match a with mkAcc v0 v1 v2 v3 v4 _ v6 v7 v8 v9 v10 v11 v12 v13 v14 v15 v16 v17 v18 v19 v20 v21 v22 v23 v24 =>
    mkAcc v0 v1 v2 v3 v4 x v6 v7 v8 v9 v10 v11 v12 v13 v14 v15 v16 v17 v18 v19 v20 v21 v22 v23 v24 end.
Definition set_consensus_leader_ids (x : list LeaderId) (a : Acc) : Acc :=
  match a with mkAcc v0 v1 v2 v3 v4 v5 _ v7 v8 v9 v10 v11 v12 v13 v14 v15 v16 v17 v18 v19 v20 v21 v22 v23 v24 =>
    mkAcc v0 v1 v2 v3 v4 v5 x v7 v8 v9 v10 v11 v12 v13 v14 v15 v16 v17 v18 v19 v20 v21 v22 v23 v24 end.
Definition set_active_slot_coeff (x : option Z) (a : Acc) : Acc :=
  match a with mkAcc v0 v1 v2 v3 v4 v5 v6 _ v8 v9 v10 v11 v12 v13 v14 v15 v16 v17 v18 v19 v20 v21 v22 v23 v24 =>
    mkAcc v0 v1 v2 v3 v4 v5 v6 x v8 v9 v10 v11 v12 v13 v14 v15 v16 v17 v18 v19 v20 v21 v22 v23 v24 end.
Definition set_block_content_max_size (x : option Z) (a : Acc) : Acc :=
  match a with mkAcc v0 v1 v2 v3 v4 v5 v6 v7 _ v9 v10 v11 v12 v13 v14 v15 v16 v17 v18 v19 v20 v21 v22 v23 v24 =>
    mkAcc v0 v1 v2 v3 v4 v5 v6 v7 x v9 v10 v11 v12 v13 v14 v15 v16 v17 v18 v19 v20 v21 v22 v23 v24 end.
Definition set_linear_fees (x : option LinearFee) (a : Acc) : Acc :=
  match a with mkAcc v0 v1 v2 v3 v4 v5 v6 v7 v8 _ v10 v11 v12 v13 v14 v15 v16 v17 v18 v19 v20 v21 v22 v23 v24 =>
    mkAcc v0 v1 v2 v3 v4 v5 v6 v7 v8 x v10 v11 v12 v13 v14 v15 v16 v17 v18 v19 v20 v21 v22 v23 v24 end.
Definition set_proposal_expiration (x : option Z) (a : Acc) : Acc :=
  match a with mkAcc v0 v1 v2 v3 v4 v5 v6 v7 v8 v9 _ v11 v12 v13 v14 v15 v16 v17 v18 v19 v20 v21 v22 v23 v24 =>
    mkAcc v0 v1 v2 v3 v4 v5 v6 v7 v8 v9 x v11 v12 v13 v14 v15 v16 v17 v18 v19 v20 v21 v22 v23 v24 end.
Definition set_kes_update_speed (x : option Z) (a : Acc) : Acc :=
  match a with mkAcc v0 v1 v2 v3 v4 v5 v6 v7 v8 v9 v10 _ v12 v13 v14 v15 v16 v17 v18 v19 v20 v21 v22 v23 v24 =>
    mkAcc v0 v1 v2 v3 v4 v5 v6 v7 v8 v9 v10 x v12 v13 v14 v15 v16 v17 v18 v19 v20 v21 v22 v23 v24 end.
Definition set_treasury (x : option Z) (a : Acc) : Acc :=
  match a with mkAcc v0 v1 v2 v3 v4 v5 v6 v7 v8 v9 v10 v11 _ v13 v14 v15 v16 v17 v18 v19 v20 v21 v22 v23 v24 =>
    mkAcc v0 v1 v2 v3 v4 v5 v6 v7 v8 v9 v10 v11 x v13 v14 v15 v16 v17 v18 v19 v20 v21 v22 v23 v24 end.
Definition set_treasury_parameters (x : option TaxType) (a : Acc) : Acc :=
  match a with mkAcc v0 v1 v2 v3 v4 v5 v6 v7 v8 v9 v10 v11 v12 _ v14 v15 v16 v17 v18 v19 v20 v21 v22 v23 v24 =>
    mkAcc v0 v1 v2 v3 v4 v5 v6 v7 v8 v9 v10 v11 v12 x v14 v15 v16 v17 v18 v19 v20 v21 v22 v23 v24 end.
Definition set_total_reward_supply (x : option Z) (a : Acc) : Acc :=
  match a with mkAcc v0 v1 v2 v3 v4 v5 v6 v7 v8 v9 v10 v11 v12 v13 _ v15 v16 v17 v18 v19 v20 v21 v22 v23 v24 =>
    mkAcc v0 v1 v2 v3 v4 v5 v6 v7 v8 v9 v10 v11 v12 v13 x v15 v16 v17 v18 v19 v20 v21 v22 v23 v24 end.
Definition set_reward_parameters (x : option RewardParams) (a : Acc) : Acc :=
  match a with mkAcc v0 v1 v2 v3 v4 v5 v6 v7 v8 v9 v10 v11 v12 v13 v14 _ v16 v17 v18 v19 v20 v21 v22 v23 v24 =>
    mkAcc v0 v1 v2 v3 v4 v5 v6 v7 v8 v9 v10 v11 v12 v13 v14 x v16 v17 v18 v19 v20 v21 v22 v23 v24 end.
Definition set_per_certificate_fees (x : option PerCertificateFee) (a : Acc) : Acc :=
  match a with mkAcc v0 v1 v2 v3 v4 v5 v6 v7 v8 v9 v10 v11 v12 v13 v14 v15 _ v17 v18 v19 v20 v21 v22 v23 v24 =>
    mkAcc v0 v1 v2 v3 v4 v5 v6 v7 v8 v9 v10 v11 v12 v13 v14 v15 x v17 v18 v19 v20 v21 v22 v23 v24 end.
Definition set_per_vote_certificate_fees (x : option PerVoteCertificateFee) (a : Acc) : Acc :=
  match a with mkAcc v0 v1 v2 v3 v4 v5 v6 v7 v8 v9 v10 v11 v12 v13 v14 v15 v16 _ v18 v19 v20 v21 v22 v23 v24 =>
    mkAcc v0 v1 v2 v3 v4 v5 v6 v7 v8 v9 v10 v11 v12 v13 v14 v15 v16 x v18 v19 v20 v21 v22 v23 v24 end.
Definition set_fees_go_to (x : option FeesGoTo) (a : Acc) : Acc :=
  match a with mkAcc v0 v1 v2 v3 v4 v5 v6 v7 v8 v9 v10 v11 v12 v13 v14 v15 v16 v17 _ v19 v20 v21 v22 v23 v24 =>
    mkAcc v0 v1 v2 v3 v4 v5 v6 v7 v8 v9 v10 v11 v12 v13 v14 v15 v16 v17 x v19 v20 v21 v22 v23 v24 end.
Definition set_reward_drawing_limit_max (x : option Ratio) (a : Acc) : Acc :=
  match a with mkAcc v0 v1 v2 v3 v4 v5 v6 v7 v8 v9 v10 v11 v12 v13 v14 v15 v16 v17 v18 _ v20 v21 v22 v23 v24 =>
    mkAcc v0 v1 v2 v3 v4 v5 v6 v7 v8 v9 v10 v11 v12 v13 v14 v15 v16 v17 v18 x v20 v21 v22 v23 v24 end.
Definition set_pool_participation_capping (x : option PoolParticipationCapping) (a : Acc) : Acc :=
  match a with mkAcc v0 v1 v2 v3 v4 v5 v6 v7 v8 v9 v10 v11 v12 v13 v14 v15 v16 v17 v18 v19 _ v21 v22 v23 v24 =>
    mkAcc v0 v1 v2 v3 v4 v5 v6 v7 v8 v9 v10 v11 v12 v13 v14 v15 v16 v17 v18 v19 x v21 v22 v23 v24 end.
Definition set_committees (x : list CommitteeId) (a : Acc) : Acc :=
  match a with mkAcc v0 v1 v2 v3 v4 v5 v6 v7 v8 v9 v10 v11 v12 v13 v14 v15 v16 v17 v18 v19 v20 _ v22 v23 v24 =>
    mkAcc v0 v1 v2 v3 v4 v5 v6 v7 v8 v9 v10 v11 v12 v13 v14 v15 v16 v17 v18 v19 v20 x v22 v23 v24 end.
Definition set_tx_max_expiry_epochs (x : option Z) (a : Acc) : Acc :=
  match a with mkAcc v0 v1 v2 v3 v4 v5 v6 v7 v8 v9 v10 v11 v12 v13 v14 v15 v16 v17 v18 v19 v20 v21 _ v23 v24 =>
    mkAcc v0 v1 v2 v3 v4 v5 v6 v7 v8 v9 v10 v11 v12 v13 v14 v15 v16 v17 v18 v19 v20 v21 x v23 v24 end.
Definition set_evm_configs (x : option EvmConfig) (a : Acc) : Acc :=
  match a with mkAcc v0 v1 v2 v3 v4 v5 v6 v7 v8 v9 v10 v11 v12 v13 v14 v15 v16 v17 v18 v19 v20 v21 v22 _ v24 =>
    mkAcc v0 v1 v2 v3 v4 v5 v6 v7 v8 v9 v10 v11 v12 v13 v14 v15 v16 v17 v18 v19 v20 v21 v22 x v24 end.
Definition set_evm_env_settings (x : option EvmEnvSettings) (a : Acc) : Acc :=
  match a with mkAcc v0 v1 v2 v3 v4 v5 v6 v7 v8 v9 v10 v11 v12 v13 v14 v15 v16 v17 v18 v19 v20 v21 v22 v23 _ =>
    mkAcc v0 v1 v2 v3 v4 v5 v6 v7 v8 v9 v10 v11 v12 v13 v14 v15 v16 v17 v18 v19 v20 v21 v22 v23 x end.

(** [replace(..).map(|_| name)], and the error if the variable was set. *)
Definition replace {A} (get : Acc → option A) (set : option A → Acc → Acc) (name : string) (v : A) (a : Acc)
    : result FromConfigParamsError Acc :=
  match get a with
  | Some _ => Err (InitConfigParamDuplicate name)
  | None => Ok (set (Some v) a)
  end.
(** [replace(cp.try_into()?)]: the value is converted before the variable is looked at. *)
Definition replace_checked {A} (conv : option A) (err : FromConfigParamsError)
    (get : Acc → option A) (set : option A → Acc → Acc) (name : string) (a : Acc)
    : result FromConfigParamsError Acc :=
  match conv with
  | Some v => replace get set name v a
  | None => Err err
  end.

(** The body of the loop over the parameters; [None] is a panic. *)
Definition add_param (p : ConfigParam) (a : Acc) : option (result FromConfigParamsError Acc) :=
  match p with
  | Block0Date d => Some (replace a_block0_date set_block0_date "block0_date" d a)
  | ConsensusVersionP v => Some (replace a_block0_consensus set_block0_consensus "block0_consensus" v a)
  | DiscriminationP d => Some (replace a_discrimination set_discrimination "discrimination" d a)
  | SlotsPerEpoch n =>
      Some (replace_checked (slots_per_epoch_new n) (NumberOfSlotsPerEpochErr n)
              a_slots_per_epoch set_slots_per_epoch "slots_per_epoch" a)
  | SlotDuration n =>
      Some (replace_checked (slot_duration_new n) (SlotDurationErr n)
              a_slot_duration set_slot_duration "slot_duration" a)
  | AddBftLeader l => Some (Ok (set_consensus_leader_ids (a_consensus_leader_ids a ++ [l]) a))
  | ConsensusGenesisPraosActiveSlotsCoeff m =>
      Some (replace_checked (active_slot_coefficient_new m) (ActiveSlotCoefficientErr m)
              a_active_slot_coeff set_active_slot_coeff "consensus_genesis_praos_active_slot_coeff" a)
  | LinearFeeP f => Some (replace a_linear_fees set_linear_fees "linear_fees" f a)
  | KesUpdateSpeed n =>
      Some (replace_checked (kes_update_speed_new n) (KesUpdateSpeedErr n)
              a_kes_update_speed set_kes_update_speed "kes_update_speed" a)
  | FeesInTreasury b => Some (replace a_fees_go_to set_fees_go_to "fees_go_to" (fees_go_to_from_param b) a)
  | RemoveBftLeader _ => None
  | ProposalExpiration n => Some (replace a_proposal_expiration set_proposal_expiration "proposal_expiration" n a)
  | BlockContentMaxSize n =>
      Some (replace a_block_content_max_size set_block_content_max_size "block_content_max_size" n a)
  | EpochStabilityDepth n =>
      Some (replace a_epoch_stability_depth set_epoch_stability_depth "epoch_stability_depth" n a)
  | TreasuryAdd v => Some (replace a_treasury set_treasury "treasury" v a)
  | TreasuryParams t =>
      Some (replace a_treasury_parameters set_treasury_parameters "treasury_parameters" (tax_from_std t) a)
  | RewardPot v => Some (replace a_total_reward_supply set_total_reward_supply "total_reward_supply" v a)
  | RewardParamsP r =>
      Some (replace a_reward_parameters set_reward_parameters "reward_parameters" (reward_params_from_std r) a)
  | RewardLimitNone => None
  | RewardLimitByAbsoluteStake r =>
      Some (replace a_reward_drawing_limit_max set_reward_drawing_limit_max
              "reward_constraints.reward_drawing_limit_max" r a)
  | PoolRewardParticipationCapping min max =>
      Some (replace a_pool_participation_capping set_pool_participation_capping
              "reward_constraints.pool_participation_capping" (mkCapping min max) a)
  | PerCertificateFees f => Some (replace a_per_certificate_fees set_per_certificate_fees "per_certificate_fees" f a)
  | PerVoteCertificateFees f =>
      Some (replace a_per_vote_certificate_fees set_per_vote_certificate_fees "per_vote_certificate_fees" f a)
  | AddCommitteeId c => Some (Ok (set_committees (a_committees a ++ [c]) a))
  | RemoveCommitteeId _ => None
  | TransactionMaxExpiryEpochs n =>
      Some (replace a_tx_max_expiry_epochs set_tx_max_expiry_epochs "tx_max_expiry_epochs" n a)
  | EvmConfiguration e => Some (replace a_evm_configs set_evm_configs "evm_params" (evm_config_from_std e) a)
  | EvmEnvironment e =>
      Some (replace a_evm_env_settings set_evm_env_settings "evm_evn_settings" (evm_env_from_std e) a)
  end.

(** The loop *)
Fixpoint add_params (ps : list ConfigParam) (a : Acc) : option (result FromConfigParamsError Acc) :=
  match ps with
  | [] => Some (Ok a)
  | p :: ps' =>
      match add_param p a with
      | Some (Ok a') => add_params ps' a'
      | r => r
      end
  end.

(** The fees after the loop *)
Definition merge_fees (a : Acc) : option LinearFee :=
  match a_linear_fees a with
  | Some f =>
      let f := match a_per_certificate_fees a with
               | Some c => mkLinearFee (constant f) (coefficient f) (certificate f) c (per_vote_certificate_fees f)
               | None => f
               end in
      Some (match a_per_vote_certificate_fees a with
            | Some v => mkLinearFee (constant f) (coefficient f) (certificate f) (per_certificate_fees f) v
            | None => f
            end)
  | None => None
  end.

Definition ok_or_missing {A} (name : string) (o : option A) : result FromConfigParamsError A :=
  match o with Some v => Ok v | None => Err (InitConfigParamMissing name) end.

(** The construction of the configuration; the fields are evaluated in the
    order of the source. *)
Definition assemble (a : Acc) : result FromConfigParamsError BlockchainConfiguration :=
  let? date := ok_or_missing "block0_date" (a_block0_date a) in
  let? d := ok_or_missing "discrimination" (a_discrimination a) in
  let? consensus := ok_or_missing "block0_consensus" (a_block0_consensus a) in
  let? spe := ok_or_missing "slots_per_epoch" (a_slots_per_epoch a) in
  let? sd := ok_or_missing "slot_duration" (a_slot_duration a) in
  let? coeff := ok_or_missing "consensus_genesis_praos_active_slot_coeff" (a_active_slot_coeff a) in
  let? fees := ok_or_missing "linear_fees" (merge_fees a) in
  let? pe := ok_or_missing "proposal_expiration" (a_proposal_expiration a) in
  let? kes := ok_or_missing "kes_update_speed" (a_kes_update_speed a) in
  let? esd := ok_or_missing "epoch_stability_depth" (a_epoch_stability_depth a) in
  let? size := ok_or_missing "block_content_max_size" (a_block_content_max_size a) in
  Ok (mkConfiguration date d consensus (a_consensus_leader_ids a) fees pe spe sd kes coeff size esd
          (a_tx_max_expiry_epochs a) (a_fees_go_to a) (a_treasury a) (a_treasury_parameters a)
          (a_total_reward_supply a) (a_reward_parameters a)
          (mkConstraints (a_reward_drawing_limit_max a) (a_pool_participation_capping a))
          (a_committees a) (a_evm_configs a) (a_evm_env_settings a)).

Definition from_config_params (ps : list ConfigParam) : option (result FromConfigParamsError BlockchainConfiguration) :=
  match add_params ps acc_init with
  | Some (Ok a) => Some (assemble a)
  | Some (Err e) => Some (Err e)
  | None => None
  end.

(** [if let Some(v) = o { params.push(f(v)) }] *)
Definition push_opt {A} (f : A → ConfigParam) (o : option A) : list ConfigParam :=
  match o with Some v => [f v] | None => [] end.

Definition into_config_params (c : BlockchainConfiguration) : list ConfigParam :=
  [ Block0Date (block0_date c);
    DiscriminationP (discrimination c);
    ConsensusVersionP (block0_consensus c);
    LinearFeeP (linear_fees c);
    SlotsPerEpoch (slots_per_epoch c);
    SlotDuration (slot_duration c);
    KesUpdateSpeed (kes_update_speed c);
    ConsensusGenesisPraosActiveSlotsCoeff (consensus_genesis_praos_active_slot_coeff c);
    BlockContentMaxSize (block_content_max_size c);
    EpochStabilityDepth (epoch_stability_depth c);
    ProposalExpiration (proposal_expiration c) ] ++
  push_opt (λ f, FeesInTreasury (fees_go_to_to_param f)) (fees_go_to c) ++
  (if negb (per_certificate_fee_is_zero (per_certificate_fees (linear_fees c)))
   then [PerCertificateFees (per_certificate_fees (linear_fees c))] else []) ++
  (if negb (per_vote_certificate_fee_is_zero (per_vote_certificate_fees (linear_fees c)))
   then [PerVoteCertificateFees (per_vote_certificate_fees (linear_fees c))] else []) ++
  push_opt TreasuryAdd (treasury c) ++
  push_opt (λ t, TreasuryParams (tax_to_std t)) (treasury_parameters c) ++
  push_opt RewardPot (total_reward_supply c) ++
  push_opt (λ r, RewardParamsP (reward_params_to_std r)) (reward_parameters c) ++
  push_opt RewardLimitByAbsoluteStake (reward_drawing_limit_max (reward_constraints c)) ++
  push_opt (λ p, PoolRewardParticipationCapping (capping_min p) (capping_max p))
    (pool_participation_capping (reward_constraints c)) ++
  push_opt TransactionMaxExpiryEpochs (tx_max_expiry_epochs c) ++
  push_opt (λ e, EvmConfiguration (evm_config_to_std e)) (evm_configs c) ++
  push_opt (λ e, EvmEnvironment (evm_env_to_std e)) (evm_env_settings c) ++
  (AddBftLeader <$> consensus_leader_ids c) ++
  (AddCommitteeId <$> committees c).

(** ** What a list of parameters says *)

(** The names of the parameters that occur at most once, in the order of the
    variables; leaders and committees may occur many times. *)
Definition slot_names : list string :=
  [ "block0_date"; "discrimination"; "block0_consensus"; "slots_per_epoch"; "slot_duration";
    "epoch_stability_depth"; "consensus_leader_ids"; "consensus_genesis_praos_active_slot_coeff";
    "block_content_max_size"; "linear_fees"; "proposal_expiration"; "kes_update_speed"; "treasury";
    "treasury_parameters"; "total_reward_supply"; "reward_parameters"; "per_certificate_fees";
    "per_vote_certificate_fees"; "fees_go_to"; "reward_constraints.reward_drawing_limit_max";
    "reward_constraints.pool_participation_capping"; "committees"; "tx_max_expiry_epochs"; "evm_params";
    "evm_evn_settings" ]%string.
Definition required_names : list string :=
  [ "block0_date"; "discrimination"; "block0_consensus"; "slots_per_epoch"; "slot_duration";
    "consensus_genesis_praos_active_slot_coeff"; "linear_fees"; "proposal_expiration"; "kes_update_speed";
    "epoch_stability_depth"; "block_content_max_size" ]%string.

Definition slot_of (p : ConfigParam) : nat :=
  match p with
  | Block0Date _ => 0 | DiscriminationP _ => 1 | ConsensusVersionP _ => 2 | SlotsPerEpoch _ => 3
  | SlotDuration _ => 4 | EpochStabilityDepth _ => 5 | AddBftLeader _ => 6
  | ConsensusGenesisPraosActiveSlotsCoeff _ => 7 | BlockContentMaxSize _ => 8 | LinearFeeP _ => 9
  | ProposalExpiration _ => 10 | KesUpdateSpeed _ => 11 | TreasuryAdd _ => 12 | TreasuryParams _ => 13
  | RewardPot _ => 14 | RewardParamsP _ => 15 | PerCertificateFees _ => 16 | PerVoteCertificateFees _ => 17
  | FeesInTreasury _ => 18 | RewardLimitByAbsoluteStake _ => 19 | PoolRewardParticipationCapping _ _ => 20
  | AddCommitteeId _ => 21 | TransactionMaxExpiryEpochs _ => 22 | EvmConfiguration _ => 23 | EvmEnvironment _ => 24
  | RemoveBftLeader _ | RewardLimitNone | RemoveCommitteeId _ => 25
  end.
Definition name_of (p : ConfigParam) : option string :=
  match p with
  | AddBftLeader _ | AddCommitteeId _ => None
  | _ => slot_names !! slot_of p
  end.
Definition names (ps : list ConfigParam) : list string := omap name_of ps.

(** Parameters that have no place in block 0, and values out of range *)
Definition removes (p : ConfigParam) : Prop :=
  match p with RemoveBftLeader _ | RewardLimitNone | RemoveCommitteeId _ => True | _ => False end.
Definition in_range (p : ConfigParam) : Prop :=
  match p with
  | SlotsPerEpoch n => (1 ≤ n ≤ 1000000)%Z
  | SlotDuration n => (1 ≤ n ≤ 255)%Z
  | ConsensusGenesisPraosActiveSlotsCoeff m => (1 ≤ m ≤ 1000)%Z
  | KesUpdateSpeed n => (60 ≤ n ≤ 365 * 24 * 3600)%Z
  | _ => True
  end.
Definition well_typed (c : BlockchainConfiguration) : Prop := Forall in_range (into_config_params c).
Definition is_fee (p : ConfigParam) : Prop :=
  match p with LinearFeeP _ | PerCertificateFees _ | PerVoteCertificateFees _ => True | _ => False end.

(** [describes ps c]: apart from the fees [ps] has exactly the parameters of
    [c], with the leaders and committees in the same order; the fees of a kind
    of certificate are those of their own parameter if there is one, and
    otherwise those of the linear fee. *)
Definition describes (ps : list ConfigParam) (c : BlockchainConfiguration) : Prop :=
  (∀ p, ¬ is_fee p → p ∈ into_config_params c ↔ p ∈ ps) ∧
  omap (λ p, if p is AddBftLeader l then Some l else None) ps = consensus_leader_ids c ∧
  omap (λ p, if p is AddCommitteeId l then Some l else None) ps = committees c ∧
  ∃ f, LinearFeeP f ∈ ps ∧
    constant (linear_fees c) = constant f ∧ coefficient (linear_fees c) = coefficient f ∧
    certificate (linear_fees c) = certificate f ∧
    (PerCertificateFees (per_certificate_fees (linear_fees c)) ∈ ps ∨
     (∀ g, PerCertificateFees g ∉ ps) ∧ per_certificate_fees (linear_fees c) = per_certificate_fees f) ∧
    (PerVoteCertificateFees (per_vote_certificate_fees (linear_fees c)) ∈ ps ∨
     (∀ g, PerVoteCertificateFees g ∉ ps) ∧ per_vote_certificate_fees (linear_fees c) = per_vote_certificate_fees f).

(** The parameters the variables were set from, a list for each variable. *)
Definition segments (a : Acc) : list (list ConfigParam) :=
  [ push_opt Block0Date (a_block0_date a); push_opt DiscriminationP (a_discrimination a);
    push_opt ConsensusVersionP (a_block0_consensus a); push_opt SlotsPerEpoch (a_slots_per_epoch a);
    push_opt SlotDuration (a_slot_duration a); push_opt EpochStabilityDepth (a_epoch_stability_depth a);
    AddBftLeader <$> a_consensus_leader_ids a;
    push_opt ConsensusGenesisPraosActiveSlotsCoeff (a_active_slot_coeff a);
    push_opt BlockContentMaxSize (a_block_content_max_size a); push_opt LinearFeeP (a_linear_fees a);
    push_opt ProposalExpiration (a_proposal_expiration a); push_opt KesUpdateSpeed (a_kes_update_speed a);
    push_opt TreasuryAdd (a_treasury a); push_opt (λ t, TreasuryParams (tax_to_std t)) (a_treasury_parameters a);
    push_opt RewardPot (a_total_reward_supply a);
    push_opt (λ r, RewardParamsP (reward_params_to_std r)) (a_reward_parameters a);
    push_opt PerCertificateFees (a_per_certificate_fees a);
    push_opt PerVoteCertificateFees (a_per_vote_certificate_fees a);
    push_opt (λ f, FeesInTreasury (fees_go_to_to_param f)) (a_fees_go_to a);
    push_opt RewardLimitByAbsoluteStake (a_reward_drawing_limit_max a);
    push_opt (λ p, PoolRewardParticipationCapping (capping_min p) (capping_max p)) (a_pool_participation_capping a);
    AddCommitteeId <$> a_committees a;
    push_opt TransactionMaxExpiryEpochs (a_tx_max_expiry_epochs a);
    push_opt (λ e, EvmConfiguration (evm_config_to_std e)) (a_evm_configs a);
    push_opt (λ e, EvmEnvironment (evm_env_to_std e)) (a_evm_env_settings a) ].

(** [parsed ps a]: every variable has the parameters of [ps] of its kind. *)
Definition parsed (ps : list ConfigParam) (a : Acc) : Prop :=
  ∀ i l, segments a !! i = Some l → l = filter (λ p, slot_of p = i) ps.

Lemma checked_Some min max v w : checked min max v = Some w ↔ w = v ∧ (min ≤ v ≤ max)%Z.
Proof. unfold checked. case_match eqn:H; [|naive_solver lia]. split; [intros [= ->]; lia|intros [-> ?]; done]. Qed.
Lemma checked_None min max v : checked min max v = None ↔ ¬ (min ≤ v ≤ max)%Z.
Proof. unfold checked. case_match eqn:H; split; try done; intros; lia. Qed.
Lemma coefficient_Some m w : active_slot_coefficient_new m = Some w ↔ w = m ∧ (1 ≤ m ≤ 1000)%Z.
Proof.
  unfold active_slot_coefficient_new, MINIMUM_ACTIVE_SLOT_COEFFICIENT, MAXIMUM_ACTIVE_SLOT_COEFFICIENT.
  case_match eqn:H; [split; [done|lia]|]. split; [intros [= ->]; lia|intros [-> ?]; done].
Qed.
Lemma coefficient_None m : active_slot_coefficient_new m = None ↔ ¬ (1 ≤ m ≤ 1000)%Z.
Proof.
  destruct (active_slot_coefficient_new m) eqn:H; [|split; [|done]].
  - apply coefficient_Some in H. naive_solver.
  - intros _ Hm. destruct (coefficient_Some m m) as [_ Hs]. by rewrite Hs in H.
Qed.

Definition step_ok (p : ConfigParam) (a : Acc) (r : option (result FromConfigParamsError Acc)) : Prop :=
  match r with
  | Some (Ok a') =>
      in_range p ∧ ¬ removes p ∧
      ∃ l, segments a !! slot_of p = Some l ∧ segments a' = <[slot_of p := l ++ [p]]> (segments a) ∧
           (name_of p = None ∨ l = [])
  | Some (Err (InitConfigParamMissing _)) => False
  | Some (Err (InitConfigParamDuplicate n)) => name_of p = Some n ∧ ∃ q, segments a !! slot_of p = Some [q]
  | Some (Err (NumberOfSlotsPerEpochErr n)) => p = SlotsPerEpoch n ∧ ¬ in_range p
  | Some (Err (SlotDurationErr n)) => p = SlotDuration n ∧ ¬ in_range p
  | Some (Err (ActiveSlotCoefficientErr n)) => p = ConsensusGenesisPraosActiveSlotsCoeff n ∧ ¬ in_range p
  | Some (Err (KesUpdateSpeedErr n)) => p = KesUpdateSpeed n ∧ ¬ in_range p
  | None => removes p
  end.

Lemma step_ok_replace {A} get set name v F i p a :
  slot_of p = i → name_of p = Some name → in_range p → ¬ removes p → F v = p →
  segments a !! i = Some (push_opt F (get a)) →
  (get a = None → segments (set (Some v) a) = <[i := [p]]> (segments a)) →
  step_ok p a (Some (@replace A get set name v a)).
Proof.
  intros <- Hn Hr Hrm HF Hl Hset. unfold replace. destruct (get a) as [w|] eqn:Hg; simpl in *; [eauto|].
  split_and!; [done..|]. eexists. split_and!; eauto.
Qed.

Ltac step_replace a :=
  eapply step_ok_replace;
  [reflexivity | reflexivity | first [done | simpl; lia] | by intros [] | | reflexivity | by destruct a; intros ?; simplify_eq/=].

Lemma add_param_ok p a : step_ok p a (add_param p a).
Proof.
  destruct p as [| | | | | | | | | |[]| | | | |[]| |[]| | | | | | | | |[]|[]];
    unfold add_param, replace_checked; try done; try by step_replace a.
  all: try (case_match eqn:Hc;
    [apply checked_Some in Hc as [-> ?] || apply coefficient_Some in Hc as [-> ?]; step_replace a; done
    |split; [done|]; by (apply checked_None in Hc || apply coefficient_None in Hc)]).
  all: split; [done|split; [by intros []|]]; eexists; split; [reflexivity|split; [|by left]];
    destruct a; unfold segments; cbn -[fmap]; by rewrite fmap_app.
Qed.

(** [truthful ps e]: the parameters have the problem the error reports. *)
Definition truthful (ps : list ConfigParam) (e : FromConfigParamsError) : Prop :=
  match e with
  | InitConfigParamMissing n => n ∈ required_names ∧ n ∉ names ps
  | InitConfigParamDuplicate n =>
      ∃ ps1 p ps2 q ps3, ps = ps1 ++ p :: ps2 ++ q :: ps3 ∧ name_of p = Some n ∧ name_of q = Some n
  | NumberOfSlotsPerEpochErr n => SlotsPerEpoch n ∈ ps ∧ ¬ in_range (SlotsPerEpoch n)
  | SlotDurationErr n => SlotDuration n ∈ ps ∧ ¬ in_range (SlotDuration n)
  | ActiveSlotCoefficientErr n =>
      ConsensusGenesisPraosActiveSlotsCoeff n ∈ ps ∧ ¬ in_range (ConsensusGenesisPraosActiveSlotsCoeff n)
  | KesUpdateSpeedErr n => KesUpdateSpeed n ∈ ps ∧ ¬ in_range (KesUpdateSpeed n)
  end.

Lemma slot_name p q : slot_of p = slot_of q → name_of p = name_of q.
Proof. destruct p, q; try discriminate; done. Qed.
Lemma slot_names_NoDup : NoDup slot_names.
Proof. apply (bool_decide_unpack _). by vm_compute. Qed.
Lemma name_of_lookup p n : name_of p = Some n → slot_names !! slot_of p = Some n.
Proof. by destruct p. Qed.
Lemma name_slot p q n : name_of p = Some n → name_of q = Some n → slot_of p = slot_of q.
Proof. intros Hp%name_of_lookup Hq%name_of_lookup. eapply NoDup_lookup; [apply slot_names_NoDup|done..]. Qed.

Lemma parsed_elem ps a i l p : parsed ps a → segments a !! i = Some l → p ∈ l ↔ p ∈ ps ∧ slot_of p = i.
Proof. intros Hp Hl. rewrite (Hp i l Hl), list_elem_of_filter. tauto. Qed.

Lemma parsed_step pre a p a' l :
  parsed pre a → segments a !! slot_of p = Some l → segments a' = <[slot_of p := l ++ [p]]> (segments a) →
  parsed (pre ++ [p]) a'.
Proof.
  intros Hpre Hl Ha' i l' Hi. rewrite Ha' in Hi. rewrite filter_app.
  destruct (decide (slot_of p = i)) as [<-|Hne].
  - rewrite list_lookup_insert_eq in Hi by (by eapply lookup_lt_Some). injection Hi as <-.
    rewrite filter_cons_True, filter_nil by done. f_equal. by apply Hpre.
  - rewrite list_lookup_insert_ne in Hi by done. rewrite filter_cons_False, filter_nil, app_nil_r by done. by apply Hpre.
Qed.

Lemma names_step pre a p l :
  parsed pre a → NoDup (names pre) → segments a !! slot_of p = Some l → name_of p = None ∨ l = [] →
  NoDup (names (pre ++ [p])).
Proof.
  intros Hpre Hnd Hl Hcase. unfold names. rewrite omap_app. cbn. destruct (name_of p) as [n|] eqn:Hn; [|by rewrite app_nil_r].
  destruct Hcase as [?| ->]; [done|]. apply NoDup_app. split; [done|]. split; [|apply NoDup_singleton].
  intros x [q [Hq Hx]]%list_elem_of_omap ->%list_elem_of_singleton.
  apply (not_elem_of_nil q). apply (parsed_elem _ _ _ _ _ Hpre Hl). split; [done|]. by eapply name_slot.
Qed.

Lemma add_params_ok ps pre a :
  parsed pre a → NoDup (names pre) →
  match add_params ps a with
  | Some (Ok a') => parsed (pre ++ ps) a' ∧ NoDup (names (pre ++ ps)) ∧ Forall (λ p, in_range p ∧ ¬ removes p) ps
  | Some (Err (InitConfigParamMissing _)) => False
  | Some (Err e) => truthful (pre ++ ps) e
  | None => Exists removes ps
  end.
Proof.
  revert pre a. induction ps as [|p ps IH]; intros pre a Hpre Hnd; cbn [add_params].
  { by rewrite !app_nil_r. }
  pose proof (add_param_ok p a) as Hstep. destruct (add_param p a) as [[a'|e]|]; [| |by left]; simpl in Hstep.
  - destruct Hstep as (Hr & Hrm & l & Hl & Ha' & Hcase).
    specialize (IH (pre ++ [p]) a' (parsed_step _ _ _ _ _ Hpre Hl Ha') (names_step _ _ _ _ Hpre Hnd Hl Hcase)).
    rewrite <-!(assoc_L (++)) in IH. simpl in IH.
    destruct (add_params ps a') as [[a''|e]|]; [naive_solver|done|by right].
  - destruct e; [done| |by destruct Hstep as [-> ?]; (split; [set_solver|])..].
    destruct Hstep as [Hn [q Hq]]. assert (q ∈ pre ∧ slot_of q = slot_of p) as [[l1 [l2 ->]]%list_elem_of_split Hqp].
    { apply (parsed_elem _ _ _ _ _ Hpre Hq). set_solver. }
    exists l1, q, l2, p, ps. split; [by rewrite <-(assoc_L (++))|]. by rewrite (slot_name q p).
Qed.

Lemma missing_name ps a i n :
  parsed ps a → segments a !! i = Some [] → slot_names !! i = Some n → n ∉ names ps.
Proof.
  intros Hp Hi Hn [p [Hps Hname]]%list_elem_of_omap. apply (not_elem_of_nil p).
  apply (parsed_elem _ _ _ _ _ Hp Hi). split; [done|]. apply name_of_lookup in Hname.
  eapply NoDup_lookup; [apply slot_names_NoDup|done..].
Qed.

Lemma present_name ps a p l n :
  parsed ps a → name_of p = Some n → segments a !! slot_of p = Some l → p ∈ l → n ∈ names ps.
Proof. intros Hp Hn Hl Hin. apply (parsed_elem _ _ _ _ _ Hp Hl) in Hin as [? _]. apply list_elem_of_omap. eauto. Qed.

Lemma parsed_concat ps a p :
  parsed ps a → Forall (λ p, in_range p ∧ ¬ removes p) ps → p ∈ concat (segments a) ↔ p ∈ ps.
Proof.
  intros Hp Hall. rewrite list_elem_of_In, in_concat. setoid_rewrite <-list_elem_of_In. split.
  - intros (l & [i Hi]%list_elem_of_lookup & Hin). by apply (parsed_elem _ _ _ _ _ Hp Hi) in Hin as [].
  - intros Hin. rewrite Forall_forall in Hall. destruct (Hall p Hin) as [_ Hrm].
    destruct (segments a !! slot_of p) as [l|] eqn:Hl; [|by destruct p].
    exists l. split; [by eapply list_elem_of_lookup_2|]. by apply (parsed_elem _ _ _ _ _ Hp Hl).
Qed.

Lemma omap_filter_slot {B} (f : ConfigParam → option B) i (ps : list ConfigParam) :
  (∀ p, f p ≠ None → slot_of p = i) → omap f (filter (λ p, slot_of p = i) ps) = omap f ps.
Proof.
  intros Hf. induction ps as [|p ps IH]; [done|]. rewrite filter_cons. case_decide as Hp; cbn; [by rewrite IH|].
  destruct (f p) eqn:E; [|done]. exfalso. apply Hp, Hf. by rewrite E.
Qed.

Lemma describes_lists ps a :
  parsed ps a →
  omap (λ p, if p is AddBftLeader l then Some l else None) ps = a_consensus_leader_ids a ∧
  omap (λ p, if p is AddCommitteeId l then Some l else None) ps = a_committees a.
Proof.
  intros Hp. rewrite <-(omap_filter_slot _ 6 ps), <-(omap_filter_slot _ 21 ps) by (by intros []).
  rewrite <-(Hp 6 _ eq_refl), <-(Hp 21 _ eq_refl).
  by split; [induction (a_consensus_leader_ids a)|induction (a_committees a)]; cbn; f_equal.
Qed.

Lemma describes_fees ps a f :
  parsed ps a → merge_fees a = Some f →
  ∃ f0, LinearFeeP f0 ∈ ps ∧
    constant f = constant f0 ∧ coefficient f = coefficient f0 ∧ certificate f = certificate f0 ∧
    (PerCertificateFees (per_certificate_fees f) ∈ ps ∨
     (∀ g, PerCertificateFees g ∉ ps) ∧ per_certificate_fees f = per_certificate_fees f0) ∧
    (PerVoteCertificateFees (per_vote_certificate_fees f) ∈ ps ∨
     (∀ g, PerVoteCertificateFees g ∉ ps) ∧ per_vote_certificate_fees f = per_vote_certificate_fees f0).
Proof.
  intros Hp Hf. unfold merge_fees in Hf.
  assert (∀ p, p ∈ ps → ∀ l, segments a !! slot_of p = Some l → p ∈ l) as Hfrom.
  { intros p Hps l Hl. by apply (parsed_elem _ _ _ _ _ Hp Hl). }
  assert (∀ i l p, segments a !! i = Some l → p ∈ l → p ∈ ps) as Hto.
  { intros i l p Hl Hin. by apply (parsed_elem _ _ _ _ _ Hp Hl) in Hin as []. }
  destruct (a_linear_fees a) as [f0|] eqn:H0; [|done].
  exists f0. split; [eapply (Hto 9); [done|]; rewrite H0; set_solver|].
  destruct (a_per_certificate_fees a) as [c|] eqn:Hc, (a_per_vote_certificate_fees a) as [v|] eqn:Hv;
    injection Hf as <-; cbn; split_and!; try done;
    try (by left; eapply (Hto 16); [reflexivity|]; rewrite Hc; left);
    try (by left; eapply (Hto 17); [reflexivity|]; rewrite Hv; left);
    right; (split; [|done]); intros g Hg; specialize (Hfrom _ Hg _ eq_refl); rewrite ?Hc, ?Hv in Hfrom; by apply elem_of_nil in Hfrom.
Qed.

Ltac need i Hp :=
  match goal with
  | |- context [ok_or_missing _ ?o] =>
      let v := fresh "v" in let H := fresh "Hf" in
      destruct o as [v|] eqn:H; cbn [ok_or_missing];
      [|split; [set_solver|eapply (missing_name _ _ i _ Hp); cbn; rewrite ?H; done]]
  end.

Lemma merge_fees_None a : merge_fees a = None → a_linear_fees a = None.
Proof. unfold merge_fees. by destruct (a_linear_fees a). Qed.
Lemma not_fee_elem p ps : ¬ is_fee p → Forall is_fee ps → p ∉ ps.
Proof. rewrite Forall_forall. naive_solver. Qed.
Lemma push_opt_Forall {A} (P : ConfigParam → Prop) (f : A → ConfigParam) o : (∀ v, P (f v)) → Forall P (push_opt f o).
Proof. destruct o; repeat constructor; auto. Qed.
Lemma is_fee_dec p : is_fee p ∨ ¬ is_fee p.
Proof. destruct p; cbn; tauto. Qed.

Lemma describes_well_typed ps c :
  describes ps c → Forall (λ p, in_range p ∧ ¬ removes p) ps → well_typed c.
Proof.
  intros [Hd _]. rewrite Forall_forall. intros Hall. apply Forall_forall. intros p Hin.
  destruct (is_fee_dec p) as [Hfee|Hfee]; [by destruct p|]. by apply Hall, (Hd p Hfee).
Qed.

(** The configuration, when every required variable is set. *)
Lemma assembled_describes ps a date d consensus spe sd coeff fees pe kes esd size :
  parsed ps a → Forall (λ p, in_range p ∧ ¬ removes p) ps →
  a_block0_date a = Some date → a_discrimination a = Some d → a_block0_consensus a = Some consensus →
  a_slots_per_epoch a = Some spe → a_slot_duration a = Some sd → a_active_slot_coeff a = Some coeff →
  merge_fees a = Some fees → a_proposal_expiration a = Some pe → a_kes_update_speed a = Some kes →
  a_epoch_stability_depth a = Some esd → a_block_content_max_size a = Some size →
  describes ps
    (mkConfiguration date d consensus (a_consensus_leader_ids a) fees pe spe sd kes coeff size esd
       (a_tx_max_expiry_epochs a) (a_fees_go_to a) (a_treasury a) (a_treasury_parameters a)
       (a_total_reward_supply a) (a_reward_parameters a)
       (mkConstraints (a_reward_drawing_limit_max a) (a_pool_participation_capping a))
       (a_committees a) (a_evm_configs a) (a_evm_env_settings a)).
Proof.
  intros Hp Hall H1 H2 H3 H4 H5 H6 H7 H8 H9 H10 H11.
  split; [|by destruct (describes_lists ps a Hp); split_and!; eauto using describes_fees].
  intros p Hfee. rewrite <-(parsed_concat ps a) by done. unfold segments, into_config_params.
  rewrite H1, H2, H3, H4, H5, H6, H8, H9, H10, H11. cbn -[fmap push_opt].
  assert (p ≠ LinearFeeP fees) by (by intros ->).
  pose proof (not_fee_elem p (push_opt LinearFeeP (a_linear_fees a)) Hfee ltac:(by apply push_opt_Forall)).
  pose proof (not_fee_elem p (push_opt PerCertificateFees (a_per_certificate_fees a)) Hfee ltac:(by apply push_opt_Forall)).
  pose proof (not_fee_elem p (push_opt PerVoteCertificateFees (a_per_vote_certificate_fees a)) Hfee ltac:(by apply push_opt_Forall)).
  rewrite ?elem_of_cons, ?elem_of_app. cbn [push_opt]. rewrite ?list_elem_of_singleton, ?elem_of_nil.
  repeat match goal with
  | |- context [p ∈ (if ?b then [?q] else [])] =>
      assert (p ∉ (if b then [q] else [])) by (apply not_fee_elem; [done|destruct b; repeat constructor]);
      generalize dependent (p ∈ (if b then [q] else [])); intros
  end.
  tauto.
Qed.

Ltac has p Hp := eapply (present_name _ _ p _ _ Hp); [reflexivity|reflexivity|].

Lemma assemble_ok ps a :
  parsed ps a → Forall (λ p, in_range p ∧ ¬ removes p) ps →
  match assemble a with
  | Ok c => well_typed c ∧ (∀ n, n ∈ required_names → n ∈ names ps) ∧ describes ps c
  | Err (InitConfigParamMissing n) => n ∈ required_names ∧ n ∉ names ps
  | Err _ => False
  end.
Proof.
  intros Hp Hall. unfold assemble.
  need 0 Hp. need 1 Hp. need 2 Hp. need 3 Hp. need 4 Hp. need 7 Hp.
  destruct (merge_fees a) as [fees|] eqn:Hfees; cbn [ok_or_missing].
  2:{ split; [set_solver|]. eapply (missing_name _ _ 9 _ Hp); [cbn; by rewrite merge_fees_None|done]. }
  need 10 Hp. need 11 Hp. need 5 Hp. need 8 Hp.
  assert (describes ps _) as Hd by eauto using assembled_describes.
  split; [by eapply describes_well_typed|]. split; [|exact Hd].
  destruct (describes_fees ps a fees Hp Hfees) as (f0 & Hf0' & _).
  intros n Hn. unfold required_names in Hn. rewrite !elem_of_cons in Hn.
  destruct Hn as [->|[->|[->|[->|[->|[->|[->|[->|[->|[->|[->|[]%elem_of_nil]]]]]]]]]]].
  - has (Block0Date v) Hp. rewrite Hf. set_solver.
  - has (DiscriminationP v0) Hp. rewrite Hf0. set_solver.
  - has (ConsensusVersionP v1) Hp. rewrite Hf1. set_solver.
  - has (SlotsPerEpoch v2) Hp. rewrite Hf2. set_solver.
  - has (SlotDuration v3) Hp. rewrite Hf3. set_solver.
  - has (ConsensusGenesisPraosActiveSlotsCoeff v4) Hp. rewrite Hf4. set_solver.
  - apply list_elem_of_omap. by exists (LinearFeeP f0).
  - has (ProposalExpiration v5) Hp. rewrite Hf5. set_solver.
  - has (KesUpdateSpeed v6) Hp. rewrite Hf6. set_solver.
  - has (EpochStabilityDepth v7) Hp. rewrite Hf7. set_solver.
  - has (BlockContentMaxSize v8) Hp. rewrite Hf8. set_solver.
Qed.

(** C20: reading the parameters of block 0 gives a configuration, an error or a
    panic.  A configuration has all its values in range, has every required
    parameter and no duplicate, and is the one the parameters describe; an
    error is a required parameter that is missing, a parameter that occurs
    twice or a value out of range; a panic is a parameter that removes a
    leader, a committee or the limit of rewards. *)
Theorem from_config_params_correct ps :
  match from_config_params ps with
  | Some (Ok c) =>
      well_typed c ∧ (∀ n, n ∈ required_names → n ∈ names ps) ∧ NoDup (names ps) ∧ describes ps c
  | Some (Err e) => truthful ps e
  | None => Exists removes ps
  end.
Proof.
  unfold from_config_params.
  assert (parsed [] acc_init) as Hinit.
  { intros i l Hi. do 25 (destruct i as [|i]; [by injection Hi|]). done. }
  pose proof (add_params_ok ps [] acc_init Hinit (NoDup_nil_2)) as Hrun.
  destruct (add_params ps acc_init) as [[a|e]|]; [|by destruct e|done].
  destruct Hrun as (Hp & Hnd & Hall). pose proof (assemble_ok ps a Hp Hall) as Ha.
  destruct (assemble a) as [c|e]; [naive_solver|by destruct e].
Qed.

(** ** Round trip

    [wire] is what becomes of the linear fee when block 0 is written and read:
    its three numbers are kept, the fees of the kinds of certificates may be
    dropped. *)
Section roundtrip.
Variable wire : LinearFee → LinearFee.
Hypothesis wire_numbers : ∀ f,
  constant (wire f) = constant f ∧ coefficient (wire f) = coefficient f ∧ certificate (wire f) = certificate f.
Hypothesis wire_certificate : ∀ f,
  per_certificate_fees (wire f) = per_certificate_fees f ∨
  per_certificate_fees (wire f) = mkPerCertificateFee None None None.
Hypothesis wire_vote : ∀ f,
  per_vote_certificate_fees (wire f) = per_vote_certificate_fees f ∨
  per_vote_certificate_fees (wire f) = mkPerVoteCertificateFee None None.

Definition sent (p : ConfigParam) : ConfigParam :=
  match p with LinearFeeP f => LinearFeeP (wire f) | _ => p end.

Lemma sent_push_opt {A} (F : A → ConfigParam) o : (∀ v, sent (F v) = F v) → sent <$> push_opt F o = push_opt F o.
Proof. destruct o; intros HF; cbn; by rewrite ?HF. Qed.
Lemma sent_fmap {A} (F : A → ConfigParam) (l : list A) : (∀ v, sent (F v) = F v) → sent <$> (F <$> l) = F <$> l.
Proof. intros HF. rewrite <-list_fmap_compose. apply list_fmap_ext. intros. apply HF. Qed.

Lemma add_params_opt {A B} (F : A → ConfigParam) (conv : A → B) get set name o ps a :
  (∀ v, add_param (F v) a = Some (replace get set name (conv v) a)) → get a = None → set None a = a →
  add_params (push_opt F o ++ ps) a = add_params ps (set (conv <$> o) a).
Proof.
  intros HF Hget Hset. destruct o as [v|]; [|by cbn; rewrite Hset].
  cbn. rewrite HF. unfold replace. by rewrite Hget.
Qed.
Lemma add_params_leaders ls ps a :
  add_params ((AddBftLeader <$> ls) ++ ps) a =
  add_params ps (set_consensus_leader_ids (a_consensus_leader_ids a ++ ls) a).
Proof.
  revert a. induction ls as [|l ls IH]; intros a; [by destruct a; cbn; rewrite app_nil_r|].
  cbn. etrans; [apply IH|]. destruct a; cbn. by rewrite <-(assoc_L (++)).
Qed.
Lemma add_params_committees ls ps a :
  add_params ((AddCommitteeId <$> ls) ++ ps) a = add_params ps (set_committees (a_committees a ++ ls) a).
Proof.
  revert a. induction ls as [|l ls IH]; intros a; [by destruct a; cbn; rewrite app_nil_r|].
  cbn. etrans; [apply IH|]. destruct a; cbn. by rewrite <-(assoc_L (++)).
Qed.

(** The fees of a configuration as optional parameters *)
Definition certificate_fees_param (f : LinearFee) : option PerCertificateFee :=
  if negb (per_certificate_fee_is_zero (per_certificate_fees f)) then Some (per_certificate_fees f) else None.
Definition vote_fees_param (f : LinearFee) : option PerVoteCertificateFee :=
  if negb (per_vote_certificate_fee_is_zero (per_vote_certificate_fees f)) then Some (per_vote_certificate_fees f) else None.

Lemma merge_fees_wire f a :
  a_linear_fees a = Some (wire f) → a_per_certificate_fees a = certificate_fees_param f →
  a_per_vote_certificate_fees a = vote_fees_param f → merge_fees a = Some f.
Proof.
  intros Hl Hc Hv. unfold merge_fees. rewrite Hl, Hc, Hv. clear Hl Hc Hv.
  pose proof (wire_numbers f) as (Hco & Hcf & Hce). pose proof (wire_certificate f) as Hc. pose proof (wire_vote f) as Hv.
  unfold certificate_fees_param, vote_fees_param.
  destruct (wire f) as [w1 w2 w3 wc wv], f as [f1 f2 f3 fc fv]; cbn in *; subst.
  f_equal. destruct fc as [[] [] []], fv as [[] []]; cbn; try reflexivity;
    repeat match goal with H : _ ∨ _ |- _ => destruct H as [->| ->] end; reflexivity.
Qed.

Lemma sent_into c :
  sent <$> into_config_params c =
  [ Block0Date (block0_date c); DiscriminationP (discrimination c); ConsensusVersionP (block0_consensus c);
    LinearFeeP (wire (linear_fees c)); SlotsPerEpoch (slots_per_epoch c); SlotDuration (slot_duration c);
    KesUpdateSpeed (kes_update_speed c);
    ConsensusGenesisPraosActiveSlotsCoeff (consensus_genesis_praos_active_slot_coeff c);
    BlockContentMaxSize (block_content_max_size c); EpochStabilityDepth (epoch_stability_depth c);
    ProposalExpiration (proposal_expiration c) ] ++
  push_opt (λ f, FeesInTreasury (fees_go_to_to_param f)) (fees_go_to c) ++
  push_opt PerCertificateFees (certificate_fees_param (linear_fees c)) ++
  push_opt PerVoteCertificateFees (vote_fees_param (linear_fees c)) ++
  push_opt TreasuryAdd (treasury c) ++
  push_opt (λ t, TreasuryParams (tax_to_std t)) (treasury_parameters c) ++
  push_opt RewardPot (total_reward_supply c) ++
  push_opt (λ r, RewardParamsP (reward_params_to_std r)) (reward_parameters c) ++
  push_opt RewardLimitByAbsoluteStake (reward_drawing_limit_max (reward_constraints c)) ++
  push_opt (λ p, PoolRewardParticipationCapping (capping_min p) (capping_max p))
    (pool_participation_capping (reward_constraints c)) ++
  push_opt TransactionMaxExpiryEpochs (tx_max_expiry_epochs c) ++
  push_opt (λ e, EvmConfiguration (evm_config_to_std e)) (evm_configs c) ++
  push_opt (λ e, EvmEnvironment (evm_env_to_std e)) (evm_env_settings c) ++
  (AddBftLeader <$> consensus_leader_ids c) ++ (AddCommitteeId <$> committees c) ++ [].
Proof.
  unfold into_config_params, certificate_fees_param, vote_fees_param. rewrite app_nil_r, !fmap_app.
  rewrite !sent_push_opt, !sent_fmap by done. by repeat case_match.
Qed.

Lemma option_fmap_same {A} (f : A → A) (o : option A) : (∀ v, f v = v) → f <$> o = o.
Proof. intros Hf. destruct o; cbn; by rewrite ?Hf. Qed.
Lemma add_params_cons p a a' ps : add_param p a = Some (Ok a') → add_params (p :: ps) a = add_params ps a'.
Proof. intros Hp. cbn. by rewrite Hp. Qed.

(** The run of the loop over the parameters of a configuration *)
Lemma add_params_into c :
  well_typed c →
  add_params (sent <$> into_config_params c) acc_init =
  Some (Ok (mkAcc (Some (block0_date c)) (Some (discrimination c)) (Some (block0_consensus c))
    (Some (slots_per_epoch c)) (Some (slot_duration c)) (Some (epoch_stability_depth c)) (consensus_leader_ids c)
    (Some (consensus_genesis_praos_active_slot_coeff c)) (Some (block_content_max_size c))
    (Some (wire (linear_fees c))) (Some (proposal_expiration c)) (Some (kes_update_speed c)) (treasury c)
    (treasury_parameters c) (total_reward_supply c) (reward_parameters c)
    (certificate_fees_param (linear_fees c)) (vote_fees_param (linear_fees c)) (fees_go_to c)
    (reward_drawing_limit_max (reward_constraints c)) (pool_participation_capping (reward_constraints c))
    (committees c) (tx_max_expiry_epochs c) (evm_configs c) (evm_env_settings c))).
Proof.
  intros Hwt. rewrite sent_into. unfold well_typed in Hwt. rewrite Forall_forall in Hwt.
  assert (slots_per_epoch_new (slots_per_epoch c) = Some (slots_per_epoch c)) as H1.
  { apply checked_Some. split; [done|]. apply (Hwt (SlotsPerEpoch (slots_per_epoch c))). set_solver. }
  assert (slot_duration_new (slot_duration c) = Some (slot_duration c)) as H2.
  { apply checked_Some. split; [done|]. apply (Hwt (SlotDuration (slot_duration c))). set_solver. }
  assert (kes_update_speed_new (kes_update_speed c) = Some (kes_update_speed c)) as H3.
  { apply checked_Some. split; [done|]. apply (Hwt (KesUpdateSpeed (kes_update_speed c))). set_solver. }
  assert (active_slot_coefficient_new (consensus_genesis_praos_active_slot_coeff c) = Some (consensus_genesis_praos_active_slot_coeff c)) as H4.
  { apply coefficient_Some. split; [done|]. apply (Hwt (ConsensusGenesisPraosActiveSlotsCoeff (consensus_genesis_praos_active_slot_coeff c))). set_solver. }
  cbn [app].
  do 4 (erewrite add_params_cons by reflexivity).
  do 4 (erewrite add_params_cons by (cbn [add_param]; rewrite ?H1, ?H2, ?H3, ?H4; reflexivity)).
  do 3 (erewrite add_params_cons by reflexivity).
  do 12 (erewrite (add_params_opt _ _) by (intros; reflexivity)).
  rewrite add_params_leaders, add_params_committees. cbn.
  by rewrite !option_fmap_same by (by intros []).
Qed.

(** A configuration that is turned into the parameters of block 0 is read
    back as it was, also if the linear fee lost the fees of the kinds of
    certificates on the way. *)
Theorem config_params_roundtrip c :
  well_typed c → from_config_params (sent <$> into_config_params c) = Some (Ok c).
Proof.
  intros Hwt. unfold from_config_params. rewrite add_params_into by done. unfold assemble.
  erewrite merge_fees_wire by reflexivity. by destruct c as [? ? ? ? ? ? ? ? ? ? ? ? ? ? ? ? ? ? [? ?] ? ? ?].
Qed.
End roundtrip.

End config.
Arguments ConfigParam : clear implicits.
Arguments BlockchainConfiguration : clear implicits.
Arguments Acc : clear implicits.
End Block0Config.
