(* ===== verification/Block0.v ===== *)
(** * Block 0

    Models [jormungandr-lib/src/interfaces/block0_configuration/mod.rs] and
    [initial_fragment.rs]: block 0 as its configuration and its initial
    fragments, the block that is made of them and how such a block is read
    back; and the commands [jcli genesis encode] and [decode]
    ([jcli/src/jcli_lib/block/mod.rs]).  The types of the chain library that
    are only carried along are parameters; a wrapper of a single value is the
    value. *)

From S2P Require Import Prelude Block0Config.

Module Block0.
Import Block0Config.

(** ** Addresses and fragments of the chain library *)
Section types.
Context {Key Hash OldAddr Cert Auth TokenName Policy PolicyHash LeaderId CommitteeId : Type}.

Inductive Kind :=
| Single (spending : Key)
| Group (spending account : Key)
| Account (account : Key)
| Multisig (hash : Hash)
| Script (hash : Hash).
(** [chain_addr::Address], and the [Address] of the interface: with the prefix
    of its readable form. *)
Record ChainAddress := mkChainAddress { address_discrimination : Discrimination; address_kind : Kind }.
Record Address := mkAddress { prefix : string; chain_address : ChainAddress }.
(** [From<chain_addr::Address> for Address] *)
Definition address_from (a : ChainAddress) : Address := mkAddress "ca" a.

Record TokenIdentifier := mkTokenId { token_name : TokenName; policy_hash : PolicyHash }.
Record MintToken := mkMintToken { mint_name : TokenName; mint_policy : Policy; mint_to : Key; mint_value : Z }.
Inductive SignedCertificate :=
| StakeDelegation (c : Cert) (a : Auth)
| OwnerStakeDelegation (c : Cert) (a : Auth)
| PoolRegistration (c : Cert) (a : Auth)
| PoolRetirement (c : Cert) (a : Auth)
| PoolUpdate (c : Cert) (a : Auth)
| VotePlan (c : Cert) (a : Auth)
| VoteTally (c : Cert) (a : Auth)
| UpdateProposal (c : Cert) (a : Auth)
| UpdateVote (c : Cert) (a : Auth)
| EvmMapping (c : Cert) (a : Auth).

Record Output := mkOutput { output_address : ChainAddress; output_value : Z }.
(** A transaction with a payload; block 0 looks only at the number of inputs. *)
Record Transaction (P A : Type) := mkTx { nb_inputs : Z; outputs : list Output; payload : P; payload_auth : A }.
#[local] Arguments mkTx {P A}.
(** [Transaction::block0_payload] *)
Definition empty_auth_tx {P A} (p : P) (a : A) : Transaction P A := mkTx 0 [] p a.

Inductive Fragment :=
| FInitial (ps : list (ConfigParam LeaderId CommitteeId))
| FOldUtxoDeclaration (addrs : list (OldAddr * Z))
| FTransaction (tx : Transaction unit unit)
| FOwnerStakeDelegation (tx : Transaction Cert Auth)
| FStakeDelegation (tx : Transaction Cert Auth)
| FPoolRegistration (tx : Transaction Cert Auth)
| FPoolRetirement (tx : Transaction Cert Auth)
| FPoolUpdate (tx : Transaction Cert Auth)
| FUpdateProposal (tx : Transaction Cert Auth)
| FUpdateVote (tx : Transaction Cert Auth)
| FVotePlan (tx : Transaction Cert Auth)
| FVoteCast (tx : Transaction Cert Auth)
| FVoteTally (tx : Transaction Cert Auth)
| FMintToken (tx : Transaction MintToken unit)
| FEvm (tx : Transaction Cert Auth)
| FEvmMapping (tx : Transaction Cert Auth).

(** [BlockVersion] and [BlockDate] of the header *)
Inductive BlockVersion := Genesis | Ed25519Signed | KesVrfproof.
Record Block := mkBlock { block_version : BlockVersion; block_date : Z * Z; fragments : list Fragment }.

(** ** Initial fragments *)
Record InitialUTxO := mkUTxO { address : Address; value : Z }.
Record LegacyUTxO := mkLegacy { legacy_address : OldAddr; legacy_value : Z }.
Record Destination := mkDestination { destination_address : Address; destination_value : Z }.
Record InitialToken := mkToken { token_id : TokenIdentifier; policy : Policy; to : list Destination }.
Inductive Initial :=
| Fund (utxos : list InitialUTxO)
| Cert_ (c : SignedCertificate)
| LegacyFund (utxos : list LegacyUTxO)
| Token (t : InitialToken).

Inductive Error :=
| InitUtxoHasInput
| Block0MessageUnexpected
| TokenInvalidAddressType
| TokenIdentifierMintingPolicyHashMismatch.

Record Block0Configuration := mkBlock0Configuration {
  blockchain_configuration : BlockchainConfiguration LeaderId CommitteeId;
  initial : list Initial;
}.
Inductive Block0ConfigurationError :=
| FirstBlock0MessageNotInit
| BlockchainConfigurationErr (e : FromConfigParamsError)
| InitialFragmentsErr (e : Error).
End types.
Arguments Kind : clear implicits.
Arguments ChainAddress : clear implicits.
Arguments Address : clear implicits.
Arguments TokenIdentifier : clear implicits.
Arguments MintToken : clear implicits.
Arguments SignedCertificate : clear implicits.
Arguments Output : clear implicits.
Arguments Transaction : clear implicits.
Arguments mkTx {Key Hash P A}.
Arguments nb_inputs {Key Hash P A}.
Arguments outputs {Key Hash P A}.
Arguments payload {Key Hash P A}.
Arguments payload_auth {Key Hash P A}.
Arguments Fragment : clear implicits.
Arguments Block : clear implicits.
Arguments InitialUTxO : clear implicits.
Arguments LegacyUTxO : clear implicits.
Arguments Destination : clear implicits.
Arguments InitialToken : clear implicits.
Arguments Initial : clear implicits.
Arguments Block0Configuration : clear implicits.

Section block0.
Context {Key Hash OldAddr Cert Auth TokenName Policy PolicyHash LeaderId CommitteeId : Type}.
Context `{!EqDecision PolicyHash}.
(** [MintingPolicy::hash] of the chain library *)
Variable hash : Policy → PolicyHash.
Abbreviation Frag := (Fragment Key Hash OldAddr Cert Auth TokenName Policy LeaderId CommitteeId).
Abbreviation Init := (Initial Key Hash OldAddr Cert Auth TokenName Policy PolicyHash).
Abbreviation Blk := (Block Key Hash OldAddr Cert Auth TokenName Policy LeaderId CommitteeId).
Abbreviation Conf := (Block0Configuration Key Hash OldAddr Cert Auth TokenName Policy PolicyHash LeaderId CommitteeId).

(** ** Reading *)

Definition try_extend_inits_with_tx (tx : Transaction Key Hash unit unit) : result Error Init :=
  if negb (nb_inputs tx =? 0)%Z then Err InitUtxoHasInput
  else Ok (Fund ((λ o, mkUTxO (address_from (output_address o)) (output_value o)) <$> outputs tx)).

(** A panic for no element or 255 and more. *)
Definition extend_inits_with_legacy_utxo (addrs : list (OldAddr * Z)) : option Init :=
  if decide (addrs = []) then None
  else if (255 <=? Z.of_nat (length addrs))%Z then None
  else Some (LegacyFund ((λ av, mkLegacy av.1 av.2) <$> addrs)).

Definition try_initial_fragment_from_message (d : Discrimination) (message : Frag) : option (result Error Init) :=
  match message with
  | FTransaction tx => Some (try_extend_inits_with_tx tx)
  | FOldUtxoDeclaration addrs => Ok <$> extend_inits_with_legacy_utxo addrs
  | FPoolRegistration tx => Some (Ok (Cert_ (PoolRegistration (payload tx) (payload_auth tx))))
  | FStakeDelegation tx => Some (Ok (Cert_ (StakeDelegation (payload tx) (payload_auth tx))))
  | FVotePlan tx => Some (Ok (Cert_ (VotePlan (payload tx) (payload_auth tx))))
  | FMintToken tx =>
      let mint_token := payload tx in
      let token_id := mkTokenId (mint_name mint_token) (hash (mint_policy mint_token)) in
      Some (Ok (Token (mkToken token_id (mint_policy mint_token)
        [mkDestination (address_from (mkChainAddress d (Account (mint_to mint_token)))) (mint_value mint_token)])))
  | _ => Some (Err Block0MessageUnexpected)
  end.

(** [messages.map(..).collect::<Result<Vec<_>, _>>()] *)
Fixpoint read_messages (d : Discrimination) (messages : list Frag) : option (result Error (list Init)) :=
  match messages with
  | [] => Some (Ok [])
  | m :: ms =>
      match try_initial_fragment_from_message d m with
      | None => None
      | Some (Err e) => Some (Err e)
      | Some (Ok i) =>
          match read_messages d ms with
          | Some (Ok il) => Some (Ok (i :: il))
          | r => r
          end
      end
  end.

Definition from_block (b : Blk)
    : option (result Block0ConfigurationError Conf) :=
  match fragments b with
  | FInitial ps :: messages =>
      match from_config_params ps with
      | None => None
      | Some (Err e) => Some (Err (BlockchainConfigurationErr e))
      | Some (Ok c) =>
          match read_messages (discrimination c) messages with
          | None => None
          | Some (Err e) => Some (Err (InitialFragmentsErr e))
          | Some (Ok il) => Some (Ok (mkBlock0Configuration c il))
          end
      end
  | _ => Some (Err FirstBlock0MessageNotInit)
  end.

(** ** Writing *)

Definition to_output (u : InitialUTxO Key Hash) : Output Key Hash := mkOutput (chain_address (address u)) (value u).

Definition pack_utxo_in_message (v : list (InitialUTxO Key Hash)) : option (list Frag) :=
  let outs := to_output <$> v in
  if decide (outs = []) then None
  else if (255 <=? Z.of_nat (length outs))%Z then None
  else Some [FTransaction (mkTx 0 outs tt tt)].

Definition pack_legacy_utxo_in_message (v : list (LegacyUTxO OldAddr)) : option (list Frag) :=
  if decide (v = []) then None
  else if (255 <=? Z.of_nat (length v))%Z then None
  else Some [FOldUtxoDeclaration ((λ u, (legacy_address u, legacy_value u)) <$> v)].

Definition pack_certificate_in_empty_tx_fragment (c : SignedCertificate Cert Auth) : list Frag :=
  [ match c with
    | StakeDelegation c a => FStakeDelegation (empty_auth_tx c a)
    | OwnerStakeDelegation c a => FOwnerStakeDelegation (empty_auth_tx c a)
    | PoolRegistration c a => FPoolRegistration (empty_auth_tx c a)
    | PoolRetirement c a => FPoolRetirement (empty_auth_tx c a)
    | PoolUpdate c a => FPoolUpdate (empty_auth_tx c a)
    | VotePlan c a => FVotePlan (empty_auth_tx c a)
    | VoteTally c a => FVoteTally (empty_auth_tx c a)
    | UpdateProposal c a => FUpdateProposal (empty_auth_tx c a)
    | UpdateVote c a => FUpdateVote (empty_auth_tx c a)
    | EvmMapping c a => FEvmMapping (empty_auth_tx c a)
    end ].

Definition pack_destination (token_id : TokenIdentifier TokenName PolicyHash) (policy : Policy)
    (destination : Destination Key Hash) : result Error Frag :=
  match address_kind (chain_address (destination_address destination)) with
  | Account pk | Single pk =>
      let mint_token := mkMintToken (token_name token_id) policy pk (destination_value destination) in
      if decide (hash (mint_policy mint_token) ≠ policy_hash token_id)
      then Err TokenIdentifierMintingPolicyHashMismatch
      else Ok (FMintToken (empty_auth_tx mint_token tt))
  | _ => Err TokenInvalidAddressType
  end.
Fixpoint pack_destinations (token_id : TokenIdentifier TokenName PolicyHash) (policy : Policy)
    (ds : list (Destination Key Hash)) : result Error (list Frag) :=
  match ds with
  | [] => Ok []
  | d :: ds' =>
      let? f := pack_destination token_id policy d in
      let? fs := pack_destinations token_id policy ds' in
      Ok (f :: fs)
  end.
Definition pack_tokens_in_mint_token_fragments (t : InitialToken Key Hash TokenName Policy PolicyHash)
    : result Error (list Frag) :=
  pack_destinations (token_id t) (policy t) (to t).

(** [TryFrom<&Initial> for Vec<Fragment>] *)
Definition initial_fragments (i : Init) : option (result Error (list Frag)) :=
  match i with
  | Fund utxo => Ok <$> pack_utxo_in_message utxo
  | Cert_ cert => Some (Ok (pack_certificate_in_empty_tx_fragment cert))
  | LegacyFund utxo => Ok <$> pack_legacy_utxo_in_message utxo
  | Token token => Some (pack_tokens_in_mint_token_fragments token)
  end.

(** The loop of [to_block]; an error is unwrapped. *)
Fixpoint push_initial (il : list Init) : option (list Frag) :=
  match il with
  | [] => Some []
  | i :: il' =>
      match initial_fragments i with
      | Some (Ok fs) => app fs <$> push_initial il'
      | _ => None
      end
  end.

Definition to_block (c : Conf) : option Blk :=
  fs ← push_initial (initial c);
  Some (mkBlock Genesis (0, 0)%Z (FInitial (into_config_params (blockchain_configuration c)) :: fs)).

(** ** What survives *)

(** The key that tokens are minted to *)
Definition destination_key (d : Destination Key Hash) : option Key :=
  match address_kind (chain_address (destination_address d)) with
  | Account pk | Single pk => Some pk
  | _ => None
  end.
(** Initial fragments that a block can be made of *)
Definition packable (i : Init) : Prop :=
  match i with
  | Fund us => 1 ≤ length us < 255
  | LegacyFund us => 1 ≤ length us < 255
  | Cert_ _ => True
  | Token t => Forall (λ d, is_Some (destination_key d) ∧ hash (policy t) = policy_hash (token_id t)) (to t)
  end.
(** Certificates that are read from a block *)
Definition readable (i : Init) : bool :=
  match i with
  | Cert_ (StakeDelegation _ _ | PoolRegistration _ _ | VotePlan _ _) => true
  | Cert_ _ => false
  | _ => true
  end.
(** The initial fragments as they are read back: the prefix of an address is
    lost, a token is split by its destinations, which become accounts of the
    discrimination of the chain. *)
Definition read_back (d : Discrimination) (i : Init) : list Init :=
  match i with
  | Fund us => [Fund ((λ u, mkUTxO (address_from (chain_address (address u))) (value u)) <$> us)]
  | Token t =>
      omap (λ x, (λ pk, Token (mkToken (token_id t) (policy t)
                   [mkDestination (address_from (mkChainAddress d (Account pk))) (destination_value x)]))
                 <$> destination_key x) (to t)
  | _ => [i]
  end.
(** Initial fragments that are read back as they were *)
Definition canonical (d : Discrimination) (i : Init) : Prop :=
  match i with
  | Fund us => Forall (λ u, prefix (address u) = "ca"%string) us
  | Cert_ _ => readable i = true
  | LegacyFund _ => True
  | Token t => ∃ pk v, to t = [mkDestination (address_from (mkChainAddress d (Account pk))) v]
  end.

Lemma read_back_canonical d i : canonical d i → readable i = true ∧ read_back d i = [i].
Proof.
  destruct i as [us|c|us|[tid p ds]]; cbn [canonical read_back]; [|done..|].
  - intros Hus. split; [done|]. do 2 f_equal. induction Hus as [|[[pre ca] v] us Hu _ IH]; [done|].
    rewrite fmap_cons, IH. cbn in Hu. by subst pre.
  - intros (pk & v & Hto). cbn in Hto. by subst ds.
Qed.

Lemma pack_destinations_ok d tid p ds :
  match pack_destinations tid p ds with
  | Ok fs =>
      Forall (λ d, is_Some (destination_key d) ∧ hash p = policy_hash tid) ds ∧
      read_messages d fs = Some (Ok (read_back d (Token (mkToken tid p ds))))
  | Err _ => ¬ Forall (λ d, is_Some (destination_key d) ∧ hash p = policy_hash tid) ds
  end.
Proof.
  induction ds as [|x ds IH]; [by split; [constructor|]|]. cbn [pack_destinations]. unfold pack_destination.
  destruct (destination_key x) as [pk|] eqn:Hk.
  - assert (∀ (A : Type) (f : Key → A) (g : A),
      match address_kind (chain_address (destination_address x)) with Account pk | Single pk => f pk | _ => g end = f pk) as Hm.
    { intros. unfold destination_key in Hk. destruct (address_kind _); naive_solver. }
    rewrite Hm. clear Hm. case_decide as Hh; [rewrite Forall_cons; naive_solver|].
    cbn in Hh. destruct (pack_destinations tid p ds) as [fs|e]; [|rewrite Forall_cons; naive_solver].
    destruct IH as [Hall Hread]. split; [constructor; [split; [by eexists|done]|done]|].
    cbn [read_messages try_initial_fragment_from_message]. rewrite Hread. cbn. rewrite Hk. cbn.
    destruct tid as [tn ph]. cbn in *. by subst ph.
  - assert (∀ (A : Type) (f : Key → A) (g : A),
      match address_kind (chain_address (destination_address x)) with Account pk | Single pk => f pk | _ => g end = g) as Hm.
    { intros. unfold destination_key in Hk. destruct (address_kind _); naive_solver. }
    rewrite Hm. rewrite Forall_cons, Hk. intros [[[? [=]] _] _].
Qed.

Lemma length_check {A} (l : list A) :
  1 ≤ length l < 255 ↔ l ≠ [] ∧ (255 <=? Z.of_nat (length l))%Z = false.
Proof. rewrite Z.leb_gt. destruct l; simpl length; split; [lia|naive_solver|split; [done|lia]|intros [_ ?]; lia]. Qed.

Lemma initial_fragments_ok d i :
  match initial_fragments i with
  | Some (Ok fs) =>
      packable i ∧
      read_messages d fs = if readable i then Some (Ok (read_back d i)) else Some (Err Block0MessageUnexpected)
  | _ => ¬ packable i
  end.
Proof.
  destruct i as [us|c|us|t]; cbn [initial_fragments].
  - unfold pack_utxo_in_message. pose proof (length_check us) as Hlen. rewrite length_fmap.
    case_decide as Hd; [apply fmap_nil_inv in Hd; cbn; tauto|].
    assert (us ≠ []) by (by intros ->). destruct (255 <=? _)%Z; cbn; [naive_solver|].
    split; [tauto|]. do 4 f_equal. by rewrite <-list_fmap_compose.
  - by destruct c.
  - unfold pack_legacy_utxo_in_message. pose proof (length_check us) as Hlen.
    case_decide as Hd; [cbn; tauto|]. destruct (255 <=? _)%Z eqn:Hl; cbn; [naive_solver|].
    split; [tauto|]. unfold extend_inits_with_legacy_utxo. rewrite length_fmap, Hl.
    rewrite decide_False by (by intros ?%fmap_nil_inv). cbn. do 4 f_equal.
    rewrite <-list_fmap_compose. etrans; [|apply list_fmap_id]. apply list_fmap_ext. by intros ? [].
  - pose proof (pack_destinations_ok d (token_id t) (policy t) (to t)) as Ht.
    unfold pack_tokens_in_mint_token_fragments. destruct t. cbn in *. by destruct (pack_destinations _ _ _).
Qed.

Lemma read_messages_app d fs gs il :
  read_messages d fs = Some (Ok il) →
  read_messages d (fs ++ gs) =
  match read_messages d gs with Some (Ok jl) => Some (Ok (il ++ jl)) | r => r end.
Proof.
  revert il. induction fs as [|f fs IH]; intros il; cbn [read_messages app].
  { intros [= <-]. by destruct (read_messages d gs) as [[]|]. }
  destruct (try_initial_fragment_from_message d f) as [[i|]|]; [|done..].
  destruct (read_messages d fs) as [[il'|]|]; [|done..]. intros [= <-].
  rewrite (IH il') by done. by destruct (read_messages d gs) as [[]|].
Qed.
Lemma read_messages_app_Err d fs gs e :
  read_messages d fs = Some (Err e) → read_messages d (fs ++ gs) = Some (Err e).
Proof.
  induction fs as [|f fs IH]; cbn [read_messages app]; [done|].
  destruct (try_initial_fragment_from_message d f) as [[i|]|]; [|done..].
  destruct (read_messages d fs) as [[il'|]|]; [done| |done]. intros [= ->]. by rewrite IH.
Qed.

Lemma push_initial_ok d il :
  match push_initial il with
  | Some fs =>
      Forall packable il ∧
      read_messages d fs =
      if forallb readable il then Some (Ok (il ≫= read_back d)) else Some (Err Block0MessageUnexpected)
  | None => ¬ Forall packable il
  end.
Proof.
  induction il as [|i il IH]; [by split; [constructor|]|]. cbn [push_initial forallb].
  pose proof (initial_fragments_ok d i) as Hi.
  destruct (initial_fragments i) as [[fs|]|]; [|rewrite Forall_cons; tauto..].
  destruct Hi as [Hpi Hri]. destruct (push_initial il) as [gs|]; cbn [fmap option_fmap option_map]; [|rewrite Forall_cons; tauto].
  destruct IH as [Hp Hr]. split; [by constructor|]. destruct (readable i); cbn [andb].
  - rewrite (read_messages_app _ _ _ _ Hri), Hr. by destruct (forallb readable il).
  - by apply read_messages_app_Err.
Qed.

(** ** The round trip of a block, and of the commands *)
Section wire.
Variable wire : LinearFee → LinearFee.
Hypothesis wire_numbers : ∀ f,
  constant (wire f) = constant f ∧ coefficient (wire f) = coefficient f ∧ certificate (wire f) = certificate f.
Hypothesis wire_certificate : ∀ f,
  per_certificate_fees (wire f) = per_certificate_fees f ∨
  per_certificate_fees (wire f) = mkPerCertificateFee None None None.
Hypothesis wire_vote : ∀ f,
  per_vote_certificate_fees (wire f) = per_vote_certificate_fees f ∨
  per_vote_certificate_fees (wire f) = mkPerVoteCertificateFee None None.

(** A block after it was written and read *)
Definition sent_fragment (f : Frag) : Frag :=
  match f with FInitial ps => FInitial (sent wire <$> ps) | _ => f end.
Definition sent_block (b : Blk) : Blk := mkBlock (block_version b) (block_date b) (sent_fragment <$> fragments b).

Lemma push_initial_sent il fs : push_initial il = Some fs → sent_fragment <$> fs = fs.
Proof.
  assert (∀ tid p ds fs, pack_destinations tid p ds = Ok fs → sent_fragment <$> fs = fs) as Hds.
  { intros tid p ds. induction ds as [|x ds IH]; intros fs'; cbn [pack_destinations]; [by intros [= <-]|].
    destruct (pack_destination tid p x) as [f|] eqn:Hf; [|done].
    destruct (pack_destinations tid p ds) as [fs''|]; [|done]. intros [= <-]. rewrite fmap_cons, (IH fs'') by done.
    unfold pack_destination in Hf. by repeat case_match; simplify_eq. }
  revert fs. induction il as [|i il IH]; intros fs; cbn [push_initial]; [by intros [= <-]|].
  destruct (initial_fragments i) as [[gs|]|] eqn:Hi; [|done..].
  destruct (push_initial il) as [hs|]; [|done]. intros [= <-]. rewrite fmap_app, (IH hs) by done. f_equal.
  destruct i as [us|c|us|t]; cbn in Hi; [| |unfold pack_legacy_utxo_in_message in Hi|by injection Hi as ?%Hds].
  - unfold pack_utxo_in_message in Hi. repeat case_match; by simplify_eq/=.
  - injection Hi as <-. by destruct c.
  - repeat case_match; by simplify_eq/=.
Qed.

Lemma to_block_ok c :
  well_typed (blockchain_configuration c) →
  match to_block c with
  | None => ¬ Forall packable (initial c)
  | Some b =>
      Forall packable (initial c) ∧
      from_block (sent_block b) =
        (if forallb readable (initial c)
         then Some (Ok (mkBlock0Configuration (blockchain_configuration c)
                (initial c ≫= read_back (discrimination (blockchain_configuration c)))))
         else Some (Err (InitialFragmentsErr Block0MessageUnexpected))) ∧
      (Forall (canonical (discrimination (blockchain_configuration c))) (initial c) →
       from_block (sent_block b) = Some (Ok c))
  end.
Proof.
  intros Hwt. set (d := discrimination (blockchain_configuration c)). unfold to_block.
  pose proof (push_initial_ok d (initial c)) as Hp.
  destruct (push_initial (initial c)) as [fs|] eqn:Hfs; cbn [mbind option_bind]; [|done].
  destruct Hp as [Hpack Hread]. split; [done|].
  assert (from_block (sent_block (mkBlock Genesis (0, 0)%Z (FInitial (into_config_params (blockchain_configuration c)) :: fs))) =
    if forallb readable (initial c)
    then Some (Ok (mkBlock0Configuration (blockchain_configuration c) (initial c ≫= read_back d)))
    else Some (Err (InitialFragmentsErr Block0MessageUnexpected))) as Heq.
  { unfold from_block, sent_block. cbn [fragments]. rewrite fmap_cons. cbn [sent_fragment].
    rewrite config_params_roundtrip, (push_initial_sent _ _ Hfs) by done. fold d. rewrite Hread.
    by destruct (forallb readable (initial c)). }
  split; [done|]. intros Hcan. rewrite Heq. destruct c as [conf il]. cbn in *. clear -Hcan.
  assert (forallb readable il = true ∧ il ≫= read_back d = il) as [-> ->]; [|done].
  induction Hcan as [|i il Hi _ [IH1 IH2]]; [done|].
  apply read_back_canonical in Hi as [H1 H2]. cbn [forallb]. rewrite H1, IH1. split; [done|].
  rewrite bind_cons, H2, IH2. done.
Qed.
(** C21: a block is made of a configuration exactly if its funds have between 1
    and 254 entries each and its tokens have the hash of their policy and
    accounts or single keys as destinations; otherwise the making panics.  The
    block, written and read, gives the configuration back with the initial
    fragments as [read_back] says, and exactly the same if they are canonical;
    unless there is a certificate other than a stake delegation, a pool
    registration or a vote plan, for which the block is refused. *)
Theorem block0_roundtrip c :
  well_typed (blockchain_configuration c) →
  match to_block c with
  | None => ¬ Forall packable (initial c)
  | Some b =>
      Forall packable (initial c) ∧
      from_block (sent_block b) =
        (if forallb readable (initial c)
         then Some (Ok (mkBlock0Configuration (blockchain_configuration c)
                (initial c ≫= read_back (discrimination (blockchain_configuration c)))))
         else Some (Err (InitialFragmentsErr Block0MessageUnexpected))) ∧
      (Forall (canonical (discrimination (blockchain_configuration c))) (initial c) →
       from_block (sent_block b) = Some (Ok c))
  end.
Proof. apply to_block_ok. Qed.

(** [jcli genesis encode] and [decode]; the formats, the ledger of the chain
    library and the files are parameters.  A file that cannot be opened is
    [None], an output file that cannot be created [false]. *)
Section genesis.
Context {Yaml Bytes LedgerError : Type}.
Variable from_reader : Yaml → option Conf.
Variable to_writer : Conf → option Yaml.
Variable ledger_new : list Frag → result LedgerError unit.
Variable serialize : Blk → option Bytes.
Variable deserialize : Bytes → option Blk.

Inductive GenesisError :=
| InputInvalid
| OutputInvalid
| BlockFileCorrupted
| GenesisFileCorrupted
| GeneratedBlock0Invalid (e : LedgerError)
| BlockSerializationFailed
| GenesisSerializationFailed
| BuildingGenesisFromBlock0Failed (e : Block0ConfigurationError).

Definition ok_or {A} (e : GenesisError) (o : option A) : result GenesisError A :=
  match o with Some a => Ok a | None => Err e end.
Definition open_output (output : bool) : result GenesisError unit := if output then Ok tt else Err OutputInvalid.
Definition load_block (input : option Bytes) : result GenesisError Blk :=
  let? reader := ok_or InputInvalid input in
  ok_or BlockFileCorrupted (deserialize reader).

Definition encode_block_0 (input : option Yaml) (output : bool) : option (result GenesisError Bytes) :=
  match (let? reader := ok_or InputInvalid input in ok_or GenesisFileCorrupted (from_reader reader)) with
  | Err e => Some (Err e)
  | Ok genesis =>
      block ← to_block genesis;
      Some (let? _ := map_err GeneratedBlock0Invalid (ledger_new (fragments block)) in
            let? _ := open_output output in
            ok_or BlockSerializationFailed (serialize block))
  end.
Definition decode_block_0 (input : option Bytes) (output : bool) : option (result GenesisError Yaml) :=
  match load_block input with
  | Err e => Some (Err e)
  | Ok block =>
      r ← from_block block;
      Some (let? yaml := map_err BuildingGenesisFromBlock0Failed r in
            let? _ := open_output output in
            ok_or GenesisSerializationFailed (to_writer yaml))
  end.

(** A block that is read is the block that was written, but for the linear fee. *)
Hypothesis deserialize_serialize : ∀ b bytes, serialize b = Some bytes → deserialize bytes = Some (sent_block b).

(** Decoding an encoded file of canonical fragments prints the same
    configuration; every certificate that only [encode] knows is refused. *)
Theorem genesis_encode_decode y c bytes :
  from_reader y = Some c → well_typed (blockchain_configuration c) →
  encode_block_0 (Some y) true = Some (Ok bytes) →
  (Forall (canonical (discrimination (blockchain_configuration c))) (initial c) →
   decode_block_0 (Some bytes) true = Some (ok_or GenesisSerializationFailed (to_writer c))) ∧
  (forallb readable (initial c) = false →
   decode_block_0 (Some bytes) true =
   Some (Err (BuildingGenesisFromBlock0Failed (InitialFragmentsErr Block0MessageUnexpected)))).
Proof.
  intros Hy Hwt. unfold encode_block_0, decode_block_0, load_block. cbn [ok_or]. rewrite Hy. cbn [ok_or].
  pose proof (to_block_ok c Hwt) as Hb. destruct (to_block c) as [b|]; [|done]. cbn [mbind option_bind].
  destruct (ledger_new (fragments b)); [|done]. cbn.
  destruct (serialize b) as [bs|] eqn:Hs; [|done]. intros [= ->].
  rewrite (deserialize_serialize b bytes) by done. cbn [ok_or]. destruct Hb as (_ & Hr & Hcan).
  split; [intros ->%Hcan; done|]. intros Hno. by rewrite Hr, Hno.
Qed.
End genesis.
End wire.

End block0.
End Block0.

(** ** Examples *)
Module SampleBlock0.
Import Block0Config Block0.

Definition sample_fees : LinearFee :=
  mkLinearFee 2 1 4 (mkPerCertificateFee (Some 5%Z) None (Some 7%Z)) (mkPerVoteCertificateFee None None).
Definition conf : BlockchainConfiguration nat nat :=
  mkConfiguration 1550822014 Test GenesisPraos [3; 1] sample_fees 100 720 5 43200 100 102400 102400 (Some 2%Z)
    (Some Treasury) (Some 1000%Z) (Some (mkTaxType 0 (mkRatio 1 10) (Some 3%Z))) None
    (Some (Halving 100 (mkRatio 13 19) 1 3)) (mkConstraints None (Some (mkCapping 2 5))) [9] (Some London) None.

(** A linear fee is written with its three numbers only. *)
Definition drop_fees (f : LinearFee) : LinearFee :=
  mkLinearFee (constant f) (coefficient f) (certificate f) (mkPerCertificateFee None None None)
    (mkPerVoteCertificateFee None None).

Example conf_well_typed : well_typed conf.
Proof. unfold well_typed. cbn. repeat constructor; cbn; lia. Qed.

(** Two dates, no date, a slot of no time and the removal of a leader *)
Example duplicate_date :
  from_config_params (LeaderId := nat) (CommitteeId := nat) [Block0Date 1; Block0Date 1] =
  Some (Err (InitConfigParamDuplicate "block0_date")).
Proof. reflexivity. Qed.
Example missing_date :
  from_config_params (LeaderId := nat) (CommitteeId := nat) [DiscriminationP Test] =
  Some (Err (InitConfigParamMissing "block0_date")).
Proof. reflexivity. Qed.
Example slot_of_no_time :
  from_config_params (LeaderId := nat) (CommitteeId := nat) [SlotDuration 0] = Some (Err (SlotDurationErr 0)).
Proof. reflexivity. Qed.
Example removal_panics : from_config_params (into_config_params conf ++ [RemoveBftLeader 3]) = None.
Proof. reflexivity. Qed.

Lemma config_params_roundtrip_witness :
  from_config_params (sent drop_fees <$> into_config_params conf) = Some (Ok conf).
Proof.
  apply (config_params_roundtrip drop_fees); [done|by right|by right|].
  exact conf_well_typed.
Defined.

Definition test_account (k : nat) : Address nat nat := address_from (mkChainAddress Test (Account k)).
Definition test_single (k : nat) : Address nat nat := mkAddress "ta" (mkChainAddress Test (Single k)).
Definition sample_initial : list (Initial nat nat nat nat nat nat nat nat) :=
  [ Fund [mkUTxO (test_account 1) 10; mkUTxO (test_account 2) 20];
    Cert_ (StakeDelegation 4 5);
    LegacyFund [mkLegacy 7 70];
    Token (mkToken (mkTokenId 1 6) 3 [mkDestination (test_account 1) 5]) ].
Definition sample_block0 : Block0Configuration nat nat nat nat nat nat nat nat nat nat :=
  mkBlock0Configuration conf sample_initial.

(** A token with two destinations is read back as two tokens, of accounts. *)
Example token_is_split :
  read_back Test (Token (mkToken (mkTokenId 1 6) 3 [mkDestination (test_account 1) 5; mkDestination (test_single 2) 8])
    : Initial nat nat nat nat nat nat nat nat) =
  [ Token (mkToken (mkTokenId 1 6) 3 [mkDestination (test_account 1) 5]);
    Token (mkToken (mkTokenId 1 6) 3 [mkDestination (test_account 2) 8]) ].
Proof. reflexivity. Qed.

(** A pool retirement can be written to block 0 but not read. *)
Example retirement_is_refused :
  (b ← to_block (λ p, 2 * p) (mkBlock0Configuration conf [Cert_ (PoolRetirement 1 1)]
     : Block0Configuration nat nat nat nat nat nat nat nat nat nat); from_block (λ p, 2 * p) b) =
  Some (Err (InitialFragmentsErr Block0MessageUnexpected)).
Proof. vm_compute. reflexivity. Qed.

Lemma block0_roundtrip_witness :
  ∃ b, to_block (λ p, 2 * p) sample_block0 = Some b ∧
       from_block (λ p, 2 * p) (sent_block drop_fees b) = Some (Ok sample_block0).
Proof.
  pose proof (block0_roundtrip (λ p, 2 * p) drop_fees (λ _, conj eq_refl (conj eq_refl eq_refl))
    (λ _, or_intror eq_refl) (λ _, or_intror eq_refl) sample_block0 conf_well_typed) as Hb.
  destruct (to_block (λ p, 2 * p) sample_block0) as [b|] eqn:Hto; [|by vm_compute in Hto].
  exists b. split; [done|]. apply Hb. repeat constructor. cbn. eauto.
Defined.
End SampleBlock0.
