(* ===== verification/Rest.v ===== *)
(** * The REST interface

    Models the queries of [jormungandr/src/rest/v0/logic.rs] and
    [rest/v1/logic.rs] that compute something: those that go back over the
    epochs of the chain of the tip (rewards and stake distributions), those
    that read the storage, and those on the votes of accounts.  The context
    ([context/mod.rs]) holds what the node has published so far; texts are read
    by functions of the chain library, which are parameters.  The conversions
    of the answers to JSON are left out. *)

From S2P Require Import Prelude BlockDate Lru Deque Fragment FragmentLogs Storage Chain ChainInv Checkpoints Client.

Module Rest.
Import Reference Blockchain ChainInv.

(** [context::Error] *)
Inductive ContextError :=
| NoFullContext
| NoServerStopper
| NoSpan
| NoBlockchain
| NoBlockchainTip
| NoDiagnostic.

Section rest.
Context `{BlockStore} `{!LedgerTypes} `{!MultiverseOps} `{!LruCache HeaderHash Ref}.

Inductive Error :=
| ContextErr (e : ContextError)
| HashErr
| PublicKeyErr
| StorageErr (e : Storage.Error)
| InvalidTopic.

(** The context: the storage of the blockchain object, and the reference of
    the tip. *)
Record Context := mkContext {
  ctx_full : bool;
  ctx_span : bool;
  ctx_blockchain : option store;
  ctx_tip : option Ref;
}.
Definition ok_or {A} (e : ContextError) (o : option A) : result Error A :=
  match o with Some a => Ok a | None => Err (ContextErr e) end.
Definition blockchain (c : Context) : result Error store := ok_or NoBlockchain (ctx_blockchain c).
Definition blockchain_tip (c : Context) : result Error Ref := ok_or NoBlockchainTip (ctx_tip c).
Definition try_full (c : Context) : result Error unit := if ctx_full c then Ok tt else Err (ContextErr NoFullContext).
Definition span (c : Context) : result Error unit := if ctx_span c then Ok tt else Err (ContextErr NoSpan).

(** ** Epochs *)

(** The loop of [get_stake_distribution_at] and [get_rewards_info_epoch]; it
    ends, since it goes down the references. *)
Fixpoint find_epoch (e : Z) (tip_ref : Ref) : option Ref :=
  match tip_ref with
  | mkRef _ _ _ _ _ _ previous =>
      if (ref_epoch tip_ref =? e)%Z then Some tip_ref
      else
        match previous with
        | Some previous_epoch => if (ref_epoch previous_epoch <? e)%Z then None else find_epoch e previous_epoch
        | None => None
        end
  end.
Definition ref_at (e : Z) (tip_ref : Ref) : option Ref :=
  if (ref_epoch tip_ref <? e)%Z then None else find_epoch e tip_ref.

Definition get_rewards_info_epoch (c : Context) (e : Z) : result Error (option (Z * EpochRewardsInfo)) :=
  let? tip_ref := blockchain_tip c in
  Ok (r ← ref_at e tip_ref;
      info ← ref_rewards_info r;
      Some (ref_epoch r, info)).

Definition get_stake_distribution_at (c : Context) (e : Z) : result Error (option (Z * StakeDistribution)) :=
  let? tip_ref := blockchain_tip c in
  Ok (r ← ref_at e tip_ref;
      distribution ← stake_distribution (epoch_leadership_schedule r);
      Some (e, distribution)).

(** The loop of [get_rewards_info_history] *)
Fixpoint history_loop (length : Z) (vec : list (Z * EpochRewardsInfo)) (tip_ref : Ref) : list (Z * EpochRewardsInfo) :=
  match tip_ref with
  | mkRef _ _ _ _ info _ previous =>
      match info with
      | None => vec
      | Some epoch_rewards_info =>
          let vec := vec ++ [(ref_epoch tip_ref, epoch_rewards_info)] in
          match previous with
          | None => vec
          | Some previous_epoch =>
              if (length <=? Z.of_nat (List.length vec))%Z then vec else history_loop length vec previous_epoch
          end
      end
  end.
Definition get_rewards_info_history (c : Context) (length : Z) : result Error (list (Z * EpochRewardsInfo)) :=
  let? tip_ref := blockchain_tip c in
  Ok (history_loop length [] tip_ref).

(** ** Blocks *)
Variable parse_block_hash : string → option HeaderHash.

Definition get_tip (c : Context) : result Error HeaderHash :=
  let? tip_ref := blockchain_tip c in Ok (ref_hash tip_ref).

(** The block is then serialized. *)
Definition get_block_id (c : Context) (block_id_hex : string) : result Error (option Block) :=
  let? s := blockchain c in
  match parse_block_hash block_id_hex with
  | None => Err HashErr
  | Some h => map_err StorageErr (Storage.get h s)
  end.

(** [try_fold] of the hashes of the blocks *)
Fixpoint fold_ids (items : list (result Storage.Error Block)) (bytes : list HeaderHash) : result Error (list HeaderHash) :=
  match items with
  | [] => Ok bytes
  | Ok b :: items' => fold_ids items' (bytes ++ [header_hash (block_header b)])
  | Err e :: _ => Err (StorageErr e)
  end.
(** [count] is a [usize]; the identifiers are concatenated. *)
Definition get_block_next_id (c : Context) (block_id_hex : string) (count : nat) : result Error (option (list HeaderHash)) :=
  let? s := blockchain c in
  match parse_block_hash block_id_hex with
  | None => Err HashErr
  | Some block_id =>
      let? tip := blockchain_tip c in
      match Storage.stream_from_to block_id (ref_hash tip) s with
      | Err (Storage.CannotIterate | Storage.BlockNotFound) => Ok None
      | Err e => Err (StorageErr e)
      | Ok stream => let? ids := fold_ids (take count stream) [] in Ok (Some ids)
      end
  end.

(** ** What the queries answer *)
Section valid.
Variables (B0 : Block) (report_all : bool) (trusted : Header → Prop).
#[local] Abbreviation valid_chain := (valid_chain B0 report_all trusted).

(** The last block of every epoch of a chain, most recent first *)
Fixpoint heads_before (e : Z) (l : list Ref) : list Ref :=
  match l with
  | [] => []
  | x :: l' => if (ref_epoch x <? e)%Z then x :: heads_before (ref_epoch x) l' else heads_before e l'
  end.
Definition epoch_heads (l : list Ref) : list Ref :=
  match l with [] => [] | r :: rest => r :: heads_before (ref_epoch r) rest end.
(** The rewards of the epochs down to the first one without *)
Fixpoint reported (l : list Ref) : list (Z * EpochRewardsInfo) :=
  match l with
  | [] => []
  | x :: l' => match ref_rewards_info x with Some i => (ref_epoch x, i) :: reported l' | None => [] end
  end.

Lemma head_filter_split {A} (P : A → Prop) `{∀ x, Decision (P x)} (l : list A) :
  match head (filter P l) with
  | Some p => ∃ l1 l2, l = l1 ++ p :: l2 ∧ P p ∧ Forall (λ x, ¬ P x) l1
  | None => Forall (λ x, ¬ P x) l
  end.
Proof.
  induction l as [|x l IH]; [constructor|]. rewrite filter_cons. case_decide as Hx; [by exists [], l|].
  destruct (head (filter P l)) as [p|]; [|by constructor].
  destruct IH as (l1 & l2 & -> & Hp & Hl1). exists (x :: l1), l2. by repeat constructor.
Qed.

(** The chain below a reference: the blocks of its epoch, then the chain of
    [last_ref_previous_epoch]. *)
Lemma chain_epoch_split r rest :
  valid_chain (r :: rest) →
  match last_ref_previous_epoch r with
  | Some p => ∃ l1 l2, rest = l1 ++ p :: l2 ∧ valid_chain (p :: l2) ∧ (ref_epoch p < ref_epoch r)%Z ∧
                Forall (λ x, ref_epoch x = ref_epoch r) l1
  | None => Forall (λ x, ref_epoch x = ref_epoch r) rest
  end.
Proof.
  intros Hv. unfold last_ref_previous_epoch. rewrite (chain_previous _ _ _ _ _ Hv). unfold last_of_earlier_epoch.
  assert (∀ x, x ∈ rest → (ref_epoch x ≤ ref_epoch r)%Z) as Hle by (intros; by eapply chain_epochs).
  pose proof (head_filter_split (λ p, (ref_epoch p < ref_epoch r)%Z) rest) as Hh.
  destruct (head (filter _ rest)) as [p|].
  - destruct Hh as (l1 & l2 & -> & Hp & Hl1). exists l1, l2. rewrite Forall_forall in Hl1 |- *. split_and!; [done| |done|].
    + by apply (Checkpoints.valid_chain_suffix _ _ _ (r :: l1)).
    + intros x Hx. specialize (Hl1 x Hx). specialize (Hle x ltac:(set_solver)). simpl in *. lia.
  - rewrite Forall_forall in Hh |- *. intros x Hx. specialize (Hh x Hx). specialize (Hle x Hx). simpl in *. lia.
Qed.

(** The blocks of an epoch share its rewards and its leadership schedule. *)
Lemma chain_epoch_shared r rest x :
  valid_chain (r :: rest) → x ∈ rest → ref_epoch x = ref_epoch r →
  ref_rewards_info x = ref_rewards_info r ∧ epoch_leadership_schedule x = epoch_leadership_schedule r.
Proof.
  revert rest r. apply (valid_chain_ind B0 report_all trusted (λ r rest, x ∈ rest → ref_epoch x = ref_epoch r → _ ∧ _)).
  - intros r _ Hx. by apply elem_of_nil in Hx.
  - intros p r rest Hl Hp IH Hx He. pose proof (date_ltb_epoch _ _ (link_date _ _ _ _ Hl)) as Hle.
    assert (ref_epoch p = ref_epoch r) as Hpr.
    { apply elem_of_cons in Hx as [->|Hx]; [done|]. apply (chain_epochs _ _ _ _ _ _ Hp) in Hx. unfold ref_epoch in *. lia. }
    destruct Hl as (el & b & _ & _ & _ & _ & Hel & _ & _ & _ & _ & -> & -> & _).
    unfold new_epoch_leadership_from in Hel. unfold ref_epoch in Hpr. rewrite Hpr, Z.ltb_irrefl in Hel. injection Hel as <-. cbn.
    apply elem_of_cons in Hx as [->|Hx]; [done|]. apply IH; [done|]. unfold ref_epoch in *. congruence.
Qed.

Lemma find_epoch_eq e r :
  find_epoch e r =
  if (ref_epoch r =? e)%Z then Some r
  else match last_ref_previous_epoch r with
       | Some p => if (ref_epoch p <? e)%Z then None else find_epoch e p
       | None => None
       end.
Proof. by destruct r. Qed.

(** The reference of an epoch is that of its last block in the chain. *)
Lemma ref_at_last e r rest :
  valid_chain (r :: rest) → ref_at e r = head (filter (λ x, ref_epoch x = e) (r :: rest)).
Proof.
  unfold ref_at. remember (length rest) as n eqn:Hn. revert r rest Hn.
  induction (Nat.lt_wf_0 n) as [n _ IH]. intros r rest -> Hv.
  destruct (Z.ltb_spec (ref_epoch r) e) as [Hlt|Hge].
  { rewrite list_filter_none; [done|]. intros x [->|Hx]%elem_of_cons; [lia|].
    apply (chain_epochs _ _ _ _ _ _ Hv) in Hx. lia. }
  rewrite find_epoch_eq. rewrite filter_cons. destruct (Z.eqb_spec (ref_epoch r) e) as [He|He].
  { by rewrite decide_True. }
  rewrite decide_False by done. pose proof (chain_epoch_split r rest Hv) as Hs.
  destruct (last_ref_previous_epoch r) as [p|].
  - destruct Hs as (l1 & l2 & -> & Hp & Hlt & Hl1). rewrite filter_app.
    rewrite (list_filter_none _ l1) by (rewrite Forall_forall in Hl1; intros x Hx%Hl1; lia). cbn [app].
    specialize (IH (length l2) ltac:(rewrite length_app; cbn; lia) p l2 eq_refl Hp).
    destruct (Z.ltb_spec (ref_epoch p) e); by rewrite <-IH.
  - rewrite list_filter_none; [done|]. rewrite Forall_forall in Hs. intros x Hx%Hs. lia.
Qed.

Lemma history_loop_eq n vec r :
  history_loop n vec r =
  match ref_rewards_info r with
  | None => vec
  | Some i =>
      let vec := vec ++ [(ref_epoch r, i)] in
      match last_ref_previous_epoch r with
      | None => vec
      | Some p => if (n <=? Z.of_nat (length vec))%Z then vec else history_loop n vec p
      end
  end.
Proof. by destruct r. Qed.

Lemma heads_before_app e l1 l2 :
  Forall (λ x, ref_epoch x = e) l1 → heads_before e (l1 ++ l2) = heads_before e l2.
Proof. induction 1 as [|x l1 Hx _ IH]; [done|]. cbn. by rewrite (proj2 (Z.ltb_ge _ _)) by lia. Qed.

Lemma history_loop_ok n vec r rest :
  valid_chain (r :: rest) →
  history_loop n vec r = vec ++ take (Nat.max 1 (Z.to_nat n - length vec)) (reported (epoch_heads (r :: rest))).
Proof.
  remember (length rest) as m eqn:Hm. revert vec r rest Hm.
  induction (Nat.lt_wf_0 m) as [m _ IH]. intros vec r rest -> Hv.
  rewrite history_loop_eq. cbn [epoch_heads reported].
  destruct (ref_rewards_info r) as [i|]; [|by rewrite take_nil, app_nil_r].
  pose proof (chain_epoch_split r rest Hv) as Hs. cbv zeta. destruct (last_ref_previous_epoch r) as [p|].
  - destruct Hs as (l1 & l2 & -> & Hp & Hlt & Hl1). rewrite heads_before_app by done. cbn [heads_before].
    rewrite (proj2 (Z.ltb_lt _ _)) by done. rewrite length_app. cbn [length].
    destruct (Z.leb_spec n (Z.of_nat (length vec + 1))) as [Hn|Hn].
    + replace (Nat.max 1 (Z.to_nat n - length vec)) with 1 by lia. done.
    + rewrite (IH (length l2) ltac:(rewrite length_app; cbn; lia) _ p l2 eq_refl Hp), length_app. cbn [length epoch_heads].
      replace (Nat.max 1 (Z.to_nat n - length vec)) with (S (Nat.max 1 (Z.to_nat n - (length vec + 1)))) by lia.
      by rewrite <-(assoc_L (++)).
  - rewrite <-(app_nil_r rest), heads_before_app by done.
    replace (Nat.max 1 (Z.to_nat n - length vec)) with (S (pred (Nat.max 1 (Z.to_nat n - length vec)))) by lia.
    cbn [heads_before reported take]. by rewrite take_nil.
Qed.
(** C22: with a valid chain down from the tip, the rewards and the stake
    distribution of an epoch are those that all blocks of the chain in that
    epoch share, and there is no answer exactly if there is no such block or it
    has none; the history is one entry for each of the last epochs of the chain
    that have blocks, down to the first one without rewards, at most as many
    as asked for, but one if zero are. *)
Theorem epoch_queries_correct c r rest e n :
  ctx_tip c = Some r → valid_chain (r :: rest) →
  (match head (filter (λ x, ref_epoch x = e) (r :: rest)) with
   | None => get_rewards_info_epoch c e = Ok None ∧ get_stake_distribution_at c e = Ok None
   | Some x =>
       get_rewards_info_epoch c e = Ok ((λ i, (e, i)) <$> ref_rewards_info x) ∧
       get_stake_distribution_at c e = Ok ((λ d, (e, d)) <$> stake_distribution (epoch_leadership_schedule x)) ∧
       (∀ y, y ∈ r :: rest → ref_epoch y = e →
          ref_rewards_info y = ref_rewards_info x ∧ epoch_leadership_schedule y = epoch_leadership_schedule x)
   end) ∧
  get_rewards_info_history c n = Ok (take (Nat.max 1 (Z.to_nat n)) (reported (epoch_heads (r :: rest)))).
Proof.
  intros Hc Hv. unfold get_rewards_info_epoch, get_stake_distribution_at, get_rewards_info_history, blockchain_tip.
  rewrite Hc. cbn [ok_or]. rewrite (ref_at_last e r rest Hv). split.
  - pose proof (head_filter_split (λ x, ref_epoch x = e) (r :: rest)) as Hh.
    destruct (head (filter _ (r :: rest))) as [x|]; [|done]. destruct Hh as (l1 & l2 & Hl & Hx & Hl1).
    cbn [mbind option_bind]. rewrite Hx. split; [by destruct (ref_rewards_info x)|].
    split; [by destruct (stake_distribution _)|]. intros y Hy Hye. rewrite Hl in Hy, Hv.
    apply Checkpoints.valid_chain_suffix in Hv. rewrite Forall_forall in Hl1.
    apply elem_of_app in Hy as [Hy%Hl1|[->|Hy]%elem_of_cons]; [done|done|].
    eapply chain_epoch_shared; [done..|congruence].
  - rewrite (history_loop_ok n [] r rest Hv). cbn [length app]. by rewrite Nat.sub_0_r.
Qed.

End valid.

(** The identifiers of the blocks after a block, up to the tip: the first
    [count] of them, however many that is; nothing if the block is unknown or
    not on the chain of the tip. *)
Theorem block_next_id_correct `{!ChainTypesLaws} c s r hex h count :
  ctx_blockchain c = Some s → ctx_tip c = Some r → parse_block_hash hex = Some h → Client.iterates_branches s →
  match bs_is_ancestor (hash_bytes h) (hash_bytes (ref_hash r)) s with
  | Ok (Some d) =>
      ∃ bs, Client.branch h bs (ref_hash r) ∧ Z.of_nat (length bs) = d ∧
        get_block_next_id c hex count = Ok (Some ((λ b, header_hash (block_header b)) <$> take count bs))
  | Ok None | Err BeBlockNotFound => get_block_next_id c hex count = Ok None
  | Err e => get_block_next_id c hex count = Err (StorageErr (Storage.from_backend e))
  end.
Proof.
  intros Hs Hr Hh Hit. unfold get_block_next_id, blockchain, blockchain_tip. rewrite Hs, Hr, Hh. cbn [ok_or].
  unfold Storage.stream_from_to. destruct (bs_is_ancestor _ _ _) as [[d|]|e] eqn:Ha; cbn [map_err]; [|done|by destruct e].
  destruct (Hit _ _ _ Ha) as (bs & Hiter & Hlen & Hb). exists bs. split_and!; [done..|].
  rewrite Hiter. cbn [map_err]. rewrite <-list_fmap_compose.
  erewrite (list_fmap_ext _ Ok bs); [|by intros; unfold compose, Storage.deserialize_block; cbn; rewrite block_roundtrip].
  assert (∀ l acc, fold_ids (Ok <$> l) acc = Ok (acc ++ ((λ b, header_hash (block_header b)) <$> l))) as Hfold.
  { induction l as [|b l IH]; intros acc; cbn; [by rewrite app_nil_r|]. rewrite IH. by rewrite <-(assoc_L (++)). }
  by rewrite <-fmap_take, Hfold.
Qed.

End rest.
End Rest.

(** ** Votes of accounts (rest/v1/logic.rs) *)
Module Votes.
Import Rest.
Section votes.
Context {PlanId Account : Type} `{Countable PlanId, Countable Account}.

(** A proposal is the accounts that voted on it. *)
Record PlanStatus := mkVotePlan { plan_id : PlanId; proposals : list (gset Account) }.
Record AccountVotes := mkAccountVotes { vote_plan_id : PlanId; votes : list Z }.

(** [i.try_into().unwrap()] of a [usize] as [u8] *)
Definition to_u8 (i : nat) : option Z := if (Z.of_nat i <? 256)%Z then Some (Z.of_nat i) else None.

(** [proposals.enumerate().filter(..).map(..).collect()], from index [i] *)
Fixpoint voted (a : Account) (i : nat) (ps : list (gset Account)) : option (list Z) :=
  match ps with
  | [] => Some []
  | p :: ps' =>
      if decide (a ∈ p) then
        n ← to_u8 i;
        ns ← voted a (S i) ps';
        Some (n :: ns)
      else voted a (S i) ps'
  end.

Definition find_plan (id : PlanId) (plans : list PlanStatus) : option PlanStatus :=
  head (filter (λ p, plan_id p = id) plans).

(** The queries on the plans that are active in the ledger of the tip; the
    outer [option] is a panic. *)
Definition account_votes_with_plan (plans : list PlanStatus) (id : PlanId) (a : Account) : option (option (list Z)) :=
  match find_plan id plans with
  | None => Some None
  | Some plan => Some <$> voted a 0 (proposals plan)
  end.
Definition account_votes (plans : list PlanStatus) (a : Account) : option (list AccountVotes) :=
  mapM (λ plan, mkAccountVotes (plan_id plan) <$> voted a 0 (proposals plan)) plans.

(** [UnspecifiedAccountIdentifier::from_single_account(..).encode_hex()] *)
Variable encode_hex : Account → string.
Abbreviation VoteMap := (gmap string (gmap PlanId (list Z))).

(** [result.entry(account).or_default().entry(id).or_default().push(i)] *)
Definition push_vote (id : PlanId) (i : Z) (key : string) (m : VoteMap) : VoteMap :=
  let inner := default ∅ (m !! key) in
  <[key := <[id := default [] (inner !! id) ++ [i]]> inner]> m.
(** The inner loop: the accounts of a proposal, in any order *)
Fixpoint push_accounts (id : PlanId) (i : nat) (accounts : list Account) (m : VoteMap) : option VoteMap :=
  match accounts with
  | [] => Some m
  | a :: accounts' =>
      n ← to_u8 i;
      push_accounts id i accounts' (push_vote id n (encode_hex a) m)
  end.
Fixpoint push_proposals (id : PlanId) (i : nat) (ps : list (gset Account)) (m : VoteMap) : option VoteMap :=
  match ps with
  | [] => Some m
  | p :: ps' => m' ← push_accounts id i (elements p) m; push_proposals id (S i) ps' m'
  end.
Fixpoint push_plans (plans : list PlanStatus) (m : VoteMap) : option VoteMap :=
  match plans with
  | [] => Some m
  | p :: plans' => m' ← push_proposals (plan_id p) 0 (proposals p) m; push_plans plans' m'
  end.
Definition accounts_votes_all (plans : list PlanStatus) : option (gmap string (list AccountVotes)) :=
  m ← push_plans plans ∅;
  Some ((λ inner : gmap PlanId (list Z), (λ p : PlanId * list Z, mkAccountVotes p.1 p.2) <$> map_to_list inner) <$> (m : VoteMap)).

(** The queries with the context: the span, the account, then the tip. *)
Section queries.
Context `{BlockStore} `{!LedgerTypes} `{!MultiverseOps}.
Variable active_vote_plans : Ledger → list PlanStatus.
Variable parse_account_id : string → option Account.

Definition vote_plans (c : Rest.Context) : result Rest.Error (list PlanStatus) :=
  let? r := Rest.blockchain_tip c in Ok (active_vote_plans (Reference.ledger_of r)).
Definition get_account_votes_with_plan (c : Rest.Context) (id : PlanId) (account_id_hex : string)
    : option (result Rest.Error (option (list Z))) :=
  match (let? _ := Rest.span c in
         match parse_account_id account_id_hex with
         | None => Err Rest.PublicKeyErr
         | Some a => let? plans := vote_plans c in Ok (a, plans)
         end) with
  | Err e => Some (Err e)
  | Ok (a, plans) => Ok <$> account_votes_with_plan plans id a
  end.
Definition get_account_votes (c : Rest.Context) (account_id_hex : string)
    : option (result Rest.Error (option (list AccountVotes))) :=
  match (let? _ := Rest.span c in
         match parse_account_id account_id_hex with
         | None => Err Rest.PublicKeyErr
         | Some a => let? plans := vote_plans c in Ok (a, plans)
         end) with
  | Err e => Some (Err e)
  | Ok (a, plans) => (λ l, Ok (Some l)) <$> account_votes plans a
  end.
Definition get_accounts_votes_all (c : Rest.Context) : option (result Rest.Error (gmap string (list AccountVotes))) :=
  match (let? _ := Rest.span c in vote_plans c) with
  | Err e => Some (Err e)
  | Ok plans => Ok <$> accounts_votes_all plans
  end.
End queries.

(** ** The two queries agree *)
Context `{!Inj (=) (=) encode_hex}.

(** The votes recorded for an account and a plan *)
Definition look (m : VoteMap) (a : Account) (id : PlanId) : list Z :=
  default [] (m !! encode_hex a ≫= λ inner, inner !! id).
(** No empty list of votes is recorded. *)
Definition tight (m : VoteMap) : Prop :=
  ∀ key inner id vs, m !! key = Some inner → inner !! id = Some vs → vs ≠ [].

Lemma look_push id n a m a' id' :
  look (push_vote id n (encode_hex a) m) a' id' =
  look m a' id' ++ (if decide (a' = a ∧ id' = id) then [n] else []).
Proof.
  unfold look, push_vote. destruct (decide (a' = a)) as [->|Ha].
  - rewrite lookup_insert_eq. cbn. destruct (decide (id' = id)) as [->|Hid].
    + rewrite lookup_insert_eq, decide_True by done. cbn. by destruct (m !! encode_hex a).
    + rewrite lookup_insert_ne, decide_False, app_nil_r by naive_solver. destruct (m !! encode_hex a); cbn; [done|].
      by rewrite lookup_empty.
  - rewrite lookup_insert_ne by (by intros ?%(inj encode_hex)). by rewrite decide_False, app_nil_r by naive_solver.
Qed.
Lemma tight_push id n key m : tight m → tight (push_vote id n key m).
Proof.
  intros Hm key' inner id' vs Hi Hv. unfold push_vote in Hi.
  destruct (decide (key' = key)) as [->|]; [|rewrite lookup_insert_ne in Hi by done; by eapply Hm].
  rewrite lookup_insert_eq in Hi. injection Hi as <-.
  destruct (decide (id' = id)) as [->|]; [rewrite lookup_insert_eq in Hv; injection Hv as <-; by destruct (default _ _)|].
  rewrite lookup_insert_ne in Hv by done. destruct (m !! key) as [inner|] eqn:Hk; cbn in Hv; [by eapply Hm|].
  by rewrite lookup_empty in Hv.
Qed.

Lemma push_accounts_ok id i accounts m :
  i < 256 → NoDup accounts → tight m →
  ∃ m', push_accounts id i accounts m = Some m' ∧ tight m' ∧
    ∀ a id', look m' a id' = look m a id' ++ (if decide (a ∈ accounts ∧ id' = id) then [Z.of_nat i] else []).
Proof.
  intros Hi Hnd. assert (to_u8 i = Some (Z.of_nat i)) as Hu.
  { unfold to_u8. by rewrite (proj2 (Z.ltb_lt _ _)) by lia. }
  revert m. induction Hnd as [|a accounts Ha Hnd IH]; intros m Hm; cbn [push_accounts].
  { exists m. split_and!; [done..|]. intros. rewrite decide_False, app_nil_r; [done|]. intros [?%elem_of_nil _]. done. }
  rewrite Hu. cbn [mbind option_bind].
  destruct (IH _ (tight_push id (Z.of_nat i) (encode_hex a) m Hm)) as (m' & -> & Hm' & Hl).
  exists m'. split_and!; [done..|]. intros a' id'. rewrite Hl, look_push, <-(assoc_L (++)). f_equal.
  repeat case_decide; try done; set_solver.
Qed.

Lemma voted_app a i ps : i + length ps ≤ 256 → ∃ vs, voted a i ps = Some vs.
Proof.
  revert i. induction ps as [|p ps IH]; intros i Hi; cbn [voted length] in *; [by eexists|].
  destruct (IH (S i)) as [vs Hvs]; [lia|]. rewrite Hvs. case_decide; [|by eexists].
  unfold to_u8. rewrite (proj2 (Z.ltb_lt _ _)) by lia. cbn. by eexists.
Qed.

Lemma push_proposals_ok id ps i m :
  i + length ps ≤ 256 → tight m →
  ∃ m', push_proposals id i ps m = Some m' ∧ tight m' ∧
    ∀ a id', look m' a id' = look m a id' ++ (if decide (id' = id) then default [] (voted a i ps) else []).
Proof.
  revert i m. induction ps as [|p ps IH]; intros i m Hi Hm; cbn [push_proposals length] in *.
  { exists m. split_and!; [done..|]. intros. case_decide; cbn; by rewrite app_nil_r. }
  destruct (push_accounts_ok id i (elements p) m) as (m1 & -> & Hm1 & Hl1); [lia|apply NoDup_elements|done|].
  cbn [mbind option_bind]. destruct (IH (S i) m1) as (m' & -> & Hm' & Hl'); [lia|done|].
  exists m'. split_and!; [done..|]. intros a id'. rewrite Hl', Hl1, <-(assoc_L (++)). f_equal. cbn [voted].
  destruct (decide (id' = id)) as [->|Hid]; [|by rewrite decide_False by naive_solver].
  destruct (voted_app a (S i) ps) as [vs ->]; [lia|]. unfold to_u8. rewrite (proj2 (Z.ltb_lt _ _)) by lia. cbn.
  destruct (decide (a ∈ p)) as [Ha|Ha]; [rewrite decide_True|rewrite decide_False]; try done; set_solver.
Qed.
Definition plan_votes (a : Account) (plan : PlanStatus) : list Z := default [] (voted a 0 (proposals plan)).

Lemma push_plans_ok plans m :
  Forall (λ p, length (proposals p) ≤ 256) plans → tight m →
  ∃ m', push_plans plans m = Some m' ∧ tight m' ∧
    ∀ a id, look m' a id = look m a id ++ (filter (λ p, plan_id p = id) plans ≫= plan_votes a).
Proof.
  intros Hall. revert m. induction Hall as [|p plans Hp _ IH]; intros m Hm; cbn [push_plans].
  { exists m. split_and!; [done..|]. intros. by rewrite app_nil_r. }
  destruct (push_proposals_ok (plan_id p) (proposals p) 0 m) as (m1 & -> & Hm1 & Hl1); [done..|].
  cbn [mbind option_bind]. destruct (IH m1 Hm1) as (m' & -> & Hm' & Hl'). exists m'. split_and!; [done..|].
  intros a id. rewrite Hl', Hl1, <-(assoc_L (++)), filter_cons. f_equal.
  repeat case_decide; naive_solver.
Qed.

Lemma tight_lookup m a id vs :
  tight m → (∃ inner, m !! encode_hex a = Some inner ∧ inner !! id = Some vs) ↔ look m a id = vs ∧ vs ≠ [].
Proof.
  intros Hm. unfold look. split.
  - intros (inner & Hi & Hv). rewrite Hi. cbn. rewrite Hv. split; [done|by eapply Hm].
  - intros [Hl Hne]. destruct (m !! encode_hex a) as [inner|]; cbn in Hl; [|by subst].
    exists inner. split; [done|]. destruct (inner !! id); cbn in Hl; by subst.
Qed.

Lemma filter_unique plans p :
  NoDup (plan_id <$> plans) → p ∈ plans → filter (λ q, plan_id q = plan_id p) plans = [p].
Proof.
  induction plans as [|q plans IH]; [by intros _ ?%elem_of_nil|]. rewrite fmap_cons. intros [Hq Hnd]%NoDup_cons.
  rewrite filter_cons. intros [->|Hp]%elem_of_cons.
  - rewrite decide_True by done. f_equal. apply list_filter_none. intros x Hx Heq. apply Hq. rewrite <-Heq.
    by apply list_elem_of_fmap_2.
  - rewrite decide_False; [by apply IH|]. intros Heq. apply Hq. rewrite Heq. by apply list_elem_of_fmap_2.
Qed.

Lemma account_votes_ok plans a :
  Forall (λ p, length (proposals p) ≤ 256) plans →
  account_votes plans a = Some ((λ p, mkAccountVotes (plan_id p) (plan_votes a p)) <$> plans).
Proof.
  unfold account_votes. induction 1 as [|p plans Hp _ IH]; [done|]. cbn [mapM]. rewrite IH.
  destruct (voted_app a 0 (proposals p)) as [vs Hvs]; [done|]. rewrite Hvs.
  assert (plan_votes a p = vs) as <- by (unfold plan_votes; by rewrite Hvs). done.
Qed.

(** The three queries on votes agree: with plans of at most 256 proposals none of
    them panics; for every account the list of all votes has exactly the votes
    of the query of the account, without the plans it did not vote on; and the
    query of one plan gives the votes of that plan. *)
Theorem votes_queries_agree plans :
  NoDup (plan_id <$> plans) → Forall (λ p, length (proposals p) ≤ 256) plans →
  ∃ all, accounts_votes_all plans = Some all ∧
    ∀ a, ∃ l, account_votes plans a = Some l ∧
      (∀ v, v ∈ default [] (all !! encode_hex a) ↔ v ∈ l ∧ votes v ≠ []) ∧
      (∀ p, p ∈ plans → ∃ vs, account_votes_with_plan plans (plan_id p) a = Some (Some vs) ∧
                              mkAccountVotes (plan_id p) vs ∈ l).
Proof.
  intros Hnd Hall. destruct (push_plans_ok plans ∅ Hall) as (m & Hm & Ht & Hl); [by intros key inner id vs Hi; rewrite lookup_empty in Hi|].
  unfold accounts_votes_all. rewrite Hm. cbn [mbind option_bind]. eexists. split; [done|]. intros a.
  eexists. split; [by apply account_votes_ok|]. split.
  - intros [id vs]. cbn [votes]. trans (∃ inner, m !! encode_hex a = Some inner ∧ inner !! id = Some vs).
    { rewrite lookup_fmap. destruct (m !! encode_hex a) as [inner|]; cbn.
      - rewrite list_elem_of_fmap. split.
        + intros ([id' vs'] & [= -> ->] & Hin%elem_of_map_to_list). eauto.
        + intros (inner' & [= <-] & Hin). exists (id, vs). by rewrite elem_of_map_to_list.
      - rewrite elem_of_nil. naive_solver. }
    rewrite (tight_lookup m a id vs Ht), Hl. unfold look. rewrite lookup_empty. cbn [mbind option_bind default app].
    rewrite list_elem_of_fmap. split.
    + intros [Hv Hne]. split; [|done]. destruct (filter _ plans) as [|p ps] eqn:Hf; [by subst|].
      assert (p ∈ filter (λ q, plan_id q = id) plans) as [Hid Hp]%list_elem_of_filter by (rewrite Hf; left).
      exists p. split; [|done]. subst id. rewrite (filter_unique plans p Hnd Hp) in Hf. injection Hf as <-.
      cbn in Hv. by rewrite app_nil_r in Hv; subst.
    + intros [(p & [= -> ->] & Hp) Hne]. split; [|done]. rewrite filter_unique by done. cbn. by rewrite app_nil_r.
  - intros p Hp. unfold account_votes_with_plan, find_plan. rewrite filter_unique by done. cbn.
    rewrite Forall_forall in Hall. destruct (voted_app a 0 (proposals p)) as [vs Hvs]; [by apply Hall|].
    exists vs. rewrite Hvs. split; [done|]. apply list_elem_of_fmap. exists p. unfold plan_votes. by rewrite Hvs.
Qed.

End votes.
End Votes.

(** ** Examples *)
Module SampleRest.
Import ListLru SampleFragments SampleStore SampleChain Rest Votes ChainInv.ChainWitness.

Definition ctx : Rest.Context := mkContext true true (Some (Blockchain.storage s2)) (Some r12).

(** Block 12 is in epoch 1, blocks 10 and 11 are in epoch 0, which has no
    rewards; the history of no epochs has one. *)
Lemma epoch_queries_correct_witness :
  get_stake_distribution_at ctx 2 = Ok None ∧
  get_rewards_info_epoch ctx 0 = Ok None ∧
  get_rewards_info_history ctx 0 = Ok [(1%Z, 0%Z)].
Proof.
  pose proof (λ e, epoch_queries_correct genesis false no_header ctx r12 [r11; r10] e 0 eq_refl chain12) as Hq.
  split; [exact (proj2 (proj1 (Hq 2%Z)))|]. split; [exact (proj1 (proj1 (Hq 0%Z)))|exact (proj2 (Hq 0%Z))].
Defined.

(** An account that voted on the first and the third proposal of a plan *)
Definition plan : PlanStatus (PlanId := nat) (Account := nat) := mkVotePlan 7 [{[1; 2]}; {[2]}; {[1]}].
Example votes_of_account : account_votes [plan] 1 = Some [mkAccountVotes 7 [0%Z; 2%Z]].
Proof. vm_compute. reflexivity. Qed.
End SampleRest.
