(* ===== verification/Settings.v ===== *)
(** * The settings of the node

    Models [jormungandr/src/settings/start/mod.rs], [start/config.rs] and
    [start/network.rs]: the command line and the file of the configuration,
    and how the settings of the node, its network and its log are made of
    them.  Files, keys and the resolver of names are parameters; so are the
    parts of the configuration that are passed on as they are (the memory pool,
    the policy of the topology, TLS and CORS). *)

From S2P Require Import Prelude Gossip.

Module Settings.
Import Gossip Multiaddr Layers.

Section settings.
Context {NodeId Key Hash Mempool Policy Tls Cors LevelFilter LogOutput : Type}.
Context `{!EqDecision LevelFilter, !EqDecision LogOutput}.
Context (mempool_default : Mempool) (policy_default : Policy) (TRACE : LevelFilter) (Stderr : LogOutput).
(** The resolver of the system, the key in a file and a new key *)
Context (to_socket_addrs : string → Z → option (list SocketAddr)).
Inductive FileError := ConfigIo | InvalidKey.
Context (read_key : string → result FileError Key) (generated_key : Key).

(** ** Configuration file and command line *)
Inductive LogFormat := DefaultFormat | Plain | Json.
#[export] Instance log_format_eq : EqDecision LogFormat.
Proof. solve_decision. Defined.

Record ConfigLogSettings := mkConfigLog {
  cfg_level : option LevelFilter;
  cfg_format : option LogFormat;
  cfg_output : option LogOutput;
}.
Record TrustedPeerConfig := mkTrustedConfig { peer_address : Multiaddr; peer_id : option NodeId }.
Record PreferredConfig := mkPreferredListConfig { preferred_view_max : nat; preferred_peers : list TrustedPeerConfig }.
Record P2pConfig := mkP2p {
  p2p_public_address : option Multiaddr;
  p2p_listen : option SocketAddr;
  node_key_file : option string;
  p2p_trusted_peers : option (list TrustedPeerConfig);
  p2p_max_connections : option Z;
  p2p_max_client_connections : option Z;
  p2p_allow_private_addresses : bool;
  p2p_policy : Policy;
  preferred_list : option PreferredConfig;
  topics_of_interest : option TopicsOfInterest;
  p2p_gossip_interval : option Z;
  p2p_network_stuck_check : option Z;
  p2p_max_bootstrap_attempts : option Z;
}.
Record Rest := mkRest { rest_listen : SocketAddr; rest_tls : option Tls; rest_cors : option Cors }.
Record Config := mkConfig {
  cfg_secret_file : option string;
  cfg_storage : option string;
  cfg_log : option ConfigLogSettings;
  cfg_mempool : Mempool;
  cfg_logs_capacity : Z;
  cfg_rest : option Rest;
  cfg_jrpc : option SocketAddr;
  cfg_p2p : P2pConfig;
  cfg_http_fetch_block0_service : list string;
  cfg_prometheus : option bool;
  cfg_no_blockchain_updates_warning_interval : option Z;
  cfg_bootstrap_from_trusted_peers : bool;
  cfg_skip_bootstrap : bool;
  cfg_block_hard_deadline : option Z;
}.
Record StartArguments := mkStartArguments {
  arg_storage : option string;
  arg_node_config : option string;
  arg_secret : option string;
  block_0_path : option string;
  arg_trusted_peer : list TrustedPeerConfig;
  block_0_hash : option Hash;
  prometheus_enabled : bool;
  arg_public_address : option Multiaddr;
  arg_listen_address : option SocketAddr;
}.
Record CommandLine := mkCommandLine {
  log_level : option LevelFilter;
  log_format : option LogFormat;
  log_output : option LogOutput;
  cmd_rewards_report_all : bool;
  cmd_rest_listen : option SocketAddr;
  cmd_jrpc_listen : option SocketAddr;
  start_arguments : StartArguments;
}.

Inductive Error :=
| FileErr (e : FileError)
| ConfigParse
| ExpectedBlock0Info
| InvalidLayersConfig (e : ParseError).

(** [Block0Info] *)
Inductive Block0Source := Path (path : string) (hash : option Hash) | HashOnly (hash : Hash).

(** [network::Configuration]; durations in seconds. *)
Record Configuration := mkConfiguration {
  listen_address : option SocketAddr;
  public_address : option SocketAddr;
  node_key : Key;
  trusted_peers : list (TrustedPeer NodeId);
  max_connections : Z;
  max_client_connections : Z;
  timeout : Z;
  policy : Policy;
  layer_preferred_list : PreferredListConfig NodeId;
  layer_rings : RingsConfig;
  allow_private_addresses : bool;
  gossip_interval : Z;
  network_stuck_check : Z;
  max_bootstrap_attempts : option Z;
  bootstrap_from_trusted_peers : bool;
  skip_bootstrap : bool;
  http_fetch_block0_service : list string;
}.
Record Settings := mkSettings {
  network : Configuration;
  storage : option string;
  block_0 : Block0Source;
  secret : option string;
  rest : option Rest;
  jrpc : option SocketAddr;
  mempool : Mempool;
  rewards_report_all : bool;
  logs_capacity : Z;
  prometheus : bool;
  no_blockchain_updates_warning_interval : Z;
  block_hard_deadline : Z;
}.
Record RawSettings := mkRaw { command_line : CommandLine; config : option Config }.

(** [RawSettings::load]; a file that cannot be opened is [None]. *)
Definition load (open : string → option (option Config)) (c : CommandLine) : result Error RawSettings :=
  match arg_node_config (start_arguments c) with
  | Some path =>
      match open path with
      | None => Err (FileErr ConfigIo)
      | Some None => Err ConfigParse
      | Some (Some cfg) => Ok (mkRaw c (Some cfg))
      end
  | None => Ok (mkRaw c None)
  end.

(** ** The log *)
Definition DEFAULT_LOG_FORMAT : LogFormat := DefaultFormat.
Record LogSettingsEntry := mkLogEntry { level : LevelFilter; format : LogFormat; output : LogOutput }.
Inductive LogInfo :=
| OutputOverridden (old new : LogOutput)
| LevelOverridden (old new : LevelFilter)
| FormatOverridden (old new : LogFormat).
Record LogSettings := mkLogSettings { log_config : LogSettingsEntry; log_msgs : option (list LogInfo) }.

Definition log_settings (raw : RawSettings) : LogSettings :=
  let c := mkLogEntry TRACE DEFAULT_LOG_FORMAT Stderr in
  let c := match config raw ≫= cfg_log with
           | Some cfg => mkLogEntry (default (level c) (cfg_level cfg)) (default (format c) (cfg_format cfg))
                           (default (output c) (cfg_output cfg))
           | None => c
           end in
  let '(c, msgs) := match log_output (command_line raw) with
                    | Some o => (mkLogEntry (level c) (format c) o,
                                 if decide (output c ≠ o) then [OutputOverridden (output c) o] else [])
                    | None => (c, [])
                    end in
  let '(c, msgs) := match log_level (command_line raw) with
                    | Some l => (mkLogEntry l (format c) (output c),
                                 msgs ++ if decide (level c ≠ l) then [LevelOverridden (level c) l] else [])
                    | None => (c, msgs)
                    end in
  let '(c, msgs) := match log_format (command_line raw) with
                    | Some f => (mkLogEntry (level c) f (output c),
                                 msgs ++ if decide (format c ≠ f) then [FormatOverridden (format c) f] else [])
                    | None => (c, msgs)
                    end in
  mkLogSettings c (match msgs with [] => None | _ => Some msgs end).

(** ** The interfaces *)
Definition rest_config (raw : RawSettings) : option Rest :=
  match config raw ≫= cfg_rest, cmd_rest_listen (command_line raw) with
  | Some r, Some cmd_listen => Some (mkRest cmd_listen (rest_tls r) (rest_cors r))
  | Some r, None => Some r
  | None, Some cmd_listen => Some (mkRest cmd_listen None None)
  | None, None => None
  end.
Definition jrpc_config (raw : RawSettings) : option SocketAddr :=
  match config raw ≫= cfg_jrpc, cmd_jrpc_listen (command_line raw) with
  | Some _, Some cmd_listen => Some cmd_listen
  | Some j, None => Some j
  | None, Some cmd_listen => Some cmd_listen
  | None, None => None
  end.

(** ** The network *)
Inductive PeerResolveError := Resolve (e : Multiaddr.Error) | InvalidAddress.
Definition resolve (peer : TrustedPeerConfig) : result PeerResolveError (TrustedPeer NodeId) :=
  let? m := map_err Resolve (resolve_dns to_socket_addrs (peer_address peer)) in
  match to_tcp_socket_addr m with
  | Some addr => Ok (mkTrusted addr (peer_id peer))
  | None => Err InvalidAddress
  end.
Definition resolve_trusted_peers (peers : list TrustedPeerConfig) : list (TrustedPeer NodeId) :=
  omap (λ p, match resolve p with Ok peer => Some peer | Err _ => None end) peers.

Definition DEFAULT_MAX_CONNECTIONS : Z := 256.
Definition DEFAULT_MAX_CLIENT_CONNECTIONS : Z := 192.
Definition DEFAULT_NETWORK_STUCK_INTERVAL : Z := 60 * 5.
Definition DEFAULT_PREFERRED_VIEW_MAX : nat := 20.
Definition DEFAULT_NO_BLOCKCHAIN_UPDATES_WARNING_INTERVAL : Z := 1800.
Definition DEFAULT_BLOCK_HARD_DEADLINE : Z := 50.
Definition DEFAULT_LOGS_CAPACITY : Z := 1024.

Definition p2p_default : P2pConfig :=
  mkP2p None None None None None None false policy_default None None None None None.

Definition merge_trusted_peers (cfg : option (list TrustedPeerConfig)) (args : list TrustedPeerConfig)
    : option (list TrustedPeerConfig) :=
  match cfg with
  | Some peers => Some (peers ++ args)
  | None => match args with [] => None | _ => Some args end
  end.

Definition generate_network (args : StartArguments) (config : option Config) : result Error Configuration :=
  let '(p2p, http, skip, from_trusted) :=
    match config with
    | Some cfg => (cfg_p2p cfg, cfg_http_fetch_block0_service cfg, cfg_skip_bootstrap cfg, cfg_bootstrap_from_trusted_peers cfg)
    | None => (p2p_default, [], false, false)
    end in
  let trusted_peers :=
    match merge_trusted_peers (p2p_trusted_peers p2p) (arg_trusted_peer args) with
    | Some peers => resolve_trusted_peers peers
    | None => []
    end in
  let preferred := default (mkPreferredListConfig DEFAULT_PREFERRED_VIEW_MAX []) (preferred_list p2p) in
  let? rings :=
    match topics_of_interest p2p with
    | Some topics => map_err InvalidLayersConfig (rings_try_from topics)
    | None => Ok rings_default
    end in
  let public := (match arg_public_address args with Some a => Some a | None => p2p_public_address p2p end) ≫= to_tcp_socket_addr in
  let? node_key :=
    match node_key_file p2p with
    | Some file => map_err FileErr (read_key file)
    | None => Ok generated_key
    end in
  let listen := match arg_listen_address args with Some a => Some a | None => p2p_listen p2p end in
  let max := default DEFAULT_MAX_CONNECTIONS (p2p_max_connections p2p) in
  let max_client := default DEFAULT_MAX_CLIENT_CONNECTIONS (p2p_max_client_connections p2p) in
  Ok (mkConfiguration listen public node_key trusted_peers max
        (if (max <? max_client)%Z then max else max_client) 15 (p2p_policy p2p)
        (mkPreferredConfig (preferred_view_max preferred) (resolve_trusted_peers (preferred_peers preferred))) rings
        (p2p_allow_private_addresses p2p) (default 10%Z (p2p_gossip_interval p2p))
        (default DEFAULT_NETWORK_STUCK_INTERVAL (p2p_network_stuck_check p2p)) (p2p_max_bootstrap_attempts p2p)
        from_trusted skip http).

(** [Configuration::listen]: the address of the listener *)
Definition listen (c : Configuration) : option SocketAddr :=
  match listen_address c with Some a => Some a | None => public_address c end.

Definition try_into_settings (raw : RawSettings) : result Error Settings :=
  let args := start_arguments (command_line raw) in
  let? network := generate_network args (config raw) in
  let storage := match arg_storage args with Some p => Some p | None => config raw ≫= cfg_storage end in
  let secret := match arg_secret args with Some p => Some p | None => config raw ≫= cfg_secret_file end in
  let? block_0 :=
    match block_0_path args, block_0_hash args with
    | None, None => Err ExpectedBlock0Info
    | Some path, Some hash => Ok (Path path (Some hash))
    | Some path, None => Ok (Path path None)
    | None, Some hash => Ok (HashOnly hash)
    end in
  let prometheus :=
    prometheus_enabled args ||
    match config raw with Some cfg => match cfg_prometheus cfg with Some e => e | None => false end | None => false end in
  Ok (mkSettings network storage block_0 secret (rest_config raw) (jrpc_config raw)
        (match config raw with Some cfg => cfg_mempool cfg | None => mempool_default end)
        (cmd_rewards_report_all (command_line raw))
        (match config raw with Some cfg => cfg_logs_capacity cfg | None => DEFAULT_LOGS_CAPACITY end)
        prometheus
        (default DEFAULT_NO_BLOCKCHAIN_UPDATES_WARNING_INTERVAL (config raw ≫= cfg_no_blockchain_updates_warning_interval))
        (default DEFAULT_BLOCK_HARD_DEADLINE (config raw ≫= cfg_block_hard_deadline))).

(** ** What the settings are *)

(** The value of the command line, else of the file *)
Definition prefer {A} (cmd file : option A) : option A := match cmd with Some a => Some a | None => file end.
Definition file_p2p (raw : RawSettings) : P2pConfig := match config raw with Some cfg => cfg_p2p cfg | None => p2p_default end.

Lemma merge_trusted_peers_app cfg args :
  match merge_trusted_peers cfg args with Some peers => resolve_trusted_peers peers | None => [] end =
  resolve_trusted_peers (default [] cfg ++ args).
Proof. destruct cfg; [done|]. by destruct args. Qed.

(** A peer is kept exactly if its address resolves. *)
Lemma resolve_trusted_peers_elem peers p :
  p ∈ resolve_trusted_peers peers ↔ ∃ c, c ∈ peers ∧ resolve c = Ok p.
Proof.
  unfold resolve_trusted_peers. rewrite list_elem_of_omap. split; intros (c & Hc & Hr); exists c; (split; [done|]).
  - destruct (resolve c); by simplify_eq.
  - by rewrite Hr.
Qed.
(** The only failure is the resolution of the name. *)
Lemma resolve_never_invalid p : resolve p ≠ Err InvalidAddress.
Proof.
  unfold resolve. destruct (resolve_dns to_socket_addrs (peer_address p)) as [m|] eqn:Hm; cbn [map_err]; [|done].
  apply resolved_has_socket_addr in Hm as [a ->]. done.
Qed.

Lemma rest_config_prefer raw :
  rest_listen <$> rest_config raw =
  prefer (cmd_rest_listen (command_line raw)) (rest_listen <$> (config raw ≫= cfg_rest)).
Proof. unfold rest_config. by destruct (config raw ≫= cfg_rest), (cmd_rest_listen (command_line raw)). Qed.
Lemma jrpc_config_prefer raw :
  jrpc_config raw = prefer (cmd_jrpc_listen (command_line raw)) (config raw ≫= cfg_jrpc).
Proof. unfold jrpc_config. by destruct (config raw ≫= cfg_jrpc), (cmd_jrpc_listen (command_line raw)). Qed.


(** The log: the command line, else the file, else the defaults; a message for
    every value of the command line that is not the one it replaces. *)
Theorem log_settings_correct raw :
  let cmd := command_line raw in
  let file := config raw ≫= cfg_log in
  let before := mkLogEntry (default TRACE (file ≫= cfg_level)) (default DefaultFormat (file ≫= cfg_format))
                  (default Stderr (file ≫= cfg_output)) in
  log_settings raw =
    mkLogSettings
      (mkLogEntry (default (level before) (log_level cmd)) (default (format before) (log_format cmd))
         (default (output before) (log_output cmd)))
      (match
         (match log_output cmd with
          | Some o => if decide (output before ≠ o) then [OutputOverridden (output before) o] else []
          | None => [] end) ++
         (match log_level cmd with
          | Some l => if decide (level before ≠ l) then [LevelOverridden (level before) l] else []
          | None => [] end) ++
         (match log_format cmd with
          | Some f => if decide (format before ≠ f) then [FormatOverridden (format before) f] else []
          | None => [] end)
       with [] => None | msgs => Some msgs end).
Proof.
  cbv zeta. unfold log_settings, DEFAULT_LOG_FORMAT. destruct (config raw ≫= cfg_log) as [[l f o]|]; cbn;
    destruct (log_output (command_line raw)), (log_level (command_line raw)), (log_format (command_line raw));
    cbn; repeat case_decide; done.
Qed.

(** A public address that is given by name is dropped without an error, and
    hides the one of the file. *)
Theorem public_name_dropped raw s fqdn rest :
  try_into_settings raw = Ok s → arg_public_address (start_arguments (command_line raw)) = Some (Dns fqdn :: rest) →
  public_address (network s) = None.
Proof.
  assert (∀ n, generate_network (start_arguments (command_line raw)) (config raw) = Ok n →
    arg_public_address (start_arguments (command_line raw)) = Some (Dns fqdn :: rest) → public_address n = None) as Hgen.
  { intros n Hn Ha. unfold generate_network in Hn. rewrite Ha in Hn.
    destruct (match config raw with Some _ => _ | None => _ end) as [[[p2p http] skip] trusted].
    destruct (match topics_of_interest p2p with Some _ => _ | None => _ end); [|done].
    destruct (match node_key_file p2p with Some _ => _ | None => _ end); [|done]. by injection Hn as <-. }
  unfold try_into_settings. destruct (generate_network _ _) as [n|]; [|done]. intros Hs Ha.
  destruct (match block_0_path _ with Some _ => _ | None => _ end); [|done]. injection Hs as <-. by apply Hgen.
Qed.

End settings.
End Settings.
