(* ===== verification/Tally.v ===== *)
(** * Merging the results of votes

    Models [jcli/src/jcli_lib/vote/tally/merge_results.rs] (the command
    [jcli votes merge-results]) with the results of a vote
    ([TallyResult::merge] of [jormungandr-lib/src/interfaces/vote.rs]): vote
    plans on the same proposals are merged into one, adding up their votes.
    The groups are in a [HashMap], whose order is not specified. *)

From S2P Require Import Prelude.

Module Tally.
Section tally.
Context {Hash Encrypted : Type} `{Countable Hash} (ltb : Hash → Hash → bool) `{!StrictTotalOrder ltb}.

(** ** Data (interfaces/vote.rs) *)
Record TallyResult := mkResult { results : list Z; result_options : Z * Z }.
Inductive Tally :=
| Public (result : TallyResult)
| PrivateEncrypted (e : Encrypted)
| PrivateDecrypted (result : TallyResult).
Record VoteProposalStatus := mkProposal {
  proposal_id : Hash;
  options : Z * Z;
  tally : Tally;
  votes_cast : Z;
}.
(** [VotePlanStatus], without the fields that merging does not read *)
Record VotePlan := mkPlan { plan_id : Hash; proposals : list VoteProposalStatus }.
(** A merged proposal has the same fields, without the index. *)
Record MergedVotePlan := mkMerged { ids : gset Hash; merged_proposals : list VoteProposalStatus }.
Inductive Error := VotePlanEncrypted | PrivacyMismatch.

(** [TallyResult::merge]: a panic if the options differ *)
Definition result_merge (a b : TallyResult) : option TallyResult :=
  if decide (result_options a = result_options b)
  then Some (mkResult (zip_with (λ l r, wrap64 (l + r)) (results a) (results b)) (result_options a))
  else None.

Definition tally_merge (a b : Tally) : option (result Error Tally) :=
  match a, b with
  | Public r1, Public r2 => (λ r, Ok (Public r)) <$> result_merge r1 r2
  | PrivateDecrypted r1, PrivateDecrypted r2 => (λ r, Ok (PrivateDecrypted r)) <$> result_merge r1 r2
  | Public _, (PrivateEncrypted _ | PrivateDecrypted _) => Some (Err PrivacyMismatch)
  | (PrivateEncrypted _ | PrivateDecrypted _), Public _ => Some (Err PrivacyMismatch)
  | _, _ => Some (Err VotePlanEncrypted)
  end.

(** ** Grouping *)

(** [sort_by_key(|p| p.proposal_id)], which is stable *)
Fixpoint insert_by_id (p : VoteProposalStatus) (l : list VoteProposalStatus) : list VoteProposalStatus :=
  match l with
  | [] => [p]
  | q :: l' => if ltb (proposal_id q) (proposal_id p) then q :: insert_by_id p l' else p :: l
  end.
Definition sort_by_id (l : list VoteProposalStatus) : list VoteProposalStatus := foldr insert_by_id [] l.

Definition normal (v : VotePlan) : VotePlan := mkPlan (plan_id v) (sort_by_id (proposals v)).
Definition group_key (v : VotePlan) : list Hash := proposal_id <$> proposals v.

Definition add_plan (m : gmap (list Hash) (list VotePlan)) (v : VotePlan) : gmap (list Hash) (list VotePlan) :=
  let v := normal v in
  <[group_key v := default [] (m !! group_key v) ++ [v]]> m.
Definition group_by_proposals (plans : list VotePlan) : gmap (list Hash) (list VotePlan) :=
  foldl add_plan ∅ plans.

(** ** Merging *)

(** One round of the inner loop over the proposals of two plans *)
Fixpoint merge_proposals (a b : list VoteProposalStatus) : option (result Error (list VoteProposalStatus)) :=
  match a, b with
  | p :: a', q :: b' =>
      match tally_merge (tally p) (tally q) with
      | None => None
      | Some (Err e) => Some (Err e)
      | Some (Ok t) =>
          match merge_proposals a' b' with
          | Some (Ok l) => Some (Ok (mkProposal (proposal_id p) (options p) t (wrap64 (votes_cast p + votes_cast q)) :: l))
          | r => r
          end
      end
  | _, _ => Some (Ok a)
  end.
Fixpoint merge_rest (acc : list VoteProposalStatus) (group : list VotePlan)
    : option (result Error (list VoteProposalStatus)) :=
  match group with
  | [] => Some (Ok acc)
  | v :: group' =>
      match merge_proposals acc (proposals v) with
      | Some (Ok acc') => merge_rest acc' group'
      | r => r
      end
  end.
(** [group.pop()] takes the last plan; [None] is a panic. *)
Definition merge_group (group : list VotePlan) : option (result Error MergedVotePlan) :=
  match last group with
  | None => None
  | Some v =>
      match merge_rest (proposals v) (take (pred (length group)) group) with
      | Some (Ok l) => Some (Ok (mkMerged (list_to_set (plan_id <$> group)) l))
      | Some (Err e) => Some (Err e)
      | None => None
      end
  end.
(** [map(..).collect()]: the first error ends it *)
Fixpoint merge_groups (groups : list (list VotePlan)) : option (result Error (list MergedVotePlan)) :=
  match groups with
  | [] => Some (Ok [])
  | g :: groups' =>
      match merge_group g with
      | None => None
      | Some (Err e) => Some (Err e)
      | Some (Ok m) =>
          match merge_groups groups' with
          | Some (Ok ms) => Some (Ok (m :: ms))
          | r => r
          end
      end
  end.
Definition merge_voteplans (plans : list VotePlan) : option (result Error (list MergedVotePlan)) :=
  merge_groups (map_to_list (group_by_proposals plans)).*2.

(** ** What a merge adds up *)
Definition is_public (t : Tally) : bool := match t with Public _ => true | _ => false end.
(** The counts of a tally that is not encrypted *)
Definition counts (t : Tally) : option TallyResult :=
  match t with Public r => Some r | PrivateDecrypted r => Some r | PrivateEncrypted _ => None end.
Definition count_at (j : nat) (t : Tally) : Z := default 0%Z (r ← counts t; results r !! j).

(** [adds_up ts t]: the tally [t] is the sum of the tallies [ts], which are all
    public or all private and have the same options, cut to the shortest of
    them; an encrypted tally is the sum of itself only. *)
Definition adds_up (ts : list Tally) (t : Tally) : Prop :=
  (∀ t', t' ∈ ts → is_public t' = is_public t) ∧
  match counts t with
  | None => ts = [t]
  | Some r =>
      (∀ t', t' ∈ ts → ∃ r', counts t' = Some r' ∧ result_options r' = result_options r ∧
                             length (results r) ≤ length (results r')) ∧
      (∃ t' r', t' ∈ ts ∧ counts t' = Some r' ∧ length (results r') = length (results r)) ∧
      ∀ j n, results r !! j = Some n → n = wrap64 (sumZ (count_at j) ts)
  end.

(** Counts are [u64] *)
Definition tally_u64 (t : Tally) : Prop :=
  ∀ r, counts t = Some r → Forall (λ n, 0 ≤ n < U64)%Z (results r).

Lemma adds_up_perm ts ts' t : ts ≡ₚ ts' → adds_up ts t → adds_up ts' t.
Proof.
  intros Hp (Hpub & Hc). split; [intros t' Ht'; apply Hpub; by rewrite Hp|].
  destruct (counts t) as [r|]; [|subst; by apply Permutation_singleton_l in Hp].
  destruct Hc as (Hall & (t' & r' & Ht' & Hr') & Hsum).
  split_and!; [intros t0 Ht0; apply Hall; by rewrite Hp|exists t', r'; by rewrite <-Hp|].
  intros j n Hj. rewrite <-Hp. by apply Hsum.
Qed.
Lemma adds_up_single t : tally_u64 t → adds_up [t] t.
Proof.
  intros Hu. split; [by intros t' ->%list_elem_of_singleton|]. destruct (counts t) as [r|] eqn:Hr; [|done].
  split_and!; [intros t' ->%list_elem_of_singleton; by exists r|exists t, r; by rewrite list_elem_of_singleton|].
  intros j n Hj. specialize (Hu r Hr). rewrite Forall_lookup in Hu. specialize (Hu j n Hj).
  cbn. unfold count_at. rewrite Hr. cbn. rewrite Hj. cbn. rewrite Z.add_0_r. by rewrite wrap64_small.
Qed.

(** One more tally *)
Lemma tally_merge_ok ts t b :
  adds_up ts t →
  match tally_merge t b with
  | Some (Ok t') => adds_up (ts ++ [b]) t'
  | Some (Err PrivacyMismatch) => is_public t ≠ is_public b
  | Some (Err VotePlanEncrypted) => counts t = None ∨ counts b = None
  | None => ∃ r r', counts t = Some r ∧ counts b = Some r' ∧ result_options r ≠ result_options r'
  end.
Proof.
  intros (Hpub & Hc).
  assert (∀ r r', counts t = Some r → counts b = Some r' → is_public t = is_public b →
    match result_merge r r' with
    | Some r'' => ∀ t', counts t' = Some r'' → is_public t' = is_public t → adds_up (ts ++ [b]) t'
    | None => result_options r ≠ result_options r'
    end) as Hmain.
  { intros r r' Hr Hr' Hpb. rewrite Hr in Hc. destruct Hc as (Hall & (ts0 & rs0 & Hts0 & Hrs0 & Hl0) & Hsum). unfold result_merge.
    case_decide as Ho; [|done]. intros t' Ht' Hpt'. split.
    { intros x [Hx| ->%list_elem_of_singleton]%elem_of_app; [rewrite Hpt'; by apply Hpub|congruence]. }
    rewrite Ht'. cbn. split_and!.
    - rewrite length_zip_with. intros x [Hx| ->%list_elem_of_singleton]%elem_of_app.
      + destruct (Hall x Hx) as (rx & Hrx & Hox & Hlx). exists rx. split_and!; [done|done|lia].
      + exists r'. split_and!; [done|congruence|lia].
    - rewrite length_zip_with. destruct (Nat.le_gt_cases (length (results r)) (length (results r'))).
      + exists ts0, rs0. split_and!; [set_solver|done|lia].
      + exists b, r'. split_and!; [set_solver|done|lia].
    - intros j n (x & y & Hn & Hx & Hy)%lookup_zip_with_Some. rewrite sumZ_app. cbn. unfold count_at at 2.
      rewrite Hr'. cbn. rewrite Hy. cbn. rewrite (Hsum j x Hx) in Hn. subst n. rewrite wrap64_add_l, Z.add_0_r. done. }
  destruct t as [r|e|r], b as [r'|e'|r']; cbn in *; try done; try tauto;
    specialize (Hmain r r' eq_refl eq_refl eq_refl); destruct (result_merge r r') as [r''|]; cbn; eauto.
Qed.

(** The proposals at one place of the plans of a group *)
Definition column (i : nat) (g : list VotePlan) : list VoteProposalStatus := omap (λ v, proposals v !! i) g.
(** What an error ([None]: a panic) says of a group *)
Definition clash (e : option Error) (g : list VotePlan) : Prop :=
  ∃ i p q, p ∈ column i g ∧ q ∈ column i g ∧
    match e with
    | Some PrivacyMismatch => is_public (tally p) ≠ is_public (tally q)
    | Some VotePlanEncrypted => counts (tally p) = None
    | None => ∃ r r', counts (tally p) = Some r ∧ counts (tally q) = Some r' ∧ result_options r ≠ result_options r'
    end.
(** [acc] is the merge of the plans [g] *)
Definition merge_of (g : list VotePlan) (acc : list VoteProposalStatus) : Prop :=
  ∀ i q, acc !! i = Some q →
    votes_cast q = wrap64 (sumZ votes_cast (column i g)) ∧ adds_up (tally <$> column i g) (tally q) ∧
    options q ∈ options <$> column i g.

Lemma merge_proposals_spec a b :
  length a = length b →
  match merge_proposals a b with
  | Some (Ok l) =>
      proposal_id <$> l = proposal_id <$> a ∧
      ∀ i x, l !! i = Some x → ∃ p q t, a !! i = Some p ∧ b !! i = Some q ∧
        tally_merge (tally p) (tally q) = Some (Ok t) ∧ tally x = t ∧ votes_cast x = wrap64 (votes_cast p + votes_cast q) ∧ options x = options p
  | Some (Err e) => ∃ i p q, a !! i = Some p ∧ b !! i = Some q ∧ tally_merge (tally p) (tally q) = Some (Err e)
  | None => ∃ i p q, a !! i = Some p ∧ b !! i = Some q ∧ tally_merge (tally p) (tally q) = None
  end.
Proof.
  revert b. induction a as [|p a IH]; intros [|q b] Hlen; cbn [merge_proposals]; try done.
  specialize (IH b ltac:(cbn in Hlen; lia)).
  destruct (tally_merge (tally p) (tally q)) as [[t|e]|] eqn:Ht; [|by exists 0, p, q..].
  destruct (merge_proposals a b) as [[l|e]|].
  - destruct IH as [Hids Hl]. split; [cbn; by f_equal|]. intros [|i] x Hx; cbn in Hx; [|by apply Hl].
    injection Hx as <-. by exists p, q, t.
  - destruct IH as (i & p' & q' & ?). by exists (S i), p', q'.
  - destruct IH as (i & p' & q' & ?). by exists (S i), p', q'.
Qed.

(** What is known of a merged tally holds of one of the tallies it was made of. *)
Lemma adds_up_member ts t :
  adds_up ts t → ts ≠ [] →
  ∃ t', t' ∈ ts ∧ is_public t' = is_public t ∧ (counts t = None → counts t' = None) ∧
    (∀ r, counts t = Some r → ∃ r', counts t' = Some r' ∧ result_options r' = result_options r).
Proof.
  intros (Hpub & Hc) Hne. destruct ts as [|t' ts]; [done|]. exists t'. split; [left|].
  split; [apply Hpub; left|]. destruct (counts t) as [r|] eqn:Hr.
  - split; [done|]. intros r0 [= <-]. destruct Hc as (Hall & _). destruct (Hall t') as (r' & ? & ? & _); [left|]. eauto.
  - injection Hc as -> ->. done.
Qed.

Lemma merge_step g acc v :
  merge_of g acc → g ≠ [] → Forall (λ w, length (proposals w) = length acc) (g ++ [v]) →
  match merge_proposals acc (proposals v) with
  | Some (Ok acc') => merge_of (g ++ [v]) acc' ∧ proposal_id <$> acc' = proposal_id <$> acc
  | Some (Err e) => clash (Some e) (g ++ [v])
  | None => clash None (g ++ [v])
  end.
Proof.
  intros Hg Hne Hlen. apply Forall_app in Hlen as [Hlg [Hlv _]%Forall_cons].
  pose proof (merge_proposals_spec acc (proposals v) (eq_sym Hlv)) as Hm.
  assert (∀ i q, proposals v !! i = Some q → column i (g ++ [v]) = column i g ++ [q]) as Hcol.
  { intros i q Hq. unfold column. rewrite omap_app. cbn. by rewrite Hq. }
  assert (∀ i p, acc !! i = Some p → tally <$> column i g ≠ []) as Hcne.
  { intros i p Hi. destruct g as [|w g]; [done|]. apply Forall_cons in Hlg as [Hlw _].
    apply lookup_lt_Some in Hi. rewrite <-Hlw in Hi. apply lookup_lt_is_Some in Hi as [x Hx]. cbn. by rewrite Hx. }
  assert (∀ e i p q, acc !! i = Some p → proposals v !! i = Some q → tally_merge (tally p) (tally q) = e →
    (∀ t, e ≠ Some (Ok t)) → clash (match e with Some (Err e) => Some e | _ => None end) (g ++ [v])) as Hclash.
  { intros e i p q Hp Hq He Hno. destruct (Hg i p Hp) as (_ & Hadd & _).
    destruct (adds_up_member _ _ Hadd (Hcne i p Hp)) as (t' & [p' [-> Hp']]%list_elem_of_fmap & Hpub & Hnone & Hsome).
    pose proof (tally_merge_ok _ _ (tally q) Hadd) as Hok. rewrite He in Hok.
    unfold clash. destruct e as [[t|[]]|]; [by destruct (Hno t)|..].
    - destruct Hok as [Hn|Hn]; [exists i, p', p'|exists i, q, q]; rewrite (Hcol i q Hq); set_solver.
    - exists i, p', q. rewrite (Hcol i q Hq). split_and!; [set_solver..|congruence].
    - destruct Hok as (r & r' & Hr & Hr' & Hne'). destruct (Hsome r Hr) as (r0 & Hr0 & Ho).
      exists i, p', q. rewrite (Hcol i q Hq). split_and!; [set_solver..|]. exists r0, r'. split_and!; [done..|congruence]. }
  destruct (merge_proposals acc (proposals v)) as [[acc'|e]|].
  - destruct Hm as [Hids Hl]. split; [|done]. intros i x Hx.
    destruct (Hl i x Hx) as (p & q & t & Hp & Hq & Ht & <- & Hv & Hox). destruct (Hg i p Hp) as (Hvp & Hadd & Hop).
    rewrite (Hcol i q Hq), !fmap_app, sumZ_app, Hox. split_and!; [cbn; by rewrite Hv, Hvp, wrap64_add_l, Z.add_0_r| |set_solver].
    pose proof (tally_merge_ok _ _ (tally q) Hadd) as Hok. by rewrite Ht in Hok.
  - destruct Hm as (i & p & q & Hp & Hq & He). by apply (Hclash (Some (Err e)) i p q).
  - destruct Hm as (i & p & q & Hp & Hq & He). by apply (Hclash None i p q).
Qed.

Lemma column_perm i g g' : g ≡ₚ g' → column i g ≡ₚ column i g'.
Proof. unfold column. by intros ->. Qed.
Lemma merge_of_perm g g' acc : g ≡ₚ g' → merge_of g acc → merge_of g' acc.
Proof.
  intros Hp Hg i q Hq. destruct (Hg i q Hq) as (Hv & Ha & Ho). pose proof (column_perm i g g' Hp) as Hcol. split_and!.
  - rewrite Hv. f_equal. by apply sumZ_perm.
  - eapply adds_up_perm; [|done]. by apply Permutation_map.
  - by rewrite <-Hcol.
Qed.
Lemma clash_perm e g g' : g ≡ₚ g' → clash e g → clash e g'.
Proof.
  intros Hp (i & p & q & Hi & Hq & He). pose proof (column_perm i g g' Hp) as Hcol.
  exists i, p, q. split_and!; [by rewrite <-Hcol..|done].
Qed.
Lemma clash_app e g h : clash e g → clash e (g ++ h).
Proof. intros (i & p & q & Hi & Hq & He). exists i, p, q. unfold column in *. rewrite omap_app. split_and!; set_solver. Qed.

Lemma merge_rest_ok rest g acc :
  merge_of g acc → g ≠ [] → Forall (λ w, length (proposals w) = length acc) (g ++ rest) →
  match merge_rest acc rest with
  | Some (Ok l) => merge_of (g ++ rest) l ∧ proposal_id <$> l = proposal_id <$> acc
  | Some (Err e) => clash (Some e) (g ++ rest)
  | None => clash None (g ++ rest)
  end.
Proof.
  revert g acc. induction rest as [|v rest IH]; intros g acc Hg Hne Hlen; cbn [merge_rest].
  { by rewrite app_nil_r. }
  assert (g ++ v :: rest = (g ++ [v]) ++ rest) as Heq by (by rewrite <-(assoc_L (++))). rewrite Heq in *.
  pose proof (merge_step g acc v Hg Hne (proj1 (proj1 (Forall_app _ _ _) Hlen))) as Hs.
  destruct (merge_proposals acc (proposals v)) as [[acc'|e]|]; [|by apply clash_app..].
  destruct Hs as [Hacc' Hids].
  assert (length acc' = length acc) as Hl by (by rewrite <-(length_fmap proposal_id acc'), Hids, length_fmap).
  specialize (IH (g ++ [v]) acc' Hacc' ltac:(by destruct g) ltac:(by rewrite Hl)).
  destruct (merge_rest acc' rest) as [[l|e]|]; [|done..]. destruct IH as [? ->]. done.
Qed.

(** Numbers of votes and counts are [u64]. *)
Definition plan_u64 (v : VotePlan) : Prop :=
  Forall (λ p, (0 ≤ votes_cast p < U64)%Z ∧ tally_u64 (tally p)) (proposals v).

Lemma merge_group_ok g k :
  g ≠ [] → Forall (λ v, group_key v = k) g → Forall plan_u64 g →
  match merge_group g with
  | Some (Ok m) =>
      ids m = list_to_set (plan_id <$> g) ∧ proposal_id <$> merged_proposals m = k ∧ merge_of g (merged_proposals m)
  | Some (Err e) => clash (Some e) g
  | None => clash None g
  end.
Proof.
  intros Hne Hk Hu. destruct g as [|v h _] using rev_ind; [done|]. unfold merge_group. rewrite last_snoc.
  rewrite (take_app_length' h) by (rewrite length_app; cbn; lia).
  assert ([v] ++ h ≡ₚ h ++ [v]) as Hperm by (by rewrite Permutation_app_comm).
  assert (merge_of [v] (proposals v)) as Hbase.
  { apply Forall_app in Hu as [_ [Hv _]%Forall_cons]. intros i q Hq. unfold column. cbn. rewrite Hq. cbn.
    unfold plan_u64 in Hv. rewrite Forall_lookup in Hv. destruct (Hv i q Hq) as [Hc Ht].
    rewrite Z.add_0_r, wrap64_small by done.
    split_and!; [done|by apply adds_up_single|by left]. }
  assert (group_key v = k) as Hkv by (by apply Forall_app in Hk as [_ [? _]%Forall_cons]).
  assert (Forall (λ w, length (proposals w) = length (proposals v)) ([v] ++ h)) as Hlen.
  { rewrite Hperm. eapply Forall_impl; [exact Hk|]. cbn. intros w Hw. unfold group_key in *.
    rewrite <-(length_fmap proposal_id (proposals w)), Hw, <-Hkv. by rewrite length_fmap. }
  pose proof (merge_rest_ok h [v] (proposals v) Hbase ltac:(done) Hlen) as Hr.
  destruct (merge_rest (proposals v) h) as [[l|e]|]; [|by eapply clash_perm..].
  destruct Hr as [Hm Hids]. split_and!; [done| |by eapply merge_of_perm]. cbn. by rewrite Hids.
Qed.

(** ** The groups *)
Lemma group_lookup plans k :
  group_by_proposals plans !! k =
  match filter (λ v, group_key v = k) (normal <$> plans) with [] => None | g => Some g end.
Proof.
  unfold group_by_proposals. induction plans as [|v plans IH] using rev_ind; [done|].
  rewrite foldl_app, fmap_app, filter_app. cbn [foldl fmap list_fmap]. unfold add_plan at 1.
  destruct (decide (group_key (normal v) = k)) as [Hk|Hk].
  - rewrite Hk, lookup_insert_eq, IH, filter_cons_True, filter_nil by done. by destruct (filter _ _).
  - rewrite lookup_insert_ne, IH, filter_cons_False, filter_nil, app_nil_r by done. done.
Qed.

Lemma insert_by_id_perm p l : insert_by_id p l ≡ₚ p :: l.
Proof.
  induction l as [|q l IH]; cbn; [done|]. destruct (ltb _ _); [|done]. rewrite IH. by rewrite Permutation_swap.
Qed.
Lemma sort_by_id_perm l : sort_by_id l ≡ₚ l.
Proof. induction l as [|p l IH]; cbn; [done|]. by rewrite insert_by_id_perm, IH. Qed.

(** Sorted by identifier *)
Definition not_after (h h' : Hash) : Prop := ltb h' h = false.
Lemma not_after_trans h1 h2 h3 : not_after h1 h2 → not_after h2 h3 → not_after h1 h3.
Proof.
  unfold not_after. intros H1 H2. destruct (ltb h3 h1) eqn:H3; [|done].
  destruct (ltb_total h2 h1) as [?|[->|H21]]; [congruence|congruence|]. by rewrite (ltb_trans h3 h1 h2) in H2.
Qed.
Lemma insert_by_id_sorted p l :
  StronglySorted not_after (proposal_id <$> l) → StronglySorted not_after (proposal_id <$> insert_by_id p l).
Proof.
  induction l as [|q l IH]; cbn; intros Hs; [by repeat constructor|].
  apply StronglySorted_inv in Hs as [Hs Hq]. destruct (ltb (proposal_id q) (proposal_id p)) eqn:Hlt; cbn.
  - constructor; [by apply IH|]. rewrite insert_by_id_perm. constructor; [|done]. unfold not_after.
    destruct (ltb (proposal_id p) (proposal_id q)) eqn:H'; [|done].
    pose proof (ltb_trans _ _ _ Hlt H') as Hirr. by rewrite ltb_irrefl in Hirr.
  - constructor; [by constructor|]. constructor; [done|]. eapply Forall_impl; [exact Hq|]. intros h. by apply not_after_trans.
Qed.
Lemma sort_by_id_sorted l : StronglySorted not_after (proposal_id <$> sort_by_id l).
Proof. induction l as [|p l IH]; cbn; [constructor|]. by apply insert_by_id_sorted. Qed.

(** Two plans are in a group exactly if they have the same proposals. *)
Lemma same_group v w :
  group_key (normal v) = group_key (normal w) ↔ proposal_id <$> proposals v ≡ₚ proposal_id <$> proposals w.
Proof.
  unfold group_key, normal. cbn. split.
  - intros Heq. rewrite <-(sort_by_id_perm (proposals v)), <-(sort_by_id_perm (proposals w)). by rewrite Heq.
  - intros Hp. apply (StronglySorted_unique_strong not_after).
    + intros x1 x2 _ _ H1 H2. unfold not_after in *. destruct (ltb_total x1 x2) as [?|[?|?]]; congruence.
    + apply sort_by_id_sorted.
    + apply sort_by_id_sorted.
    + by rewrite !sort_by_id_perm.
Qed.


Lemma normal_u64 v : plan_u64 v → plan_u64 (normal v).
Proof. unfold plan_u64, normal. cbn. by rewrite sort_by_id_perm. Qed.

(** ** The command *)

(** The plans that are merged with the key [k], their proposals sorted *)
Definition group (plans : list VotePlan) (k : list Hash) : list VotePlan :=
  filter (λ v, group_key v = k) (normal <$> plans).
(** [m] is the merge of the group of [k]. *)
Definition merges (plans : list VotePlan) (k : list Hash) (m : MergedVotePlan) : Prop :=
  ids m = list_to_set (plan_id <$> group plans k) ∧
  proposal_id <$> merged_proposals m = k ∧
  merge_of (group plans k) (merged_proposals m).

Lemma group_merge_ok plans k :
  Forall plan_u64 plans → group plans k ≠ [] →
  match merge_group (group plans k) with
  | Some (Ok m) => merges plans k m
  | Some (Err e) => clash (Some e) (group plans k)
  | None => clash None (group plans k)
  end.
Proof.
  intros Hu Hne. apply merge_group_ok; [done|apply list.Forall_forall..].
  - by intros v [? _]%list_elem_of_filter.
  - intros v [_ [w [-> Hw]]%list_elem_of_fmap]%list_elem_of_filter.
    apply normal_u64. rewrite list.Forall_forall in Hu. by apply Hu.
Qed.
Lemma merge_groups_ok plans ks :
  Forall plan_u64 plans → Forall (λ k, group plans k ≠ []) ks →
  match merge_groups (group plans <$> ks) with
  | Some (Ok ms) => Forall2 (merges plans) ks ms
  | Some (Err e) => ∃ k, clash (Some e) (group plans k)
  | None => ∃ k, clash None (group plans k)
  end.
Proof.
  intros Hu. induction 1 as [|k ks Hk Hks IH]; cbn; [done|].
  pose proof (group_merge_ok plans k Hu Hk) as Hg.
  destruct (merge_group (group plans k)) as [[m|e]|]; [|by exists k..].
  change (list_fmap _ _ _ ks) with (group plans <$> ks).
  destruct (merge_groups (group plans <$> ks)) as [[ms|e]|]; [by constructor|done..].
Qed.
Lemma groups_eq plans :
  (map_to_list (group_by_proposals plans)).*2 = group plans <$> (map_to_list (group_by_proposals plans)).*1.
Proof.
  rewrite <-list_fmap_compose. apply list_fmap_ext. intros _ [k g] Hkg%list_elem_of_lookup_2. cbn.
  apply elem_of_map_to_list in Hkg. rewrite group_lookup in Hkg. unfold group.
  by destruct (filter _ _); simplify_eq.
Qed.
Lemma group_keys plans k : k ∈ (map_to_list (group_by_proposals plans)).*1 ↔ group plans k ≠ [].
Proof.
  rewrite list_elem_of_fmap. split.
  - intros ([k' g] & -> & Hg%elem_of_map_to_list). rewrite group_lookup in Hg. cbn. unfold group. by destruct (filter _ _).
  - intros Hg. exists (k, group plans k). split; [done|]. apply elem_of_map_to_list. rewrite group_lookup.
    unfold group in *. by destruct (filter _ _).
Qed.

(** C38: merging vote plans makes one plan of each group of plans that have the
    same proposals, in whatever order they list them, and no other: it has the
    identifiers of the group's plans, the proposals sorted by identifier with the
    options of one of the plans, and
    for each proposal the sum (at 64 bits) of the votes cast and, for each
    option, of the counts of the group's plans, which are all public or all
    private. It fails only if two plans of a group differ in the privacy of a
    proposal, or one of them is still encrypted, and panics only if they differ
    in the options of a result. *)
Theorem merge_voteplans_correct plans :
  Forall plan_u64 plans →
  (∀ v w, group_key (normal v) = group_key (normal w) ↔ proposal_id <$> proposals v ≡ₚ proposal_id <$> proposals w) ∧
  match merge_voteplans plans with
  | Some (Ok ms) => ∃ ks, NoDup ks ∧ (∀ k, k ∈ ks ↔ group plans k ≠ []) ∧ Forall2 (merges plans) ks ms
  | Some (Err e) => ∃ k, clash (Some e) (group plans k)
  | None => ∃ k, clash None (group plans k)
  end.
Proof.
  intros Hu. split; [apply same_group|]. unfold merge_voteplans. rewrite groups_eq.
  pose proof (merge_groups_ok plans (map_to_list (group_by_proposals plans)).*1 Hu) as Hok.
  destruct (merge_groups _) as [[ms|e]|]; [exists (map_to_list (group_by_proposals plans)).*1; split_and!|..];
    try (apply Hok; apply list.Forall_forall; intros k; apply group_keys).
  - apply NoDup_fst_map_to_list.
  - apply group_keys.
Qed.
End tally.
End Tally.

(** ** A sample *)
Module SampleTally.
Import Tally.
Definition opts : Z * Z := (0, 2)%Z.
Definition prop (id : Z) (r : list Z) (n : Z) : VoteProposalStatus (Hash:=Z) (Encrypted:=Z) :=
  mkProposal id opts (PrivateDecrypted (mkResult r opts)) n.
Definition enc (id : Z) : VoteProposalStatus (Hash:=Z) (Encrypted:=Z) := mkProposal id opts (PrivateEncrypted 7%Z) 1.
(** Two plans on the proposals 1 and 2, in another order, and one on 3 *)
Definition plans : list (VotePlan (Hash:=Z) (Encrypted:=Z)) :=
  [mkPlan 10%Z [prop 1 [1; 10] 3; prop 2 [2; 8] 4]; mkPlan 11%Z [prop 2 [1; 1] 2; prop 1 [5; 0] 1];
   mkPlan 12%Z [enc 3]]%Z.

Example sample_merges : 
  merge_voteplans Z.ltb plans =
  Some (Ok [mkMerged {[12%Z]} [enc 3]; mkMerged {[10%Z; 11%Z]} [prop 1 [6; 10] 4; prop 2 [3; 9] 6]])%Z ∨
  merge_voteplans Z.ltb plans =
  Some (Ok [mkMerged {[10%Z; 11%Z]} [prop 1 [6; 10] 4; prop 2 [3; 9] 6]; mkMerged {[12%Z]} [enc 3]])%Z.
Proof. vm_compute. first [by left | by right]. Qed.

Lemma merge_voteplans_correct_witness :
  Forall plan_u64 plans ∧ ∃ ms, merge_voteplans Z.ltb plans = Some (Ok ms) ∧
  ∃ ks, NoDup ks ∧ (∀ k, k ∈ ks ↔ group Z.ltb plans k ≠ []) ∧ Forall2 (merges Z.ltb plans) ks ms.
Proof.
  assert (Forall plan_u64 plans) as Hu.
  { repeat constructor; cbn; try (unfold U64; lia); intros r [= <-]; repeat constructor; unfold U64; lia. }
  split; [exact Hu|].
  destruct (merge_voteplans Z.ltb plans) as [[ms|e]|] eqn:Hm; [|by vm_compute in Hm..].
  exists ms. split; [done|]. pose proof (merge_voteplans_correct Z.ltb plans Hu) as [_ Hc].
  rewrite Hm in Hc. exact Hc.
Defined.

(** A plan that is listed twice is counted twice, under one identifier. *)
Lemma plan_counted_twice :
  merge_voteplans Z.ltb [mkPlan 10 [prop 1 [1; 10] 3]; mkPlan 10 [prop 1 [1; 10] 3]]%Z =
  Some (Ok [mkMerged {[10]} [prop 1 [2; 20] 6]])%Z.
Proof. by vm_compute. Qed.
(** An encrypted plan is refused beside another one only. *)
Lemma encrypted_alone :
  merge_voteplans Z.ltb [mkPlan 10 [enc 1]]%Z = Some (Ok [mkMerged {[10]} [enc 1]])%Z ∧
  merge_voteplans Z.ltb [mkPlan 10 [enc 1]; mkPlan 11 [prop 1 [1; 10] 3]]%Z = Some (Err VotePlanEncrypted).
Proof. by vm_compute. Qed.
End SampleTally.
