(* ===== verification/Metrics.v ===== *)
(** * Metrics

    Models [jormungandr/src/metrics/mod.rs] (the trait [MetricsBackend] and the
    list of backends) and its two backends, [backends/simple_counter.rs], which
    the REST interface reports, and [backends/prometheus_exporter.rs], which is
    reported to a Prometheus server.

    The values of the chain library, the gauges of the Prometheus library and
    the operations on [f64] are parameters.  A panic is [None].  Strings that
    are only printed ([block_date().to_string()] and the like) are the values
    they are printed from. *)

From S2P Require Import Prelude BlockDate Fragment.
From Stdlib Require QArith.QArith_base.

Class MetricsLib `{FragmentTypes} := {
  (** [Value]: sums and differences are checked. *)
  value_add : Z → Z → option Z;
  value_sub : Z → Z → option Z;
  value_add_checked a b : value_add a b = checked_add U64 a b;
  value_sub_checked a b : value_sub a b = checked_sub a b;
  (** [tx.total_input()], [tx.total_output()] *)
  total_input : Transaction → option Z;
  total_output : Transaction → option Z;
  total_input_u64 tx v : total_input tx = Some v → (0 ≤ v < U64)%Z;
  total_output_u64 tx v : total_output tx = Some v → (0 ≤ v < U64)%Z;
  (** [hash.as_bytes()] *)
  as_bytes : HeaderHash → list Z;
  as_bytes_length h : length (as_bytes h) = 32;
  as_bytes_u8 h : Forall (λ b, 0 ≤ b < 256)%Z (as_bytes h);
  (** [IntCounter] and [GenericGauge<AtomicU64>] *)
  UIntGauge : Type;
  gauge_new : UIntGauge;
  gauge_get : UIntGauge → Z;
  gauge_set : Z → UIntGauge → UIntGauge;
  gauge_add : Z → UIntGauge → UIntGauge;
  gauge_sub : Z → UIntGauge → UIntGauge;
  gauge_get_new : gauge_get gauge_new = 0%Z;
  gauge_get_set v g : gauge_get (gauge_set v g) = v;
  gauge_get_add v g : gauge_get (gauge_add v g) = wrap64 (gauge_get g + v);
  gauge_get_sub v g : gauge_get (gauge_sub v g) = wrap64 (gauge_get g - v);
  (** [f64] *)
  f64 : Type;
  f64_of : Z → f64;
  f64_half : f64;
  f64_add : f64 → f64 → f64;
  f64_sub : f64 → f64 → f64;
  f64_mul : f64 → f64 → f64;
  f64_div : f64 → f64 → f64;
}.

Module Metrics.
Section metrics.
Context `{MetricsLib}.

(** ** Blocks, as far as the metrics read them *)
Record Block := mkBlock {
  block_content_size : Z;
  block_date : BlockDate;
  block_hash : HeaderHash;
  chain_length : Z;
  contents : list Fragment;
}.
(** [time] is in seconds since the Unix epoch. *)
Record Ref := mkRef {
  block_content_max_size : Z;
  time : Z;
}.

(** ** The trait [MetricsBackend] *)
#[universes(polymorphic)] Class MetricsBackend (B : Type) := {
  add_tx_recv_cnt : Z → B → B;
  set_mempool_usage_ratio : f64 → B → B;
  set_mempool_total_size : Z → B → B;
  add_tx_rejected_cnt : Z → B → B;
  add_block_recv_cnt : Z → B → B;
  add_peer_connected_cnt : Z → B → B;
  sub_peer_connected_cnt : Z → B → B;
  add_peer_quarantined_cnt : Z → B → B;
  sub_peer_quarantined_cnt : Z → B → B;
  set_peer_available_cnt : Z → B → B;
  set_slot_start_time : Z → B → B;
  set_tip_block : Block → Ref → B → option B;
}.

(** [Arc<dyn MetricsBackend>], and the list of them, which forwards a call to
    each *)
#[universes(polymorphic)] Record Dyn := mkDyn {
  carrier : Type;
  backend : MetricsBackend carrier;
  object : carrier;
}.
#[export] Existing Instance backend.
Definition dyn {B} `{b : MetricsBackend B} (x : B) : Dyn := mkDyn B b x.
Definition Metrics : Type := list Dyn.
Definition builder : Metrics := [].
Definition add_backend (d : Dyn) (m : Metrics) : Metrics := m ++ [d].

Definition metrics_method {A} (f : ∀ B, MetricsBackend B → A → B → B) (input : A) (m : Metrics) : Metrics :=
  (λ d, mkDyn (carrier d) (backend d) (f (carrier d) (backend d) input (object d))) <$> m.
Definition metrics_set_tip_block (block : Block) (block_ref : Ref) (m : Metrics) : option Metrics :=
  mapM (λ d, x ← set_tip_block block block_ref (object d); Some (mkDyn (carrier d) (backend d) x)) m.
#[export] Instance metrics_backend : MetricsBackend Metrics := {|
  add_tx_recv_cnt := metrics_method (@add_tx_recv_cnt);
  add_tx_rejected_cnt := metrics_method (@add_tx_rejected_cnt);
  set_mempool_usage_ratio := metrics_method (@set_mempool_usage_ratio);
  set_mempool_total_size := metrics_method (@set_mempool_total_size);
  add_block_recv_cnt := metrics_method (@add_block_recv_cnt);
  add_peer_connected_cnt := metrics_method (@add_peer_connected_cnt);
  sub_peer_connected_cnt := metrics_method (@sub_peer_connected_cnt);
  add_peer_quarantined_cnt := metrics_method (@add_peer_quarantined_cnt);
  sub_peer_quarantined_cnt := metrics_method (@sub_peer_quarantined_cnt);
  set_peer_available_cnt := metrics_method (@set_peer_available_cnt);
  set_slot_start_time := metrics_method (@set_slot_start_time);
  set_tip_block := metrics_set_tip_block;
|}.

(** ** The totals of a block

    The two backends have the same text here. *)
Record Totals := mkTotals {
  block_tx_count : Z;
  block_input_sum : Z;
  block_fee_sum : Z;
  block_votes_cast : Z;
}.
Definition no_totals : Totals := mkTotals 0 0 0 0.

(** The transaction of a fragment, and whether it casts a vote *)
Definition counted (fragment : Fragment) : option (Transaction * bool) :=
  match fragment with
  | Transaction_ tx | OwnerStakeDelegation tx | StakeDelegation tx | PoolRegistration tx
  | PoolRetirement tx | PoolUpdate tx | VotePlan tx | VoteTally tx | MintToken tx
  | UpdateProposal tx | UpdateVote tx | EvmMapping tx => Some (tx, false)
  | VoteCast tx => Some (tx, true)
  | Initial _ | OldUtxoDeclaration _ | Evm _ => None
  end.
Definition totals (tx : Transaction) : option (Z * Z) :=
  i ← total_input tx; o ← total_output tx; Some (i, o).
(** One round of [try_for_each]: [None] is a [ValueError]. *)
Definition count_fragment (t : Totals) (fragment : Fragment) : option Totals :=
  match counted fragment with
  | None => Some t
  | Some (tx, vote) =>
      let votes_cast := if vote then wrap64 (block_votes_cast t + 1) else block_votes_cast t in
      '(total_input, total_output) ← totals tx;
      let block_tx_count := wrap64 (block_tx_count t + 1) in
      block_input_sum ← value_add (block_input_sum t) total_input;
      let fee := default 0%Z (value_sub total_input total_output) in
      block_fee_sum ← value_add (block_fee_sum t) fee;
      Some (mkTotals block_tx_count block_input_sum block_fee_sum votes_cast)
  end.
Fixpoint count_fragments (t : Totals) (fragments : list Fragment) : option Totals :=
  match fragments with
  | [] => Some t
  | f :: fragments' => t' ← count_fragment t f; count_fragments t' fragments'
  end.
Definition block_totals (block : Block) : option Totals := count_fragments no_totals (contents block).

(** ** The simple counter *)
Record BlockCounters := mkCounters {
  bc_tx_count : Z;
  bc_input_sum : Z;
  bc_fee_sum : Z;
  bc_content_size : Z;
  bc_avg_content_size : f64;
  bc_date : BlockDate;
  bc_hash : HeaderHash;
  bc_chain_length : Z;
  bc_time : Z;
}.
Record SimpleCounter := mkSimple {
  tx_recv_cnt : Z;
  tx_rejected_cnt : Z;
  mempool_usage_ratio : f64;
  mempool_total_size : Z;
  votes_cast : Z;
  block_recv_cnt : Z;
  slot_start_time : Z;
  peers_connected_cnt : Z;
  peers_quarantined_cnt : Z;
  peers_available_cnt : Z;
  tip_block : option BlockCounters;
  start_time : Z;
}.
Definition simple_new (now : Z) : SimpleCounter := mkSimple 0 0 (f64_of 0) 0 0 0 0 0 0 0 None now.

(** [fetch_add] and [fetch_sub] wrap around. *)
Definition fetch_add (n cell : Z) : Z := wrap64 (cell + n).
Definition fetch_sub (n cell : Z) : Z := wrap64 (cell - n).

Definition calc_running_block_size_average (last_avg new_value : f64) : f64 :=
  f64_add (f64_mul last_avg (f64_sub (f64_of 1) f64_half)) (f64_mul new_value f64_half).

Definition simple_set_tip_block (block : Block) (block_ref : Ref) (s : SimpleCounter) : option SimpleCounter :=
  t ← block_totals block;
  let content_size := block_content_size block in
  let content_size_ratio := f64_div (f64_of content_size) (f64_of (block_content_max_size block_ref)) in
  let last_avg := match tip_block s with Some data => bc_avg_content_size data | None => content_size_ratio end in
  let block_data := mkCounters (block_tx_count t) (block_input_sum t) (block_fee_sum t) content_size
    (calc_running_block_size_average last_avg content_size_ratio)
    (block_date block) (block_hash block) (chain_length block) (time block_ref) in
  let '(mkSimple a b c d votes e f g h i _ st) := s in
  Some (mkSimple a b c d (fetch_add (block_votes_cast t) votes) e f g h i (Some block_data) st).
#[export] Instance simple_counter : MetricsBackend SimpleCounter := {|
  add_tx_recv_cnt n '(mkSimple a b c d v e f g h i t st) := mkSimple (fetch_add n a) b c d v e f g h i t st;
  add_tx_rejected_cnt n '(mkSimple a b c d v e f g h i t st) := mkSimple a (fetch_add n b) c d v e f g h i t st;
  set_mempool_usage_ratio r '(mkSimple a b c d v e f g h i t st) := mkSimple a b r d v e f g h i t st;
  set_mempool_total_size n '(mkSimple a b c d v e f g h i t st) := mkSimple a b c n v e f g h i t st;
  add_block_recv_cnt n '(mkSimple a b c d v e f g h i t st) := mkSimple a b c d v (fetch_add n e) f g h i t st;
  add_peer_connected_cnt n '(mkSimple a b c d v e f g h i t st) := mkSimple a b c d v e f (fetch_add n g) h i t st;
  sub_peer_connected_cnt n '(mkSimple a b c d v e f g h i t st) := mkSimple a b c d v e f (fetch_sub n g) h i t st;
  add_peer_quarantined_cnt n '(mkSimple a b c d v e f g h i t st) := mkSimple a b c d v e f g (fetch_add n h) i t st;
  sub_peer_quarantined_cnt n '(mkSimple a b c d v e f g h i t st) := mkSimple a b c d v e f g (fetch_sub n h) i t st;
  set_peer_available_cnt n '(mkSimple a b c d v e f g h i t st) := mkSimple a b c d v e f g h n t st;
  set_slot_start_time n '(mkSimple a b c d v e f g h i t st) := mkSimple a b c d v e n g h i t st;
  set_tip_block := simple_set_tip_block;
|}.

(** [NodeStats] *)
Record NodeStats := mkStats {
  stat_block_recv_cnt : Z;
  last_block_content_size : Z;
  last_block_date : option BlockDate;
  last_block_fees : Z;
  last_block_hash : option HeaderHash;
  last_block_height : option Z;
  last_block_sum : Z;
  last_block_time : option Z;
  last_block_tx : Z;
  last_received_block_time : option Z;
  block_content_size_avg : f64;
  peer_available_cnt : Z;
  peer_connected_cnt : Z;
  peer_quarantined_cnt : Z;
  peer_total_cnt : Z;
  stat_tx_recv_cnt : Z;
  stat_mempool_usage_ratio : f64;
  stat_mempool_total_size : Z;
  stat_tx_rejected_cnt : Z;
  stat_votes_cast : Z;
  uptime : option Z;
}.
Definition get_stats (now : Z) (s : SimpleCounter) : NodeStats :=
  let block_data := tip_block s in
  mkStats (block_recv_cnt s) (default 0%Z (bc_content_size <$> block_data)) (bc_date <$> block_data)
    (default 0%Z (bc_fee_sum <$> block_data)) (bc_hash <$> block_data) (bc_chain_length <$> block_data)
    (default 0%Z (bc_input_sum <$> block_data)) (bc_time <$> block_data) (default 0%Z (bc_tx_count <$> block_data))
    (Some (slot_start_time s)) (default (f64_of 0) (bc_avg_content_size <$> block_data))
    (peers_available_cnt s) (peers_connected_cnt s) (peers_quarantined_cnt s)
    (usize_add (peers_available_cnt s) (peers_quarantined_cnt s))
    (tx_recv_cnt s) (mempool_usage_ratio s) (mempool_total_size s) (tx_rejected_cnt s) (votes_cast s)
    (Some (now - start_time s)%Z).

(** ** The Prometheus exporter *)

(** The fields that are gauges or counters; [BlockHash i] is the [i]th piece. *)
Inductive Field :=
| TxRecvCnt | TxRejectedCnt | MempoolSizeBytesTotal | VotesCastedCnt | BlockRecvCnt | PeerConnectedCnt
| PeerQuarantinedCnt | PeerAvailableCnt | PeerTotalCnt | SlotStartTime | BlockTxCount | BlockInputSum
| BlockFeeSum | BlockContentSize | BlockEpoch | BlockSlot | BlockChainLength | BlockTime
| BlockHash (i : nat).
#[export] Instance field_eq_dec : EqDecision Field.
Proof. solve_decision. Defined.
Record Prometheus := mkPrometheus {
  gauges : Field → UIntGauge;
  prom_mempool_usage_ratio : f64;
  block_hash_value : option HeaderHash;
}.
Definition prometheus_new : Prometheus := mkPrometheus (λ _, gauge_new) (f64_of 0) None.

(** The names under which [Prometheus::default] registers the fields *)
Definition registered : list (string * Field) :=
  [("txRecvCnt", TxRecvCnt); ("mempoolSizeBytesTotal", MempoolSizeBytesTotal); ("txRejectedCnt", TxRejectedCnt);
   ("votesCasted", VotesCastedCnt); ("blockRecvCnt", BlockRecvCnt); ("peerConnectedCnt", PeerConnectedCnt);
   ("peerQuarantinedCnt", PeerQuarantinedCnt); ("peerAvailableCnt", PeerAvailableCnt);
   ("peerTotalCnt", PeerTotalCnt); ("lastReceivedBlockTime", SlotStartTime); ("lastBlockTx", BlockTxCount);
   ("lastBlockInputTime", BlockInputSum); ("lastBlockSum", BlockFeeSum);
   ("lastBlockContentSize", BlockContentSize); ("lastBlockEpoch", BlockEpoch); ("lastBlockSlot", BlockSlot);
   ("lastBlockHeight", BlockChainLength); ("lastBlockDate", BlockTime);
   ("lastBlockHashPiece1", BlockHash 0); ("lastBlockHashPiece2", BlockHash 1);
   ("lastBlockHashPiece3", BlockHash 2); ("lastBlockHashPiece4", BlockHash 3)].

Definition with_gauge (x : Field) (f : UIntGauge → UIntGauge) (p : Prometheus) : Prometheus :=
  mkPrometheus (λ y, if decide (y = x) then f (gauges p y) else gauges p y)
    (prom_mempool_usage_ratio p) (block_hash_value p).
Definition set_field (x : Field) (v : Z) : Prometheus → Prometheus := with_gauge x (gauge_set v).

Definition prom_set_tip_block (block : Block) (block_ref : Ref) (p : Prometheus) : option Prometheus :=
  t ← block_totals block;
  let p := with_gauge VotesCastedCnt (gauge_add (block_votes_cast t)) p in
  let p := set_field BlockTxCount (block_tx_count t) p in
  let p := set_field BlockInputSum (block_input_sum t) p in
  let p := set_field BlockFeeSum (block_fee_sum t) p in
  let p := set_field BlockContentSize (block_content_size block) p in
  let p := set_field BlockEpoch (epoch (block_date block)) p in
  let p := set_field BlockSlot (slot_id (block_date block)) p in
  let p := set_field BlockChainLength (chain_length block) p in
  (** [duration_since(UNIX_EPOCH).unwrap()] *)
  if (time block_ref <? 0)%Z then None else
  let p := set_field BlockTime (time block_ref) p in
  Some (mkPrometheus (gauges p) (prom_mempool_usage_ratio p) (Some (block_hash block))).
#[export] Instance prometheus : MetricsBackend Prometheus := {|
  add_tx_recv_cnt n := with_gauge TxRecvCnt (gauge_add n);
  add_tx_rejected_cnt n := with_gauge TxRejectedCnt (gauge_add n);
  set_mempool_usage_ratio r p := mkPrometheus (gauges p) r (block_hash_value p);
  set_mempool_total_size := set_field MempoolSizeBytesTotal;
  add_block_recv_cnt n := with_gauge BlockRecvCnt (gauge_add n);
  add_peer_connected_cnt n := with_gauge PeerConnectedCnt (gauge_add n);
  sub_peer_connected_cnt n := with_gauge PeerConnectedCnt (gauge_sub n);
  add_peer_quarantined_cnt n := with_gauge PeerQuarantinedCnt (gauge_add n);
  sub_peer_quarantined_cnt n := with_gauge PeerQuarantinedCnt (gauge_sub n);
  set_peer_available_cnt := set_field PeerAvailableCnt;
  set_slot_start_time := set_field SlotStartTime;
  set_tip_block := prom_set_tip_block;
|}.

(** [u64::from_le_bytes] and its inverse *)
Definition from_le_bytes (bs : list Z) : Z := foldr (λ b n, (b + 256 * n)%Z) 0%Z bs.
Fixpoint to_le_bytes (w : nat) (n : Z) : list Z :=
  match w with O => [] | S w' => (n mod 256)%Z :: to_le_bytes w' (n / 256) end.

Definition set_piece (bs : list Z) (i : nat) (p : Prometheus) : Prometheus :=
  set_field (BlockHash i) (from_le_bytes (take 8 (drop (8 * i) bs))) p.
(** [http_response], before the encoding *)
Definition http_response (p : Prometheus) : Prometheus :=
  let p :=
    match block_hash_value p with
    | Some h =>
        let p := foldl (λ p i, set_piece (as_bytes h) i p) p (seq 0 4) in
        mkPrometheus (gauges p) (prom_mempool_usage_ratio p) None
    | None => p
    end in
  set_field PeerTotalCnt
    (usize_add (gauge_get (gauges p PeerAvailableCnt)) (gauge_get (gauges p PeerQuarantinedCnt))) p.
(** What is encoded under a name *)
Definition scrape (p : Prometheus) (name : string) : option Z :=
  x ← list_find (λ e, e.1 = name) registered; Some (gauge_get (gauges p (x.2).2)).

(** ** What the metrics are to show

    The calls of the trait, as the node makes them, and the runs of a backend *)
Inductive Op :=
| AddTxRecv (n : Z) | AddTxRejected (n : Z) | SetMempoolUsage (r : f64) | SetMempoolSize (n : Z)
| AddBlockRecv (n : Z) | AddPeerConnected (n : Z) | SubPeerConnected (n : Z) | AddPeerQuarantined (n : Z)
| SubPeerQuarantined (n : Z) | SetPeerAvailable (n : Z) | SetSlotStart (n : Z) | SetTip (b : Block) (r : Ref).
#[universes(polymorphic)] Definition perform {B} `{MetricsBackend B} (op : Op) (x : B) : option B :=
  match op with
  | AddTxRecv n => Some (add_tx_recv_cnt n x)
  | AddTxRejected n => Some (add_tx_rejected_cnt n x)
  | SetMempoolUsage r => Some (set_mempool_usage_ratio r x)
  | SetMempoolSize n => Some (set_mempool_total_size n x)
  | AddBlockRecv n => Some (add_block_recv_cnt n x)
  | AddPeerConnected n => Some (add_peer_connected_cnt n x)
  | SubPeerConnected n => Some (sub_peer_connected_cnt n x)
  | AddPeerQuarantined n => Some (add_peer_quarantined_cnt n x)
  | SubPeerQuarantined n => Some (sub_peer_quarantined_cnt n x)
  | SetPeerAvailable n => Some (set_peer_available_cnt n x)
  | SetSlotStart n => Some (set_slot_start_time n x)
  | SetTip b r => set_tip_block b r x
  end.
#[universes(polymorphic)] Fixpoint run {B} `{MetricsBackend B} (ops : list Op) (x : B) : option B :=
  match ops with [] => Some x | op :: ops' => y ← perform op x; run ops' y end.
Definition run_dyn (ops : list Op) (d : Dyn) : option Dyn :=
  x ← run ops (object d); Some (mkDyn (carrier d) (backend d) x).

(** The totals of a block: the sums over its transactions *)
Definition txs (b : Block) : list (Transaction * bool) := omap counted (contents b).
Definition input_of (x : Transaction * bool) : Z := default 0%Z (total_input x.1).
Definition fee_of (x : Transaction * bool) : Z := Z.max 0 (input_of x - default 0%Z (total_output x.1)).
Definition vote_of (x : Transaction * bool) : Z := if x.2 then 1 else 0.
Definition totals_of (b : Block) : Totals :=
  mkTotals (wrap64 (sumZ (λ _, 1%Z) (txs b))) (sumZ input_of (txs b)) (sumZ fee_of (txs b)) (wrap64 (sumZ vote_of (txs b))).
Definition has_totals (x : Transaction * bool) : Prop := is_Some (total_input x.1) ∧ is_Some (total_output x.1).
(** A block whose totals are values *)
Definition countable (b : Block) : Prop := Forall has_totals (txs b) ∧ (sumZ input_of (txs b) < U64)%Z.

(** The amounts added over a history, the last value set, and the tip *)
Definition amount (f : Op → Z) (ops : list Op) : Z := wrap64 (sumZ f ops).
Definition latest {A} (f : Op → option A) (ops : list Op) : option A := last (omap f ops).
Definition tip_of (op : Op) : option (Block * Ref) := match op with SetTip b r => Some (b, r) | _ => None end.
Definition at_tip (f : Block → Ref → Z) (ops : list Op) : Z :=
  default 0%Z ((λ t, f t.1 t.2) <$> latest tip_of ops).
Definition piece (i : nat) (h : HeaderHash) : Z := from_le_bytes (take 8 (drop (8 * i) (as_bytes h))).
Definition published (ops : list Op) (x : Field) : Z :=
  let available := default 0%Z (latest (λ op, match op with SetPeerAvailable n => Some n | _ => None end) ops) in
  let quarantined := amount (λ op, match op with AddPeerQuarantined n => n | SubPeerQuarantined n => - n | _ => 0 end%Z) ops in
  match x with
  | TxRecvCnt => amount (λ op, match op with AddTxRecv n => n | _ => 0 end%Z) ops
  | TxRejectedCnt => amount (λ op, match op with AddTxRejected n => n | _ => 0 end%Z) ops
  | MempoolSizeBytesTotal => default 0%Z (latest (λ op, match op with SetMempoolSize n => Some n | _ => None end) ops)
  | VotesCastedCnt => amount (λ op, match op with SetTip b _ => block_votes_cast (totals_of b) | _ => 0 end%Z) ops
  | BlockRecvCnt => amount (λ op, match op with AddBlockRecv n => n | _ => 0 end%Z) ops
  | PeerConnectedCnt => amount (λ op, match op with AddPeerConnected n => n | SubPeerConnected n => - n | _ => 0 end%Z) ops
  | PeerQuarantinedCnt => quarantined
  | PeerAvailableCnt => available
  | PeerTotalCnt => usize_add available quarantined
  | SlotStartTime => default 0%Z (latest (λ op, match op with SetSlotStart n => Some n | _ => None end) ops)
  | BlockTxCount => at_tip (λ b _, block_tx_count (totals_of b)) ops
  | BlockInputSum => at_tip (λ b _, block_input_sum (totals_of b)) ops
  | BlockFeeSum => at_tip (λ b _, block_fee_sum (totals_of b)) ops
  | BlockContentSize => at_tip (λ b _, block_content_size b) ops
  | BlockEpoch => at_tip (λ b _, epoch (block_date b)) ops
  | BlockSlot => at_tip (λ b _, slot_id (block_date b)) ops
  | BlockChainLength => at_tip (λ b _, chain_length b) ops
  | BlockTime => at_tip (λ _ r, time r) ops
  | BlockHash i => at_tip (λ b _, if decide (i < 4) then piece i (block_hash b) else 0%Z) ops
  end.
(** The moving average starts at the first block. *)
Definition ratio (t : Block * Ref) : f64 := f64_div (f64_of (block_content_size t.1)) (f64_of (block_content_max_size t.2)).
Definition average (ts : list (Block * Ref)) : f64 :=
  match ts with
  | [] => f64_of 0
  | t :: _ => foldl (λ a t, calc_running_block_size_average a (ratio t)) (ratio t) ts
  end.
Definition usage (ops : list Op) : f64 :=
  default (f64_of 0) (latest (λ op, match op with SetMempoolUsage r => Some r | _ => None end) ops).

(** The report of the REST interface *)
Definition expected_stats (ops : list Op) (up : Z) : NodeStats :=
  let v := published ops in
  let tip := latest tip_of ops in
  mkStats (v BlockRecvCnt) (v BlockContentSize) ((λ t, block_date t.1) <$> tip) (v BlockFeeSum)
    ((λ t, block_hash t.1) <$> tip) ((λ t, chain_length t.1) <$> tip) (v BlockInputSum) ((λ t, time t.2) <$> tip)
    (v BlockTxCount) (Some (v SlotStartTime)) (average (omap tip_of ops)) (v PeerAvailableCnt) (v PeerConnectedCnt)
    (v PeerQuarantinedCnt) (v PeerTotalCnt) (v TxRecvCnt) (usage ops) (v MempoolSizeBytesTotal) (v TxRejectedCnt)
    (v VotesCastedCnt) (Some up).

(** The exporter is scraped between the calls. *)
Inductive Event := Call (op : Op) | Scrape.
Definition event (e : Event) (p : Prometheus) : option Prometheus :=
  match e with Call op => perform op p | Scrape => Some (http_response p) end.
Fixpoint run_events (es : list Event) (p : Prometheus) : option Prometheus :=
  match es with [] => Some p | e :: es' => p' ← event e p; run_events es' p' end.
Definition calls (es : list Event) : list Op := omap (λ e, match e with Call op => Some op | Scrape => None end) es.
(** ** The totals of a block *)
Lemma wrap64_add_0 z : wrap64 (wrap64 z + 0) = wrap64 z.
Proof. by rewrite wrap64_add_l, Z.add_0_r. Qed.
Lemma sumZ_nonneg {A} (f : A → Z) l : (∀ x, 0 ≤ f x)%Z → (0 ≤ sumZ f l)%Z.
Proof. intros Hf. induction l as [|x l IH]; cbn; [lia|]. specialize (Hf x). unfold sumZ in *. lia. Qed.
Lemma input_of_u64 x : (0 ≤ input_of x < U64)%Z.
Proof.
  unfold input_of. destruct (total_input x.1) as [v|] eqn:Hv; [|by vm_compute]. by apply total_input_u64 in Hv.
Qed.
Lemma fee_of_bound x : (0 ≤ fee_of x ≤ input_of x)%Z.
Proof.
  pose proof (input_of_u64 x). unfold fee_of.
  assert (0 ≤ default 0 (total_output x.1))%Z.
  { destruct (total_output x.1) as [v|] eqn:Hv; cbn; [|lia]. apply total_output_u64 in Hv. lia. }
  lia.
Qed.

Lemma count_fragment_spec t f :
  (0 ≤ block_fee_sum t ≤ block_input_sum t)%Z →
  count_fragment t f =
  match counted f with
  | None => Some t
  | Some x =>
      if decide (has_totals x ∧ block_input_sum t + input_of x < U64)%Z
      then Some (mkTotals (wrap64 (block_tx_count t + 1)) (block_input_sum t + input_of x) (block_fee_sum t + fee_of x)
                   (if x.2 then wrap64 (block_votes_cast t + 1) else block_votes_cast t))
      else None
  end.
Proof.
  intros Ht. unfold count_fragment. destruct (counted f) as [[tx vote]|]; [|done]. cbn [fst snd].
  unfold totals, has_totals. pose proof (fee_of_bound (tx, vote)) as Hb. unfold fee_of, input_of in *. cbn [fst] in *.
  destruct (total_input tx) as [i|]; cbn; [|by rewrite decide_False by (intros [[[? [=]] _] _])].
  destruct (total_output tx) as [o|] eqn:Ho; cbn; [|by rewrite decide_False by (intros [[_ [? [=]]] _])].
  rewrite value_sub_checked, !value_add_checked. unfold checked_add, checked_sub. cbn in Hb.
  assert (default 0 (if (o <=? i)%Z then Some (i - o)%Z else None) = Z.max 0 (i - o))%Z as ->.
  { destruct (Z.leb_spec o i); cbn; lia. }
  destruct (Z.ltb_spec (block_input_sum t + i) U64); cbn.
  - rewrite decide_True by eauto. by destruct (Z.ltb_spec (block_fee_sum t + Z.max 0 (i - o)) U64); [|lia].
  - by rewrite decide_False by (intros [_ ?]; lia).
Qed.

Definition added (t : Totals) (l : list (Transaction * bool)) : Totals :=
  mkTotals (wrap64 (block_tx_count t + sumZ (λ _, 1%Z) l)) (block_input_sum t + sumZ input_of l)
    (block_fee_sum t + sumZ fee_of l) (wrap64 (block_votes_cast t + sumZ vote_of l)).
Lemma count_fragments_spec t fs :
  (0 ≤ block_fee_sum t ≤ block_input_sum t)%Z → (block_input_sum t < U64)%Z →
  wrap64 (block_tx_count t) = block_tx_count t → wrap64 (block_votes_cast t) = block_votes_cast t →
  match count_fragments t fs with
  | Some t' => Forall has_totals (omap counted fs) ∧ (block_input_sum t + sumZ input_of (omap counted fs) < U64)%Z ∧
      t' = added t (omap counted fs)
  | None => ¬ (Forall has_totals (omap counted fs) ∧ (block_input_sum t + sumZ input_of (omap counted fs) < U64)%Z)
  end.
Proof.
  revert t. induction fs as [|f fs IH]; intros t Hf Hi Hn Hv; cbn [count_fragments].
  { cbn. split_and!; [constructor|lia|]. unfold added. destruct t. cbn in *. by rewrite !Z.add_0_r, Hn, Hv. }
  rewrite count_fragment_spec by done. cbn [omap list_omap]. change (list_omap _ _ counted fs) with (omap counted fs).
  destruct (counted f) as [x|]; [|by apply IH]. pose proof (fee_of_bound x). pose proof (input_of_u64 x).
  assert (0 ≤ sumZ input_of (omap counted fs))%Z by (apply sumZ_nonneg; intros; apply input_of_u64).
  cbn [sumZ foldr]. fold (sumZ input_of (omap counted fs)). case_decide as Hx; cbn.
  - destruct Hx as [Hx Hlt].
    specialize (IH (mkTotals (wrap64 (block_tx_count t + 1)) (block_input_sum t + input_of x) (block_fee_sum t + fee_of x)
                   (if x.2 then wrap64 (block_votes_cast t + 1) else block_votes_cast t))).
    cbn in IH. specialize (IH ltac:(lia) Hlt ltac:(unfold wrap64; by rewrite Zmod_mod)
      ltac:(destruct x.2; [unfold wrap64; by rewrite Zmod_mod|done])).
    destruct (count_fragments _ fs) as [t'|].
    + destruct IH as (Hall & Hlt' & ->). split_and!; [by constructor|lia|]. unfold added. cbn.
      fold (sumZ (λ _ : Transaction * bool, 1%Z) (omap counted fs)) (sumZ input_of (omap counted fs))
        (sumZ fee_of (omap counted fs)) (sumZ vote_of (omap counted fs)).
      f_equal; [by rewrite wrap64_add_l, Z.add_assoc|lia|lia|]. unfold vote_of at 2.
      destruct x.2; [by rewrite wrap64_add_l, Z.add_assoc|done].
    + intros [[_ Hall]%Forall_cons Hlt']. apply IH. split; [done|lia].
  - intros [[Hx' _]%Forall_cons Hlt]. apply Hx. split; [done|lia].
Qed.
Lemma block_totals_spec b :
  match block_totals b with Some t => countable b ∧ t = totals_of b | None => ¬ countable b end.
Proof.
  pose proof (count_fragments_spec no_totals (contents b)) as Hs. cbn in Hs. unfold block_totals.
  specialize (Hs ltac:(lia) eq_refl eq_refl eq_refl). destruct (count_fragments _ _) as [t|]; [|done].
  destruct Hs as (? & ? & ->). split; [done|]. unfold added, totals_of. cbn. by rewrite !Z.add_0_l.
Qed.
(** ** Histories *)
Lemma run_snoc {B} `{MetricsBackend B} ops op (x : B) : run (ops ++ [op]) x = y ← run ops x; perform op y.
Proof.
  revert x. induction ops as [|op' ops IH]; intros x; cbn; [by destruct (perform op x)|].
  destruct (perform op' x) as [y|]; cbn; [apply IH|done].
Qed.
Lemma amount_snoc f ops op : amount f (ops ++ [op]) = wrap64 (amount f ops + f op).
Proof. unfold amount. rewrite sumZ_app. cbn. by rewrite wrap64_add_l, Z.add_0_r. Qed.
Lemma amount_same f ops op : f op = 0%Z → amount f (ops ++ [op]) = amount f ops.
Proof. intros Hf. rewrite amount_snoc, Hf. apply wrap64_add_0. Qed.
Lemma latest_snoc {A} (f : Op → option A) ops op :
  latest f (ops ++ [op]) = match f op with Some v => Some v | None => latest f ops end.
Proof. unfold latest. rewrite omap_app. cbn. destruct (f op); [by rewrite last_snoc|by rewrite app_nil_r]. Qed.

(** What a call changes of the values to be shown *)
Definition upd (op : Op) (x : Field) (v : Z) : Z :=
  match op, x with
  | AddTxRecv n, TxRecvCnt => fetch_add n v
  | AddTxRejected n, TxRejectedCnt => fetch_add n v
  | SetMempoolSize n, MempoolSizeBytesTotal => n
  | AddBlockRecv n, BlockRecvCnt => fetch_add n v
  | AddPeerConnected n, PeerConnectedCnt => fetch_add n v
  | SubPeerConnected n, PeerConnectedCnt => fetch_sub n v
  | AddPeerQuarantined n, PeerQuarantinedCnt => fetch_add n v
  | SubPeerQuarantined n, PeerQuarantinedCnt => fetch_sub n v
  | SetPeerAvailable n, PeerAvailableCnt => n
  | SetSlotStart n, SlotStartTime => n
  | SetTip b _, VotesCastedCnt => fetch_add (block_votes_cast (totals_of b)) v
  | SetTip b _, BlockTxCount => block_tx_count (totals_of b)
  | SetTip b _, BlockInputSum => block_input_sum (totals_of b)
  | SetTip b _, BlockFeeSum => block_fee_sum (totals_of b)
  | SetTip b _, BlockContentSize => block_content_size b
  | SetTip b _, BlockEpoch => epoch (block_date b)
  | SetTip b _, BlockSlot => slot_id (block_date b)
  | SetTip b _, BlockChainLength => chain_length b
  | SetTip _ r, BlockTime => time r
  | SetTip b _, BlockHash i => if decide (i < 4) then piece i (block_hash b) else 0%Z
  | _, _ => v
  end.
Lemma published_snoc ops op x : x ≠ PeerTotalCnt → published (ops ++ [op]) x = upd op x (published ops x).
Proof.
  intros Hx. destruct x, op; try done; cbn; unfold fetch_sub, at_tip; rewrite ?latest_snoc; try done;
    first [by rewrite amount_same | by rewrite amount_snoc].
Qed.

(** ** The list of backends: each of them sees all calls. *)
Lemma mapM_step {A B} (f : A → option B) x l : mapM f (x :: l) = y ← f x; k ← mapM f l; Some (y :: k).
Proof. done. Qed.
Lemma run_dyn_step op ops d :
  run_dyn (op :: ops) d = y ← perform op (object d); run_dyn ops (mkDyn (carrier d) (backend d) y).
Proof. unfold run_dyn. cbn. by destruct (perform op (object d)). Qed.
Lemma metrics_run ops (m : Metrics) : run ops m = mapM (run_dyn ops) m.
Proof.
  revert m. induction ops as [|op ops IH]; intros m; cbn [run].
  { induction m as [|[B b x] m IHm]; [done|]. cbn. by rewrite <-IHm. }
  assert (perform op m = mapM (λ d, x ← perform op (object d); Some (mkDyn (carrier d) (backend d) x)) m) as ->.
  { destruct op; cbn; unfold metrics_method; try done;
      (induction m as [|[B b x] m IHm]; [done|]; cbn in *; by rewrite <-IHm). }
  induction m as [|d m IHm]; [apply IH|]. rewrite !mapM_step, run_dyn_step.
  destruct (perform op (object d)) as [y|]; cbn [mbind option_bind]; [|done].
  destruct (mapM _ m) as [m'|]; cbn [mbind option_bind] in *.
  - rewrite IH, mapM_step, <-IHm, IH. done.
  - rewrite <-IHm. by destruct (run_dyn ops _).
Qed.

(** ** The simple counter *)
Definition block_field (f : BlockCounters → Z) (s : SimpleCounter) : Z := default 0%Z (f <$> tip_block s).
Definition shown (s : SimpleCounter) (x : Field) : Z :=
  match x with
  | TxRecvCnt => tx_recv_cnt s
  | TxRejectedCnt => tx_rejected_cnt s
  | MempoolSizeBytesTotal => mempool_total_size s
  | VotesCastedCnt => votes_cast s
  | BlockRecvCnt => block_recv_cnt s
  | PeerConnectedCnt => peers_connected_cnt s
  | PeerQuarantinedCnt => peers_quarantined_cnt s
  | PeerAvailableCnt => peers_available_cnt s
  | PeerTotalCnt => usize_add (peers_available_cnt s) (peers_quarantined_cnt s)
  | SlotStartTime => slot_start_time s
  | BlockTxCount => block_field bc_tx_count s
  | BlockInputSum => block_field bc_input_sum s
  | BlockFeeSum => block_field bc_fee_sum s
  | BlockContentSize => block_field bc_content_size s
  | BlockEpoch => block_field (λ d, epoch (bc_date d)) s
  | BlockSlot => block_field (λ d, slot_id (bc_date d)) s
  | BlockChainLength => block_field bc_chain_length s
  | BlockTime => block_field bc_time s
  | BlockHash i => block_field (λ d, if decide (i < 4) then piece i (bc_hash d) else 0%Z) s
  end.
Definition avg (s : SimpleCounter) : f64 := default (f64_of 0) (bc_avg_content_size <$> tip_block s).
Definition tip_data (d : BlockCounters) : BlockDate * HeaderHash * Z * Z :=
  (bc_date d, bc_hash d, bc_chain_length d, bc_time d).
Definition tip_data_of (t : Block * Ref) : BlockDate * HeaderHash * Z * Z :=
  (block_date t.1, block_hash t.1, chain_length t.1, time t.2).
Definition tips_countable (ops : list Op) : Prop := Forall (λ t, countable t.1) (omap tip_of ops).

(** What the counter holds after the calls [ops] *)
Record simple_inv (now : Z) (ops : list Op) (s : SimpleCounter) : Prop := {
  simple_shown x : x ≠ PeerTotalCnt → shown s x = published ops x;
  simple_usage : mempool_usage_ratio s = usage ops;
  simple_avg : avg s = average (omap tip_of ops);
  simple_tip : tip_data <$> tip_block s = tip_data_of <$> latest tip_of ops;
  simple_start : start_time s = now;
}.

Lemma average_snoc ts t :
  average (ts ++ [t]) = calc_running_block_size_average (match ts with [] => ratio t | _ => average ts end) (ratio t).
Proof. destruct ts as [|t0 ts]; [done|]. cbn. by rewrite foldl_app. Qed.
Lemma latest_None {A} (f : Op → option A) ops : latest f ops = None ↔ omap f ops = [].
Proof. apply last_None. Qed.

Lemma simple_perform now ops s op :
  simple_inv now ops s →
  match perform op s with
  | Some s' => simple_inv now (ops ++ [op]) s' ∧ Forall (λ t, countable t.1) (option_list (tip_of op))
  | None => ∃ b r, op = SetTip b r ∧ ¬ countable b
  end.
Proof.
  intros [Hv Hu Ha Ht Hs].
  assert (∀ s', (∀ x, x ≠ PeerTotalCnt → shown s' x = upd op x (shown s x)) →
    ∀ x, x ≠ PeerTotalCnt → shown s' x = published (ops ++ [op]) x) as Hshown.
  { intros s' Hs' x Hx. by rewrite published_snoc, <-Hv, Hs' by done. }
  destruct op as [n|n|r|n|n|n|n|n|n|n|n|b r];
    [destruct s; cbn [perform]; split; [split|by constructor]; unfold usage; rewrite ?latest_snoc, ?omap_app, ?app_nil_r;
       [apply Hshown; by intros []|done..]..|].
  cbn [perform]. change (set_tip_block b r s) with (simple_set_tip_block b r s). unfold simple_set_tip_block.
  pose proof (block_totals_spec b) as Hb. destruct (block_totals b) as [t|]; cbn [mbind option_bind]; [|eauto].
  destruct Hb as [Hc ->]. destruct s. split; [split|cbn; by apply Forall_singleton].
  - apply Hshown. by intros [] ?.
  - unfold usage. by rewrite latest_snoc.
  - rewrite omap_app. cbn [omap list_omap tip_of]. rewrite average_snoc, <-Ha. cbn. unfold ratio. cbn. f_equal.
    cbn in Ht. unfold avg. cbn.
    destruct tip_block0 as [d|], (omap tip_of ops) eqn:Ho; try done.
    + apply latest_None in Ho. by rewrite Ho in Ht.
    + destruct (latest tip_of ops) eqn:Hl; [done|]. apply latest_None in Hl. congruence.
  - by rewrite latest_snoc.
  - done.
Qed.
Lemma simple_run now ops :
  match run ops (simple_new now) with
  | Some s => simple_inv now ops s ∧ tips_countable ops
  | None => ∃ b r, SetTip b r ∈ ops ∧ ¬ countable b
  end.
Proof.
  induction ops as [|op ops IH] using rev_ind; [split; [split|constructor]; try done; by intros []|].
  rewrite run_snoc. destruct (run ops (simple_new now)) as [s|]; cbn.
  - destruct IH as [Hi Hc]. pose proof (simple_perform now ops s op Hi) as Hp.
    destruct (perform op s) as [s'|].
    + destruct Hp as [Hi' Hc']. split; [done|]. unfold tips_countable. rewrite omap_app, Forall_app. split; [done|].
      cbn. by destruct (tip_of op).
    + destruct Hp as (b & r & -> & Hb). exists b, r. set_solver.
  - destruct IH as (b & r & Hin & Hb). exists b, r. set_solver.
Qed.

Lemma simple_stats now ops s later :
  simple_inv now ops s → get_stats later s = expected_stats ops (later - now).
Proof.
  intros [Hv Hu Ha Ht Hs]. unfold get_stats, expected_stats. unfold avg in Ha.
  assert (published ops PeerTotalCnt = usize_add (published ops PeerAvailableCnt) (published ops PeerQuarantinedCnt)) as -> by done.
  rewrite <-!Hv, <-Ha, <-Hu, <-Hs by done. unfold shown, block_field.
  destruct (tip_block s) as [d|], (latest tip_of ops) as [[b r]|]; try done.
  destruct d. unfold tip_data, tip_data_of in Ht. cbn in *. by simplify_eq.
Qed.
(** ** The Prometheus exporter *)
Lemma gauges_with x f p y :
  gauge_get (gauges (with_gauge x f p) y) = if decide (y = x) then gauge_get (f (gauges p y)) else gauge_get (gauges p y).
Proof. unfold with_gauge. cbn. by case_decide. Qed.
Definition plain (x : Field) : Prop := match x with PeerTotalCnt | BlockHash _ => False | _ => True end.
(** What the exporter holds after the calls [ops]: the pieces of the hash may
    still be to be set. *)
Record prom_inv (ops : list Op) (p : Prometheus) : Prop := {
  prom_plain x : plain x → gauge_get (gauges p x) = published ops x;
  prom_usage : prom_mempool_usage_ratio p = usage ops;
  prom_hash i : match block_hash_value p with
                | Some h => (λ t, block_hash t.1) <$> latest tip_of ops = Some h
                | None => i < 4 → gauge_get (gauges p (BlockHash i)) = published ops (BlockHash i)
                end;
}.
Definition tip_ok (t : Block * Ref) : Prop := countable t.1 ∧ (0 ≤ time t.2)%Z.

Lemma prom_perform_tip b r p :
  match prom_set_tip_block b r p with
  | Some p' => tip_ok (b, r) ∧ block_hash_value p' = Some (block_hash b) ∧
      prom_mempool_usage_ratio p' = prom_mempool_usage_ratio p ∧
      ∀ x, plain x → gauge_get (gauges p' x) = upd (SetTip b r) x (gauge_get (gauges p x))
  | None => ¬ tip_ok (b, r)
  end.
Proof.
  unfold prom_set_tip_block, tip_ok. cbn [fst snd]. pose proof (block_totals_spec b) as Hb.
  destruct (block_totals b) as [t|]; cbn [mbind option_bind]; [|by intros [? _]].
  destruct Hb as [Hc ->]. destruct (Z.ltb_spec (time r) 0); [intros [_ ?]; lia|]. split_and!; [done|done|done..|].
  intros x Hx. unfold set_field. cbn [gauges]. rewrite !gauges_with.
  destruct x; try done; cbn; rewrite ?gauge_get_set, ?gauge_get_add; done.
Qed.

Lemma prom_perform ops p op :
  prom_inv ops p →
  match perform op p with
  | Some p' => prom_inv (ops ++ [op]) p' ∧ Forall tip_ok (option_list (tip_of op))
  | None => ∃ b r, op = SetTip b r ∧ ¬ tip_ok (b, r)
  end.
Proof.
  intros [Hv Hu Hh].
  assert (∀ p', (∀ x, plain x → gauge_get (gauges p' x) = upd op x (gauge_get (gauges p x))) →
    ∀ x, plain x → gauge_get (gauges p' x) = published (ops ++ [op]) x) as Hplain.
  { intros p' Hp' x Hx. rewrite published_snoc, <-Hv, Hp' by (done || by destruct x). done. }
  destruct (tip_of op) as [[b r]|] eqn:Htip.
  - destruct op; try done. injection Htip as -> ->. cbn [perform].
    change (set_tip_block b r p) with (prom_set_tip_block b r p).
    pose proof (prom_perform_tip b r p) as Hp. destruct (prom_set_tip_block b r p) as [p'|]; [|eauto].
    destruct Hp as (Hok & Hhash & Hus & Hg). split; [split|by apply Forall_singleton].
    + by apply Hplain.
    + rewrite Hus, Hu. unfold usage. by rewrite latest_snoc.
    + intros i. by rewrite Hhash, latest_snoc.
  - assert (∀ i, published (ops ++ [op]) (BlockHash i) = published ops (BlockHash i)) as Hpub.
    { intros i. rewrite published_snoc by done. by destruct op. }
    assert (latest tip_of (ops ++ [op]) = latest tip_of ops) as Hlat by (by rewrite latest_snoc, Htip).
    destruct op as [n|n|r|n|n|n|n|n|n|n|n|b r]; try done; cbn [perform];
      (split; [split|apply Forall_nil_2];
       [apply Hplain; intros x Hx; cbn; destruct x; try done; rewrite ?decide_True by done;
          rewrite ?gauge_get_set, ?gauge_get_add, ?gauge_get_sub; done
       |unfold usage; rewrite latest_snoc; done
       |intros i; rewrite Hlat, Hpub; exact (Hh i)]).
Qed.

Lemma pieces_set h js p x :
  gauge_get (gauges (foldl (λ p i, set_piece (as_bytes h) i p) p js) x) =
  match x with
  | BlockHash i => if decide (i ∈ js) then piece i h else gauge_get (gauges p x)
  | _ => gauge_get (gauges p x)
  end ∧
  prom_mempool_usage_ratio (foldl (λ p i, set_piece (as_bytes h) i p) p js) = prom_mempool_usage_ratio p.
Proof.
  revert p. induction js as [|i js IH] using rev_ind; intros p; [by destruct x|]. rewrite foldl_app. cbn [foldl].
  destruct (IH p) as [IHg IHu]. split; [|exact IHu]. unfold set_piece at 1, set_field at 1. rewrite gauges_with.
  destruct x; try exact IHg. destruct (decide (i0 = i)) as [->|Hne].
  - rewrite decide_True, decide_True by set_solver. by rewrite gauge_get_set.
  - rewrite decide_False by congruence. rewrite IHg. repeat case_decide; set_solver.
Qed.

(** A scrape shows what is to be shown, and can be repeated. *)
Lemma http_response_inv ops p :
  prom_inv ops p → prom_inv ops (http_response p) ∧
  ∀ x, (∀ i, x = BlockHash i → i < 4) → gauge_get (gauges (http_response p) x) = published ops x.
Proof.
  intros [Hv Hu Hh].
  set (q := match block_hash_value p with
            | Some h =>
                let p := foldl (λ p i, set_piece (as_bytes h) i p) p (seq 0 4) in
                mkPrometheus (gauges p) (prom_mempool_usage_ratio p) None
            | None => p
            end).
  assert (∀ x, plain x → gauge_get (gauges q x) = published ops x) as Hq.
  { intros x Hx. subst q. destruct (block_hash_value p) as [h|]; [|by apply Hv]. cbn [gauges].
    destruct (pieces_set h (seq 0 4) p x) as [-> _]. rewrite <-Hv by done. by destruct x. }
  assert (∀ i, i < 4 → gauge_get (gauges q (BlockHash i)) = published ops (BlockHash i)) as Hqh.
  { intros i Hi. specialize (Hh i). subst q. destruct (block_hash_value p) as [h|]; [|by apply Hh]. cbn [gauges].
    destruct (pieces_set h (seq 0 4) p (BlockHash i)) as [-> _]. rewrite decide_True by (apply elem_of_seq; lia).
    unfold published, at_tip. destruct (latest tip_of ops) as [t|]; [|done]. injection Hh as <-. cbn. by rewrite decide_True. }
  assert (block_hash_value q = None ∧ prom_mempool_usage_ratio q = usage ops) as [Hqn Hqu].
  { subst q. destruct (block_hash_value p) as [h|] eqn:Hbh; [|done]. split; [done|]. cbn [prom_mempool_usage_ratio].
    by destruct (pieces_set h (seq 0 4) p TxRecvCnt) as [_ ->]. }
  assert (http_response p = set_field PeerTotalCnt
    (usize_add (gauge_get (gauges q PeerAvailableCnt)) (gauge_get (gauges q PeerQuarantinedCnt))) q) as -> by done.
  clearbody q. unfold set_field. rewrite !Hq by done.
  assert (∀ x, (∀ i, x = BlockHash i → i < 4) → gauge_get (gauges (with_gauge PeerTotalCnt
    (gauge_set (usize_add (published ops PeerAvailableCnt) (published ops PeerQuarantinedCnt))) q) x) = published ops x) as Hx.
  { intros x Hx. rewrite gauges_with. case_decide as Heq; [subst; by rewrite gauge_get_set|].
    destruct x; try done; [by apply Hq..|]. apply Hqh. by apply Hx. }
  split; [split|exact Hx].
  - intros x Hp. apply Hx. by intros i ->.
  - exact Hqu.
  - intros i. cbn [with_gauge block_hash_value]. rewrite Hqn. intros Hi. apply Hx. by intros ? [= ->].
Qed.

Lemma run_events_snoc es e p : run_events (es ++ [e]) p = p' ← run_events es p; event e p'.
Proof.
  revert p. induction es as [|e' es IH]; intros p; cbn; [by destruct (event e p)|].
  destruct (event e' p) as [p'|]; cbn; [apply IH|done].
Qed.
Lemma prom_run es :
  match run_events es prometheus_new with
  | Some p => prom_inv (calls es) p ∧ Forall tip_ok (omap tip_of (calls es))
  | None => ∃ b r, SetTip b r ∈ calls es ∧ ¬ tip_ok (b, r)
  end.
Proof.
  induction es as [|e es IH] using rev_ind.
  { split; [split|constructor]; cbn; try done; intros x; [intros Hx|intros _]; rewrite gauge_get_new; by destruct x. }
  rewrite run_events_snoc. unfold calls. rewrite omap_app. fold (calls es).
  destruct (run_events es prometheus_new) as [p|]; cbn [mbind option_bind].
  - destruct IH as [Hi Hc]. destruct e as [op|]; cbn.
    + pose proof (prom_perform (calls es) p op Hi) as Hp. destruct (perform op p) as [p'|].
      * destruct Hp as [Hi' Hc']. split; [done|]. rewrite omap_app, Forall_app. split; [done|]. cbn. by destruct (tip_of op).
      * destruct Hp as (b & r & -> & Hb). exists b, r. set_solver.
    + rewrite app_nil_r. split; [by apply http_response_inv|done].
  - destruct IH as (b & r & Hin & Hb). exists b, r. set_solver.
Qed.
(** ** The pieces of the hash *)
Lemma from_to_le_bytes bs : Forall (λ b, 0 ≤ b < 256)%Z bs → to_le_bytes (length bs) (from_le_bytes bs) = bs.
Proof.
  induction 1 as [|b bs Hb Hbs IH]; [done|]. cbn [length to_le_bytes from_le_bytes foldr].
  fold (from_le_bytes bs). rewrite (Z.mul_comm 256), Z.mod_add, Z.mod_small, Z.div_add, Z.div_small by lia.
  by rewrite Z.add_0_l, IH.
Qed.
(** The hash is given by its pieces. *)
Lemma pieces_hash h : seq 0 4 ≫= (λ i, to_le_bytes 8 (piece i h)) = as_bytes h.
Proof.
  assert (∀ i, i < 4 → to_le_bytes 8 (piece i h) = take 8 (drop (8 * i) (as_bytes h))) as Hp.
  { intros i Hi. unfold piece. rewrite <-(from_to_le_bytes (take 8 (drop (8 * i) (as_bytes h)))) at 2.
    - f_equal. rewrite length_take, length_drop, as_bytes_length. lia.
    - apply Forall_take, Forall_drop, as_bytes_u8. }
  cbn [seq mbind list_bind]. rewrite !Hp, app_nil_r by lia. pose proof (as_bytes_length h) as Hl.
  destruct (as_bytes h) as [|b l]; [done|]. clear Hp. do 31 (destruct l as [|? l]; [done|]). by destruct l.
Qed.

(** ** The reports *)

(** The names are registered once. *)
Lemma registered_NoDup : NoDup registered.*1.
Proof. by apply (bool_decide_unpack _). Qed.
Lemma scrape_registered p name x : (name, x) ∈ registered → scrape p name = Some (gauge_get (gauges p x)).
Proof.
  intros [i Hi]%list_elem_of_lookup. unfold scrape.
  assert (list_find (λ e, e.1 = name) registered = Some (i, (name, x))) as ->; [|done].
  apply list_find_Some. split_and!; [done|done|]. intros j [name' y] Hj Hlt. cbn. intros ->.
  pose proof (NoDup_lookup _ i j name registered_NoDup) as Hij.
  rewrite !list_lookup_fmap, Hi, Hj in Hij. specialize (Hij eq_refl eq_refl). lia.
Qed.
Lemma registered_pieces name i : (name, BlockHash i) ∈ registered → i < 4.
Proof.
  assert (Forall (λ e, match e.2 with BlockHash i => i < 4 | _ => True end) registered) as Hall.
  { repeat constructor; lia. }
  rewrite list.Forall_forall in Hall. intros Hin. exact (Hall _ Hin).
Qed.


End metrics.
End Metrics.

(** ** A sample *)
Module SampleMetrics.
Import Metrics SampleFragments.

Lemma sample_total (z v : Z) : Some (wrap64 z) = Some v → (0 ≤ v < U64)%Z.
Proof. intros [= <-]. apply wrap64_bound. Qed.
Lemma to_le_bytes_length w n : length (to_le_bytes w n) = w.
Proof. revert n. induction w as [|w IH]; intros n; cbn; [done|]. by rewrite IH. Qed.
Lemma to_le_bytes_u8 w n : Forall (λ b, 0 ≤ b < 256)%Z (to_le_bytes w n).
Proof. revert n. induction w as [|w IH]; intros n; cbn; constructor; [apply Z.mod_pos_bound; lia|apply IH]. Qed.

(** Gauges are numbers; the inputs of a transaction are its size, the outputs
    its identifier. *)
#[export] Instance lib : MetricsLib := {|
  value_add := checked_add U64;
  value_sub := checked_sub;
  value_add_checked _ _ := eq_refl;
  value_sub_checked _ _ := eq_refl;
  total_input tx := Some (wrap64 (tx_size tx));
  total_output tx := Some (wrap64 (tx_id tx));
  total_input_u64 tx := sample_total (tx_size tx);
  total_output_u64 tx := sample_total (tx_id tx);
  as_bytes := to_le_bytes 32;
  as_bytes_length := to_le_bytes_length 32;
  as_bytes_u8 := to_le_bytes_u8 32;
  UIntGauge := Z;
  gauge_new := 0%Z;
  gauge_get g := g;
  gauge_set v _ := v;
  gauge_add v g := wrap64 (g + v);
  gauge_sub v g := wrap64 (g - v);
  gauge_get_new := eq_refl;
  gauge_get_set _ _ := eq_refl;
  gauge_get_add _ _ := eq_refl;
  gauge_get_sub _ _ := eq_refl;
  f64 := QArith_base.Q;
  f64_of := QArith_base.inject_Z;
  f64_half := QArith_base.Qmake 1 2;
  f64_add := QArith_base.Qplus;
  f64_sub := QArith_base.Qminus;
  f64_mul := QArith_base.Qmult;
  f64_div := QArith_base.Qdiv;
|}.

Definition tx_of (inputs outputs : Z) : SampleFragments.tx := mkTx outputs (mkBlockDate 0 0) true inputs.
Definition block : Block :=
  mkBlock 50 (mkBlockDate 2 7) 4096%Z 9 [Transaction_ (tx_of 100 90); VoteCast (tx_of 20 15); Initial 0%Z].
Definition ref : Ref := mkRef 100 1000.
Definition history : list Event :=
  [Call (AddTxRecv 3); Scrape; Call (AddPeerConnected 2); Call (SetTip block ref); Scrape; Call (SubPeerConnected 1);
   Call (SetPeerAvailable 4); Call (AddPeerQuarantined 1)]%Z.


(** Funds that are moved twice within a block count twice: a block whose
    transactions each have values can still be too large to count. *)
Lemma large_block_panics :
  let t := Transaction_ (tx_of (2 ^ 63) (2 ^ 63)) in
  let tip fragments := SetTip (mkBlock 50 (mkBlockDate 2 7) 4096%Z 9 fragments) ref in
  let counted fragments := bool_decide (is_Some (perform (B:=SimpleCounter) (tip fragments) (simple_new 0))) in
  counted [t] = true ∧ counted [t; t] = false.
Proof. split; vm_compute; reflexivity. Qed.
End SampleMetrics.
