(* ===== verification/Formats.v ===== *)
(** * Textual formats

    Models the text forms of ratios ([jormungandr-lib/src/interfaces/ratio.rs])
    and the formats of the Ethereum JSON-RPC interface
    ([jormungandr/src/jrpc/eth_types]): numbers, block numbers, bytes and types
    of transactions.  The integer parsers and printers of the Rust standard
    library are written out; [hex] and the format of access lists, of other
    crates, are parameters.  JSON values are those that the visitors tell
    apart. *)

From S2P Require Import Prelude.
From Stdlib Require Import Ascii.

(** ** Integers of the standard library *)
Module Radix.

(** [IntErrorKind] *)
Inductive IntError := Empty | InvalidDigit | PosOverflow | Zero.

(** [char::to_digit] *)
Definition digit_value (c : ascii) : option Z :=
  let n := Z.of_N (N_of_ascii c) in
  if (48 <=? n)%Z && (n <=? 57)%Z then Some (n - 48)%Z
  else if (97 <=? n)%Z && (n <=? 122)%Z then Some (n - 87)%Z
  else if (65 <=? n)%Z && (n <=? 90)%Z then Some (n - 55)%Z
  else None.
Definition to_digit (radix : Z) (c : ascii) : option Z :=
  d ← digit_value c; if (d <? radix)%Z then Some d else None.

Fixpoint radix_loop (w radix acc : Z) (s : string) : result IntError Z :=
  match s with
  | EmptyString => Ok acc
  | String c s' =>
      match to_digit radix c with
      | None => Err InvalidDigit
      | Some x =>
          if (acc * radix <? w)%Z
          then if (acc * radix + x <? w)%Z then radix_loop w radix (acc * radix + x) s' else Err PosOverflow
          else Err PosOverflow
      end
  end.
(** [from_str_radix] of the unsigned type of [w] values; [parse] is that of
    radix 10.  A sign [+] is skipped, [-] is no digit. *)
Definition from_str_radix (w radix : Z) (s : string) : result IntError Z :=
  match s with
  | EmptyString => Err Empty
  | String c s' =>
      if decide (s' = EmptyString ∧ (c = "+"%char ∨ c = "-"%char)) then Err InvalidDigit
      else if decide (c = "+"%char) then radix_loop w radix 0 s'
      else radix_loop w radix 0 s
  end.
Definition parse (w : Z) (s : string) : result IntError Z := from_str_radix w 10 s.
(** [NonZeroU64::from_str] *)
Definition parse_nonzero (s : string) : result IntError Z :=
  let? n := parse U64 s in if (n =? 0)%Z then Err Zero else Ok n.

(** [{}] and [{:x}]: 64 digits are enough for 64 bits. *)
Definition digit_char (d : Z) : ascii := ascii_of_N (Z.to_N (if (d <? 10)%Z then d + 48 else d + 87)).
Fixpoint digits (fuel : nat) (radix n : Z) (acc : string) : string :=
  match fuel with
  | O => acc
  | S fuel' =>
      if (n <? radix)%Z then String (digit_char n) acc
      else digits fuel' radix (n / radix) (String (digit_char (n mod radix)) acc)
  end.
Definition to_text (radix n : Z) : string := digits 64 radix n EmptyString.

(** *** Printing and reading *)
Lemma to_digit_char r d : (0 ≤ d < r)%Z → (r ≤ 16)%Z → to_digit r (digit_char d) = Some d.
Proof.
  intros Hd Hr.
  assert (digit_value (digit_char d) = Some d) as Hv.
  { assert (∃ n, n < 16 ∧ d = Z.of_nat n) as (n & Hn & ->) by (exists (Z.to_nat d); lia).
    do 16 (destruct n as [|n]; [reflexivity|]). lia. }
  unfold to_digit. rewrite Hv. cbn. by rewrite (proj2 (Z.ltb_lt d r)) by lia.
Qed.
(** Characters that are no digits *)
Definition no_digit (c : ascii) : Prop := ∀ d, (0 ≤ d < 16)%Z → digit_char d ≠ c.
Lemma no_digit_intro c : Forall (λ n, digit_char (Z.of_nat n) ≠ c) (seq 0 16) → no_digit c.
Proof.
  intros Hall d Hd. rewrite list.Forall_forall in Hall. rewrite <-(Z2Nat.id d) by lia.
  apply Hall, elem_of_seq. lia.
Qed.
Ltac no_digit := apply no_digit_intro, (bool_decide_unpack _); vm_compute; reflexivity.
Fixpoint free_of (c : ascii) (s : string) : Prop :=
  match s with EmptyString => True | String x s' => x ≠ c ∧ free_of c s' end.
Lemma digits_free c fuel r n acc :
  no_digit c → (2 ≤ r ≤ 16)%Z → (0 ≤ n)%Z → free_of c acc → free_of c (digits fuel r n acc).
Proof.
  intros Hc Hr. revert n acc. induction fuel as [|fuel IH]; intros n acc Hn Hacc; cbn [digits]; [done|].
  destruct (Z.ltb_spec n r).
  - split; [|done]. apply Hc. lia.
  - pose proof (Z.mod_pos_bound n r ltac:(lia)). apply IH; [apply Z.div_pos; lia|]. split; [|done]. apply Hc. lia.
Qed.

(** Reading the digits of a number, before whatever follows them *)
Lemma radix_loop_digits fuel w r n acc :
  (2 ≤ r ≤ 16)%Z → (0 < w)%Z → (0 ≤ n < r ^ Z.of_nat fuel)%Z →
  radix_loop w r 0 (digits fuel r n acc) =
  if (n <? w)%Z then radix_loop w r n acc else Err PosOverflow.
Proof.
  intros Hr Hw. revert n acc. induction fuel as [|fuel IH]; intros n acc Hn; cbn [digits].
  { assert (n = 0)%Z as -> by (cbn in Hn; lia). by rewrite (proj2 (Z.ltb_lt 0 w)). }
  destruct (Z.ltb_spec n r) as [Hlt|Hge].
  - cbn [radix_loop]. rewrite to_digit_char by lia. rewrite Z.mul_0_l, Z.add_0_l.
    rewrite (proj2 (Z.ltb_lt 0 w)) by lia. done.
  - pose proof (Z.div_mod n r ltac:(lia)) as Hdm. pose proof (Z.mod_pos_bound n r ltac:(lia)) as Hmod.
    assert (0 ≤ n / r)%Z by (apply Z.div_pos; lia).
    rewrite IH.
    + cbn [radix_loop]. rewrite to_digit_char by lia.
      replace (n / r * r + n mod r)%Z with n by lia.
      destruct (Z.ltb_spec n w), (Z.ltb_spec (n / r) w), (Z.ltb_spec (n / r * r) w); try done; nia.
    + split; [done|]. apply Z.div_lt_upper_bound; [lia|]. rewrite Nat2Z.inj_succ, Z.pow_succ_r in Hn by lia. lia.
Qed.
Lemma digits_head fuel r n acc :
  fuel ≠ 0 → (2 ≤ r ≤ 16)%Z → (0 ≤ n)%Z → ∃ d s, digits fuel r n acc = String (digit_char d) s ∧ (0 ≤ d < 16)%Z.
Proof.
  intros Hf Hr. revert n acc. induction fuel as [|fuel IH]; intros n acc Hn; [done|]. cbn [digits].
  destruct (Z.ltb_spec n r); [exists n, acc; split; [done|lia]|].
  assert (0 ≤ n / r)%Z by (apply Z.div_pos; lia). pose proof (Z.mod_pos_bound n r ltac:(lia)).
  destruct fuel as [|fuel]; [cbn; eexists _, _; split; [done|lia]|]. by apply IH.
Qed.

(** What is printed is read as it was, if it fits, and overflows otherwise. *)
Lemma from_str_radix_to_text w r n :
  (2 ≤ r ≤ 16)%Z → (0 < w)%Z → (0 ≤ n < U64)%Z →
  from_str_radix w r (to_text r n) = if (n <? w)%Z then Ok n else Err PosOverflow.
Proof.
  intros Hr Hw Hn. unfold to_text.
  assert (n < r ^ Z.of_nat 64)%Z as Hlt.
  { apply Z.lt_le_trans with (2 ^ 64)%Z; [apply Hn|]. apply Z.pow_le_mono_l. lia. }
  pose proof (radix_loop_digits 64 w r n EmptyString Hr Hw (conj (proj1 Hn) Hlt)) as Hloop.
  destruct (digits_head 64 r n EmptyString ltac:(done) Hr (proj1 Hn)) as (d & s & Hs & Hd).
  rewrite Hs in *. assert (no_digit "+" ∧ no_digit "-") as [Hplus%(λ f, f d Hd) Hminus%(λ f, f d Hd)] by (split; no_digit). unfold from_str_radix.
  case_decide as Hsign; [destruct Hsign as [_ [?|?]]; contradiction|]. case_decide; [contradiction|exact Hloop].
Qed.
End Radix.

(** ** Ratios *)
Module RatioText.
Import Radix.

Record Ratio := mkRatio { numerator : Z; denominator : Z }.
Definition new_checked (n d : Z) : option Ratio := if (d =? 0)%Z then None else Some (mkRatio n d).
Inductive ParseRatioError := InvalidInt (e : IntError) | MissingNumerator | MissingDenominator.

(** [s.split(c)]: at least one part *)
Fixpoint split (c : ascii) (s : string) : string * list string :=
  match s with
  | EmptyString => (EmptyString, [])
  | String x s' =>
      let '(part, parts) := split c s' in
      if decide (x = c) then (EmptyString, part :: parts) else (String x part, parts)
  end.
Definition ratio_display (r : Ratio) : string :=
  String.append (to_text 10 (numerator r)) (String "/" (to_text 10 (denominator r))).
Definition ratio_from_str (s : string) : result ParseRatioError Ratio :=
  let '(part, parts) := split "/" s in
  let? numerator := map_err InvalidInt (parse U64 part) in
  match parts with
  | part :: _ => let? denominator := map_err InvalidInt (parse_nonzero part) in Ok (mkRatio numerator denominator)
  | [] => Err MissingNumerator
  end.

Lemma split_free c s : free_of c s → split c s = (s, []).
Proof. induction s as [|x s IH]; cbn [split free_of]; [done|]. intros [Hx Hs]. rewrite IH by done. by rewrite decide_False. Qed.
Lemma split_append c s s' :
  free_of c s → split c (String.append s (String c s')) = (s, (split c s').1 :: (split c s').2).
Proof.
  induction s as [|x s IH].
  - intros _. change (String.append EmptyString (String c s')) with (String c s'). cbn [split].
    destruct (split c s'). by rewrite decide_True.
  - change (String.append (String x s) (String c s')) with (String x (String.append s (String c s'))).
    intros [Hx Hs]. cbn [split]. rewrite IH by done. by rewrite decide_False.
Qed.
Definition well_formed (r : Ratio) : Prop := (0 ≤ numerator r < U64 ∧ 0 < denominator r < U64)%Z.

(** A ratio that is printed is read as it was. *)
Theorem ratio_roundtrip r : well_formed r → ratio_from_str (ratio_display r) = Ok r.
Proof.
  destruct r as [n d]. intros [Hn Hd]. cbn [numerator denominator] in *. unfold ratio_display, ratio_from_str.
  cbn [numerator denominator]. rewrite split_append, (split_free "/" (to_text 10 d)) by (apply digits_free; [no_digit|lia|lia|done]).
  cbn [fst snd]. unfold parse_nonzero, parse. rewrite !from_str_radix_to_text by (unfold U64 in *; lia).
  rewrite !(proj2 (Z.ltb_lt _ _)) by lia. by destruct d; [lia| |lia].
Qed.
(** What is read is well-formed; parts after the second are not looked at, and
    a missing denominator is reported as a missing numerator. *)
Lemma radix_loop_bound w r a s n : (0 ≤ a < w)%Z → (0 ≤ r)%Z → radix_loop w r a s = Ok n → (0 ≤ n < w)%Z.
Proof.
  intros Ha Hr. revert a Ha. induction s as [|c s IH]; intros a Ha; cbn; [by intros [= <-]|].
  destruct (to_digit r c) as [x|] eqn:Hx; [|done]. destruct (_ <? _)%Z; [|done].
  destruct (Z.ltb_spec (a * r + x) w); [|done]. apply IH. split; [|done].
  assert (0 ≤ x)%Z; [|nia]. unfold to_digit in Hx. apply bind_Some in Hx as (y & Hy & Hyx).
  destruct (y <? r)%Z; simplify_eq. unfold digit_value in Hy. repeat case_match; simplify_eq; lia.
Qed.
Lemma parse_bound w s n : (0 < w)%Z → parse w s = Ok n → (0 ≤ n < w)%Z.
Proof.
  intros Hw. unfold parse, from_str_radix. destruct s as [|c s]; [done|]. case_decide; [done|].
  case_decide; apply radix_loop_bound; lia.
Qed.
Lemma ratio_from_str_ok s r : ratio_from_str s = Ok r → well_formed r.
Proof.
  unfold ratio_from_str. destruct (split "/" s) as [part [|part' parts]];
    destruct (parse U64 part) as [n|] eqn:Hn; cbn; try done.
  unfold parse_nonzero. destruct (parse U64 part') as [d|] eqn:Hd; cbn; [|done].
  destruct (Z.eqb_spec d 0); cbn; [done|]. intros [= <-]. split; cbn.
  - by apply parse_bound in Hn.
  - apply parse_bound in Hd; [lia|done].
Qed.
Lemma ratio_parts :
  ratio_from_str "1/2/x" = Ok (mkRatio 1 2) ∧ ratio_from_str "1" = Err MissingNumerator ∧
  ratio_from_str "1/0" = Err (InvalidInt Zero) ∧ ratio_from_str "" = Err (InvalidInt Empty).
Proof. repeat split; vm_compute; reflexivity. Qed.
End RatioText.

(** ** Ethereum types *)
Module EthTypes.
Import Radix.

(** JSON values: strings, unsigned integers, and the text of others *)
Inductive Json :=
| JStr (s : string)
| JUInt (n : Z)
| JOther (text : string).

Inductive DeError :=
| InvalidIndex (e : IntError)
| InvalidBlockNumber (e : IntError)
| NonDecimal
| OutOfRange
| InvalidHex
| InvalidBytesFormat
| InvalidType
| DuplicateField (f : string)
| UnknownField (f : string)
| MissingField (f : string)
| InvalidTypeValue.

(** [value.starts_with("0x")], with the rest *)
Definition strip_0x (s : string) : option string :=
  match s with
  | String c (String x rest) => if decide (c = "0"%char ∧ x = "x"%char) then Some rest else None
  | _ => None
  end.
Definition with_0x (s : string) : string := String "0" (String "x" s).

(** *** [Number] *)
Definition number_serialize (n : Z) : Json := JStr (with_0x (to_text 16 n)).
Definition number_visit_str (value : string) : result DeError Z :=
  match strip_0x value with
  | Some rest => map_err InvalidIndex (from_str_radix U64 16 rest)
  | None => map_err InvalidIndex (parse U64 value)
  end.
Definition number_deserialize (j : Json) : result DeError Z :=
  match j with
  | JStr s => number_visit_str s
  | JUInt n => Ok n
  | _ => Err InvalidType
  end.

(** *** [BlockNumber] *)
Inductive BlockNumber := Num (n : Z) | Latest | Earliest | Pending.
Definition block_number_visit_str (value : string) : result DeError BlockNumber :=
  if decide (value = "latest") then Ok Latest
  else if decide (value = "earliest") then Ok Earliest
  else if decide (value = "pending") then Ok Pending
  else
    match strip_0x value with
    | Some rest => let? n := map_err InvalidBlockNumber (from_str_radix U32 16 rest) in Ok (Num n)
    | None => match parse U32 value with Ok n => Ok (Num n) | Err _ => Err NonDecimal end
    end.
Definition block_number_deserialize (j : Json) : result DeError BlockNumber :=
  match j with
  | JStr s => block_number_visit_str s
  | JUInt n => match uint_try_from U32 n with Some n => Ok (Num n) | None => Err OutOfRange end
  | _ => Err InvalidType
  end.

Section formats.
(** The crate [hex], and the format of access lists *)
Context {AccessList : Type}.
Class EthFormats := {
  hex_encode : list Z → string;
  hex_decode : string → option (list Z);
  hex_roundtrip bs : hex_decode (hex_encode bs) = Some bs;
  access_list_serialize : AccessList → Json;
  access_list_deserialize : Json → result DeError AccessList;
  access_list_roundtrip l : access_list_deserialize (access_list_serialize l) = Ok l;
}.
Context `{EthFormats}.

(** *** [Bytes] *)
Definition bytes_serialize (bs : list Z) : Json := JStr (with_0x (hex_encode bs)).
Definition bytes_visit_str (value : string) : result DeError (list Z) :=
  match strip_0x value with
  | Some rest => match hex_decode rest with Some bs => Ok bs | None => Err InvalidHex end
  | None => Err InvalidBytesFormat
  end.
Definition bytes_deserialize (j : Json) : result DeError (list Z) :=
  match j with JStr s => bytes_visit_str s | _ => Err InvalidType end.

(** *** [TransactionType] *)
Inductive TransactionType :=
| Legacy
| EIP2930 (access_list : AccessList)
| EIP1559 (access_list : AccessList) (max_fee_per_gas max_priority_fee_per_gas : Z).
Definition transaction_type_serialize (t : TransactionType) : list (string * Json) :=
  match t with
  | Legacy => [("type", number_serialize 0)]
  | EIP2930 l => [("type", number_serialize 1); ("accessList", access_list_serialize l)]
  | EIP1559 l fee tip =>
      [("type", number_serialize 2); ("accessList", access_list_serialize l);
       ("maxFeePerGas", number_serialize fee); ("maxPriorityFeePerGas", number_serialize tip)]
  end.
(** The variables of [visit_map] *)
Record Fields := mkFields {
  f_id : option Z;
  f_access_list : option AccessList;
  f_max_fee : option Z;
  f_max_priority_fee : option Z;
}.
(** A value that may be set once *)
Definition once {A} (k : string) (old : option A) (de : Json → result DeError A) (v : Json) : result DeError A :=
  match old with Some _ => Err (DuplicateField k) | None => de v end.
Definition visit_field (f : Fields) (k : string) (v : Json) : result DeError Fields :=
  let '(mkFields id al mf mp) := f in
  if decide (k = "type") then let? x := once k id number_deserialize v in Ok (mkFields (Some x) al mf mp)
  else if decide (k = "accessList") then let? x := once k al access_list_deserialize v in Ok (mkFields id (Some x) mf mp)
  else if decide (k = "maxFeePerGas") then let? x := once k mf number_deserialize v in Ok (mkFields id al (Some x) mp)
  else if decide (k = "maxPriorityFeePerGas") then let? x := once k mp number_deserialize v in Ok (mkFields id al mf (Some x))
  else Err (UnknownField k).
Fixpoint visit_fields (f : Fields) (map : list (string * Json)) : result DeError Fields :=
  match map with
  | [] => Ok f
  | (k, v) :: map' => let? f' := visit_field f k v in visit_fields f' map'
  end.
Definition required {A} (k : string) (o : option A) : result DeError A :=
  match o with Some a => Ok a | None => Err (MissingField k) end.
Definition visit_map (map : list (string * Json)) : result DeError TransactionType :=
  let? f := visit_fields (mkFields None None None None) map in
  match f_id f with
  | None => Err (MissingField "type")
  | Some id =>
      if (id =? 0)%Z then Ok Legacy
      else if (id =? 1)%Z then let? l := required "accessList" (f_access_list f) in Ok (EIP2930 l)
      else if (id =? 2)%Z then
        let? l := required "accessList" (f_access_list f) in
        let? fee := required "maxFeePerGas" (f_max_fee f) in
        let? tip := required "maxPriorityFeePerGas" (f_max_priority_fee f) in
        Ok (EIP1559 l fee tip)
      else Err InvalidTypeValue
  end.

(** ** Round trips *)
Lemma strip_with s : strip_0x (with_0x s) = Some s.
Proof. unfold strip_0x, with_0x. by rewrite decide_True. Qed.
Lemma strip_free s : free_of "x" s → strip_0x s = None.
Proof. destruct s as [|c [|x s]]; cbn [free_of strip_0x]; [done..|]. intros (_ & Hx & _). by rewrite decide_False by tauto. Qed.
Lemma number_roundtrip n : (0 ≤ n < U64)%Z → number_deserialize (number_serialize n) = Ok n.
Proof.
  intros Hn. cbn [number_serialize number_deserialize]. unfold number_visit_str. rewrite strip_with.
  rewrite from_str_radix_to_text by (unfold U64 in *; lia). by rewrite (proj2 (Z.ltb_lt _ _)) by lia.
Qed.
(** Block numbers are of 32 bits: larger ones are refused, in each of the forms. *)
Lemma block_number_forms n :
  (0 ≤ n < U64)%Z →
  let read := if (n <? U32)%Z then Some (Num n) else None in
  let ok (r : result DeError BlockNumber) := match r with Ok b => Some b | Err _ => None end in
  ok (block_number_deserialize (number_serialize n)) = read ∧
  ok (block_number_deserialize (JStr (to_text 10 n))) = read ∧
  ok (block_number_deserialize (JUInt n)) = read.
Proof.
  intros Hn read ok. subst read ok. split_and!.
  - cbn [number_serialize block_number_deserialize]. unfold block_number_visit_str.
    rewrite !decide_False by done. rewrite strip_with, from_str_radix_to_text by (unfold U64, U32 in *; lia).
    by destruct (n <? U32)%Z.
  - cbn [block_number_deserialize]. unfold block_number_visit_str.
    assert (∀ c, no_digit c → free_of c (to_text 10 n)) as Hfree by (intros c Hc; apply digits_free; [done|lia|lia|done]).
    assert (∀ word, ¬ free_of "t" word ∨ ¬ free_of "p" word → to_text 10 n ≠ word) as Hword.
    { intros word [Hw|Hw] <-; apply Hw, Hfree; no_digit. }
    rewrite !decide_False by (apply Hword; cbn; naive_solver).
    rewrite strip_free by (apply Hfree; no_digit). unfold parse.
    rewrite from_str_radix_to_text by (unfold U64, U32 in *; lia). by destruct (n <? U32)%Z.
  - cbn. unfold uint_try_from. by destruct (n <? U32)%Z.
Qed.
Lemma bytes_roundtrip bs : bytes_deserialize (bytes_serialize bs) = Ok bs.
Proof. cbn [bytes_serialize bytes_deserialize]. unfold bytes_visit_str. by rewrite strip_with, hex_roundtrip. Qed.

(** *** Fields in any order *)

Inductive visits : Fields → string → Json → Fields → Prop :=
| visits_type al mf mp v x : number_deserialize v = Ok x →
    visits (mkFields None al mf mp) "type" v (mkFields (Some x) al mf mp)
| visits_access_list id mf mp v x : access_list_deserialize v = Ok x →
    visits (mkFields id None mf mp) "accessList" v (mkFields id (Some x) mf mp)
| visits_max_fee id al mp v x : number_deserialize v = Ok x →
    visits (mkFields id al None mp) "maxFeePerGas" v (mkFields id al (Some x) mp)
| visits_max_priority_fee id al mf v x : number_deserialize v = Ok x →
    visits (mkFields id al mf None) "maxPriorityFeePerGas" v (mkFields id al mf (Some x)).
Lemma visit_field_visits f k v g : visit_field f k v = Ok g ↔ visits f k v g.
Proof.
  split.
  - destruct f as [id al mf mp]. unfold visit_field, once. repeat case_decide; subst; try done;
      repeat case_match; intros; simplify_eq; by constructor.
  - destruct 1 as [????? Hx|????? Hx|????? Hx|????? Hx]; unfold visit_field, once; repeat (rewrite decide_False by done);
      rewrite decide_True by done; by rewrite Hx.
Qed.
Lemma visit_field_swap f g h k1 v1 k2 v2 :
  visit_field f k1 v1 = Ok g → visit_field g k2 v2 = Ok h →
  ∃ g', visit_field f k2 v2 = Ok g' ∧ visit_field g' k1 v1 = Ok h.
Proof.
  setoid_rewrite visit_field_visits. destruct 1; inversion 1; subst; eexists; split; by constructor.
Qed.
Lemma visit_fields_perm f g map map' :
  map ≡ₚ map' → visit_fields f map = Ok g → visit_fields f map' = Ok g.
Proof.
  intros Hp. revert f. induction Hp as [|[k v] l l' _ IH|[k1 v1] [k2 v2] l|l l' l'' _ IH1 _ IH2]; intros f; cbn; [done| | |eauto].
  - destruct (visit_field f k v); [apply IH|done].
  - destruct (visit_field f k2 v2) as [f1|] eqn:H1; [|done]. destruct (visit_field f1 k1 v1) as [f2|] eqn:H2; [|done].
    destruct (visit_field_swap _ _ _ _ _ _ _ H1 H2) as (g' & -> & ->). done.
Qed.

(** What is written is read as it was: numbers of 64 bits, block numbers of 32,
    bytes, and types of transactions with their fields in any order. *)
Definition type_u64 (t : TransactionType) : Prop :=
  match t with EIP1559 _ fee tip => (0 ≤ fee < U64 ∧ 0 ≤ tip < U64)%Z | _ => True end.
Definition fields_of (t : TransactionType) : Fields :=
  match t with
  | Legacy => mkFields (Some 0%Z) None None None
  | EIP2930 l => mkFields (Some 1%Z) (Some l) None None
  | EIP1559 l fee tip => mkFields (Some 2%Z) (Some l) (Some fee) (Some tip)
  end.
Lemma visit_serialized t :
  type_u64 t → visit_fields (mkFields None None None None) (transaction_type_serialize t) = Ok (fields_of t).
Proof.
  intros Ht. destruct t as [|l|l fee tip]; cbn [transaction_type_serialize visit_fields];
    repeat (erewrite (proj2 (visit_field_visits _ _ _ _))
      by (constructor; first [apply access_list_roundtrip | apply number_roundtrip; cbn in *; unfold U64 in *; lia]));
    done.
Qed.
Lemma transaction_type_roundtrip t map :
  type_u64 t → map ≡ₚ transaction_type_serialize t → visit_map map = Ok t.
Proof.
  intros Ht Hp. unfold visit_map. symmetry in Hp.
  rewrite (visit_fields_perm _ _ _ _ Hp (visit_serialized t Ht)). by destruct t.
Qed.

(** The values of the Ethereum interface are read as they are written: numbers
    of 64 bits, block numbers up to 32 bits in each of their forms, bytes, and
    types of transactions with their fields in any order. *)
Theorem eth_formats_roundtrip n bs t map :
  (0 ≤ n < U64)%Z → type_u64 t → map ≡ₚ transaction_type_serialize t →
  number_deserialize (number_serialize n) = Ok n ∧
  (block_number_deserialize (number_serialize n) = Ok (Num n) ↔ (n < U32)%Z) ∧
  bytes_deserialize (bytes_serialize bs) = Ok bs ∧
  visit_map map = Ok t.
Proof.
  intros Hn Ht Hp. split_and!; [by apply number_roundtrip| |apply bytes_roundtrip|by apply transaction_type_roundtrip].
  pose proof (block_number_forms n Hn) as [Hb _]. destruct (Z.ltb_spec n U32).
  - split; [done|]. intros _. by destruct (block_number_deserialize _); simplify_eq.
  - split; [|lia]. intros Heq. by rewrite Heq in Hb.
Qed.
End formats.
End EthTypes.
