(* ===== verification/Jrpc.v ===== *)
(** * The Ethereum JSON-RPC interface

    Models the handlers of [jormungandr/src/jrpc] ([eth_block_info],
    [eth_transaction], [eth_account], [eth_chain_info], [eth_filter]) with the
    conversions of blocks and transactions of [jrpc/eth_types].  The ledger's
    EVM state, keys, signatures and the fixed-size hashes of [ethereum_types]
    are parameters: [from_slice] of the latter panics on slices of another
    length.  A panic is [None].  The server and the JSON texts ([Formats]) are
    around it. *)

From S2P Require Import Prelude BlockDate Lru Deque Fragment FragmentLogs Storage Chain ChainInv Checkpoints Rest Formats.
Import EthTypes.

(** ** Filters (eth_filter/filters.rs) *)
Module EthFilter.
Section filter.
Context {Filter : Type}.
Inductive FilterType := FBlock | FPendingTransaction | FLog (f : Filter).
Record EvmFilters := mkFilters { last_key : Z; filters : gmap Z FilterType }.
Definition filters_default : EvmFilters := mkFilters 0 ∅.
(** [Number::inc] wraps around. *)
Definition inc (n : Z) : Z := wrap64 (n + 1).
Definition filters_insert (filter : FilterType) (s : EvmFilters) : EvmFilters * Z :=
  let k := inc (last_key s) in (mkFilters k (<[k := filter]> (filters s)), k).
Definition filters_get (index : Z) (s : EvmFilters) : option FilterType := filters s !! index.
Definition filters_remove (index : Z) (s : EvmFilters) : EvmFilters * bool :=
  (mkFilters (last_key s) (delete index (filters s)), bool_decide (is_Some (filters s !! index))).

Definition new_filter (filter : Filter) (s : EvmFilters) : EvmFilters * Z := filters_insert (FLog filter) s.
Definition new_block_filter (s : EvmFilters) : EvmFilters * Z := filters_insert FBlock s.
Definition new_pending_transaction_filter (s : EvmFilters) : EvmFilters * Z := filters_insert FPendingTransaction s.
Definition uninstall_filter (id : Z) (s : EvmFilters) : EvmFilters * bool := filters_remove id s.

(** The requests of a client, and the answers *)
Inductive Request := NewFilter (f : FilterType) | Uninstall (id : Z).
Inductive Reply := Installed (id : Z) | Removed (b : bool).
Definition handle (q : Request) (s : EvmFilters) : EvmFilters * Reply :=
  match q with
  | NewFilter f => let '(s', id) := filters_insert f s in (s', Installed id)
  | Uninstall id => let '(s', b) := filters_remove id s in (s', Removed b)
  end.
Fixpoint handle_all (qs : list Request) (s : EvmFilters) : EvmFilters * list Reply :=
  match qs with
  | [] => (s, [])
  | q :: qs' => let '(s', r) := handle q s in let '(s'', rs) := handle_all qs' s' in (s'', r :: rs)
  end.

(** What the filters are after the requests: the [k]th that was installed,
    unless it was uninstalled since *)
Fixpoint installed (qs : list Request) : list FilterType :=
  match qs with
  | [] => []
  | NewFilter f :: qs' => f :: installed qs'
  | Uninstall _ :: qs' => installed qs'
  end.
Fixpoint live (n : nat) (qs : list Request) (alive : gmap Z FilterType) : gmap Z FilterType :=
  match qs with
  | [] => alive
  | NewFilter f :: qs' => live (S n) qs' (<[Z.of_nat (S n) := f]> alive)
  | Uninstall id :: qs' => live n qs' (delete id alive)
  end.

Lemma handle_all_live qs n alive :
  (Z.of_nat (n + length (installed qs)) < U64)%Z →
  let '(s', rs) := handle_all qs (mkFilters (Z.of_nat n) alive) in
  s' = mkFilters (Z.of_nat (n + length (installed qs))) (live n qs alive) ∧
  omap (λ r, match r with Installed id => Some id | Removed _ => None end) rs =
    Z.of_nat <$> seq (S n) (length (installed qs)).
Proof.
  revert n alive. induction qs as [|[f|id] qs IH]; intros n alive Hn; cbn [handle_all installed length] in *.
  - cbn. by rewrite Nat.add_0_r.
  - cbn [handle filters_insert last_key filters].
    assert (inc (Z.of_nat n) = Z.of_nat (S n)) as -> by (unfold inc; rewrite wrap64_small; lia).
    specialize (IH (S n) (<[Z.of_nat (S n):=f]> alive) ltac:(lia)).
    destruct (handle_all qs _) as [s' rs]. destruct IH as [-> Hrs]. split; [cbn; f_equal; lia|]. cbn. by rewrite Hrs.
  - cbn [handle filters_remove last_key filters]. specialize (IH n (delete id alive) Hn).
    destruct (handle_all qs _) as [s' rs]. destruct IH as [-> Hrs]. split; [done|]. cbn. by rewrite Hrs.
Qed.

(** Below 2^64 filters, the identifiers of new filters are 1, 2, 3, and so on,
    and an identifier names the filter installed with it until it is
    uninstalled. *)
Theorem filters_correct qs :
  (Z.of_nat (length (installed qs)) < U64)%Z →
  let '(s, rs) := handle_all qs filters_default in
  omap (λ r, match r with Installed id => Some id | Removed _ => None end) rs =
    Z.of_nat <$> seq 1 (length (installed qs)) ∧
  ∀ id, filters_get id s = live 0 qs ∅ !! id.
Proof.
  intros Hn. pose proof (handle_all_live qs 0 ∅ Hn) as Hl. unfold filters_default.
  destruct (handle_all qs _) as [s rs]. by destruct Hl as [-> Hrs].
Qed.
End filter.
End EthFilter.

(** ** Parameters *)

(** [chain_evm] and [ethereum_types]; [Hash n] is a hash of [n] bytes. *)
Class EthLib := {
  Hash : nat → Type;
  Hash_eq_dec :: ∀ n, EqDecision (Hash n);
  hash_zero : ∀ n, Hash n;
  from_slice : ∀ n, list Z → option (Hash n);
  from_slice_length n bs : is_Some (from_slice n bs) ↔ length bs = n;
  AccessList : Type;
  Secret : Type;
  (** [secret.address()] *)
  secret_address : Secret → Hash 20;
  SignatureError : Type;
  (** [eip_191_signature(..)?.serialize_compact()]: recovery identifier and signature *)
  eip_191_signature : list Z → Secret → result SignatureError (Z * list Z);
  signature_length m k r sig : eip_191_signature m k = Ok (r, sig) → length sig = 64;
}.

Section evm.
Context `{EthLib}.
(** [chain_impl_mockchain::evm] *)
Inductive EvmActionType :=
| Call (address : Hash 20) (data : list Z)
| Create (init_code : list Z)
| Create2 (init_code : list Z) (salt : Hash 32).
Record EvmTransaction := mkEvm {
  caller : Hash 20;
  evm_value : Z;
  evm_nonce : Z;
  gas_limit : Z;
  evm_access_list : AccessList;
  action_type : EvmActionType;
}.
Record EvmAccount := mkAccount {
  account_value : Z;
  account_nonce : Z;
  account_code : list Z;
  account_storage : Hash 32 → option (Hash 32);
}.
End evm.

(** What the chain library knows of the EVM *)
Class EvmOps `{EthLib} `{LedgerTypes} := {
  (** the transaction of [Fragment::Evm] *)
  evm_transaction : Payload → EvmTransaction;
  evm_payload : EvmTransaction → Payload;
  no_access : AccessList;
  get_evm_block_gas_limit : Ledger → Z;
  get_evm_gas_price : Ledger → Z;
  AccountError : Type;
  (** [accounts().get_state(&get_jormungandr_mapped_address(..))] *)
  evm_account : Ledger → Hash 20 → result AccountError EvmAccount;
  estimate_evm_transaction : Ledger → EvmTransaction → result LedgerErr Z;
  call_evm_transaction : Ledger → EvmTransaction → result LedgerErr (list Z);
  (** the bytes of hashes and keys *)
  header_hash_bytes : HeaderHash → list Z;
  header_hash_bytes_length h : length (header_hash_bytes h) = 32;
  content_hash_bytes : Header → list Z;
  content_hash_bytes_length h : length (content_hash_bytes h) = 32;
  fragment_hash_bytes : Fragment → list Z;
  fragment_hash_bytes_length f : length (fragment_hash_bytes f) = 32;
  (** [get_bft_leader_id]: a public key *)
  bft_leader_id : Header → option (list Z);
  bft_leader_id_length h id : bft_leader_id h = Some id → length id = 32;
  block_serialized_size : Block → Z;
  header_id_of : Hash 32 → HeaderHash;
}.

Module Jrpc.
Import Reference.
Section jrpc.
Context `{BlockStore} `{!LedgerTypes} `{!MultiverseOps} `{!LruCache HeaderHash Ref} `{!EthLib} `{!EvmOps}.

(** ** Transactions (eth_types/transaction.rs) *)
Record Transaction := mkTransaction {
  nonce : Z;
  from : Hash 20;
  to : option (Hash 20);
  value : Z;
  gas : Z;
  input : list Z;
  gas_price : Z;
  chain_id : option Z;
  tx_block_hash : option (Hash 32);
  tx_block_number : option Z;
  transaction_index : option Z;
  sig_v : Z;
  sig_r : Z;
  sig_s : Z;
  transaction_type : TransactionType (AccessList:=AccessList);
}.
Definition build_transaction (tx : EvmTransaction) (block_hash : option (Hash 32)) (block_number : option Z)
    (index : option Z) (price : Z) : Transaction :=
  match action_type tx with
  | Call address data =>
      mkTransaction (evm_nonce tx) (caller tx) (Some address) (evm_value tx) (gas_limit tx) data price (Some 1%Z)
        block_hash block_number index 1 1 1 (EIP2930 (evm_access_list tx))
  | Create init_code =>
      mkTransaction (evm_nonce tx) (caller tx) None (evm_value tx) (gas_limit tx) init_code price (Some 1%Z)
        block_hash block_number index 1 1 1 (EIP2930 (evm_access_list tx))
  | Create2 init_code _ =>
      mkTransaction (evm_nonce tx) (caller tx) None (evm_value tx) (gas_limit tx) init_code price (Some 1%Z)
        block_hash block_number index 1 1 1 (EIP2930 (evm_access_list tx))
  end.
(** [From<Transaction> for EvmTransaction]; the fees of the priority type are
    dropped. *)
Definition into_evm (tx : Transaction) : EvmTransaction :=
  let access_list :=
    match transaction_type tx with
    | Legacy => no_access
    | EIP2930 l => l
    | EIP1559 l _ _ => l
    end in
  match to tx with
  | Some address => mkEvm (from tx) (value tx) (nonce tx) (gas_price tx) access_list (Call address (input tx))
  | None => mkEvm (from tx) (value tx) (nonce tx) (gas_price tx) access_list (Create (input tx))
  end.

(** ** Blocks (eth_types/block.rs) *)
Record EthHeader := mkEthHeader {
  eth_hash : Hash 32;
  mix_hash : Hash 32;
  eth_nonce : Z;
  parent_hash : Hash 32;
  uncles_hash : Hash 32;
  miner : Hash 20;
  state_root : Hash 32;
  transactions_root : Hash 32;
  receipts_root : Hash 32;
  number : Z;
  gas_used : Z;
  header_gas_limit : Z;
  extra_data : list Z;
  logs_bloom : Hash 256;
  timestamp : Z;
  difficulty : option Z;
}.
Inductive BlockTransactions := Hashes (l : list (Hash 32)) | Full (l : list Transaction).
Record EthBlock := mkEthBlock {
  eth_header : EthHeader;
  total_difficulty : Z;
  uncles : list (Hash 32);
  transactions : BlockTransactions;
  size : Z;
  base_fee_per_gas : option Z;
}.
Definition build_header (h : Header) (limit : Z) : option EthHeader :=
  hash ← from_slice 32 (header_hash_bytes (header_hash h));
  parent ← from_slice 32 (header_hash_bytes (block_parent_hash h));
  miner ← match bft_leader_id h with Some id => from_slice 20 id | None => Some (hash_zero 20) end;
  root ← from_slice 32 (content_hash_bytes h);
  Some (mkEthHeader hash (hash_zero 32) 0 parent (hash_zero 32) miner (hash_zero 32) root (hash_zero 32)
          (chain_length h) 0 limit [] (hash_zero 256) 0 (Some 0%Z)).

Definition evm_of (f : Fragment) : option EvmTransaction :=
  match f with Evm p => Some (evm_transaction p) | _ => None end.
Fixpoint full_transactions (h : EthHeader) (price : Z) (i : nat) (fragments : list Fragment) : list Transaction :=
  match fragments with
  | [] => []
  | f :: fragments' =>
      match evm_of f with
      | Some tx =>
          build_transaction tx (Some (eth_hash h)) (Some (number h)) (Some (Z.of_nat i)) price
            :: full_transactions h price (S i) fragments'
      | None => full_transactions h price (S i) fragments'
      end
  end.
Fixpoint transaction_hashes (fragments : list Fragment) : option (list (Hash 32)) :=
  match fragments with
  | [] => Some []
  | f :: fragments' =>
      match evm_of f with
      | Some _ => h ← from_slice 32 (fragment_hash_bytes f); l ← transaction_hashes fragments'; Some (h :: l)
      | None => transaction_hashes fragments'
      end
  end.
Definition build_block (b : Block) (full : bool) (limit price : Z) : option EthBlock :=
  header ← build_header (block_header b) limit;
  transactions ← (if full then Some (Full (full_transactions header price 0 (block_fragments b)))
                  else Hashes <$> transaction_hashes (block_fragments b));
  Some (mkEthBlock header 0 [] transactions (block_serialized_size b) (Some 1%Z)).
Definition calc_transactions_count (b : Block) : Z :=
  Z.of_nat (length (filter (λ f, is_Some (evm_of f)) (block_fragments b))).
(** [index] is a [usize]. *)
Definition get_transaction_by_index (b : Block) (index : Z) : option EvmTransaction :=
  f ← block_fragments b !! Z.to_nat index; evm_of f.

(** ** Handlers *)
Inductive Error :=
| ContextError (e : Rest.ContextError)
| StorageError (e : Storage.Error)
| NonArchiveNode
| AccountLedgerError (e : AccountError)
| EstimationError (e : LedgerErr)
| TxMsgSendError
| IntercomError
| FragmentError
| TransactionDecodedError
| MiningIsNotAllowed
| EthereumSignatureError
| TransactionSignatureError (e : SignatureError)
| AccountSignatureError.

(** The context, with the hash of block 0 beside the storage; [evm_keys] is
    part of the full context. *)
Record Context := mkContext {
  full : option (list Secret);
  ctx_blockchain : option (store * HeaderHash);
  ctx_tip : option Ref;
}.
Definition ok_or {A} (e : Rest.ContextError) (o : option A) : result Error A :=
  match o with Some a => Ok a | None => Err (ContextError e) end.
Definition blockchain (c : Context) : result Error (store * HeaderHash) := ok_or Rest.NoBlockchain (ctx_blockchain c).
Definition blockchain_tip (c : Context) : result Error Ref := ok_or Rest.NoBlockchainTip (ctx_tip c).
Definition try_full (c : Context) : result Error (list Secret) := ok_or Rest.NoFullContext (full c).

(** A computation that may panic *)
Definition and_then {A B} (m : option (result Error A)) (f : A → option (result Error B)) : option (result Error B) :=
  match m with None => None | Some (Err e) => Some (Err e) | Some (Ok a) => f a end.

Definition get_block_by_number_from_context (n : BlockNumber) (bc : store * HeaderHash) (tip : Ref)
    : option (result Error (option Block)) :=
  match n with
  | Latest => Some (map_err StorageError (Storage.get (ref_hash tip) bc.1))
  | Earliest => Some (map_err StorageError (Storage.get bc.2 bc.1))
  | Pending => Some (Ok None)
  | Num n =>
      if (n <=? ref_length tip)%Z
      then map_err StorageError <$> Storage.get_nth_ancestor (ref_hash tip) (ref_length tip - n) bc.1
      else Some (Ok None)
  end.
(** [block.map(|block| Block::build(..))] *)
Definition map_block {A} (f : Block → option A) (b : option Block) : option (result Error (option A)) :=
  match b with None => Some (Ok None) | Some b => a ← f b; Some (Ok (Some a)) end.
Definition get_block_by_hash (h : Hash 32) (full : bool) (c : Context) : option (result Error (option EthBlock)) :=
  and_then (Some (blockchain_tip c)) (λ tip,
  and_then (Some (blockchain c)) (λ bc,
  and_then (Some (map_err StorageError (Storage.get (header_id_of h) bc.1))) (λ b,
  map_block (λ b, build_block b full (get_evm_block_gas_limit (ledger_of tip)) (get_evm_gas_price (ledger_of tip))) b))).
Definition get_block_by_number (n : BlockNumber) (full : bool) (c : Context) : option (result Error (option EthBlock)) :=
  and_then (Some (blockchain c)) (λ bc,
  and_then (Some (blockchain_tip c)) (λ tip,
  and_then (get_block_by_number_from_context n bc tip) (λ b,
  map_block (λ b, build_block b full (get_evm_block_gas_limit (ledger_of tip)) (get_evm_gas_price (ledger_of tip))) b))).
Definition get_transaction_count_by_hash (h : Hash 32) (c : Context) : option (result Error (option Z)) :=
  and_then (Some (blockchain c)) (λ bc,
  and_then (Some (map_err StorageError (Storage.get (header_id_of h) bc.1))) (λ b,
  map_block (λ b, Some (calc_transactions_count b)) b)).
Definition get_transaction_count_by_number (n : BlockNumber) (c : Context) : option (result Error (option Z)) :=
  and_then (Some (blockchain c)) (λ bc,
  and_then (Some (blockchain_tip c)) (λ tip,
  and_then (get_block_by_number_from_context n bc tip) (λ b,
  map_block (λ b, Some (calc_transactions_count b)) b))).
Definition get_block_number (c : Context) : result Error Z := let? tip := blockchain_tip c in Ok (ref_length tip).
Definition get_uncle_count : result Error (option Z) := Ok (Some 0%Z).

Definition get_transaction_from_block_by_index (b : option Block) (index price : Z) : option (option Transaction) :=
  match b with
  | None => Some None
  | Some b =>
      match get_transaction_by_index b index with
      | None => Some None
      | Some tx =>
          h ← from_slice 32 (header_hash_bytes (header_hash (block_header b)));
          Some (Some (build_transaction tx (Some h) (Some (chain_length (block_header b))) (Some index) price))
      end
  end.
Definition get_transaction_by_block_hash_and_index (h : Hash 32) (index : Z) (c : Context)
    : option (result Error (option Transaction)) :=
  and_then (Some (blockchain_tip c)) (λ tip,
  and_then (Some (blockchain c)) (λ bc,
  and_then (Some (map_err StorageError (Storage.get (header_id_of h) bc.1))) (λ b,
  t ← get_transaction_from_block_by_index b index (get_evm_gas_price (ledger_of tip)); Some (Ok t)))).
(** An error of the storage is unwrapped. *)
Definition get_transaction_by_block_number_and_index (n : BlockNumber) (index : Z) (c : Context)
    : option (result Error (option Transaction)) :=
  and_then (Some (blockchain_tip c)) (λ tip,
  and_then (Some (blockchain c)) (λ bc,
  match get_block_by_number_from_context n bc tip with
  | Some (Ok b) => t ← get_transaction_from_block_by_index b index (get_evm_gas_price (ledger_of tip)); Some (Ok t)
  | _ => None
  end)).
Definition get_transaction_by_hash : result Error (option Transaction) := Err NonArchiveNode.

(** The transaction task: whether the message can be sent, whether a reply
    comes, and whether it is an error *)
Variable transaction_task : FragmentOrigin → list Fragment → bool → result Error bool.
Definition submit (fragment : Fragment) (c : Context) : result Error (Hash 32) :=
  let? _ := try_full c in
  let? is_error := transaction_task JRpc [fragment] true in
  if is_error then Err FragmentError else Ok (hash_zero 32).
Definition send_transaction (tx : Transaction) (c : Context) : result Error (Hash 32) :=
  submit (Evm (evm_payload (into_evm tx))) c.
(** [EthereumSignedTransaction::from_bytes] and its conversion *)
Variable decode_signed : list Z → option EvmTransaction.
Definition send_raw_transaction (raw : list Z) (c : Context) : result Error (Hash 32) :=
  match decode_signed raw with
  | None => Err TransactionDecodedError
  | Some tx => submit (Evm (evm_payload tx)) c
  end.

(** [iter().find(..)] *)
Definition find_secret (address : Hash 20) (c : Context) : result Error Secret :=
  let? keys := try_full c in
  match list_find (λ k, secret_address k = address) keys with
  | Some (_, k) => Ok k
  | None => Err AccountSignatureError
  end.
(** The conversion of the transaction is [unimplemented!]. *)
Definition sign_transaction (tx : Transaction) (c : Context) : option (result Error (list Z)) :=
  match find_secret (from tx) c with Err e => Some (Err e) | Ok _ => None end.
Definition sign (address : Hash 20) (message : list Z) (c : Context) : option (result Error (Hash 64)) :=
  and_then (Some (find_secret address c)) (λ secret,
  and_then (Some (map_err TransactionSignatureError (eip_191_signature message secret))) (λ '(recovery_id, sig_bytes),
  signature ← from_slice 64 (sig_bytes ++ [(recovery_id mod 2)%Z]);
  Some (Ok signature))).
Definition estimate_gas (tx : Transaction) (c : Context) : result Error Z :=
  let? tip := blockchain_tip c in map_err EstimationError (estimate_evm_transaction (ledger_of tip) (into_evm tx)).
Definition call (tx : Transaction) (c : Context) : result Error (list Z) :=
  let? tip := blockchain_tip c in map_err EstimationError (call_evm_transaction (ledger_of tip) (into_evm tx)).

(** eth_account/logic.rs *)
Definition accounts (c : Context) : result Error (list (Hash 20)) :=
  let? keys := try_full c in Ok (secret_address <$> keys).
Definition at_latest {A} (n : BlockNumber) (address : Hash 20) (f : EvmAccount → A) (c : Context) : result Error A :=
  match n with
  | Latest =>
      let? tip := blockchain_tip c in
      let? a := map_err AccountLedgerError (evm_account (ledger_of tip) address) in Ok (f a)
  | _ => Err NonArchiveNode
  end.
Definition get_transaction_count (address : Hash 20) (n : BlockNumber) := at_latest n address account_nonce.
Definition get_balance (address : Hash 20) (n : BlockNumber) := at_latest n address account_value.
Definition get_code (address : Hash 20) (n : BlockNumber) := at_latest n address account_code.
Definition get_storage_at (address : Hash 20) (key : Hash 32) (n : BlockNumber) :=
  at_latest n address (λ a, default (hash_zero 32) (account_storage a key)).

(** eth_chain_info/logic.rs *)
Definition syncing (c : Context) : result Error (Z * Z * Z) :=
  let? tip := blockchain_tip c in Ok (0%Z, ref_length tip, ref_length tip).
Definition eth_gas_price (c : Context) : result Error Z :=
  let? tip := blockchain_tip c in Ok (get_evm_gas_price (ledger_of tip)).

(** ** Conversions *)
Definition no_salt (a : EvmActionType) : EvmActionType := match a with Create2 code _ => Create code | a => a end.
(** A transaction that is shown and sent again keeps everything but its gas
    limit, for which the gas price is taken, and the salt of its address. *)
Lemma into_evm_build tx h n i price :
  into_evm (build_transaction tx h n i price) =
  mkEvm (caller tx) (evm_value tx) (evm_nonce tx) price (evm_access_list tx) (no_salt (action_type tx)).
Proof. unfold build_transaction, into_evm. by destruct (action_type tx). Qed.

Lemma from_slice_some n bs : length bs = n → ∃ h, from_slice n bs = Some h.
Proof. intros Hl. by apply from_slice_length. Qed.
Lemma from_slice_none n bs : length bs ≠ n → from_slice n bs = None.
Proof. intros Hl. destruct (from_slice n bs) eqn:Hs; [|done]. destruct Hl. apply from_slice_length. eauto. Qed.

(** A header can be shown exactly if it has no leader of the BFT consensus,
    whose identifiers are too long for an address. *)
Lemma build_header_spec h limit :
  match build_header h limit with
  | Some eh => bft_leader_id h = None ∧ number eh = chain_length h ∧ header_gas_limit eh = limit ∧
      from_slice 32 (header_hash_bytes (header_hash h)) = Some (eth_hash eh) ∧
      from_slice 32 (header_hash_bytes (block_parent_hash h)) = Some (parent_hash eh)
  | None => is_Some (bft_leader_id h)
  end.
Proof.
  unfold build_header.
  destruct (from_slice_some 32 (header_hash_bytes (header_hash h)) (header_hash_bytes_length _)) as [hh ->].
  destruct (from_slice_some 32 (header_hash_bytes (block_parent_hash h)) (header_hash_bytes_length _)) as [ph ->].
  destruct (from_slice_some 32 (content_hash_bytes h) (content_hash_bytes_length _)) as [ch ->]. cbn.
  destruct (bft_leader_id h) as [id|] eqn:Hid; cbn; [|done].
  rewrite from_slice_none by (by rewrite (bft_leader_id_length h id Hid)). cbn. eauto.
Qed.

(** *** The transactions of a block *)
Lemma full_transactions_lookup h price i fs t :
  t ∈ full_transactions h price i fs ↔
  ∃ j f tx, fs !! j = Some f ∧ evm_of f = Some tx ∧
    t = build_transaction tx (Some (eth_hash h)) (Some (number h)) (Some (Z.of_nat (i + j))) price.
Proof.
  revert i. induction fs as [|f fs IH]; intros i; cbn [full_transactions].
  { split; [by intros ?%elem_of_nil|]. by intros (j & f & tx & Hj & _). }
  assert (t ∈ full_transactions h price (S i) fs ↔
    ∃ j g tx, (f :: fs) !! S j = Some g ∧ evm_of g = Some tx ∧
      t = build_transaction tx (Some (eth_hash h)) (Some (number h)) (Some (Z.of_nat (i + S j))) price) as Hrest.
  { rewrite IH. by setoid_rewrite Nat.add_succ_comm. }
  destruct (evm_of f) as [tx|] eqn:Hf; [rewrite elem_of_cons|]; rewrite Hrest; split.
  - intros [->|(j & g & tx' & Hj)]; [exists 0, f, tx; by rewrite Nat.add_0_r|by exists (S j), g, tx'].
  - intros ([|j] & g & tx' & Hj & Hg & ->); [|right; by exists j, g, tx']. left. cbn in Hj. simplify_eq. by rewrite Nat.add_0_r.
  - intros (j & g & tx' & Hj). by exists (S j), g, tx'.
  - intros ([|j] & g & tx' & Hj & Hg & ->); [cbn in Hj; simplify_eq|by exists j, g, tx'].
Qed.
Lemma full_transactions_length h price i fs :
  length (full_transactions h price i fs) = length (filter (λ f, is_Some (evm_of f)) fs).
Proof.
  revert i. induction fs as [|f fs IH]; intros i; cbn [full_transactions]; [done|].
  rewrite filter_cons. destruct (evm_of f) eqn:Hf; case_decide as Hd; cbn; try (by rewrite IH); by destruct Hd.
Qed.
Lemma transaction_hashes_spec fs :
  ∃ l, transaction_hashes fs = Some l ∧
    Some <$> l = (λ f, from_slice 32 (fragment_hash_bytes f)) <$> filter (λ f, is_Some (evm_of f)) fs.
Proof.
  induction fs as [|f fs (l & Hl & Heq)]; cbn [transaction_hashes]; [by exists []|].
  rewrite filter_cons. destruct (evm_of f) as [tx|] eqn:Hf.
  - destruct (from_slice_some 32 (fragment_hash_bytes f) (fragment_hash_bytes_length f)) as [h Hh].
    rewrite decide_True by eauto. rewrite Hh, Hl. cbn. exists (h :: l). cbn. by rewrite Hh, <-Heq.
  - rewrite decide_False by (by intros [? [=]]). eauto.
Qed.
(** A block can be shown exactly if its header can; its transactions are those
    of the EVM, each with its place among all fragments, at which it is found
    again. *)
Lemma build_block_spec b full limit price :
  match build_block b full limit price with
  | Some e =>
      bft_leader_id (block_header b) = None ∧ number (eth_header e) = chain_length (block_header b) ∧
      match transactions e with
      | Full l =>
          full = true ∧ Z.of_nat (length l) = calc_transactions_count b ∧
          ∀ t, t ∈ l ↔ ∃ i, (0 ≤ i)%Z ∧ get_transaction_from_block_by_index (Some b) i price = Some (Some t)
      | Hashes l => full = false ∧ Z.of_nat (length l) = calc_transactions_count b
      end
  | None => is_Some (bft_leader_id (block_header b))
  end.
Proof.
  unfold build_block. pose proof (build_header_spec (block_header b) limit) as Hh.
  destruct (build_header (block_header b) limit) as [eh|]; cbn [mbind option_bind]; [|done].
  destruct Hh as (Hid & Hnum & _ & Hhash & _). unfold calc_transactions_count. destruct full.
  - cbn. split_and!; [done..|by rewrite full_transactions_length|]. intros t. rewrite full_transactions_lookup. split.
    + intros (j & f & tx & Hj & Hf & ->). exists (Z.of_nat j). split; [lia|].
      unfold get_transaction_by_index. rewrite Nat2Z.id, Hj. cbn. rewrite Hf, Hhash. cbn. by rewrite Hnum.
    + intros (i & Hi & Ht). unfold get_transaction_from_block_by_index, get_transaction_by_index in Ht.
      destruct (block_fragments b !! Z.to_nat i) as [f|] eqn:Hf; cbn in Ht; [|done].
      destruct (evm_of f) as [tx|] eqn:Htx; cbn in Ht; [|done]. rewrite Hhash in Ht. cbn in Ht. simplify_eq.
      exists (Z.to_nat i), f, tx. rewrite Hnum, Nat.add_0_l, Z2Nat.id by done. done.
  - destruct (transaction_hashes_spec (block_fragments b)) as (l & -> & Heq). cbn. split_and!; [done..|].
    apply (f_equal length) in Heq. rewrite !length_fmap in Heq. by rewrite Heq.
Qed.

(** *** Blocks by number *)
Section numbers.
Variables (B0 : Block) (report_all : bool) (trusted : Header → Prop).
(** The store holds the blocks of a chain of references. *)
Definition stores_chain (st : store) (l : list Ref) : Prop :=
  match l with
  | [] => False
  | tip :: _ =>
      ∀ d x, l !! d = Some x → ∃ info b,
        bs_get_nth_ancestor (hash_bytes (ref_hash tip)) (Z.of_nat d) st = Ok info ∧
        bs_get_block (info_id info) st = Ok (block_serialize b) ∧ block_header b = ref_header x
  end.

Lemma chain_depth_length `{!ChainTypesLaws} tip rest d x :
  ChainInv.valid_chain B0 report_all trusted (tip :: rest) → chain_length (block_header B0) = 0%Z →
  (Z.of_nat (length rest) < U32)%Z → (tip :: rest) !! d = Some x → ref_length x = (Z.of_nat (length rest) - Z.of_nat d)%Z.
Proof.
  intros Hv Hb0 Hlen Hd. pose proof (lookup_lt_Some _ _ _ Hd) as Hlt. cbn [length] in Hlt.
  assert (ChainInv.valid_chain B0 report_all trusted (drop d (tip :: rest))) as Hsuf.
  { rewrite (drop_S _ _ _ Hd). apply (Checkpoints.Checkpoints.valid_chain_suffix _ _ _ (take d (tip :: rest))).
    rewrite <-(drop_S _ _ _ Hd). by rewrite take_drop. }
  rewrite (drop_S _ _ _ Hd) in Hsuf. pose proof (length_drop (tip :: rest) (S d)) as Hl. cbn [length] in Hl.
  rewrite (ChainInv.chain_lengths _ _ _ _ _ Hsuf); rewrite ?Hl, Hb0; lia.
Qed.

(** C40: with a valid chain down from the tip that the store holds, the block of a
    number is the block of that height in the chain, and there is none above
    the tip; an answer shows the number and the EVM transactions of that
    block, exactly those that can be asked for by block and index, and the
    count agrees; showing a block panics exactly if it has a leader of the BFT
    consensus. *)
Theorem block_by_number_correct `{!ChainTypesLaws} c st b0 tip rest n full :
  ctx_blockchain c = Some (st, b0) → ctx_tip c = Some tip →
  ChainInv.valid_chain B0 report_all trusted (tip :: rest) → chain_length (block_header B0) = 0%Z →
  (Z.of_nat (length rest) < U32)%Z → stores_chain st (tip :: rest) → (0 ≤ n < U32)%Z →
  if (n <=? ref_length tip)%Z
  then ∃ x b,
    x ∈ tip :: rest ∧ ref_length x = n ∧ block_header b = ref_header x ∧
    get_transaction_count_by_number (Num n) c = Some (Ok (Some (calc_transactions_count b))) ∧
    (∀ i, get_transaction_by_block_number_and_index (Num n) i c =
       Ok <$> get_transaction_from_block_by_index (Some b) i (get_evm_gas_price (ledger_of tip))) ∧
    match get_block_by_number (Num n) full c with
    | Some (Ok (Some e)) =>
        number (eth_header e) = n ∧ bft_leader_id (ref_header x) = None ∧
        match transactions e with
        | Full l =>
            full = true ∧ Z.of_nat (length l) = calc_transactions_count b ∧
            ∀ t, t ∈ l ↔ ∃ i, (0 ≤ i)%Z ∧ get_transaction_by_block_number_and_index (Num n) i c = Some (Ok (Some t))
        | Hashes l => full = false ∧ Z.of_nat (length l) = calc_transactions_count b
        end
    | None => is_Some (bft_leader_id (ref_header x))
    | _ => False
    end
  else
    get_block_by_number (Num n) full c = Some (Ok None) ∧ get_transaction_count_by_number (Num n) c = Some (Ok None) ∧
    ∀ i, get_transaction_by_block_number_and_index (Num n) i c = Some (Ok None).
Proof.
  intros Hbc Htip Hv Hb0 Hlen Hst Hn.
  unfold get_transaction_count_by_number, get_transaction_by_block_number_and_index, get_block_by_number.
  unfold blockchain, blockchain_tip. rewrite Hbc, Htip. cbn [ok_or and_then].
  unfold get_block_by_number_from_context. destruct (Z.leb_spec n (ref_length tip)) as [Hle|Hgt]; [|done].
  pose proof (chain_depth_length tip rest 0 tip Hv Hb0 Hlen eq_refl) as Htl. rewrite Z.sub_0_r in Htl.
  assert (∃ x, (tip :: rest) !! Z.to_nat (ref_length tip - n) = Some x) as [x Hx].
  { apply lookup_lt_is_Some. cbn [length]. lia. }
  pose proof (chain_depth_length tip rest _ x Hv Hb0 Hlen Hx) as Hxl.
  destruct (Hst _ _ Hx) as (info & b & Hanc & Hget & Hb). rewrite Z2Nat.id in Hanc by lia.
  exists x, b. unfold Storage.get_nth_ancestor. cbn [fst]. rewrite Hanc, Hget. unfold Storage.deserialize_block.
  rewrite block_roundtrip. cbn [map_err fmap option_fmap option_map and_then map_block mbind option_bind].
  assert (ref_length x = n) as Hxn by lia.
  split_and!; [by eapply list_elem_of_lookup_2|done|done|done| |].
  - intros i. by destruct (get_transaction_from_block_by_index _ _ _).
  - pose proof (build_block_spec b full (get_evm_block_gas_limit (ledger_of tip)) (get_evm_gas_price (ledger_of tip))) as Hs.
    destruct (build_block _ _ _ _) as [e|]; cbn [mbind option_bind]; [|by rewrite <-Hb].
    destruct Hs as (Hid & Hnum & Htx). rewrite <-Hb. split_and!; [by rewrite Hnum, Hb|done|].
    destruct (transactions e) as [l|l]; [done|]. destruct Htx as (? & ? & Hl). split_and!; [done..|].
    intros t. rewrite Hl. split; intros (i & Hi & Ht); exists i; (split; [done|]).
    + by rewrite Ht.
    + destruct (get_transaction_from_block_by_index _ _ _) as [o|]; cbn in Ht; by simplify_eq.
Qed.
End numbers.

(** Signing a message never answers: with a known key and a signature it
    panics, since the 64 bytes of the signature and the recovery identifier are
    put into a hash of 64 bytes. *)
Theorem sign_never_answers address message c h : sign address message c ≠ Some (Ok h).
Proof.
  unfold sign. cbn [and_then]. destruct (find_secret address c) as [k|]; [|done]. cbn [and_then].
  destruct (eip_191_signature message k) as [[rid sig]|] eqn:Hs; cbn; [|done].
  rewrite from_slice_none; [done|]. rewrite length_app, (signature_length _ _ _ _ Hs). done.
Qed.
End jrpc.
End Jrpc.

(** ** A sample *)
Module SampleJrpc.
Import ListLru SampleFragments SampleStore SampleChain ChainWitness Jrpc.

(** Hashes are the bytes they are made of. *)
Lemma sample_slice n (bs : list Z) : is_Some (if decide (length bs = n) then Some bs else None) ↔ length bs = n.
Proof. case_decide; [by split; eauto|split; [by intros [? [=]]|done]]. Qed.
Lemma sample_signature (m : list Z) (k r : Z) (sig : list Z) : @Ok Z _ (k, replicate 64 1%Z) = Ok (r, sig) → length sig = 64.
Proof. by intros [= _ <-]. Qed.
#[export] Instance eth_lib : EthLib := {|
  Hash _ := list Z;
  Hash_eq_dec _ := _;
  hash_zero n := replicate n 0%Z;
  from_slice n bs := if decide (length bs = n) then Some bs else None;
  from_slice_length := sample_slice;
  AccessList := list Z;
  Secret := Z;
  secret_address k := [k];
  SignatureError := Z;
  eip_191_signature _ k := Ok (k, replicate 64 1%Z);
  signature_length := sample_signature;
|}.
(** Block 12 has a leader of the BFT consensus. *)
Definition sample_leader (h : Header) : option (list Z) :=
  if decide (header_hash h = 12%Z) then Some (replicate 32 7%Z) else None.
Lemma sample_leader_length h id : sample_leader h = Some id → length id = 32.
Proof. unfold sample_leader. case_decide; [|done]. by intros [= <-]. Qed.
#[export] Instance evm_ops : EvmOps := {|
  evm_transaction p := mkEvm [1%Z] p 0 21000 [] (Create [p]);
  evm_payload tx := evm_value tx;
  no_access := [] : AccessList;
  get_evm_block_gas_limit _ := 1000%Z;
  get_evm_gas_price _ := 5%Z;
  AccountError := unit;
  evm_account _ _ := Err tt;
  estimate_evm_transaction _ tx := Ok (gas_limit tx);
  call_evm_transaction _ _ := Ok [];
  header_hash_bytes h := replicate 32 h;
  header_hash_bytes_length h := length_replicate 32 h;
  content_hash_bytes _ := replicate 32 0%Z;
  content_hash_bytes_length _ := length_replicate 32 0%Z;
  fragment_hash_bytes _ := replicate 32 0%Z;
  fragment_hash_bytes_length _ := length_replicate 32 0%Z;
  bft_leader_id := sample_leader;
  bft_leader_id_length := sample_leader_length;
  block_serialized_size _ := 100%Z;
  header_id_of h := hd 0%Z h;
|}.

(** Block 11 has a transaction of the EVM in its second place. *)
Definition block11 : Block := chain_block 11 10 1 0 5 [sample 1 10 100; Evm 42%Z].
Definition st : mem := store_of [genesis; block11; b12].
Definition ctx : Jrpc.Context := Jrpc.mkContext (Some [3%Z]) (Some (st, 10%Z)) (Some r12).
Lemma sample_stores : stores_chain st [r12; r11; r10].
Proof.
  intros [|[|[|d]]] x Hx; cbn in Hx; simplify_eq.
  - by eexists _, b12.
  - by eexists _, block11.
  - by eexists _, genesis.
Qed.

Definition shown {A} (m : option (result Error (option A))) : bool :=
  match m with Some (Ok (Some _)) => true | _ => false end.
(** The block of number 1 has one transaction, whose index is 1; asking for
    the block of number 2 panics. *)
Lemma block_by_number_correct_witness :
  get_transaction_count_by_number (Num 1) ctx = Some (Ok (Some 1%Z)) ∧
  (∃ t, get_transaction_by_block_number_and_index (Num 1) 1 ctx = Some (Ok (Some t)) ∧ value t = 42%Z) ∧
  (∃ e l, get_block_by_number (Num 1) true ctx = Some (Ok (Some e)) ∧ number (eth_header e) = 1%Z ∧
     transactions e = Full l ∧ length l = 1) ∧
  get_block_by_number (Num 2) true ctx = None ∧
  get_block_by_number (Num 3) true ctx = Some (Ok None).
Proof.
  pose proof (λ n, block_by_number_correct genesis false no_header ctx st 10%Z r12 [r11; r10] n true
    eq_refl eq_refl chain12 eq_refl eq_refl sample_stores) as Hq.
  pose proof (Hq 3%Z ltac:(by vm_compute)) as (H3 & _ & _).
  pose proof (Hq 1%Z ltac:(by vm_compute)) as (x & b & _ & _ & _ & Hc & _ & Hb).
  assert (get_transaction_count_by_number (Num 1) ctx = Some (Ok (Some 1%Z))) as Hcount by reflexivity.
  assert (shown (get_block_by_number (Num 1) true ctx) = true) as Hs by reflexivity.
  split_and!; [exact Hcount|eexists; split; reflexivity| |reflexivity|exact H3].
  rewrite Hcount in Hc. injection Hc as Hc. rewrite <-Hc in Hb. clear Hcount Hc Hq H3.
  destruct (get_block_by_number (Num 1) true ctx) as [[[e|]|]|]; try discriminate Hs.
  destruct Hb as (Hnum & _ & Ht). exists e. destruct (transactions e) as [l|l]; [by destruct Ht|].
  exists l. split_and!; [reflexivity|exact Hnum|reflexivity|]. destruct Ht as (_ & Hl & _). lia.
Defined.
End SampleJrpc.
